(** * SysLint: a shallow embedding of the lexer, the parser and the rule engine

    The development follows the Python sources module by module:
    [token_types.py], [lexer.py], [ast_nodes.py], [parser.py],
    [diagnostic.py], [rules/*.py], [checker.py] and [syslint.py].

    Conventions of the embedding.
    - A Python [str] is a [string]; a character is the code point of an
      [ascii], so the alphabet of the model is U+0000..U+00FF and the
      character classes below are Python's, restricted to that range.
    - A Python [int] is a [Z].
    - A [dict] is a [gmap], a [set] is a [gset], a [list] is a [list].
    - The lexer's cursor [(source, pos)] is the unread suffix
      [source[pos:]]; the parser's cursor [(_tokens, _pos)] is the unread
      suffix [_tokens[_pos:]].
    - Every [while] loop and every recursive call of the parser costs one
      unit of fuel; [None] means that the fuel ran out. *)

From Stdlib Require Import ZArith NArith Bool Ascii String List Lia.
From Stdlib Require Import DecimalString Permutation Sorted.
From stdpp Require Import base option strings gmap list.

Local Open Scope string_scope.
Local Open Scope Z_scope.
Local Open Scope list_scope.

(* ===================================================================== *)
(** * Python's [str] operations used by the sources *)
(* ===================================================================== *)

Module Py.

Definition code (c : ascii) : N := N_of_ascii c.

Definition in_range (lo hi : N) (c : ascii) : bool :=
  ((lo <=? code c) && (code c <=? hi))%N.

Definition chr_eq (a b : ascii) : bool := Ascii.eqb a b.

Definition LF : ascii := "010"%char.
Definition CR : ascii := "013"%char.
Definition TAB : ascii := "009"%char.
Definition DQUOTE : ascii := "034"%char.
Definition BACKSLASH : ascii := "092"%char.

(** [str.isalpha] on one character: the letters of U+0000..U+00FF. *)
Definition isalpha (c : ascii) : bool :=
  in_range 65 90 c || in_range 97 122 c
  || (code c =? 170)%N || (code c =? 181)%N || (code c =? 186)%N
  || in_range 192 214 c || in_range 216 246 c || in_range 248 255 c.

(** [str.isdigit]: the decimal digits and the superscripts 1, 2, 3. *)
Definition isdigit (c : ascii) : bool :=
  in_range 48 57 c || (code c =? 178)%N || (code c =? 179)%N
  || (code c =? 185)%N.

(** [str.isalnum]: alphabetic, digit or numeric (the vulgar fractions). *)
Definition isalnum (c : ascii) : bool :=
  isalpha c || isdigit c || in_range 188 190 c.

(** [str.isspace], also the class [\s] of [re] on [str] patterns. *)
Definition isspace (c : ascii) : bool :=
  in_range 9 13 c || in_range 28 32 c
  || (code c =? 133)%N || (code c =? 160)%N.

Definition shift_code (c : ascii) (f : N -> N) : ascii :=
  ascii_of_N (f (code c)).

(** [str.lower] on one character. *)
Definition lower_chr (c : ascii) : ascii :=
  if in_range 65 90 c || in_range 192 214 c || in_range 216 222 c
  then shift_code c (fun n => n + 32)%N else c.

Fixpoint lower (s : string) : string :=
  match s with
  | EmptyString => EmptyString
  | String c r => String (lower_chr c) (lower r)
  end.

(** Title-casing of the first character by [str.capitalize].  The sharp
    s becomes [Ss]; the images of U+00B5 and U+00FF lie above U+00FF and
    are not characters of the model: both are left as they are. *)
Definition title_chr (c : ascii) : string :=
  if in_range 97 122 c || in_range 224 246 c || in_range 248 254 c
  then String (shift_code c (fun n => n - 32)%N) EmptyString
  else if (code c =? 223)%N then "Ss"
  else String c EmptyString.

Definition capitalize (s : string) : string :=
  match s with
  | EmptyString => EmptyString
  | String c r => title_chr c +:+ lower r
  end.

Definition startswith (s p : string) : bool := String.prefix p s.

Fixpoint lstrip_by (p : ascii -> bool) (s : string) : string :=
  match s with
  | EmptyString => EmptyString
  | String c r => if p c then lstrip_by p r else s
  end.

Fixpoint rstrip_by (p : ascii -> bool) (s : string) : string :=
  match s with
  | EmptyString => EmptyString
  | String c r =>
      match rstrip_by p r with
      | EmptyString => if p c then EmptyString else String c EmptyString
      | r' => String c r'
      end
  end.

Definition strip_by (p : ascii -> bool) (s : string) : string :=
  rstrip_by p (lstrip_by p s).

(** [s.strip()], [s.strip(chars)] and [s.lstrip(chars)]. *)
Definition strip (s : string) : string := strip_by isspace s.
Definition strip_chars (chars : list ascii) (s : string) : string :=
  strip_by (fun c => existsb (chr_eq c) chars) s.
Definition lstrip_chars (chars : list ascii) (s : string) : string :=
  lstrip_by (fun c => existsb (chr_eq c) chars) s.

(** [s.endswith(p)]. *)
Definition endswith (s p : string) : bool :=
  let n := String.length s in
  let k := String.length p in
  (k <=? n)%nat && String.eqb (String.substring (n - k) k s) p.

(** [s[k:]] and [s[:-k]] for a constant [k >= 0]. *)
Definition drop_front (k : nat) (s : string) : string :=
  String.substring k (String.length s - k) s.
Definition drop_back (k : nat) (s : string) : string :=
  String.substring 0 (String.length s - k) s.

Definition snoc (s : string) (c : ascii) : string :=
  s +:+ String c EmptyString.

(** [s.split(sep)] for a non-empty separator: cut at every occurrence
    found scanning from the left; [skip] counts the characters of a
    separator that are still to be jumped over. *)
Fixpoint split_go (sep : string) (skip : nat) (s cur : string)
  : list string :=
  match s with
  | EmptyString => [cur]
  | String c r =>
      match skip with
      | S k => split_go sep k r cur
      | O =>
          if String.prefix sep s
          then cur :: split_go sep (String.length sep - 1) r EmptyString
          else split_go sep O r (snoc cur c)
      end
  end.

Definition split (sep s : string) : list string :=
  split_go sep O s EmptyString.

(** [sep.join(parts)]. *)
Definition join (sep : string) (parts : list string) : string :=
  String.concat sep parts.

(** The line boundaries of [str.splitlines] below U+0100. *)
Definition is_linebreak (c : ascii) : bool :=
  in_range 10 13 c || in_range 28 30 c || (code c =? 133)%N.

Fixpoint splitlines_go (s cur : string) : list string :=
  match s with
  | EmptyString =>
      match cur with EmptyString => [] | _ => [cur] end
  | String c r =>
      if is_linebreak c then
        match r with
        | String c2 r2 =>
            if chr_eq c CR && chr_eq c2 LF
            then cur :: splitlines_go r2 EmptyString
            else cur :: splitlines_go r EmptyString
        | EmptyString => cur :: splitlines_go r EmptyString
        end
      else splitlines_go r (snoc cur c)
  end.

Definition splitlines (s : string) : list string :=
  splitlines_go s EmptyString.

(** [re.split(r"[_\s]+", s)]: the pieces between the maximal runs of
    separator characters. *)
Fixpoint re_split_go (p : ascii -> bool) (insep : bool) (s cur : string)
  : list string :=
  match s with
  | EmptyString => [cur]
  | String c r =>
      if p c then
        if insep then re_split_go p true r EmptyString
        else cur :: re_split_go p true r EmptyString
      else re_split_go p false r (snoc cur c)
  end.

Definition re_split_runs (p : ascii -> bool) (s : string) : list string :=
  re_split_go p false s EmptyString.

(** [re.match(r"^[first][rest]*$", s)]: [$] matches at the end of the
    text and also just before a newline that ends it. *)
Fixpoint re_star_end (p : ascii -> bool) (s : string) : bool :=
  match s with
  | EmptyString => true
  | String c r =>
      (p c && re_star_end p r)
      || (chr_eq c LF && match r with EmptyString => true | _ => false end)
  end.

Definition re_match_first_rest (first rest : ascii -> bool) (s : string)
  : bool :=
  match s with
  | EmptyString => false
  | String c r => first c && re_star_end rest r
  end.

(** [str(n)] for an [int]. *)
Definition str_of_int (n : Z) : string := NilZero.string_of_int (Z.to_int n).

(** Truthiness of an [Optional[str]]: neither [None] nor empty. *)
Definition truthy (o : option string) : bool :=
  match o with
  | Some (String _ _) => true
  | _ => false
  end.

End Py.

(** [o is not None]. *)
Definition is_some {A : Type} (o : option A) : bool :=
  match o with Some _ => true | None => false end.

(* ===================================================================== *)
(** * [token_types.py] *)
(* ===================================================================== *)

(** The enumeration [TokenType], in the order of its [auto()] values. *)
Inductive TokenType : Set :=
  | ABOUT | ABSTRACT | ACCEPT | ACTION | ACTOR | AFTER | ALIAS | ALL
  | ALLOCATE | ALLOCATION | ANALYSIS | AND | AS | ASSERT | ASSIGN | ASSOC
  | ASSUME | AT | ATTRIBUTE | BEHAVIOR | BIND | BINDING | BOOL | BY | CALC
  | CASE | CHAINS | CLASS | CLASSIFIER | COMMENT | COMPOSITE | CONCERN
  | CONJUGATE | CONJUGATES | CONJUGATION | CONNECT | CONNECTION | CONNECTOR
  | CONST | CONSTANT | CONSTRAINT | CROSSES | DATATYPE | DECIDE | DEF
  | DEFAULT | DEFINED | DEPENDENCY | DERIVED | DIFFERENCES | DISJOINING
  | DISJOINT | DO | DOC | ELSE | END | ENTRY | ENUM | EVENT | EXHIBIT
  | EXIT | EXPOSE | EXPR | FALSE | FEATURE | FEATURED | FEATURING | FILTER
  | FIRST | FLOW | FOR | FORK | FRAME | FROM | FUNCTION | HASTYPE | IF
  | IMPLIES | IMPORT | IN | INCLUDE | INDIVIDUAL | INOUT | INTERACTION
  | INTERFACE | INTERSECTS | INV | INVERSE | INVERTING | ISTYPE | ITEM
  | JOIN | LANGUAGE | LIBRARY | LOCALE | LOOP | MEMBER | MERGE | MESSAGE
  | META | METACLASS | METADATA | MULTIPLICITY | NAMESPACE | NEW
  | NONUNIQUE | NOT | NULL | OBJECTIVE | OCCURRENCE | OF | OR | ORDERED
  | OUT | PACKAGE | PARALLEL | PART | PERFORM | PORT | PORTION | PREDICATE
  | PRIVATE | PROTECTED | PUBLIC | REDEFINES | REDEFINITION | REF
  | REFERENCES | RENDER | RENDERING | REP | REQUIRE | REQUIREMENT | RETURN
  | SATISFY | SEND | SNAPSHOT | SPECIALIZATION | SPECIALIZES | STAKEHOLDER
  | STANDARD | STATE | STEP | STRUCT | SUBCLASSIFIER | SUBJECT | SUBSET
  | SUBSETS | SUBTYPE | SUCCESSION | TERMINATE | THEN | TIMESLICE | TO
  | TRANSITION | TRUE | TYPE | TYPED | TYPING | UNIONS | UNTIL | USE | VAR
  | VARIANT | VARIATION | VERIFICATION | VERIFY | VIA | VIEW | VIEWPOINT
  | WHEN | WHILE | XOR | BANG_EQ_EQ | COLON_COLON_GT | COLON_GT_GT
  | EQ_EQ_EQ | BANG_EQ | STAR_STAR | ARROW | DOT_DOT | DOT_QUESTION
  | COLON_COLON | COLON_EQ | COLON_GT | LE | EQ_EQ | FAT_ARROW | GE
  | QUESTION_QUESTION | AT_AT | HASH | DOLLAR | PERCENT | AMP | LPAREN
  | RPAREN | STAR | PLUS | COMMA | MINUS | DOT | SLASH | COLON | SEMI | LT
  | EQ | GT | QUESTION | AT_SIGN | LBRACK | RBRACK | CARET | LBRACE | PIPE
  | RBRACE | TILDE | IDENTIFIER | STRING | DOUBLE_STRING | INTEGER | REAL
  | BLOCK_COMMENT | LINE_COMMENT | EOF.

(** The value [auto()] gives each member. *)
Definition tt_code (t : TokenType) : positive :=
  match t with
  | ABOUT => 1 | ABSTRACT => 2 | ACCEPT => 3 | ACTION => 4 | ACTOR => 5
  | AFTER => 6 | ALIAS => 7 | ALL => 8 | ALLOCATE => 9 | ALLOCATION => 10
  | ANALYSIS => 11 | AND => 12 | AS => 13 | ASSERT => 14 | ASSIGN => 15
  | ASSOC => 16 | ASSUME => 17 | AT => 18 | ATTRIBUTE => 19
  | BEHAVIOR => 20 | BIND => 21 | BINDING => 22 | BOOL => 23 | BY => 24
  | CALC => 25 | CASE => 26 | CHAINS => 27 | CLASS => 28 | CLASSIFIER => 29
  | COMMENT => 30 | COMPOSITE => 31 | CONCERN => 32 | CONJUGATE => 33
  | CONJUGATES => 34 | CONJUGATION => 35 | CONNECT => 36 | CONNECTION => 37
  | CONNECTOR => 38 | CONST => 39 | CONSTANT => 40 | CONSTRAINT => 41
  | CROSSES => 42 | DATATYPE => 43 | DECIDE => 44 | DEF => 45
  | DEFAULT => 46 | DEFINED => 47 | DEPENDENCY => 48 | DERIVED => 49
  | DIFFERENCES => 50 | DISJOINING => 51 | DISJOINT => 52 | DO => 53
  | DOC => 54 | ELSE => 55 | END => 56 | ENTRY => 57 | ENUM => 58
  | EVENT => 59 | EXHIBIT => 60 | EXIT => 61 | EXPOSE => 62 | EXPR => 63
  | FALSE => 64 | FEATURE => 65 | FEATURED => 66 | FEATURING => 67
  | FILTER => 68 | FIRST => 69 | FLOW => 70 | FOR => 71 | FORK => 72
  | FRAME => 73 | FROM => 74 | FUNCTION => 75 | HASTYPE => 76 | IF => 77
  | IMPLIES => 78 | IMPORT => 79 | IN => 80 | INCLUDE => 81
  | INDIVIDUAL => 82 | INOUT => 83 | INTERACTION => 84 | INTERFACE => 85
  | INTERSECTS => 86 | INV => 87 | INVERSE => 88 | INVERTING => 89
  | ISTYPE => 90 | ITEM => 91 | JOIN => 92 | LANGUAGE => 93 | LIBRARY => 94
  | LOCALE => 95 | LOOP => 96 | MEMBER => 97 | MERGE => 98 | MESSAGE => 99
  | META => 100 | METACLASS => 101 | METADATA => 102 | MULTIPLICITY => 103
  | NAMESPACE => 104 | NEW => 105 | NONUNIQUE => 106 | NOT => 107
  | NULL => 108 | OBJECTIVE => 109 | OCCURRENCE => 110 | OF => 111
  | OR => 112 | ORDERED => 113 | OUT => 114 | PACKAGE => 115
  | PARALLEL => 116 | PART => 117 | PERFORM => 118 | PORT => 119
  | PORTION => 120 | PREDICATE => 121 | PRIVATE => 122 | PROTECTED => 123
  | PUBLIC => 124 | REDEFINES => 125 | REDEFINITION => 126 | REF => 127
  | REFERENCES => 128 | RENDER => 129 | RENDERING => 130 | REP => 131
  | REQUIRE => 132 | REQUIREMENT => 133 | RETURN => 134 | SATISFY => 135
  | SEND => 136 | SNAPSHOT => 137 | SPECIALIZATION => 138
  | SPECIALIZES => 139 | STAKEHOLDER => 140 | STANDARD => 141
  | STATE => 142 | STEP => 143 | STRUCT => 144 | SUBCLASSIFIER => 145
  | SUBJECT => 146 | SUBSET => 147 | SUBSETS => 148 | SUBTYPE => 149
  | SUCCESSION => 150 | TERMINATE => 151 | THEN => 152 | TIMESLICE => 153
  | TO => 154 | TRANSITION => 155 | TRUE => 156 | TYPE => 157
  | TYPED => 158 | TYPING => 159 | UNIONS => 160 | UNTIL => 161
  | USE => 162 | VAR => 163 | VARIANT => 164 | VARIATION => 165
  | VERIFICATION => 166 | VERIFY => 167 | VIA => 168 | VIEW => 169
  | VIEWPOINT => 170 | WHEN => 171 | WHILE => 172 | XOR => 173
  | BANG_EQ_EQ => 174 | COLON_COLON_GT => 175 | COLON_GT_GT => 176
  | EQ_EQ_EQ => 177 | BANG_EQ => 178 | STAR_STAR => 179 | ARROW => 180
  | DOT_DOT => 181 | DOT_QUESTION => 182 | COLON_COLON => 183
  | COLON_EQ => 184 | COLON_GT => 185 | LE => 186 | EQ_EQ => 187
  | FAT_ARROW => 188 | GE => 189 | QUESTION_QUESTION => 190 | AT_AT => 191
  | HASH => 192 | DOLLAR => 193 | PERCENT => 194 | AMP => 195
  | LPAREN => 196 | RPAREN => 197 | STAR => 198 | PLUS => 199
  | COMMA => 200 | MINUS => 201 | DOT => 202 | SLASH => 203 | COLON => 204
  | SEMI => 205 | LT => 206 | EQ => 207 | GT => 208 | QUESTION => 209
  | AT_SIGN => 210 | LBRACK => 211 | RBRACK => 212 | CARET => 213
  | LBRACE => 214 | PIPE => 215 | RBRACE => 216 | TILDE => 217
  | IDENTIFIER => 218 | STRING => 219 | DOUBLE_STRING => 220
  | INTEGER => 221 | REAL => 222 | BLOCK_COMMENT => 223
  | LINE_COMMENT => 224 | EOF => 225
  end%positive.

Definition tt_of_code (p : positive) : option TokenType :=
  match p with
  | 1 => Some ABOUT | 2 => Some ABSTRACT | 3 => Some ACCEPT
  | 4 => Some ACTION | 5 => Some ACTOR | 6 => Some AFTER | 7 => Some ALIAS
  | 8 => Some ALL | 9 => Some ALLOCATE | 10 => Some ALLOCATION
  | 11 => Some ANALYSIS | 12 => Some AND | 13 => Some AS
  | 14 => Some ASSERT | 15 => Some ASSIGN | 16 => Some ASSOC
  | 17 => Some ASSUME | 18 => Some AT | 19 => Some ATTRIBUTE
  | 20 => Some BEHAVIOR | 21 => Some BIND | 22 => Some BINDING
  | 23 => Some BOOL | 24 => Some BY | 25 => Some CALC | 26 => Some CASE
  | 27 => Some CHAINS | 28 => Some CLASS | 29 => Some CLASSIFIER
  | 30 => Some COMMENT | 31 => Some COMPOSITE | 32 => Some CONCERN
  | 33 => Some CONJUGATE | 34 => Some CONJUGATES | 35 => Some CONJUGATION
  | 36 => Some CONNECT | 37 => Some CONNECTION | 38 => Some CONNECTOR
  | 39 => Some CONST | 40 => Some CONSTANT | 41 => Some CONSTRAINT
  | 42 => Some CROSSES | 43 => Some DATATYPE | 44 => Some DECIDE
  | 45 => Some DEF | 46 => Some DEFAULT | 47 => Some DEFINED
  | 48 => Some DEPENDENCY | 49 => Some DERIVED | 50 => Some DIFFERENCES
  | 51 => Some DISJOINING | 52 => Some DISJOINT | 53 => Some DO
  | 54 => Some DOC | 55 => Some ELSE | 56 => Some END | 57 => Some ENTRY
  | 58 => Some ENUM | 59 => Some EVENT | 60 => Some EXHIBIT
  | 61 => Some EXIT | 62 => Some EXPOSE | 63 => Some EXPR
  | 64 => Some FALSE | 65 => Some FEATURE | 66 => Some FEATURED
  | 67 => Some FEATURING | 68 => Some FILTER | 69 => Some FIRST
  | 70 => Some FLOW | 71 => Some FOR | 72 => Some FORK | 73 => Some FRAME
  | 74 => Some FROM | 75 => Some FUNCTION | 76 => Some HASTYPE
  | 77 => Some IF | 78 => Some IMPLIES | 79 => Some IMPORT | 80 => Some IN
  | 81 => Some INCLUDE | 82 => Some INDIVIDUAL | 83 => Some INOUT
  | 84 => Some INTERACTION | 85 => Some INTERFACE | 86 => Some INTERSECTS
  | 87 => Some INV | 88 => Some INVERSE | 89 => Some INVERTING
  | 90 => Some ISTYPE | 91 => Some ITEM | 92 => Some JOIN
  | 93 => Some LANGUAGE | 94 => Some LIBRARY | 95 => Some LOCALE
  | 96 => Some LOOP | 97 => Some MEMBER | 98 => Some MERGE
  | 99 => Some MESSAGE | 100 => Some META | 101 => Some METACLASS
  | 102 => Some METADATA | 103 => Some MULTIPLICITY | 104 => Some NAMESPACE
  | 105 => Some NEW | 106 => Some NONUNIQUE | 107 => Some NOT
  | 108 => Some NULL | 109 => Some OBJECTIVE | 110 => Some OCCURRENCE
  | 111 => Some OF | 112 => Some OR | 113 => Some ORDERED | 114 => Some OUT
  | 115 => Some PACKAGE | 116 => Some PARALLEL | 117 => Some PART
  | 118 => Some PERFORM | 119 => Some PORT | 120 => Some PORTION
  | 121 => Some PREDICATE | 122 => Some PRIVATE | 123 => Some PROTECTED
  | 124 => Some PUBLIC | 125 => Some REDEFINES | 126 => Some REDEFINITION
  | 127 => Some REF | 128 => Some REFERENCES | 129 => Some RENDER
  | 130 => Some RENDERING | 131 => Some REP | 132 => Some REQUIRE
  | 133 => Some REQUIREMENT | 134 => Some RETURN | 135 => Some SATISFY
  | 136 => Some SEND | 137 => Some SNAPSHOT | 138 => Some SPECIALIZATION
  | 139 => Some SPECIALIZES | 140 => Some STAKEHOLDER
  | 141 => Some STANDARD | 142 => Some STATE | 143 => Some STEP
  | 144 => Some STRUCT | 145 => Some SUBCLASSIFIER | 146 => Some SUBJECT
  | 147 => Some SUBSET | 148 => Some SUBSETS | 149 => Some SUBTYPE
  | 150 => Some SUCCESSION | 151 => Some TERMINATE | 152 => Some THEN
  | 153 => Some TIMESLICE | 154 => Some TO | 155 => Some TRANSITION
  | 156 => Some TRUE | 157 => Some TYPE | 158 => Some TYPED
  | 159 => Some TYPING | 160 => Some UNIONS | 161 => Some UNTIL
  | 162 => Some USE | 163 => Some VAR | 164 => Some VARIANT
  | 165 => Some VARIATION | 166 => Some VERIFICATION | 167 => Some VERIFY
  | 168 => Some VIA | 169 => Some VIEW | 170 => Some VIEWPOINT
  | 171 => Some WHEN | 172 => Some WHILE | 173 => Some XOR
  | 174 => Some BANG_EQ_EQ | 175 => Some COLON_COLON_GT
  | 176 => Some COLON_GT_GT | 177 => Some EQ_EQ_EQ | 178 => Some BANG_EQ
  | 179 => Some STAR_STAR | 180 => Some ARROW | 181 => Some DOT_DOT
  | 182 => Some DOT_QUESTION | 183 => Some COLON_COLON
  | 184 => Some COLON_EQ | 185 => Some COLON_GT | 186 => Some LE
  | 187 => Some EQ_EQ | 188 => Some FAT_ARROW | 189 => Some GE
  | 190 => Some QUESTION_QUESTION | 191 => Some AT_AT | 192 => Some HASH
  | 193 => Some DOLLAR | 194 => Some PERCENT | 195 => Some AMP
  | 196 => Some LPAREN | 197 => Some RPAREN | 198 => Some STAR
  | 199 => Some PLUS | 200 => Some COMMA | 201 => Some MINUS
  | 202 => Some DOT | 203 => Some SLASH | 204 => Some COLON
  | 205 => Some SEMI | 206 => Some LT | 207 => Some EQ | 208 => Some GT
  | 209 => Some QUESTION | 210 => Some AT_SIGN | 211 => Some LBRACK
  | 212 => Some RBRACK | 213 => Some CARET | 214 => Some LBRACE
  | 215 => Some PIPE | 216 => Some RBRACE | 217 => Some TILDE
  | 218 => Some IDENTIFIER | 219 => Some STRING | 220 => Some DOUBLE_STRING
  | 221 => Some INTEGER | 222 => Some REAL | 223 => Some BLOCK_COMMENT
  | 224 => Some LINE_COMMENT | 225 => Some EOF
  | _ => None
  end%positive.

Lemma tt_of_code_code (t : TokenType) : tt_of_code (tt_code t) = Some t.
Proof. destruct t; reflexivity. Qed.

#[global] Instance TokenType_eq_dec : EqDecision TokenType.
Proof.
  intros x y. destruct (decide (tt_code x = tt_code y)) as [H|H].
  - left. apply (f_equal tt_of_code) in H.
    rewrite !tt_of_code_code in H. congruence.
  - right. congruence.
Defined.

#[global] Instance TokenType_countable : Countable TokenType :=
  inj_countable tt_code tt_of_code tt_of_code_code.

Record Token : Set := mkToken {
  tok_type : TokenType;
  tok_value : string;
  tok_line : Z;
  tok_col : Z
}.

(** [KEYWORDS]: keyword spelling to token type. *)
Definition KEYWORDS : gmap string TokenType :=
  list_to_map [
    ("about", ABOUT); ("abstract", ABSTRACT); ("accept", ACCEPT);
    ("action", ACTION); ("actor", ACTOR); ("after", AFTER);
    ("alias", ALIAS); ("all", ALL); ("allocate", ALLOCATE);
    ("allocation", ALLOCATION); ("analysis", ANALYSIS); ("and", AND);
    ("as", AS); ("assert", ASSERT); ("assign", ASSIGN); ("assoc", ASSOC);
    ("assume", ASSUME); ("at", AT); ("attribute", ATTRIBUTE);
    ("behavior", BEHAVIOR); ("bind", BIND); ("binding", BINDING);
    ("bool", BOOL); ("by", BY); ("calc", CALC); ("case", CASE);
    ("chains", CHAINS); ("class", CLASS); ("classifier", CLASSIFIER);
    ("comment", COMMENT); ("composite", COMPOSITE); ("concern", CONCERN);
    ("conjugate", CONJUGATE); ("conjugates", CONJUGATES);
    ("conjugation", CONJUGATION); ("connect", CONNECT);
    ("connection", CONNECTION); ("connector", CONNECTOR); ("const", CONST);
    ("constant", CONSTANT); ("constraint", CONSTRAINT);
    ("crosses", CROSSES); ("datatype", DATATYPE); ("decide", DECIDE);
    ("def", DEF); ("default", DEFAULT); ("defined", DEFINED);
    ("dependency", DEPENDENCY); ("derived", DERIVED);
    ("differences", DIFFERENCES); ("disjoining", DISJOINING);
    ("disjoint", DISJOINT); ("do", DO); ("doc", DOC); ("else", ELSE);
    ("end", END); ("entry", ENTRY); ("enum", ENUM); ("event", EVENT);
    ("exhibit", EXHIBIT); ("exit", EXIT); ("expose", EXPOSE);
    ("expr", EXPR); ("false", FALSE); ("feature", FEATURE);
    ("featured", FEATURED); ("featuring", FEATURING); ("filter", FILTER);
    ("first", FIRST); ("flow", FLOW); ("for", FOR); ("fork", FORK);
    ("frame", FRAME); ("from", FROM); ("function", FUNCTION);
    ("hastype", HASTYPE); ("if", IF); ("implies", IMPLIES);
    ("import", IMPORT); ("in", IN); ("include", INCLUDE);
    ("individual", INDIVIDUAL); ("inout", INOUT);
    ("interaction", INTERACTION); ("interface", INTERFACE);
    ("intersects", INTERSECTS); ("inv", INV); ("inverse", INVERSE);
    ("inverting", INVERTING); ("istype", ISTYPE); ("item", ITEM);
    ("join", JOIN); ("language", LANGUAGE); ("library", LIBRARY);
    ("locale", LOCALE); ("loop", LOOP); ("member", MEMBER);
    ("merge", MERGE); ("message", MESSAGE); ("meta", META);
    ("metaclass", METACLASS); ("metadata", METADATA);
    ("multiplicity", MULTIPLICITY); ("namespace", NAMESPACE); ("new", NEW);
    ("nonunique", NONUNIQUE); ("not", NOT); ("null", NULL);
    ("objective", OBJECTIVE); ("occurrence", OCCURRENCE); ("of", OF);
    ("or", OR); ("ordered", ORDERED); ("out", OUT); ("package", PACKAGE);
    ("parallel", PARALLEL); ("part", PART); ("perform", PERFORM);
    ("port", PORT); ("portion", PORTION); ("predicate", PREDICATE);
    ("private", PRIVATE); ("protected", PROTECTED); ("public", PUBLIC);
    ("redefines", REDEFINES); ("redefinition", REDEFINITION); ("ref", REF);
    ("references", REFERENCES); ("render", RENDER);
    ("rendering", RENDERING); ("rep", REP); ("require", REQUIRE);
    ("requirement", REQUIREMENT); ("return", RETURN); ("satisfy", SATISFY);
    ("send", SEND); ("snapshot", SNAPSHOT);
    ("specialization", SPECIALIZATION); ("specializes", SPECIALIZES);
    ("stakeholder", STAKEHOLDER); ("standard", STANDARD); ("state", STATE);
    ("step", STEP); ("struct", STRUCT); ("subclassifier", SUBCLASSIFIER);
    ("subject", SUBJECT); ("subset", SUBSET); ("subsets", SUBSETS);
    ("subtype", SUBTYPE); ("succession", SUCCESSION);
    ("terminate", TERMINATE); ("then", THEN); ("timeslice", TIMESLICE);
    ("to", TO); ("transition", TRANSITION); ("true", TRUE); ("type", TYPE);
    ("typed", TYPED); ("typing", TYPING); ("unions", UNIONS);
    ("until", UNTIL); ("use", USE); ("var", VAR); ("variant", VARIANT);
    ("variation", VARIATION); ("verification", VERIFICATION);
    ("verify", VERIFY); ("via", VIA); ("view", VIEW);
    ("viewpoint", VIEWPOINT); ("when", WHEN); ("while", WHILE);
    ("xor", XOR)
  ].

(* ===================================================================== *)
(** * [lexer.py] *)
(* ===================================================================== *)

Module Lexer.

(** The state of a [Lexer]: [source] is the unread text [source[pos:]]. *)
Record state : Set := mkLexer {
  source : string;
  lx_line : Z;
  lx_col : Z
}.

Definition init (text : string) : state := mkLexer text 1 1.

Definition _ch (lx : state) : option ascii :=
  match source lx with
  | String c _ => Some c
  | EmptyString => None
  end.

(** [_peek()], always called with the default offset 1. *)
Definition _peek (lx : state) : option ascii :=
  match source lx with
  | String _ (String c _) => Some c
  | _ => None
  end.

Definition peek_is (lx : state) (c : ascii) : bool :=
  match _peek lx with
  | Some d => Py.chr_eq d c
  | None => false
  end.

(** The line and column after consuming [ch]. *)
Definition bump (ch : ascii) (line col : Z) : Z * Z :=
  if Py.chr_eq ch Py.LF then (line + 1, 1) else (line, col + 1).

(** [_advance()].  On an exhausted source Python raises [IndexError]; every
    call site checks [pos < len(source)] (or has just peeked) first. *)
Definition _advance (lx : state) : state :=
  match source lx with
  | String ch r =>
      let '(l, c) := bump ch (lx_line lx) (lx_col lx) in mkLexer r l c
  | EmptyString => lx
  end.

Definition _rest (lx : state) : string := source lx.

(** [source[start:pos]], the text consumed between two states. *)
Definition _slice (start stop : state) : string :=
  String.substring 0
    (String.length (source start) - String.length (source stop))
    (source start).

(** [while pos < len(source) and p(source[pos]): _advance()]. *)
Fixpoint advance_while_go (p : ascii -> bool) (s : string) (line col : Z)
  : state :=
  match s with
  | String ch r =>
      if p ch
      then let '(l, c) := bump ch line col in advance_while_go p r l c
      else mkLexer s line col
  | EmptyString => mkLexer s line col
  end.

Definition _advance_while (p : ascii -> bool) (lx : state) : state :=
  advance_while_go p (source lx) (lx_line lx) (lx_col lx).

Definition is_blank (c : ascii) : bool :=
  Py.chr_eq c " " || Py.chr_eq c Py.TAB || Py.chr_eq c Py.CR
  || Py.chr_eq c Py.LF.

Definition _skip_whitespace (lx : state) : state := _advance_while is_blank lx.

(** The loop of a block comment, entered after the opening marker. *)
Fixpoint block_comment_go (s : string) (line col : Z) : state :=
  match s with
  | EmptyString => mkLexer s line col
  | String ch r =>
      let '(l, c) := bump ch line col in
      match r with
      | String ch2 r2 =>
          if Py.chr_eq ch "*" && Py.chr_eq ch2 "/"
          then let '(l2, c2) := bump ch2 l c in mkLexer r2 l2 c2
          else block_comment_go r l c
      | EmptyString => block_comment_go r l c
      end
  end.

(** The loop of [_lex_string], entered after the opening quote. *)
Fixpoint lex_string_go (quote : ascii) (s : string) (line col : Z) : state :=
  match s with
  | EmptyString => mkLexer s line col
  | String ch r =>
      let '(l, c) := bump ch line col in
      if Py.chr_eq ch Py.BACKSLASH then
        match r with
        | String ch2 r2 =>
            let '(l2, c2) := bump ch2 l c in lex_string_go quote r2 l2 c2
        | EmptyString => lex_string_go quote r l c
        end
      else if Py.chr_eq ch quote then mkLexer r l c
      else lex_string_go quote r l c
  end.

Definition _lex_string (quote : ascii) (tok_ty : TokenType) (line col : Z)
  (lx : state) : Token * state :=
  let start := lx in
  let lx1 := _advance lx in
  let lx2 := lex_string_go quote (source lx1) (lx_line lx1) (lx_col lx1) in
  (mkToken tok_ty (_slice start lx2) line col, lx2).

Definition ch_in (lx : state) (chars : list ascii) : bool :=
  match _ch lx with
  | Some c => existsb (Py.chr_eq c) chars
  | None => false
  end.

Definition _lex_number (line col : Z) (lx : state) : Token * state :=
  let start := lx in
  let is_real := false in
  (* leading digits *)
  let lx := _advance_while Py.isdigit lx in
  (* decimal part *)
  let '(is_real, lx) :=
    if ch_in lx ["."%char] then
      match _peek lx with
      | Some next_ch =>
          if Py.isdigit next_ch
          then (true, _advance_while Py.isdigit (_advance lx))
          else (is_real, lx)
      | None => (is_real, lx)
      end
    else (is_real, lx) in
  (* exponent *)
  let '(is_real, lx) :=
    if ch_in lx ["e"%char; "E"%char] then
      let lx := _advance lx in
      let lx := if ch_in lx ["+"%char; "-"%char] then _advance lx else lx in
      (true, _advance_while Py.isdigit lx)
    else (is_real, lx) in
  (mkToken (if is_real then REAL else INTEGER) (_slice start lx) line col, lx).

(** The table [_SINGLE] of single-character tokens. *)
Definition _SINGLE : gmap string TokenType :=
  list_to_map [
    ("#", HASH); ("$", DOLLAR); ("%", PERCENT);
    ("&", AMP); ("(", LPAREN); (")", RPAREN);
    ("+", PLUS); (",", COMMA); ("/", SLASH);
    (";", SEMI); ("[", LBRACK); ("]", RBRACK);
    ("^", CARET); ("{", LBRACE); ("|", PIPE);
    ("}", RBRACE); ("~", TILDE)
  ].

Definition str1 (c : ascii) : string := String c EmptyString.

(** The operator part of [_next_token]: [ch] has been consumed, [lx] is
    the state after it, and [rest] the text that follows [ch]. *)
Definition lex_operator (ch : ascii) (line col : Z) (lx : state)
  : Token * state :=
  let rest := _rest lx in
  let adv1 := _advance lx in
  let adv2 := _advance (_advance lx) in
  if Py.chr_eq ch "!" then
    if Py.startswith rest "==" then (mkToken BANG_EQ_EQ "!==" line col, adv2)
    else if Py.startswith rest "=" then (mkToken BANG_EQ "!=" line col, adv1)
    else (mkToken IDENTIFIER "!" line col, lx)
  else if Py.chr_eq ch ":" then
    if Py.startswith rest ":>"
    then (mkToken COLON_COLON_GT "::>" line col, adv2)
    else if Py.startswith rest ">>"
    then (mkToken COLON_GT_GT ":>>" line col, adv2)
    else if Py.startswith rest ":"
    then (mkToken COLON_COLON "::" line col, adv1)
    else if Py.startswith rest ">" then (mkToken COLON_GT ":>" line col, adv1)
    else if Py.startswith rest "=" then (mkToken COLON_EQ ":=" line col, adv1)
    else (mkToken COLON ":" line col, lx)
  else if Py.chr_eq ch "=" then
    if Py.startswith rest "==" then (mkToken EQ_EQ_EQ "===" line col, adv2)
    else if Py.startswith rest "=" then (mkToken EQ_EQ "==" line col, adv1)
    else if Py.startswith rest ">" then (mkToken FAT_ARROW "=>" line col, adv1)
    else (mkToken EQ "=" line col, lx)
  else if Py.chr_eq ch "*" then
    if Py.startswith rest "*" then (mkToken STAR_STAR "**" line col, adv1)
    else (mkToken STAR "*" line col, lx)
  else if Py.chr_eq ch "-" then
    if Py.startswith rest ">" then (mkToken ARROW "->" line col, adv1)
    else (mkToken MINUS "-" line col, lx)
  else if Py.chr_eq ch "." then
    if Py.startswith rest "." then (mkToken DOT_DOT ".." line col, adv1)
    else if Py.startswith rest "?"
    then (mkToken DOT_QUESTION ".?" line col, adv1)
    else (mkToken DOT "." line col, lx)
  else if Py.chr_eq ch "<" then
    if Py.startswith rest "=" then (mkToken LE "<=" line col, adv1)
    else (mkToken LT "<" line col, lx)
  else if Py.chr_eq ch ">" then
    if Py.startswith rest "=" then (mkToken GE ">=" line col, adv1)
    else (mkToken GT ">" line col, lx)
  else if Py.chr_eq ch "?" then
    if Py.startswith rest "?"
    then (mkToken QUESTION_QUESTION "??" line col, adv1)
    else (mkToken QUESTION "?" line col, lx)
  else if Py.chr_eq ch "@" then
    if Py.startswith rest "@" then (mkToken AT_AT "@@" line col, adv1)
    else (mkToken AT_SIGN "@" line col, lx)
  else
    match _SINGLE !! str1 ch with
    | Some ty => (mkToken ty (str1 ch) line col, lx)
    | None =>
        (* unknown character: emitted as IDENTIFIER *)
        (mkToken IDENTIFIER (str1 ch) line col, lx)
    end.

(** [_next_token] once the white space has been skipped. *)
Definition token_at (lx : state) : Token * state :=
  match _ch lx with
  | None => (mkToken EOF "" (lx_line lx) (lx_col lx), lx)
  | Some ch =>
      let line := lx_line lx in
      let col := lx_col lx in
      if Py.chr_eq ch "/" && peek_is lx "/" then
        (* line comment *)
        let start := lx in
        let lx := _advance_while (fun c => negb (Py.chr_eq c Py.LF)) lx in
        (mkToken LINE_COMMENT (_slice start lx) line col, lx)
      else if Py.chr_eq ch "/" && peek_is lx "*" then
        (* block comment *)
        let start := lx in
        let lx := _advance (_advance lx) in
        let lx := block_comment_go (source lx) (lx_line lx) (lx_col lx) in
        (mkToken BLOCK_COMMENT (_slice start lx) line col, lx)
      else if Py.isalpha ch || Py.chr_eq ch "_" then
        (* identifiers and keywords *)
        let start := lx in
        let lx :=
          _advance_while (fun c => Py.isalnum c || Py.chr_eq c "_") lx in
        let value := _slice start lx in
        let tok_ty := default IDENTIFIER (KEYWORDS !! value) in
        (mkToken tok_ty value line col, lx)
      else if Py.isdigit ch then _lex_number line col lx
      else if Py.chr_eq ch "."
              && match _peek lx with Some d => Py.isdigit d | None => false end
      then _lex_number line col lx
      else if Py.chr_eq ch "'" then _lex_string "'" STRING line col lx
      else if Py.chr_eq ch Py.DQUOTE
      then _lex_string Py.DQUOTE DOUBLE_STRING line col lx
      else lex_operator ch line col (_advance lx)
  end.

Definition _next_token (lx : state) : Token * state :=
  token_at (_skip_whitespace lx).

(** The loop of [tokenize]; [tokens] is the list built so far. *)
Fixpoint tokenize_loop (fuel : nat) (lx : state) (tokens : list Token)
  : option (list Token) :=
  match fuel with
  | O => None
  | S fuel' =>
      let '(tok, lx') := _next_token lx in
      let tokens := tokens ++ [tok] in
      if bool_decide (tok_type tok = EOF) then Some tokens
      else tokenize_loop fuel' lx' tokens
  end.

(** [Lexer(text).tokenize()]: every token but the last consumes at least
    one character, so one iteration per character and one more suffice. *)
Definition tokenize (text : string) : option (list Token) :=
  tokenize_loop (S (String.length text)) (init text) [].

End Lexer.

(* ===================================================================== *)
(** * [ast_nodes.py] *)
(* ===================================================================== *)

(** The dataclass [Element]; an element owns its [body]. *)
#[warnings="-register-all"]
Inductive Element : Type := mkElement {
  kind : string;
  is_def : bool;
  name : option string;
  type_ref : option string;
  specializes : list string;
  multiplicity : option string;
  body : list Element;
  doc : option string;
  modifiers : list string;
  line : Z;
  col : Z;
  import_path : option string;
  import_star : bool
}.

Record File : Type := mkFile {
  filename : string;
  elements : list Element
}.

(** Assignments to the attributes of an element under construction. *)
Definition set_type_ref (e : Element) (v : option string) : Element :=
  mkElement (kind e) (is_def e) (name e) v (specializes e) (multiplicity e)
    (body e) (doc e) (modifiers e) (line e) (col e) (import_path e)
    (import_star e).

Definition set_multiplicity (e : Element) (v : option string) : Element :=
  mkElement (kind e) (is_def e) (name e) (type_ref e) (specializes e) v
    (body e) (doc e) (modifiers e) (line e) (col e) (import_path e)
    (import_star e).

Definition set_specializes (e : Element) (v : list string) : Element :=
  mkElement (kind e) (is_def e) (name e) (type_ref e) v (multiplicity e)
    (body e) (doc e) (modifiers e) (line e) (col e) (import_path e)
    (import_star e).

Definition set_body (e : Element) (v : list Element) : Element :=
  mkElement (kind e) (is_def e) (name e) (type_ref e) (specializes e)
    (multiplicity e) v (doc e) (modifiers e) (line e) (col e)
    (import_path e) (import_star e).

Definition set_doc (e : Element) (v : option string) : Element :=
  mkElement (kind e) (is_def e) (name e) (type_ref e) (specializes e)
    (multiplicity e) (body e) v (modifiers e) (line e) (col e)
    (import_path e) (import_star e).

(** [Element(kind=.., is_def=.., name=.., type_ref=.., line=.., col=..)]
    with every other field at its default. *)
Definition Element_new (k : string) (d : bool) (n t : option string)
  (l c : Z) : Element :=
  mkElement k d n t [] None [] None [] l c None false.

Definition set_modifiers (e : Element) (v : list string) : Element :=
  mkElement (kind e) (is_def e) (name e) (type_ref e) (specializes e)
    (multiplicity e) (body e) (doc e) v (line e) (col e) (import_path e)
    (import_star e).

Definition set_import (e : Element) (p : option string) (star : bool)
  : Element :=
  mkElement (kind e) (is_def e) (name e) (type_ref e) (specializes e)
    (multiplicity e) (body e) (doc e) (modifiers e) (line e) (col e) p star.

(* ===================================================================== *)
(** * [parser.py] *)
(* ===================================================================== *)

Module Parser.

Definition _VISIBILITY : gset TokenType := {[ PRIVATE; PROTECTED; PUBLIC ]}.

Definition _PREFIX_MODIFIERS : gset TokenType :=
  {[ ABSTRACT; REF; VAR; DERIVED; ORDERED; NONUNIQUE; COMPOSITE; PORTION;
     LIBRARY; INDIVIDUAL; VARIATION; VARIANT; STANDARD; CONST; CONSTANT ]}.

Definition _ELEMENT_KEYWORDS : gset TokenType :=
  {[ PACKAGE; NAMESPACE; PART; ACTION; REQUIREMENT; ATTRIBUTE; PORT; ENUM;
     INTERFACE; CONNECTION; CONNECTOR; ALLOCATION; METADATA; BEHAVIOR;
     FUNCTION; PREDICATE; CALC; ANALYSIS; STATE; RENDERING; VIEW; VIEWPOINT;
     OCCURRENCE; INTERACTION; CLASS; ASSOC; CLASSIFIER; DATATYPE; STRUCT;
     ITEM; TYPE; MULTIPLICITY; FEATURE; FLOW; SUCCESSION; TRANSITION; FRAME;
     CONCERN; STAKEHOLDER; CONSTRAINT; ACTOR; SUBJECT; OBJECTIVE; STEP;
     FILTER; FORK; JOIN; MERGE; DECIDE; VERIFICATION ]}.

Definition _BODY_ONLY_KEYWORDS : gset TokenType :=
  {[ PERFORM; EXHIBIT; SATISFY; VERIFY; EXPOSE; SEND; ACCEPT; ASSERT;
     INCLUDE; BIND; ALIAS; DEPENDENCY; SPECIALIZATION; CONJUGATION; TYPING;
     FEATURING; DISJOINING; REDEFINES; SUBSETS; MEMBER; ENTRY; DO; EXIT;
     WHEN; ELSE; IF ]}.

Definition _SEQUENCE_KEYWORDS : gset TokenType := {[ FIRST; THEN ]}.

Definition _DIRECTION_KEYWORDS : gset TokenType := {[ IN; OUT; INOUT ]}.

(** ** The cursor as a state monad

    The state is [_tokens[_pos:]]; a computation returns [None] when its
    fuel ran out. *)
Definition P (A : Type) : Type := list Token -> option (A * list Token).

Definition ret {A : Type} (a : A) : P A := fun ts => Some (a, ts).

Definition bind {A B : Type} (m : P A) (k : A -> P B) : P B :=
  fun ts =>
    match m ts with
    | Some (a, ts') => k a ts'
    | None => None
    end.

Definition out_of_fuel {A : Type} : P A := fun _ => None.

Notation "x <- m ;; k" := (bind m (fun x => k))
  (at level 100, m at next level, right associativity).
Notation "m ;;; k" := (bind m (fun _ => k))
  (at level 100, right associativity).

(** [__init__]: block comments are kept, line comments are dropped. *)
Definition init (tokens : list Token) : list Token :=
  filter (fun t => tok_type t <> LINE_COMMENT) tokens.

(** The token [_cur] and [_peek] return past the end of the list. *)
Definition EOF_token : Token := mkToken EOF "" 0 0.

Definition _cur : P Token :=
  fun ts => Some (match ts with t :: _ => t | [] => EOF_token end, ts).

Definition _peek : P Token :=
  fun ts => Some (match ts with _ :: t :: _ => t | _ => EOF_token end, ts).

Definition _advance : P Token :=
  fun ts =>
    Some (match ts with t :: r => (t, r) | [] => (EOF_token, []) end).

Definition _at (types : list TokenType) : P bool :=
  tok <- _cur ;; ret (bool_decide (tok_type tok ∈ types)).

Definition _eat (types : list TokenType) : P (option Token) :=
  b <- _at types ;;
  if b then (t <- _advance ;; ret (Some t)) else ret None.

(** [cur().type in S] for one of the module's keyword sets. *)
Definition cur_in (S : gset TokenType) : P bool :=
  tok <- _cur ;; ret (bool_decide (tok_type tok ∈ S)).

(** ** Utility *)

Definition _strip_comment (text : string) : string :=
  let s := Py.strip text in
  let s := if Py.startswith s "/*" then Py.drop_front 2 s else s in
  let s := if Py.endswith s "*/" then Py.drop_back 2 s else s in
  let lines :=
    map (fun ln => Py.strip (Py.lstrip_chars ["*"%char] (Py.strip ln)))
      (Py.splitlines s) in
  Py.strip
    (Py.join (String Py.LF EmptyString)
       (List.filter (fun ln => negb (String.eqb ln "")) lines)).

(** ** Sub-parsers for names, types, multiplicity *)

Definition _parse_name_token : P (option string) :=
  b <- _at [IDENTIFIER] ;;
  if b then (t <- _advance ;; ret (Some (tok_value t)))
  else
    b <- _at [STRING] ;;
    if b
    then (t <- _advance ;; ret (Some (Py.strip_chars ["'"%char] (tok_value t))))
    else ret None.

Definition _parse_identification : P (option string) :=
  lt <- _eat [LT] ;;
  (if is_some lt
   then (_parse_name_token ;;; _eat [GT] ;;; ret tt)
   else ret tt) ;;;
  _parse_name_token.

Definition _eat_identification : P unit :=
  _parse_identification ;;; ret tt.

(** [parts.append(x)] guarded by [if x:]. *)
Definition append_if_truthy (parts : list string) (x : option string)
  : list string :=
  match x with
  | Some s => if Py.truthy x then parts ++ [s] else parts
  | None => parts
  end.

Fixpoint qualified_name_loop (fuel : nat) (parts : list string)
  : P (list string) :=
  match fuel with
  | O => out_of_fuel
  | S fuel' =>
      b <- _at [COLON_COLON; DOT] ;;
      if b then
        _advance ;;;
        seg <- _parse_name_token ;;
        if Py.truthy seg
        then qualified_name_loop fuel' (append_if_truthy parts seg)
        else
          star <- _eat [STAR] ;;
          if is_some star then qualified_name_loop fuel' (parts ++ ["*"])
          else qualified_name_loop fuel' parts
      else ret parts
  end.

Definition _parse_qualified_name (fuel : nat) : P string :=
  tok <- _parse_name_token ;;
  parts <- qualified_name_loop fuel (append_if_truthy [] tok) ;;
  ret (Py.join "::" parts).

Fixpoint multiplicity_loop (fuel : nat) (parts : list string)
  : P (list string) :=
  match fuel with
  | O => out_of_fuel
  | S fuel' =>
      b <- _at [RBRACK; EOF] ;;
      if b then ret parts
      else tok <- _advance ;; multiplicity_loop fuel' (parts ++ [tok_value tok])
  end.

Definition _parse_multiplicity (fuel : nat) : P string :=
  lb <- _eat [LBRACK] ;;
  if is_some lb then
    parts <- multiplicity_loop fuel [] ;;
    _eat [RBRACK] ;;;
    ret ("[" +:+ Py.join "" parts +:+ "]")
  else ret "".

(** ** Error recovery helpers *)

Fixpoint skip_block_loop (fuel : nat) (depth : Z) : P unit :=
  match fuel with
  | O => out_of_fuel
  | S fuel' =>
      b <- _at [EOF] ;;
      if negb b && (0 <? depth) then
        lb <- _eat [LBRACE] ;;
        if is_some lb then skip_block_loop fuel' (depth + 1)
        else
          rb <- _eat [RBRACE] ;;
          if is_some rb then skip_block_loop fuel' (depth - 1)
          else _advance ;;; skip_block_loop fuel' depth
      else ret tt
  end.

Definition _skip_block (fuel : nat) : P unit := skip_block_loop fuel 1.

Fixpoint skip_to_end_loop (fuel : nat) : P unit :=
  match fuel with
  | O => out_of_fuel
  | S fuel' =>
      b <- _at [SEMI; LBRACE; RBRACE; EOF] ;;
      if b then ret tt else _advance ;;; skip_to_end_loop fuel'
  end.

(** [_skip_to_end] returns [None] on every path. *)
Definition _skip_to_end (fuel : nat) (line col : Z) : P (option Element) :=
  skip_to_end_loop fuel ;;;
  semi <- _eat [SEMI] ;;
  if is_some semi then ret None
  else
    lb <- _eat [LBRACE] ;;
    (if is_some lb then _skip_block fuel else ret tt) ;;;
    ret None.

Fixpoint skip_expression_loop (fuel : nat) (depth : Z) : P unit :=
  match fuel with
  | O => out_of_fuel
  | S fuel' =>
      eof <- _at [EOF] ;;
      if eof then ret tt
      else
        opening <- _at [LBRACE; LPAREN; LBRACK] ;;
        if opening then _advance ;;; skip_expression_loop fuel' (depth + 1)
        else
          closing <- _at [RBRACE; RPAREN; RBRACK] ;;
          if closing then
            if depth =? 0 then ret tt
            else _advance ;;; skip_expression_loop fuel' (depth - 1)
          else
            semi <- _at [SEMI] ;;
            if semi && (depth =? 0) then _advance ;;; ret tt
            else _advance ;;; skip_expression_loop fuel' depth
  end.

Definition _skip_expression (fuel : nat) : P unit :=
  skip_expression_loop fuel 0.

(** ** Elements

    [_parse_element_tail] calls [_parse_body] for a nested body:
    [parse_body_rec] is that call, made with the fuel left for it. *)
Section Elements.

Variable parse_body_rec : bool -> P (list Element).
Variable fuel : nat.

Fixpoint specializes_loop (n : nat) (specs : list string) : P (list string) :=
  match n with
  | O => out_of_fuel
  | S n' =>
      comma <- _eat [COMMA] ;;
      if is_some comma then
        q <- _parse_qualified_name fuel ;;
        specializes_loop n' (specs ++ [q])
      else ret specs
  end.

(** The loop that takes [elem.doc] from the first [doc] child. *)
Fixpoint doc_from_children (children : list Element) (d : option string)
  : option string :=
  match children with
  | [] => d
  | child :: rest =>
      if String.eqb (kind child) "doc" && negb (is_some d) then doc child
      else doc_from_children rest d
  end.

Definition _parse_element_tail (elem : Element) : P Element :=
  (* Type annotation   : TypeName [multiplicity] *)
  colon <- _eat [COLON] ;;
  elem <- (if is_some colon then
             _eat [TYPED] ;;;
             q <- _parse_qualified_name fuel ;;
             let elem := set_type_ref elem (Some q) in
             lb <- _at [LBRACK] ;;
             if lb
             then (m <- _parse_multiplicity fuel ;;
                   ret (set_multiplicity elem (Some m)))
             else ret elem
           else ret elem) ;;
  (* Specialisation  :> TypeRef, ...  or  specializes TypeRef, ... *)
  sp1 <- _at [COLON_GT] ;;
  sp2 <- _at [SPECIALIZES] ;;
  elem <- (if sp1 || sp2 then
             _advance ;;;
             q <- _parse_qualified_name fuel ;;
             specs <- specializes_loop fuel (specializes elem ++ [q]) ;;
             ret (set_specializes elem specs)
           else ret elem) ;;
  (* Redefinition :>> name: the value is skipped *)
  rd1 <- _at [COLON_GT_GT] ;;
  rd2 <- _at [REDEFINES] ;;
  (if rd1 || rd2
   then (_advance ;;; _parse_qualified_name fuel ;;; ret tt)
   else ret tt) ;;;
  (* Multiplicity if not already consumed *)
  lb <- _at [LBRACK] ;;
  elem <- (if negb (is_some (multiplicity elem)) && lb
           then (m <- _parse_multiplicity fuel ;;
                 ret (set_multiplicity elem (Some m)))
           else ret elem) ;;
  (* Default value  = expr ; *)
  eq <- _eat [EQ] ;;
  if is_some eq then (_skip_expression fuel ;;; ret elem)
  else
    (* Body  { ... } *)
    lbrace <- _eat [LBRACE] ;;
    if is_some lbrace then
      children <- parse_body_rec false ;;
      let elem := set_body elem children in
      let elem := set_doc elem (doc_from_children children (doc elem)) in
      _eat [RBRACE] ;;;
      ret elem
    else
      (* Semicolon terminator *)
      _eat [SEMI] ;;; ret elem.

Fixpoint import_path_loop (n : nat) (path_parts : list string)
  : P (list string) :=
  match n with
  | O => out_of_fuel
  | S n' =>
      cc <- _eat [COLON_COLON] ;;
      if is_some cc then
        nm <- _parse_name_token ;;
        import_path_loop n' (append_if_truthy path_parts nm)
      else ret path_parts
  end.

Definition _parse_import (line col : Z) (modifiers : list string)
  : P Element :=
  _advance ;;;
  _eat [ALL] ;;;
  nm <- _parse_name_token ;;
  path_parts <- import_path_loop fuel (append_if_truthy [] nm) ;;
  let is_star := false in
  (* namespace import:  ...::*  *)
  let '(is_star, path_parts) :=
    match last path_parts with
    | Some l =>
        if String.eqb l "*" then (true, removelast path_parts)
        else (is_star, path_parts)
    | None => (is_star, path_parts)
    end in
  star <- _eat [STAR] ;;
  let is_star := if is_some star then true else is_star in
  let path := Py.join "::" path_parts in
  lbrace <- _eat [LBRACE] ;;
  (if is_some lbrace then _skip_block fuel else (_eat [SEMI] ;;; ret tt)) ;;;
  ret (mkElement "import" false None None [] None [] None modifiers line col
         (Some path) is_star).

Definition _parse_doc (line col : Z) (pending : option Token) : P Element :=
  _advance ;;;
  _eat_identification ;;;
  loc <- _eat [LOCALE] ;;
  (if is_some loc then (_eat [DOUBLE_STRING] ;;; ret tt) else ret tt) ;;;
  bc <- _at [BLOCK_COMMENT] ;;
  doc_text <- (if bc
               then (t <- _advance ;; ret (Some (_strip_comment (tok_value t))))
               else ret (match pending with
                         | Some p => Some (_strip_comment (tok_value p))
                         | None => None
                         end)) ;;
  ret (mkElement "doc" false None None [] None [] doc_text [] line col
         None false).

Fixpoint about_loop (n : nat) : P unit :=
  match n with
  | O => out_of_fuel
  | S n' =>
      comma <- _eat [COMMA] ;;
      if is_some comma then (_parse_qualified_name fuel ;;; about_loop n')
      else ret tt
  end.

Definition _parse_comment_kw (line col : Z) : P Element :=
  _advance ;;;
  _eat_identification ;;;
  about <- _eat [ABOUT] ;;
  (if is_some about
   then (_parse_qualified_name fuel ;;; about_loop fuel)
   else ret tt) ;;;
  loc <- _eat [LOCALE] ;;
  (if is_some loc then (_eat [DOUBLE_STRING] ;;; ret tt) else ret tt) ;;;
  bc <- _at [BLOCK_COMMENT] ;;
  doc_text <- (if bc
               then (t <- _advance ;; ret (Some (_strip_comment (tok_value t))))
               else ret None) ;;
  ret (mkElement "comment" false None None [] None [] doc_text [] line col
         None false).

Definition _parse_require_or_assume (line col : Z) (modifiers : list string)
  : P (option Element) :=
  _advance ;;;
  c <- _eat [CONSTRAINT] ;;
  if is_some c then
    let elem :=
      mkElement "require_constraint" false None None [] None [] None
        modifiers line col None false in
    lbrace <- _eat [LBRACE] ;;
    (if is_some lbrace then _skip_block fuel else (_eat [SEMI] ;;; ret tt)) ;;;
    ret (Some elem)
  else _skip_to_end fuel line col.

Definition doc_of_pending (elem : Element) (pending : option Token)
  : Element :=
  match pending with
  | Some p => set_doc elem (Some (_strip_comment (tok_value p)))
  | None => elem
  end.

Definition _parse_use_case (line col : Z) (modifiers : list string)
  (pending : option Token) : P Element :=
  _advance ;;;
  _advance ;;;
  d <- _eat [DEF] ;;
  let is_def := is_some d in
  nm <- _parse_identification ;;
  let elem :=
    mkElement (if is_def then "use_case_def" else "use_case") is_def nm None
      [] None [] None modifiers line col None false in
  _parse_element_tail (doc_of_pending elem pending).

Fixpoint prefix_modifiers_loop (n : nat) (modifiers : list string)
  : P (list string) :=
  match n with
  | O => out_of_fuel
  | S n' =>
      b <- cur_in _PREFIX_MODIFIERS ;;
      if b
      then (t <- _advance ;; prefix_modifiers_loop n' (modifiers ++ [tok_value t]))
      else ret modifiers
  end.

(** The parameter form [in name : Type [mult] ;] of [_parse_element]. *)
Definition parse_parameter (line col : Z) (modifiers : list string)
  : P (option Element) :=
  t <- _advance ;;
  let param_name := tok_value t in
  colon <- _eat [COLON] ;;
  param_type <- (if is_some colon
                 then (q <- _parse_qualified_name fuel ;; ret (Some q))
                 else ret None) ;;
  lb <- _at [LBRACK] ;;
  mult <- (if lb then (m <- _parse_multiplicity fuel ;; ret (Some m))
           else ret None) ;;
  _eat [SEMI] ;;;
  ret (Some (mkElement "parameter" false (Some param_name) param_type []
               mult [] None modifiers line col None false)).

Definition _parse_element (pending_comment : option Token)
  : P (option Element) :=
  semi <- _eat [SEMI] ;;
  if is_some semi then ret None else
  c <- _cur ;;
  let line := tok_line c in
  let col := tok_col c in
  (* visibility and prefix modifiers *)
  vis <- cur_in _VISIBILITY ;;
  modifiers <- (if vis then (t <- _advance ;; ret [tok_value t]) else ret []) ;;
  modifiers <- prefix_modifiers_loop fuel modifiers ;;
  (* stray ':>>', '::>', ':>' lines *)
  b <- _at [COLON_GT_GT; COLON_COLON_GT; COLON_GT] ;;
  if b then _skip_to_end fuel line col else
  b <- _at [IMPORT] ;;
  if b then (e <- _parse_import line col modifiers ;; ret (Some e)) else
  b <- _at [DOC] ;;
  if b then (e <- _parse_doc line col pending_comment ;; ret (Some e)) else
  b <- _at [COMMENT] ;;
  if b then (e <- _parse_comment_kw line col ;; ret (Some e)) else
  b <- _at [REQUIRE; ASSUME] ;;
  if b then _parse_require_or_assume line col modifiers else
  (* first name; / then name; *)
  b <- cur_in _SEQUENCE_KEYWORDS ;;
  if b then
    kw <- _advance ;;
    seq_name <- _parse_name_token ;;
    _eat [SEMI] ;;;
    ret (Some (Element_new (tok_value kw) false seq_name None line col))
  else
  (* return name : Type ; *)
  r <- _eat [RETURN] ;;
  if is_some r then
    ret_name <- _parse_name_token ;;
    colon <- _eat [COLON] ;;
    ret_type <- (if is_some colon
                 then (q <- _parse_qualified_name fuel ;; ret (Some q))
                 else ret None) ;;
    _eat [SEMI] ;;;
    ret (Some (set_modifiers
                 (Element_new "return_param" false ret_name ret_type line col)
                 ["return"]))
  else
  (* in / out / inout *)
  dir <- _at [IN; OUT; INOUT] ;;
  dm <- (if dir
         then (t <- _advance ;;
               ret (Some (tok_value t), modifiers ++ [tok_value t]))
         else ret (None, modifiers)) ;;
  let direction : option string := fst dm in
  let modifiers := snd dm in
  (* use case [def] *)
  use <- _at [USE] ;;
  pk <- _peek ;;
  if use && bool_decide (tok_type pk = CASE)
  then (e <- _parse_use_case line col modifiers pending_comment ;;
        ret (Some e))
  else
  b <- cur_in _BODY_ONLY_KEYWORDS ;;
  if b then _skip_to_end fuel line col else
  b <- _at [AT_SIGN; AT_AT] ;;
  if b then _skip_to_end fuel line col else
  (* general element *)
  ek <- cur_in _ELEMENT_KEYWORDS ;;
  if negb ek then
    ident <- _at [IDENTIFIER] ;;
    if is_some direction && ident then parse_parameter line col modifiers
    else
      (* unknown token: skip it and try to recover *)
      stop <- _at [EOF; RBRACE] ;;
      (if negb stop then (_advance ;;; ret tt) else ret tt) ;;;
      ret None
  else
    primary <- _advance ;;
    d <- _eat [DEF] ;;
    let is_def := is_some d in
    let kind := tok_value primary +:+ (if is_def then "_def" else "") in
    nm <- _parse_identification ;;
    let elem :=
      mkElement kind is_def nm None [] None [] None modifiers line col
        None false in
    e <- _parse_element_tail (doc_of_pending elem pending_comment) ;;
    ret (Some e).

End Elements.

(** ** Body / element lists *)

Fixpoint pending_comment_loop (fuel : nat) (pending_comment : option Token)
  : P (option Token) :=
  match fuel with
  | O => out_of_fuel
  | S fuel' =>
      b <- _at [BLOCK_COMMENT] ;;
      if b then (t <- _advance ;; pending_comment_loop fuel' (Some t))
      else ret pending_comment
  end.

(** One iteration of the [while True] loop of [_parse_body]; [elements] is
    the list built so far, [again] the rest of the loop and of the nested
    calls, which runs on the fuel that is left. *)
Definition parse_body_step
  (again : bool -> list Element -> P (list Element)) (fuel : nat)
  (top_level : bool) (elements : list Element) : P (list Element) :=
  eof <- _at [EOF] ;;
  if eof then ret elements else
  rb <- _at [RBRACE] ;;
  if negb top_level && rb then ret elements else
  pending_comment <- pending_comment_loop fuel None ;;
  eof <- _at [EOF] ;;
  if eof then ret elements else
  rb <- _at [RBRACE] ;;
  if negb top_level && rb then ret elements else
  elem <- _parse_element (fun tl => again tl []) fuel pending_comment ;;
  again top_level
    (match elem with
     | Some e => elements ++ [e]
     | None => elements
     end).

Fixpoint parse_body_loop (fuel : nat) (top_level : bool)
  (elements : list Element) : P (list Element) :=
  match fuel with
  | O => out_of_fuel
  | S fuel' =>
      parse_body_step (parse_body_loop fuel') fuel' top_level elements
  end.

Definition _parse_body (fuel : nat) (top_level : bool) : P (list Element) :=
  parse_body_loop fuel top_level [].

(** [Parser(tokens, filename).parse()]. *)
Definition parse (fuel : nat) (tokens : list Token) (filename : string)
  : option File :=
  match _parse_body fuel true (init tokens) with
  | Some (elements, _) => Some (mkFile filename elements)
  | None => None
  end.

End Parser.

(** The pipeline of [_lint_file] up to the tree. *)
Definition parse_text (fuel : nat) (text filename : string) : option File :=
  match Lexer.tokenize text with
  | Some tokens => Parser.parse fuel tokens filename
  | None => None
  end.

(* ===================================================================== *)
(** * [diagnostic.py] *)
(* ===================================================================== *)

Inductive Severity : Set := ERROR | WARNING | INFO.

Definition Severity_value (s : Severity) : string :=
  match s with ERROR => "error" | WARNING => "warning" | INFO => "info" end.

Definition Severity_order (s : Severity) : Z :=
  match s with ERROR => 0 | WARNING => 1 | INFO => 2 end.

Record Diagnostic : Type := mkDiagnostic {
  rule_id : string;
  severity : Severity;
  message : string;
  d_filename : string;
  d_line : Z;
  d_col : Z
}.

(** [Diagnostic.__lt__]: the tuples [(filename, line, col)] compared as
    Python compares tuples, at the first position where they differ. *)
Definition __lt__ (self other : Diagnostic) : bool :=
  if negb (String.eqb (d_filename self) (d_filename other))
  then String.ltb (d_filename self) (d_filename other)
  else if negb (d_line self =? d_line other)
  then d_line self <? d_line other
  else d_col self <? d_col other.

(** [sorted(diags)].  Python's sort is stable and compares elements with
    [__lt__] only; on such an order every stable sort returns the same
    list, written here as an insertion sort that puts an element in front
    of the first later element that is not smaller. *)
Fixpoint insert_diag (x : Diagnostic) (l : list Diagnostic)
  : list Diagnostic :=
  match l with
  | [] => [x]
  | y :: r => if __lt__ y x then y :: insert_diag x r else x :: y :: r
  end.

Fixpoint sorted (l : list Diagnostic) : list Diagnostic :=
  match l with
  | [] => []
  | x :: r => insert_diag x (sorted r)
  end.

(* ===================================================================== *)
(** * [rules/base.py] *)
(* ===================================================================== *)

Module BaseRule.

Definition _diag (rule_id : string) (severity : Severity) (message : string)
  (filename : string) (line col : Z) : Diagnostic :=
  mkDiagnostic rule_id severity message filename line col.

Definition Visitor : Type :=
  Element -> string -> option Element -> list Diagnostic.

(** [_walk] on one element: the visitor's findings, then the walk of the
    element's body with the element as parent. *)
Fixpoint walk_elem (filename : string) (visitor : Visitor)
  (parent : option Element) (elem : Element) {struct elem}
  : list Diagnostic :=
  visitor elem filename parent
  ++ (fix walk_body (elements : list Element) : list Diagnostic :=
        match elements with
        | [] => []
        | child :: rest =>
            walk_elem filename visitor (Some elem) child ++ walk_body rest
        end) (body elem).

Fixpoint _walk (elements : list Element) (filename : string)
  (visitor : Visitor) (parent : option Element) : list Diagnostic :=
  match elements with
  | [] => []
  | elem :: rest =>
      walk_elem filename visitor parent elem
      ++ _walk rest filename visitor parent
  end.

End BaseRule.

(** ['...{x}...'] of an f-string with an [Optional[str]] known to be set. *)
Definition fmt (o : option string) : string := default "None" o.

(* ===================================================================== *)
(** * [rules/naming.py] *)
(* ===================================================================== *)

Module NamingRule.

Definition _DEF_KINDS : gset string :=
  {[ "part_def"; "action_def"; "requirement_def"; "attribute_def";
     "port_def"; "enum_def"; "interface_def"; "connection_def";
     "connector_def"; "allocation_def"; "metadata_def"; "behavior_def";
     "function_def"; "predicate_def"; "calc_def"; "analysis_def";
     "state_def"; "rendering_def"; "view_def"; "viewpoint_def";
     "occurrence_def"; "interaction_def"; "class_def"; "assoc_def";
     "classifier_def"; "datatype_def"; "struct_def"; "item_def";
     "type_def"; "feature_def"; "flow_def"; "succession_def";
     "transition_def"; "frame_def"; "concern_def"; "stakeholder_def";
     "constraint_def"; "use_case_def"; "verification_def" ]}.

Definition _USAGE_KINDS : gset string :=
  {[ "part"; "action"; "requirement"; "attribute"; "port"; "interface";
     "connection"; "connector"; "allocation"; "metadata"; "behavior";
     "function"; "predicate"; "calc"; "analysis"; "state"; "rendering";
     "view"; "viewpoint"; "occurrence"; "interaction"; "class"; "assoc";
     "classifier"; "datatype"; "struct"; "item"; "type"; "feature";
     "flow"; "succession"; "transition"; "frame"; "concern"; "stakeholder";
     "constraint"; "use_case" ]}.

Definition _PACKAGE_KINDS : gset string := {[ "package"; "namespace" ]}.

Definition is_AZ (c : ascii) : bool := Py.in_range 65 90 c.
Definition is_az (c : ascii) : bool := Py.in_range 97 122 c.
Definition is_09 (c : ascii) : bool := Py.in_range 48 57 c.

(** [re.match(r"^[A-Z][a-zA-Z0-9]*$", name)]. *)
Definition _is_pascal_case (name : string) : bool :=
  Py.re_match_first_rest is_AZ (fun c => is_az c || is_AZ c || is_09 c) name.

(** [re.match(r"^[a-z][a-zA-Z0-9_]*$", name)]. *)
Definition _is_camel_or_snake (name : string) : bool :=
  Py.re_match_first_rest is_az
    (fun c => is_az c || is_AZ c || is_09 c || Py.chr_eq c "_") name.

Definition _is_quoted (name : string) : bool := Py.startswith name "'".

Definition is_word_sep (c : ascii) : bool := Py.chr_eq c "_" || Py.isspace c.

Definition nonempty (w : string) : bool := negb (String.eqb w "").

Definition _to_pascal (name : string) : string :=
  let words := Py.re_split_runs is_word_sep name in
  Py.join "" (map Py.capitalize (List.filter nonempty words)).

Definition _to_camel (name : string) : string :=
  let words := Py.re_split_runs is_word_sep name in
  match words with
  | [] => name
  | w0 :: ws =>
      Py.lower w0 +:+ Py.join "" (map Py.capitalize (List.filter nonempty ws))
  end.

Definition _visit (elem : Element) (filename : string)
  (parent : option Element) : list Diagnostic :=
  match name elem with
  | None => []
  | Some name =>
      if negb (nonempty name) || _is_quoted name then []
      else if bool_decide (kind elem ∈ _PACKAGE_KINDS) then
        if negb (_is_pascal_case name) then
          [BaseRule._diag "W003" WARNING
             ("Package/namespace '" +:+ name +:+ "' should use PascalCase "
              +:+ "(e.g. '" +:+ _to_pascal name +:+ "').")
             filename (line elem) (col elem)]
        else []
      else if bool_decide (kind elem ∈ _DEF_KINDS) then
        if negb (_is_pascal_case name) then
          [BaseRule._diag "W001" WARNING
             ("Definition '" +:+ name +:+ "' should use PascalCase "
              +:+ "(e.g. '" +:+ _to_pascal name +:+ "').")
             filename (line elem) (col elem)]
        else []
      else if bool_decide (kind elem ∈ _USAGE_KINDS) then
        if negb (_is_camel_or_snake name) then
          [BaseRule._diag "W002" WARNING
             ("Usage '" +:+ name +:+ "' should use camelCase or snake_case "
              +:+ "(e.g. '" +:+ _to_camel name +:+ "').")
             filename (line elem) (col elem)]
        else []
      else []
  end.

Definition check (file : File) : list Diagnostic :=
  BaseRule._walk (elements file) (filename file) _visit None.

End NamingRule.

(* ===================================================================== *)
(** * [rules/documentation.py] *)
(* ===================================================================== *)

Module DocumentationRule.

Definition _DEF_KINDS : gset string :=
  {[ "part_def"; "action_def"; "requirement_def"; "attribute_def";
     "port_def"; "enum_def"; "interface_def"; "connection_def";
     "connector_def"; "allocation_def"; "metadata_def"; "behavior_def";
     "function_def"; "predicate_def"; "calc_def"; "analysis_def";
     "state_def"; "rendering_def"; "view_def"; "viewpoint_def";
     "occurrence_def"; "interaction_def"; "class_def"; "assoc_def";
     "classifier_def"; "datatype_def"; "struct_def"; "item_def";
     "use_case_def"; "constraint_def" ]}.

Definition _PACKAGE_KINDS : gset string := {[ "package"; "namespace" ]}.

Definition _MIN_DOC_LEN : nat := 5.

Definition _visit (elem : Element) (filename : string)
  (parent : option Element) : list Diagnostic :=
  let is_def := bool_decide (kind elem ∈ _DEF_KINDS) in
  let is_req := String.eqb (kind elem) "requirement_def" in
  if negb is_def && negb (bool_decide (kind elem ∈ _PACKAGE_KINDS)) then []
  else if negb (Py.truthy (name elem)) then []
  else
    let has_doc :=
      match doc elem with
      | Some d => (_MIN_DOC_LEN <=? String.length (Py.strip d))%nat
      | None => false
      end in
    if is_req && negb has_doc then
      [BaseRule._diag "W011" WARNING
         ("Requirement definition '" +:+ fmt (name elem)
          +:+ "' is missing a doc block. "
          +:+ "Requirements should document their intent.")
         filename (line elem) (col elem)]
    else if is_def && negb has_doc then
      [BaseRule._diag "W010" INFO
         ("Definition '" +:+ fmt (name elem) +:+ "' has no doc block.")
         filename (line elem) (col elem)]
    else [].

Definition check (file : File) : list Diagnostic :=
  BaseRule._walk (elements file) (filename file) _visit None.

End DocumentationRule.

(* ===================================================================== *)
(** * [rules/structure.py] *)
(* ===================================================================== *)

Module StructureRule.

Definition _SUBSTANTIVE_DEFS : gset string :=
  {[ "part_def"; "action_def"; "requirement_def"; "interface_def";
     "connection_def"; "port_def"; "behavior_def"; "function_def";
     "predicate_def"; "calc_def"; "analysis_def"; "state_def";
     "use_case_def" ]}.

Definition _TYPED_USAGES : gset string :=
  {[ "part"; "port"; "attribute"; "item" ]}.

Definition kind_in (kinds : list string) (c : Element) : bool :=
  bool_decide (kind c ∈ kinds).

Definition is_nil {A : Type} (l : list A) : bool :=
  match l with [] => true | _ => false end.

Definition _visit (elem : Element) (filename : string)
  (parent : option Element) : list Diagnostic :=
  let named := Py.truthy (name elem) in
  (* empty definition body *)
  (if bool_decide (kind elem ∈ _SUBSTANTIVE_DEFS) && named then
     let real_body :=
       List.filter (fun c => negb (kind_in ["doc"; "comment"] c)) (body elem) in
     if is_nil real_body then
       [BaseRule._diag "W020" INFO
          ("Definition '" +:+ fmt (name elem) +:+ "' has an empty body.")
          filename (line elem) (col elem)]
     else []
   else [])
  ++
  (* requirement definition checks *)
  (if String.eqb (kind elem) "requirement_def" && named then
     let kinds_in_body : gset string := list_to_set (map kind (body elem)) in
     let has_sub_reqs :=
       existsb (kind_in ["requirement"; "requirement_def"]) (body elem) in
     (if negb (bool_decide ("subject" ∈ kinds_in_body)) && negb has_sub_reqs
      then
        [BaseRule._diag "W021" WARNING
           ("Requirement definition '" +:+ fmt (name elem)
            +:+ "' has no 'subject' declaration.")
           filename (line elem) (col elem)]
      else [])
     ++
     (if negb (bool_decide ("require_constraint" ∈ kinds_in_body))
         && negb has_sub_reqs
      then
        [BaseRule._diag "W022" INFO
           ("Requirement definition '" +:+ fmt (name elem)
            +:+ "' has no 'require constraint' body.")
           filename (line elem) (col elem)]
      else [])
   else [])
  ++
  (* typed usages without type annotation *)
  (if bool_decide (kind elem ∈ _TYPED_USAGES) && named
      && negb (is_some (type_ref elem)) && is_nil (specializes elem)
   then
     [BaseRule._diag "W023" INFO
        ("Usage '" +:+ fmt (name elem) +:+ "' (" +:+ kind elem
         +:+ ") has no type annotation.")
        filename (line elem) (col elem)]
   else [])
  ++
  (* action definition should contain flow sequencing *)
  (if String.eqb (kind elem) "action_def" && named
      && negb (is_nil (body elem))
   then
     let has_sub_actions := existsb (kind_in ["action"]) (body elem) in
     let has_flow := existsb (kind_in ["first"; "then"]) (body elem) in
     if has_sub_actions && negb has_flow then
       [BaseRule._diag "I001" INFO
          ("Action definition '" +:+ fmt (name elem) +:+ "' defines sub-actions "
           +:+ "but has no 'first'/'then' sequencing.")
          filename (line elem) (col elem)]
     else []
   else []).

Definition check (file : File) : list Diagnostic :=
  BaseRule._walk (elements file) (filename file) _visit None.

End StructureRule.

(* ===================================================================== *)
(** * [rules/scope.py] *)
(* ===================================================================== *)

Module ScopeRule.

Definition _NAMED_KINDS : gset string :=
  {[ "part_def"; "action_def"; "requirement_def"; "attribute_def";
     "port_def"; "enum_def"; "interface_def"; "connection_def";
     "connector_def"; "allocation_def"; "metadata_def"; "behavior_def";
     "function_def"; "predicate_def"; "calc_def"; "analysis_def";
     "state_def"; "view_def"; "viewpoint_def"; "use_case_def";
     "occurrence_def"; "class_def"; "assoc_def"; "classifier_def";
     "datatype_def"; "struct_def"; "item_def"; "type_def";
     "part"; "action"; "requirement"; "attribute"; "port"; "item";
     "flow"; "constraint"; "subject" ]}.

(** ** Duplicate names *)

Definition duplicate_diag (filename : string) (elem first : Element)
  : Diagnostic :=
  BaseRule._diag "W030" WARNING
    ("Duplicate name '" +:+ fmt (name elem) +:+ "' in this scope "
     +:+ "(first declared at line " +:+ Py.str_of_int (line first) +:+ ").")
    filename (line elem) (col elem).

(** Whether the element enters the duplicate check of its scope. *)
Definition contributes (elem : Element) : bool :=
  bool_decide (kind elem ∈ _NAMED_KINDS) && Py.truthy (name elem).

Definition name_key (elem : Element) : string := Py.lower (fmt (name elem)).

Section Duplicates.

(** [in_body elem] is the recursive call [_check_duplicates(elem.body,
    filename)]. *)
Variable in_body : Element -> list Diagnostic.
Variable filename : string.

(** The loop of [_check_duplicates] over one scope, with its dictionary
    [seen] of first declarations. *)
Fixpoint duplicates_loop (elements : list Element)
  (seen : gmap string Element) : list Diagnostic :=
  match elements with
  | [] => []
  | elem :: rest =>
      let key := name_key elem in
      let found := if contributes elem then seen !! key else None in
      let seen' :=
        if contributes elem && negb (is_some (seen !! key))
        then <[ key := elem ]> seen else seen in
      match found with
      | Some first => [duplicate_diag filename elem first]
      | None => []
      end
      ++ (if negb (StructureRule.is_nil (body elem)) then in_body elem else [])
      ++ duplicates_loop rest seen'
  end.

End Duplicates.

Fixpoint duplicates_in_body (filename : string) (elem : Element)
  {struct elem} : list Diagnostic :=
  duplicates_loop (duplicates_in_body filename) filename (body elem) ∅.

Definition _check_duplicates (elements : list Element) (filename : string)
  : list Diagnostic :=
  duplicates_loop (duplicates_in_body filename) filename elements ∅.

(** ** Helpers *)

(** [_collect_imports(elements, out)]: [out] is extended in place. *)
Fixpoint collect_imports_elem (elem : Element) (out : list Element)
  {struct elem} : list Element :=
  let out := if String.eqb (kind elem) "import" then out ++ [elem] else out in
  (fix in_body (elements : list Element) (out : list Element)
     : list Element :=
     match elements with
     | [] => out
     | child :: rest => in_body rest (collect_imports_elem child out)
     end) (body elem) out.

Fixpoint _collect_imports (elements : list Element) (out : list Element)
  : list Element :=
  match elements with
  | [] => out
  | elem :: rest => _collect_imports rest (collect_imports_elem elem out)
  end.

(** The names one element adds to [out]: the segments of its [type_ref]
    and of each of its [specializes]. *)
Definition own_references (elem : Element) : gset string :=
  (if Py.truthy (type_ref elem)
   then list_to_set (Py.split "::" (fmt (type_ref elem))) else ∅)
  ∪ list_to_set (flat_map (Py.split "::") (specializes elem)).

(** [_collect_references(elements, out)]: [out] is extended in place. *)
Fixpoint collect_references_elem (elem : Element) (out : gset string)
  {struct elem} : gset string :=
  let out := out ∪ own_references elem in
  (fix in_body (elements : list Element) (out : gset string)
     : gset string :=
     match elements with
     | [] => out
     | child :: rest => in_body rest (collect_references_elem child out)
     end) (body elem) out.

Fixpoint _collect_references (elements : list Element) (out : gset string)
  : gset string :=
  match elements with
  | [] => out
  | elem :: rest =>
      _collect_references rest (collect_references_elem elem out)
  end.

(** ** Unused imports *)

(** [referenced] as computed for one import with a non-empty path. *)
Definition referenced (imp : Element) (used_names : gset string) : bool :=
  let path := fmt (import_path imp) in
  let parts := Py.split "::" path in
  let root := default "" (head parts) in
  let leaf := default "" (last parts) in
  if import_star imp then
    existsb (fun name => Py.startswith name leaf || Py.startswith name root)
      (stdpp.base.elements used_names)
  else
    bool_decide (leaf ∈ used_names) || bool_decide (path ∈ used_names).

Definition unused_diag (filename : string) (imp : Element) : Diagnostic :=
  let label :=
    fmt (import_path imp) +:+ (if import_star imp then "::*" else "") in
  BaseRule._diag "W031" INFO
    ("Import '" +:+ label +:+ "' appears to be unused.")
    filename (line imp) (col imp).

Fixpoint unused_loop (filename : string) (used_names : gset string)
  (imports : list Element) : list Diagnostic :=
  match imports with
  | [] => []
  | imp :: rest =>
      (if negb (Py.truthy (import_path imp)) then []
       else if negb (referenced imp used_names)
       then [unused_diag filename imp] else [])
      ++ unused_loop filename used_names rest
  end.

Definition _check_unused_imports (file : File) : list Diagnostic :=
  let imports := _collect_imports (elements file) [] in
  if StructureRule.is_nil imports then []
  else
    let used_names := _collect_references (elements file) ∅ in
    unused_loop (filename file) used_names imports.

Definition check (file : File) : list Diagnostic :=
  _check_duplicates (elements file) (filename file)
  ++ _check_unused_imports file.

End ScopeRule.

(* ===================================================================== *)
(** * [checker.py] *)
(* ===================================================================== *)

Module Checker.

(** [rule.check(file)] is handed the caller's [File] object, not a copy:
    a rule is a computation on the state of that tree, returning its
    findings and the tree as it leaves it. *)
Definition Rule : Type := File -> list Diagnostic * File.

(** A [check] method that reads the tree and assigns to no attribute of
    it, which is what each of the four rules does. *)
Definition reading (check : File -> list Diagnostic) : Rule :=
  fun file => (check file, file).

Definition ALL_RULES : list Rule :=
  [ reading NamingRule.check; reading DocumentationRule.check;
    reading StructureRule.check; reading ScopeRule.check ].

(** [d for d in rule_diags if d.rule_id in rule_ids]. *)
Definition select (rule_ids : option (gset string))
  (rule_diags : list Diagnostic) : list Diagnostic :=
  match rule_ids with
  | Some ids => List.filter (fun d => bool_decide (rule_id d ∈ ids)) rule_diags
  | None => rule_diags
  end.

(** The loop over [ALL_RULES]; [diags] is the list built so far. *)
Fixpoint run_rules (rules : list Rule) (rule_ids : option (gset string))
  (diags : list Diagnostic) (file : File) : list Diagnostic * File :=
  match rules with
  | [] => (diags, file)
  | rule :: rest =>
      let '(rule_diags, file) := rule file in
      run_rules rest rule_ids (diags ++ select rule_ids rule_diags) file
  end.

(** The diagnostics in the order the rules produced them. *)
Definition collected (file : File) (rule_ids : option (gset string))
  : list Diagnostic :=
  fst (run_rules ALL_RULES rule_ids [] file).

(** [check_file] with the tree it leaves behind. *)
Definition check_file_run (file : File) (rule_ids : option (gset string))
  : list Diagnostic * File :=
  let '(diags, file) := run_rules ALL_RULES rule_ids [] file in
  (sorted diags, file).

Definition check_file (file : File) (rule_ids : option (gset string))
  : list Diagnostic :=
  fst (check_file_run file rule_ids).

End Checker.

(** The whole of [_lint_file]: tokenize, parse, check. *)
Definition lint (fuel : nat) (text filename : string)
  (rule_ids : option (gset string)) : option (list Diagnostic) :=
  match parse_text fuel text filename with
  | Some file => Some (Checker.check_file file rule_ids)
  | None => None
  end.

(* ===================================================================== *)
(** * [syslint.py] *)
(* ===================================================================== *)

Module SysLint.

(** What [open(path, "r", encoding="utf-8")] and [fh.read()] do with a
    path: they give the text of the file, raise [OSError] (no such file,
    no permission, a directory), or raise [UnicodeDecodeError] for a file
    that is not valid UTF-8 - a [ValueError], which [_lint_file] does not
    catch. *)
Inductive Read : Type :=
| Text (source : string)
| Raises_OSError
| Raises_UnicodeDecodeError.

Definition FileSystem : Type := string -> Read.

(** The exceptions that leave [main]. *)
Inductive Exception : Type :=
| UnicodeDecodeError
| SystemExit (status : Z).

(** How a call ends. *)
Inductive Outcome (A : Type) : Type :=
| Returns (a : A)
| Raises (e : Exception).

Arguments Returns {A} a.
Arguments Raises {A} e.

(** The namespace [_parse_args] returns, as far as [main] reads it to
    compute the diagnostics and the exit code.  [files] is declared with
    [nargs="+"], so it holds one path at least; [--min-severity] is one
    of argparse's three choices. *)
Record Args : Type := mkArgs {
  first_file : string;
  more_files : list string;
  rules : option string;
  min_severity : Severity
}.

Definition files (args : Args) : list string :=
  first_file args :: more_files args.

(** How [_parse_args] ends: [parse_args] returns the namespace, or it
    leaves the program by [SystemExit] - with status 2 for a command
    line it rejects (no FILE, an unknown option, a value that is not
    among the choices), with status 0 after [--help]. *)
Inductive Parsed : Type :=
| Namespace (args : Args)
| Exits (status : Z).

(** [_lint_file]: a file that cannot be opened gives no diagnostics (and
    a message on [stderr]); any other exception goes through. *)
Definition _lint_file (fuel : nat) (fs : FileSystem) (path : string)
  (rule_ids : option (gset string))
  : option (Outcome (list Diagnostic)) :=
  match fs path with
  | Raises_OSError => Some (Returns [])
  | Raises_UnicodeDecodeError => Some (Raises UnicodeDecodeError)
  | Text source =>
      match lint fuel source path rule_ids with
      | Some diags => Some (Returns diags)
      | None => None
      end
  end.

(** [{r.strip() for r in args.rules.split(",")}], under [if args.rules]. *)
Definition rule_ids_of (rules : option string) : option (gset string) :=
  match rules with
  | Some r =>
      if Py.truthy rules
      then Some (list_to_set (map Py.strip (Py.split "," r)))
      else None
  | None => None
  end.

(** [d.severity.order <= min_order]. *)
Definition reported (min_order : Z) (d : Diagnostic) : bool :=
  Severity_order (severity d) <=? min_order.

(** The loop of [main] over [args.files]; [all_diags] is the list built so
    far. *)
Fixpoint lint_files (fuel : nat) (fs : FileSystem) (paths : list string)
  (rule_ids : option (gset string)) (min_order : Z)
  (all_diags : list Diagnostic) : option (Outcome (list Diagnostic)) :=
  match paths with
  | [] => Some (Returns all_diags)
  | path :: rest =>
      match _lint_file fuel fs path rule_ids with
      | Some (Returns diags) =>
          let diags := List.filter (reported min_order) diags in
          lint_files fuel fs rest rule_ids min_order (all_diags ++ diags)
      | Some (Raises e) => Some (Raises e)
      | None => None
      end
  end.

Definition is_error (d : Diagnostic) : bool :=
  match severity d with ERROR => true | _ => false end.

(** The value [main] returns for the diagnostics it reported. *)
Definition exit_code (all_diags : list Diagnostic) : Z :=
  let has_errors := existsb is_error all_diags in
  let has_warnings_or_info :=
    match all_diags with [] => false | _ => true end in
  if has_errors then 2
  else if has_warnings_or_info then 1
  else 0.

(** [main], without what it prints: the diagnostics handed to the
    reporter and the value returned, or the exception that leaves it. *)
Definition main (fuel : nat) (fs : FileSystem) (parsed : Parsed)
  : option (Outcome (list Diagnostic * Z)) :=
  match parsed with
  | Exits status => Some (Raises (SystemExit status))
  | Namespace args =>
      let rule_ids := rule_ids_of (rules args) in
      let min_order := Severity_order (min_severity args) in
      match lint_files fuel fs (files args) rule_ids min_order [] with
      | Some (Returns all_diags) =>
          Some (Returns (all_diags, exit_code all_diags))
      | Some (Raises e) => Some (Raises e)
      | None => None
      end
  end.

End SysLint.
(* ===================================================================== *)
(** * Notions used in the statements *)
(* ===================================================================== *)

(** The sort key of a diagnostic. *)
Definition diag_key (d : Diagnostic) : string * Z * Z :=
  (d_filename d, d_line d, d_col d).

(** The lexicographic order on keys: file names by code point, then lines,
    then columns. *)
Definition key_le (a b : string * Z * Z) : Prop :=
  let '(f1, l1, c1) := a in
  let '(f2, l2, c2) := b in
  String.le f1 f2 /\ (f1 = f2 -> l1 <= l2 /\ (l1 = l2 -> c1 <= c2)).

Definition diag_le (a b : Diagnostic) : Prop :=
  key_le (diag_key a) (diag_key b).

Definition has_key (k : string * Z * Z) (d : Diagnostic) : bool :=
  bool_decide (diag_key d = k).

Definition has_rule (id : string) (d : Diagnostic) : bool :=
  String.eqb (rule_id d) id.

(** A token list with its line comments removed. *)
Definition without_line_comments (ts : list Token) : list Token :=
  List.filter (fun t => negb (bool_decide (tok_type t = LINE_COMMENT))) ts.

(** The tokens of the text [}]. *)
Definition stray_brace_tokens : list Token :=
  [mkToken RBRACE "}" 1 1; mkToken EOF "" 1 2].

(** The example of the specification's end-to-end property. *)
Definition engine_text : string := "part def Engine { part def Turbine; }".

Definition engine_tokens : list Token :=
  [ mkToken PART "part" 1 1; mkToken DEF "def" 1 6;
    mkToken IDENTIFIER "Engine" 1 10; mkToken LBRACE "{" 1 17;
    mkToken PART "part" 1 19; mkToken DEF "def" 1 24;
    mkToken IDENTIFIER "Turbine" 1 28; mkToken SEMI ";" 1 35;
    mkToken RBRACE "}" 1 37; mkToken EOF "" 1 38 ].

Definition turbine : Element :=
  mkElement "part_def" true (Some "Turbine") None [] None [] None [] 1 19
    None false.

Definition engine : Element :=
  mkElement "part_def" true (Some "Engine") None [] None [turbine] None []
    1 1 None false.

Definition engine_file (filename : string) : File :=
  mkFile filename [engine].

Definition engine_diagnostics (filename : string) : list Diagnostic :=
  [ mkDiagnostic "W010" INFO "Definition 'Engine' has no doc block."
      filename 1 1;
    mkDiagnostic "W010" INFO "Definition 'Turbine' has no doc block."
      filename 1 19;
    mkDiagnostic "W020" INFO "Definition 'Turbine' has an empty body."
      filename 1 19 ].

(** An element whose name is written as a quoted string. *)
Definition weird_text : string := "part def 'weird name';".

Definition weird_file (filename : string) : File :=
  mkFile filename
    [mkElement "part_def" true (Some "weird name") None [] None [] None []
       1 1 None false].

Definition weird_naming_diagnostic (filename : string) : Diagnostic :=
  mkDiagnostic "W001" WARNING
    "Definition 'weird name' should use PascalCase (e.g. 'WeirdName')."
    filename 1 1.

(** A package without documentation. *)
Definition package_text : string := "package Foo;".

Definition package_foo : Element :=
  mkElement "package" false (Some "Foo") None [] None [] None [] 1 1
    None false.

Definition package_file (filename : string) : File :=
  mkFile filename [package_foo].


(** The compound operator forms, in the precedence the specification
    lists them. *)
Definition COMPOUND_FORMS : list (string * TokenType) :=
  [ ("!==", BANG_EQ_EQ); ("::>", COLON_COLON_GT); (":>>", COLON_GT_GT);
    ("===", EQ_EQ_EQ); ("!=", BANG_EQ); ("**", STAR_STAR); ("->", ARROW);
    ("..", DOT_DOT); (".?", DOT_QUESTION); ("::", COLON_COLON);
    (":=", COLON_EQ); (":>", COLON_GT); ("<=", LE); ("==", EQ_EQ);
    ("=>", FAT_ARROW); (">=", GE); ("??", QUESTION_QUESTION); ("@@", AT_AT) ].

(** The first form of that list that the text starts with. *)
Definition first_compound (text : string) : option (string * TokenType) :=
  List.find (fun form => String.prefix (fst form) text) COMPOUND_FORMS.

(** The single-character operator tokens. *)
Definition SINGLE_FORMS : list (ascii * TokenType) :=
  [ ("#", HASH); ("$", DOLLAR); ("%", PERCENT); ("&", AMP); ("(", LPAREN);
    (")", RPAREN); ("*", STAR); ("+", PLUS); (",", COMMA); ("-", MINUS);
    (".", DOT); ("/", SLASH); (":", COLON); (";", SEMI); ("<", LT);
    ("=", EQ); (">", GT); ("?", QUESTION); ("@", AT_SIGN); ("[", LBRACK);
    ("]", RBRACK); ("^", CARET); ("{", LBRACE); ("|", PIPE); ("}", RBRACE);
    ("~", TILDE) ]%char.

(** The tests by which [_next_token] recognises the start of a comment
    and of a number. *)
Definition starts_comment (lx : Lexer.state) : bool :=
  match Lexer._ch lx with
  | Some c =>
      Py.chr_eq c "/" && (Lexer.peek_is lx "/" || Lexer.peek_is lx "*")
  | None => false
  end.

Definition starts_number (lx : Lexer.state) : bool :=
  match Lexer._ch lx with
  | Some c =>
      Py.isdigit c
      || (Py.chr_eq c "."
          && match Lexer._peek lx with
             | Some d => Py.isdigit d
             | None => false
             end)
  | None => false
  end.

(** The lexer moved over [n] characters. *)
Definition advanced (n : nat) (lx : Lexer.state) : Lexer.state :=
  Nat.iter n Lexer._advance lx.

(** The rule id of a diagnostic is one of [ids]. *)
Definition rule_in (ids : list string) (d : Diagnostic) : Prop :=
  In (rule_id d) ids.

(** The elements of a tree, an element before the elements of its body. *)
Fixpoint descendants (e : Element) : list Element :=
  e :: flat_map descendants (body e).

Definition all_elements (elements : list Element) : list Element :=
  flat_map descendants elements.

(** The last segment of an import path. *)
Definition leaf_of (path : string) : string :=
  default "" (last (Py.split "::" path)).

(** The imports and the referenced names [_check_unused_imports] collects. *)
Definition imports_of (file : File) : list Element :=
  ScopeRule._collect_imports (elements file) [].

Definition used_names_of (file : File) : gset string :=
  ScopeRule._collect_references (elements file) ∅.

(** The file of the text [import A::B::C;]. *)
Definition import_abc : Element :=
  mkElement "import" false None None [] None [] None [] 1 1
    (Some "A::B::C") false.

Definition import_abc_file (filename : string) : File :=
  mkFile filename [import_abc].

(** The file of the text [import ;]: an import with an empty path. *)
Definition import_nothing : Element :=
  mkElement "import" false None None [] None [] None [] 1 1 (Some "") false.

Definition import_nothing_file : File := mkFile "f.sysml" [import_nothing].

(** The file of the text [part ''; part '';]: two siblings whose names
    are the empty string. *)
Definition unnamed_parts_file : File :=
  mkFile "f.sysml"
    [ mkElement "part" false (Some "") None [] None [] None [] 1 1 None false;
      mkElement "part" false (Some "") None [] None [] None [] 1 10 None
        false ].

(** The element is an import. *)
Definition is_import (e : Element) : bool := String.eqb (kind e) "import".

(** What [_collect_references] adds to [out] for one element: the names
    of the element and of the elements below it. *)
Definition collects (e : Element) : Prop :=
  forall (out : gset string) (x : string),
    x ∈ ScopeRule.collect_references_elem e out
    <-> x ∈ out \/ exists e', In e' (descendants e)
                              /\ x ∈ ScopeRule.own_references e'.

(** The test under which [_check_unused_imports] reports an import. *)
Definition is_reported (used : gset string) (imp : Element) : bool :=
  Py.truthy (import_path imp) && negb (ScopeRule.referenced imp used).

(** The elements of the text [part Foo : T; part foo : T;], the second on
    the next line. *)
Definition part_Foo : Element :=
  mkElement "part" false (Some "Foo") (Some "T") [] None [] None [] 1 1
    None false.

Definition part_foo : Element :=
  mkElement "part" false (Some "foo") (Some "T") [] None [] None [] 2 1
    None false.

(** [x] is one of the segments of [value], cut at [::]. *)
Definition segment_of (value x : string) : Prop := In x (Py.split "::" value).

Definition in_type_ref (e : Element) (x : string) : Prop :=
  exists t, type_ref e = Some t /\ segment_of t x.

Definition in_specializes (e : Element) (x : string) : Prop :=
  exists s, In s (specializes e) /\ segment_of s x.

(** The set of claim C4: the segments of every type_ref and of every
    specializes value of the tree. *)
Definition claimed_segment (file : File) (x : string) : Prop :=
  exists e, In e (all_elements (elements file))
            /\ (in_type_ref e x \/ in_specializes e x).

(** The same set without the segment of an empty type_ref. *)
Definition collected_segment (file : File) (x : string) : Prop :=
  exists e, In e (all_elements (elements file))
            /\ ((exists t, type_ref e = Some t /\ t <> "" /\ segment_of t x)
                \/ in_specializes e x).

(** A tree with the import of the path [A::], whose last segment is
    empty, and a usage whose type_ref is the empty string. *)
Definition import_trailing : Element :=
  mkElement "import" false None None [] None [] None [] 1 1 (Some "A::")
    false.

Definition untyped_part : Element :=
  mkElement "part" false (Some "x") (Some "") [] None [] None [] 2 1 None
    false.

Definition trailing_file : File :=
  mkFile "f.sysml" [import_trailing; untyped_part].

(** The element takes part in the duplicate check of its scope: its kind
    is scope-contributing and its name is not empty. *)
Definition takes_part (e : Element) : Prop :=
  kind e ∈ ScopeRule._NAMED_KINDS /\ Py.truthy (name e) = true.

(** Two elements have the same name, letter case apart. *)
Definition same_name (a b : Element) : Prop :=
  Py.lower (fmt (name a)) = Py.lower (fmt (name b)).

(** The first of the siblings [earlier] that declared the name of [e]:
    the first that takes part and has the same name, if [e] takes part. *)
Definition first_declared (earlier : list Element) (e : Element)
  : option Element :=
  if ScopeRule.contributes e
  then List.find
         (fun x => ScopeRule.contributes x
                   && String.eqb (ScopeRule.name_key x) (ScopeRule.name_key e))
         earlier
  else None.

(** What the scope reports at [e], whose earlier siblings are [earlier]:
    one diagnostic when the name of [e] was declared before. *)
Definition reported_at (filename : string) (earlier : list Element)
  (e : Element) : list Diagnostic :=
  match first_declared earlier e with
  | Some first => [ScopeRule.duplicate_diag filename e first]
  | None => []
  end.

(** The siblings of a scope, each with the siblings before it. *)
Fixpoint with_earlier (earlier rest : list Element)
  : list (list Element * Element) :=
  match rest with
  | [] => []
  | e :: r => (earlier, e) :: with_earlier (earlier ++ [e]) r
  end.

(** The siblings [part Foo], [part foo] and [part FOO], on three lines. *)
Definition part_FOO : Element :=
  mkElement "part" false (Some "FOO") (Some "T") [] None [] None [] 3 1
    None false.

(** The number of characters the lexer has not read yet:
    [len(source) - pos]. *)
Definition remaining (lx : Lexer.state) : nat :=
  String.length (Lexer.source lx).

(** ** Notions of the checker, the lexer and the parser as a whole *)

(** The rule ids the four rules emit, each with the severity it is emitted
    with. *)
Definition RULE_SEVERITIES : list (string * Severity) :=
  [ ("W001", WARNING); ("W002", WARNING); ("W003", WARNING);
    ("W010", INFO); ("W011", WARNING);
    ("W020", INFO); ("W021", WARNING); ("W022", INFO); ("W023", INFO);
    ("I001", INFO);
    ("W030", WARNING); ("W031", INFO) ].

Definition id_and_severity (d : Diagnostic) : string * Severity :=
  (rule_id d, severity d).

(** A tree on which every rule id is reported. *)
Definition showcase_file : File :=
  let el k n t b l :=
    mkElement k false n t [] None b None [] l 1 None false in
  mkFile "all.sysml"
    [ mkElement "import" false None None [] None [] None [] 1 1 (Some "A")
        false;
      el "package" (Some "bad_pkg") None
        [ el "part_def" (Some "bad") None [] 3;
          el "part" (Some "Bad") None [] 4;
          el "part" (Some "Bad") None [] 5;
          el "requirement_def" (Some "Req") None [] 6;
          el "action_def" (Some "Act") None
            [ el "action" (Some "a") None [] 8 ] 7 ] 2 ].

(** The calls [visitor(elem, filename, parent)] that [_walk] makes, in
    order: each element with its parent. *)
Fixpoint visits_elem (parent : option Element) (e : Element)
  : list (option Element * Element) :=
  (parent, e) :: flat_map (visits_elem (Some e)) (body e).

Definition visits (parent : option Element) (elements : list Element)
  : list (option Element * Element) :=
  flat_map (visits_elem parent) elements.

(** A diagnostic is placed at the element. *)
Definition placed_at (e : Element) (d : Diagnostic) : Prop :=
  d_line d = line e /\ d_col d = col e.

(** What ties a diagnostic to the element it reports: the file name, the
    position, an id and a severity of the table, and the attribute that
    made the element eligible - a non-empty import path for an unused
    import, a non-empty name for every other rule. *)
Definition explains (filename : string) (e : Element) (d : Diagnostic)
  : Prop :=
  d_filename d = filename
  /\ placed_at e d
  /\ In (id_and_severity d) RULE_SEVERITIES
  /\ (if String.eqb (rule_id d) "W031"
      then kind e = "import" /\ Py.truthy (import_path e) = true
      else Py.truthy (name e) = true).

Definition explained (filename : string) (elements : list Element)
  (d : Diagnostic) : Prop :=
  exists e, In e (all_elements elements) /\ explains filename e d.

(** A directory with one file, one that is not valid UTF-8, and nothing
    else; a command line that names the first and a file that does not
    exist, and one that names the second as well. *)
Definition one_file_system : SysLint.FileSystem :=
  fun path =>
    if String.eqb path "engine.sysml" then SysLint.Text engine_text
    else if String.eqb path "latin1.sysml"
    then SysLint.Raises_UnicodeDecodeError
    else SysLint.Raises_OSError.

Definition two_paths (min_severity : Severity) : SysLint.Args :=
  SysLint.mkArgs "engine.sysml" ["missing.sysml"] None min_severity.

(** The path can be opened. *)
Definition opens (fs : SysLint.FileSystem) (path : string) : bool :=
  match fs path with
  | SysLint.Raises_OSError => false
  | _ => true
  end.

(** The first segment of an import path. *)
Definition root_of (path : string) : string :=
  default "" (head (Py.split "::" path)).

(** The line and column after the characters of [s], for a reader that
    stood at [(line, col)] before them. *)
Fixpoint position_after (s : string) (line col : Z) : Z * Z :=
  match s with
  | EmptyString => (line, col)
  | String ch r =>
      let '(l, c) := Lexer.bump ch line col in position_after r l c
  end.

(** The lexer went from [lx] to [lx'] over the characters [pre]. *)
Definition moves (lx : Lexer.state) (pre : string) (lx' : Lexer.state)
  : Prop :=
  Lexer.source lx = pre +:+ Lexer.source lx'
  /\ (Lexer.lx_line lx', Lexer.lx_col lx')
     = position_after pre (Lexer.lx_line lx) (Lexer.lx_col lx).

(** Every character of the string passes the test. *)
Fixpoint all_chars (p : ascii -> bool) (s : string) : bool :=
  match s with
  | EmptyString => true
  | String ch r => p ch && all_chars p r
  end.

(** The text is spelled by the tokens: it is their values in order, each
    after a run of blanks, and each token carries the line and column of
    its first character, for a text that starts at [(line, col)]. *)
Fixpoint spells (tokens : list Token) (text : string) (line col : Z)
  : Prop :=
  match tokens with
  | [] => text = ""
  | t :: rest =>
      exists gap tail,
        text = gap +:+ tok_value t +:+ tail
        /\ all_chars Lexer.is_blank gap = true
        /\ (tok_line t, tok_col t) = position_after gap line col
        /\ let '(l, c) := position_after (gap +:+ tok_value t) line col in
           spells rest tail l c
  end.

(** The lexer can go from [lx] to [lx']. *)
Definition reaches (lx lx' : Lexer.state) : Prop := exists pre, moves lx pre lx'.

(** What a sub-lexer returns: a token with the given position whose value
    is the text the lexer went over. *)
Definition lexed (lx : Lexer.state) (l c : Z) (r : Token * Lexer.state)
  : Prop :=
  exists pre, moves lx pre r.2
              /\ tok_value r.1 = pre /\ tok_line r.1 = l /\ tok_col r.1 = c.

(** The text holds the end [*/] of a block comment. *)
Fixpoint has_comment_end (s : string) : bool :=
  match s with
  | EmptyString => false
  | String a r =>
      (Py.chr_eq a "*" && Py.startswith r "/") || has_comment_end r
  end.

(** The state of the lexer that has read [pre] from the start of a text
    and has [rest] before it. *)
Definition lexer_after (pre rest : string) : Lexer.state :=
  Lexer.mkLexer rest (position_after pre 1 1).1 (position_after pre 1 1).2.

(** The parser computation returns on the tokens [ts] and leaves at most
    [n] of them. *)
Definition runs {A : Type} (m : Parser.P A) (ts : list Token) (n : nat)
  : Prop :=
  exists a ts', m ts = Some (a, ts') /\ (length ts' <= n)%nat.

(** It does so wherever at most [n] tokens are left. *)
Definition ok {A : Type} (n : nat) (m : Parser.P A) : Prop :=
  forall ts, (length ts <= n)%nat -> runs m ts n.

(** Whatever [m] returns, [m'] returns as well: [m'] is [m] with more
    fuel. *)
Definition extends {A : Type} (m m' : Parser.P A) : Prop :=
  forall ts x, m ts = Some x -> m' ts = Some x.

(** The type of the token the parser looks at. *)
Definition cur_type (ts : list Token) : TokenType :=
  match ts with t :: _ => tok_type t | [] => EOF end.

(** The computation returns on [t :: r], having consumed [t] at least. *)
Definition ok1 {A : Type} (n : nat) (m : Parser.P A) : Prop :=
  forall t r, (length r <= n)%nat -> runs m (t :: r) n.

(** The computation returns on [ts]; it leaves at most [n] tokens, or it
    ends as [Q] says. *)
Definition runs_or {A : Type} (m : Parser.P A) (ts : list Token) (n : nat)
  (Q : A -> list Token -> Prop) : Prop :=
  exists a ts', m ts = Some (a, ts') /\ ((length ts' <= n)%nat \/ Q a ts').

(** [_parse_element] found a token it does not skip - the end of the
    stream or a closing brace - and has returned without moving. *)
Definition stopped (ts : list Token) (res : option Element)
  (ts' : list Token) : Prop :=
  ts' = ts /\ res = None /\ (cur_type ts = EOF \/ cur_type ts = RBRACE).

(** The computation only takes tokens from the front: what it leaves is
    an end of what it was given. *)
Definition drops {A : Type} (m : Parser.P A) : Prop :=
  forall ts a ts', m ts = Some (a, ts') -> suffix ts' ts.

(** The character occurs in the text. *)
Fixpoint has_char (c : ascii) (s : string) : bool :=
  match s with
  | EmptyString => false
  | String a r => Py.chr_eq a c || has_char c r
  end.

(** The characters of an identifier written in ASCII letters, digits and
    underscores. *)
Definition ascii_letter (c : ascii) : bool :=
  NamingRule.is_az c || NamingRule.is_AZ c.

Definition ascii_alnum (c : ascii) : bool :=
  NamingRule.is_az c || NamingRule.is_AZ c || NamingRule.is_09 c.

Definition ident_char (c : ascii) : bool :=
  ascii_alnum c || Py.chr_eq c "_".

(** The tokens that [_parse_element] takes one at a time without making
    an element: a semicolon, and every token that starts no construct. *)
Definition starts_nothing (ty : TokenType) : bool :=
  negb (bool_decide (ty ∈ Parser._VISIBILITY))
  && negb (bool_decide (ty ∈ Parser._PREFIX_MODIFIERS))
  && negb (bool_decide (ty ∈ Parser._SEQUENCE_KEYWORDS))
  && negb (bool_decide (ty ∈ Parser._BODY_ONLY_KEYWORDS))
  && negb (bool_decide (ty ∈ Parser._ELEMENT_KEYWORDS))
  && negb (bool_decide
             (ty ∈ [ COLON_GT_GT; COLON_COLON_GT; COLON_GT; IMPORT; DOC;
                     COMMENT; REQUIRE; ASSUME; RETURN; IN; OUT; INOUT; USE;
                     AT_SIGN; AT_AT; EOF; RBRACE; BLOCK_COMMENT ])).

(** The tokens that leave no trace in the tree when nothing else is
    around them: those, block comments and the end of the stream. *)
Definition leaves_no_trace (ty : TokenType) : bool :=
  starts_nothing ty || bool_decide (ty ∈ [EOF; BLOCK_COMMENT]).

(** The tokens of the text [x + 1; /* note */ 'y' ;]. *)
Definition scrap_tokens : list Token :=
  [ mkToken IDENTIFIER "x" 1 1; mkToken PLUS "+" 1 3;
    mkToken INTEGER "1" 1 5; mkToken SEMI ";" 1 6;
    mkToken BLOCK_COMMENT "/* note */" 1 8; mkToken STRING "'y'" 1 19;
    mkToken SEMI ";" 1 23; mkToken EOF "" 1 24 ].

(** The position is that of a token of the list, the end of the stream
    apart. *)
Definition token_position (tokens : list Token) (l c : Z) : Prop :=
  exists t, In t tokens /\ tok_type t <> EOF
            /\ l = tok_line t /\ c = tok_col t.

(** The element, and every element below it, stands at the position of a
    token of the list. *)
Definition placed (tokens : list Token) (e : Element) : Prop :=
  List.Forall (fun x => token_position tokens (line x) (col x))
    (descendants e).

Definition placed_if (tokens : list Token) (o : option Element) : Prop :=
  match o with Some e => placed tokens e | None => True end.

(** From the state [ts], what the computation returns satisfies [Q], and
    the state it leaves is an end of [tokens]. *)
Definition gives_at {A : Type} (tokens : list Token) (Q : A -> Prop)
  (m : Parser.P A) (ts : list Token) : Prop :=
  forall a ts', m ts = Some (a, ts') -> suffix ts' tokens /\ Q a.

(** It does so from every state that is an end of [tokens]. *)
Definition gives {A : Type} (tokens : list Token) (Q : A -> Prop)
  (m : Parser.P A) : Prop :=
  forall ts, suffix ts tokens -> gives_at tokens Q m ts.

(** The characters with which a word - an identifier or a keyword -
    begins and goes on, as the lexer tests them. *)
Definition word_start (c : ascii) : bool := Py.isalpha c || Py.chr_eq c "_".

Definition word_char (c : ascii) : bool := Py.isalnum c || Py.chr_eq c "_".

(** A word that stands before [s] ends there. *)
Definition ends_word (s : string) : bool :=
  match s with
  | String c _ => negb (word_char c)
  | EmptyString => true
  end.

(** What stands after a run of digits ends the number as an integer: it
    neither goes on with a digit nor begins a decimal part - a dot and a
    digit - or an exponent. *)
Definition ends_integer (s : string) : bool :=
  match s with
  | EmptyString => true
  | String c r =>
      negb (Py.isdigit c)
      && negb (Py.chr_eq c "e" || Py.chr_eq c "E")
      && negb (Py.chr_eq c "."
               && match r with
                  | String d _ => Py.isdigit d
                  | EmptyString => false
                  end)
  end.

(** The element with the attributes [is_def], [multiplicity] and
    [modifiers] at their defaults, in the whole tree below it as well. *)
Fixpoint plain (e : Element) : Element :=
  mkElement (kind e) false (name e) (type_ref e) (specializes e) None
    (map plain (body e)) (doc e) [] (line e) (col e) (import_path e)
    (import_star e).

Definition plain_file (file : File) : File :=
  mkFile (filename file) (map plain (elements file)).

(** The element has no body. *)
Definition flat (e : Element) : Prop := body e = [].

Definition flat_if (o : option Element) : Prop :=
  match o with Some e => flat e | None => True end.

(** The token is no brace. *)
Definition no_brace (t : Token) : Prop :=
  tok_type t <> LBRACE /\ tok_type t <> RBRACE.

(** The token is one of those that leave no trace, and not the end of
    the stream. *)
Definition scrap (t : Token) : Prop :=
  leaves_no_trace (tok_type t) = true /\ tok_type t <> EOF.
(* ===================================================================== *)
(** * The order of the diagnostics *)
(* ===================================================================== *)

Lemma string_ltb_le (a b : string) : String.ltb a b = true -> String.le a b.
Proof.
  unfold String.ltb, String.le, String.leb.
  destruct (String.compare a b); simpl; intros; done.
Qed.

Lemma string_ltb_neq (a b : string) : String.ltb a b = true -> a <> b.
Proof.
  unfold String.ltb. intros H ->.
  pose proof (String.compare_antisym b b) as E.
  destruct (String.compare b b); done.
Qed.

Lemma string_nltb_le (a b : string) : String.ltb a b = false -> String.le b a.
Proof.
  unfold String.ltb, String.le, String.leb.
  rewrite (String.compare_antisym a b).
  destruct (String.compare b a); simpl; intros; done.
Qed.

Lemma lt_diag_le (a b : Diagnostic) : __lt__ a b = true -> diag_le a b.
Proof.
  unfold __lt__, diag_le, diag_key, key_le.
  destruct (String.eqb_spec (d_filename a) (d_filename b)) as [E|E]; simpl.
  - rewrite E. intros H. split; [reflexivity|]. intros _.
    destruct (Z.eqb_spec (d_line a) (d_line b)); simpl in H;
      apply Z.ltb_lt in H; lia.
  - intros H. split; [by apply string_ltb_le|]. by intros.
Qed.

Lemma lt_diag_key_neq (a b : Diagnostic) :
  __lt__ a b = true -> diag_key a <> diag_key b.
Proof.
  unfold __lt__, diag_key. intros H E. injection E as E1 E2 E3.
  rewrite E1, E2, E3 in H. rewrite String.eqb_refl, Z.eqb_refl in H.
  simpl in H. lia.
Qed.

Lemma nlt_diag_le (a b : Diagnostic) : __lt__ a b = false -> diag_le b a.
Proof.
  unfold __lt__, diag_le, diag_key, key_le.
  destruct (String.eqb_spec (d_filename a) (d_filename b)) as [E|E]; simpl.
  - rewrite E. intros H. split; [reflexivity|]. intros _.
    destruct (Z.eqb_spec (d_line a) (d_line b)); simpl in H;
      apply Z.ltb_ge in H; lia.
  - intros H. split; [by apply string_nltb_le|]. by intros.
Qed.

Lemma key_le_trans (a b c : string * Z * Z) :
  key_le a b -> key_le b c -> key_le a c.
Proof.
  destruct a as [[f1 l1] c1], b as [[f2 l2] c2], c as [[f3 l3] c3].
  unfold key_le. intros [H1 H2] [H3 H4]. split; [by etrans|].
  intros ->.
  assert (f2 = f3) as -> by (by apply (anti_symm String.le)).
  specialize (H2 eq_refl). specialize (H4 eq_refl). lia.
Qed.

Lemma key_le_antisym (a b : string * Z * Z) :
  key_le a b -> key_le b a -> a = b.
Proof.
  destruct a as [[f1 l1] c1], b as [[f2 l2] c2].
  unfold key_le. intros [H1 H2] [H3 H4].
  assert (f1 = f2) as -> by (by apply (anti_symm String.le)).
  specialize (H2 eq_refl). specialize (H4 eq_refl).
  f_equal; [f_equal|]; lia.
Qed.

Lemma insert_diag_perm (x : Diagnostic) (l : list Diagnostic) :
  Permutation (insert_diag x l) (x :: l).
Proof.
  induction l as [|y r IH]; simpl; [done|].
  destruct (__lt__ y x); [|done].
  rewrite IH. apply perm_swap.
Qed.

Lemma sorted_perm (l : list Diagnostic) : Permutation (sorted l) l.
Proof.
  induction l as [|x r IH]; simpl; [done|].
  by rewrite insert_diag_perm, IH.
Qed.

Lemma insert_diag_strongly_sorted (x : Diagnostic) (l : list Diagnostic) :
  StronglySorted diag_le l -> StronglySorted diag_le (insert_diag x l).
Proof.
  induction 1 as [|y r Hr IH Hy]; simpl.
  - repeat constructor.
  - destruct (__lt__ y x) eqn:E.
    + constructor; [done|].
      rewrite insert_diag_perm. constructor; [by apply lt_diag_le|done].
    + apply nlt_diag_le in E. constructor.
      * by constructor.
      * constructor; [done|].
        eapply Forall_impl; [exact Hy|].
        intros z Hz. unfold diag_le in *. by eapply key_le_trans.
Qed.

Lemma sorted_strongly_sorted (l : list Diagnostic) :
  StronglySorted diag_le (sorted l).
Proof.
  induction l as [|x r IH]; simpl; [constructor|].
  by apply insert_diag_strongly_sorted.
Qed.

Lemma filter_key_insert (k : string * Z * Z) (x : Diagnostic)
  (l : list Diagnostic) :
  List.filter (has_key k) (insert_diag x l) = List.filter (has_key k) (x :: l).
Proof.
  induction l as [|y r IH]; [done|].
  cbn [insert_diag]. destruct (__lt__ y x) eqn:E; [|done].
  apply lt_diag_key_neq in E.
  cbn [List.filter] in *. rewrite IH. unfold has_key.
  repeat case_bool_decide; congruence.
Qed.

Lemma sorted_stable (k : string * Z * Z) (l : list Diagnostic) :
  List.filter (has_key k) (sorted l) = List.filter (has_key k) l.
Proof.
  induction l as [|x r IH]; [done|].
  cbn [sorted]. rewrite filter_key_insert. cbn [List.filter]. by rewrite IH.
Qed.


Lemma key_le_refl (a : string * Z * Z) : key_le a a.
Proof. destruct a as [[f l] c]. unfold key_le. split; [reflexivity|lia]. Qed.

Lemma filter_key_head (x : Diagnostic) (l1 l2 : list Diagnostic) :
  List.filter (has_key (diag_key x)) (x :: l1)
  = List.filter (has_key (diag_key x)) l2 ->
  In x l2.
Proof.
  cbn [List.filter]. unfold has_key at 1. rewrite bool_decide_true by done.
  intros H.
  assert (In x (List.filter (has_key (diag_key x)) l2)) as Hi
    by (rewrite <- H; by left).
  by apply filter_In in Hi as [? _].
Qed.

Lemma strongly_sorted_head_le (x y : Diagnostic) (r : list Diagnostic) :
  StronglySorted diag_le (x :: r) -> In y (x :: r) -> diag_le x y.
Proof.
  intros H Hin. apply StronglySorted_inv in H as [_ H].
  destruct Hin as [->|Hin]; [unfold diag_le; apply key_le_refl|].
  rewrite List.Forall_forall in H. by apply H.
Qed.

Lemma stable_sort_unique (l1 l2 : list Diagnostic) :
  StronglySorted diag_le l1 -> StronglySorted diag_le l2 ->
  (forall k, List.filter (has_key k) l1 = List.filter (has_key k) l2) ->
  l1 = l2.
Proof.
  revert l2. induction l1 as [|x r1 IH]; intros l2 H1 H2 Hf.
  - destruct l2 as [|y r2]; [done|].
    specialize (Hf (diag_key y)). cbn in Hf. unfold has_key in Hf.
    by rewrite bool_decide_true in Hf.
  - destruct l2 as [|y r2].
    { specialize (Hf (diag_key x)). cbn in Hf. unfold has_key in Hf.
      by rewrite bool_decide_true in Hf. }
    assert (In x (y :: r2)) as Hin1 by (by eapply filter_key_head).
    assert (In y (x :: r1)) as Hin2 by (by eapply filter_key_head).
    assert (diag_key x = diag_key y) as Exy.
    { apply key_le_antisym.
      - by eapply strongly_sorted_head_le.
      - by eapply strongly_sorted_head_le. }
    assert (x = y) as ->.
    { pose proof (Hf (diag_key x)) as Hk. cbn [List.filter] in Hk.
      assert (has_key (diag_key x) x = true) as E1
        by (unfold has_key; by rewrite bool_decide_true).
      assert (has_key (diag_key x) y = true) as E2
        by (unfold has_key; by rewrite bool_decide_true).
      rewrite E1, E2 in Hk. congruence. }
    f_equal. apply IH.
    + by apply StronglySorted_inv in H1 as [? _].
    + by apply StronglySorted_inv in H2 as [? _].
    + intros k. specialize (Hf k). cbn [List.filter] in Hf.
      destruct (has_key k y); congruence.
Qed.

Lemma check_file_sorted_collected file rule_ids :
  Checker.check_file file rule_ids = sorted (Checker.collected file rule_ids).
Proof.
  unfold Checker.check_file, Checker.check_file_run, Checker.collected.
  by destruct (Checker.run_rules _ _ _ _).
Qed.

Lemma lt_depends_on_keys (a b a' b' : Diagnostic) :
  diag_key a = diag_key a' -> diag_key b = diag_key b' ->
  __lt__ a b = __lt__ a' b'.
Proof.
  unfold diag_key, __lt__. intros [= -> -> ->] [= -> -> ->]. done.
Qed.

(** Claim C3.  For every file and every optional set of rule ids, the list
    returned by [check_file] is sorted non-decreasing by the key
    [(filename, line, col)], is a permutation of what the rules produced,
    and keeps diagnostics of equal keys in the order in which the rules
    produced them; it is the only sorted list that does so.  The comparison
    reads the key alone: severity and rule id play no role. *)
Theorem C3_check_sorted_stable (file : File) (rule_ids : option (gset string)) :
  let produced := Checker.collected file rule_ids in
  let out := Checker.check_file file rule_ids in
  StronglySorted diag_le out
  /\ Sorted diag_le out
  /\ Permutation out produced
  /\ (forall k, List.filter (has_key k) out = List.filter (has_key k) produced)
  /\ (forall l, StronglySorted diag_le l ->
        (forall k, List.filter (has_key k) l = List.filter (has_key k) produced) ->
        l = out)
  /\ (forall a b a' b', diag_key a = diag_key a' -> diag_key b = diag_key b' ->
        __lt__ a b = __lt__ a' b').
Proof.
  intros produced out. subst out. rewrite check_file_sorted_collected.
  fold produced.
  split; [apply sorted_strongly_sorted|].
  split; [apply StronglySorted_Sorted, sorted_strongly_sorted|].
  split; [apply sorted_perm|].
  split; [intros k; apply sorted_stable|].
  split; [|apply lt_depends_on_keys].
  intros l Hl Hk. apply stable_sort_unique; [done|apply sorted_strongly_sorted|].
  intros k. by rewrite Hk, sorted_stable.
Qed.


(* ===================================================================== *)
(** * The lexer's operators *)
(* ===================================================================== *)

(** Decide the character tests that a goal or a hypothesis is stuck on. *)
Ltac split_chars :=
  repeat match goal with
  | H : context [ascii_dec ?a ?b] |- _ =>
      destruct (ascii_dec a b); subst; try congruence
  | |- context [ascii_dec ?a ?b] =>
      destruct (ascii_dec a b); subst; try congruence
  end.

Lemma prefix_empty (s : string) : String.prefix "" s = true.
Proof. by destruct s. Qed.

Lemma token_at_compound (text : string) (line col : Z) (op : string)
  (ty : TokenType) :
  first_compound text = Some (op, ty) ->
  Lexer.token_at (Lexer.mkLexer text line col)
  = (mkToken ty op line col,
     advanced (String.length op) (Lexer.mkLexer text line col)).
Proof.
  unfold first_compound, COMPOUND_FORMS. intros H.
  destruct text as [|c1 [|c2 [|c3 r]]];
    cbn -[ascii_dec] in H; rewrite ?prefix_empty in H; split_chars;
    try discriminate;
    injection H as <- <-; cbn -[ascii_dec Z.add]; rewrite ?prefix_empty;
    split_chars; reflexivity.
Qed.

Lemma first_compound_none (text : string) :
  first_compound text = None ->
  List.Forall (fun form => String.prefix (fst form) text = false)
    COMPOUND_FORMS.
Proof.
  intros H. apply List.Forall_forall. intros form Hin.
  exact (find_none _ _ H form Hin).
Qed.

(** Decide the test of the conditional that heads the left-hand side. *)
Ltac step_if :=
  lazymatch goal with
  | |- (if ?b then _ else _) = _ =>
      let v := eval vm_compute in b in
      lazymatch v with
      | true => change b with true; cbv iota
      | false => change b with false; cbv iota
      end
  | |- match ?b with Some _ => _ | None => _ end = _ =>
      let v := eval vm_compute in b in
      lazymatch v with
      | Some _ => change b with v; cbv iota
      | None => change b with v; cbv iota
      end
  end.

(** Use a hypothesis that settles the test of the conditional that heads
    the left-hand side. *)
Ltac step_hyp :=
  lazymatch goal with
  | |- (if ?b then _ else _) = _ =>
      match goal with
      | H : b = false |- _ => rewrite H; cbv iota
      | H : b = true |- _ => rewrite H; cbv iota
      end
  end.

Lemma advance_within_line (c : ascii) (rest : string) (line col : Z) :
  Py.chr_eq c Py.LF = false ->
  Lexer._advance (Lexer.mkLexer (String c rest) line col)
  = Lexer.mkLexer rest line (col + 1).
Proof. intros H. unfold Lexer._advance, Lexer.bump. cbn. by rewrite H. Qed.

Lemma token_at_single (lx : Lexer.state) (c : ascii) (rest : string)
  (ty : TokenType) :
  first_compound (Lexer.source lx) = None ->
  Lexer.source lx = String c rest ->
  In (c, ty) SINGLE_FORMS ->
  starts_comment lx = false -> starts_number lx = false ->
  Lexer.token_at lx
  = (mkToken ty (Lexer.str1 c) (Lexer.lx_line lx) (Lexer.lx_col lx),
     advanced 1 lx).
Proof.
  destruct lx as [text line col]. cbn [Lexer.source Lexer.lx_line Lexer.lx_col].
  intros H -> Hin Hc Hd.
  apply first_compound_none in H. unfold COMPOUND_FORMS in H.
  unfold starts_comment, starts_number in Hc, Hd.
  cbv beta iota zeta delta [Lexer._ch Lexer.source] in Hc, Hd.
  cbn [In SINGLE_FORMS] in Hin.
  repeat (destruct Hin as [[= <- <-]|Hin]); [..|done].
  all: repeat match goal with
       | H : List.Forall _ (_ :: _) |- _ =>
           let H1 := fresh "P" in
           apply List.Forall_cons_iff in H as [H1 H]; simpl in H1
       end; clear H.
  all: apply andb_false_iff in Hc as [Hc|Hc]; [try discriminate Hc|];
    [try apply orb_false_elim in Hc as [Hc1 Hc2]..].
  all: apply orb_false_elim in Hd as [_ Hd];
    apply andb_false_iff in Hd as [Hd|Hd]; [try discriminate Hd|..].
  all: unfold Lexer.token_at;
    cbv beta iota zeta delta [Lexer._ch Lexer.source Lexer.lx_line Lexer.lx_col];
    rewrite ?Hc1, ?Hc2, ?Hd;
    repeat step_if;
    rewrite advance_within_line by reflexivity;
    unfold Lexer.lex_operator, Py.startswith;
    cbv beta iota zeta delta [Lexer._rest Lexer.source];
    repeat first [step_if | step_hyp];
    reflexivity.
Qed.

Lemma first_compound_longest (text op op' : string) (ty ty' : TokenType) :
  first_compound text = Some (op, ty) ->
  In (op', ty') COMPOUND_FORMS -> String.prefix op' text = true ->
  (String.length op' <= String.length op)%nat.
Proof.
  unfold first_compound, COMPOUND_FORMS. intros H Hin Hp.
  cbn [In] in Hin.
  destruct text as [|c1 [|c2 [|c3 r]]];
    cbn -[ascii_dec] in H; rewrite ?prefix_empty in H; split_chars;
    try discriminate; injection H as <- <-.
  all: repeat (destruct Hin as [[= <- <-]|Hin]); try done.
  all: cbn -[ascii_dec] in Hp; split_chars; try discriminate; cbn; lia.
Qed.

Lemma compound_type_not_single (op : string) (ty : TokenType) (c : ascii) :
  In (op, ty) COMPOUND_FORMS -> ~ In (c, ty) SINGLE_FORMS.
Proof.
  unfold COMPOUND_FORMS, SINGLE_FORMS. cbn [In]. intros H1 H2.
  repeat (destruct H1 as [[= <- <-]|H1]); try done.
  all: repeat (destruct H2 as [[=]|H2]); done.
Qed.

Lemma token_at_bang (rest : string) (line col : Z) :
  String.prefix "=" rest = false ->
  Lexer.token_at (Lexer.mkLexer (String "!" rest) line col)
  = (mkToken IDENTIFIER "!" line col,
     advanced 1 (Lexer.mkLexer (String "!" rest) line col)).
Proof.
  intros H.
  assert (String.prefix "==" rest = false) as H2.
  { destruct rest as [|c r]; [reflexivity|]. cbn -[ascii_dec] in *.
    destruct (ascii_dec "=" c); [by rewrite prefix_empty in H|done]. }
  unfold Lexer.token_at;
    cbv beta iota zeta delta [Lexer._ch Lexer.source Lexer.lx_line Lexer.lx_col];
    repeat step_if;
    rewrite advance_within_line by reflexivity;
    unfold Lexer.lex_operator, Py.startswith;
    cbv beta iota zeta delta [Lexer._rest Lexer.source];
    repeat first [step_if | step_hyp];
    reflexivity.
Qed.

Lemma state_eta (lx : Lexer.state) :
  lx = Lexer.mkLexer (Lexer.source lx) (Lexer.lx_line lx) (Lexer.lx_col lx).
Proof. by destruct lx. Qed.

(** Claim C8.  At the place where a token starts (after the white space):
    when the text starts with a compound form, the token is the first form
    of the list that matches, no matching form is longer, and the lexer
    moves over exactly its characters; when no compound form matches and
    the text starts with an operator character that opens neither a
    comment nor a number, the token is that character's single-character
    token; the lexer returns a single-character operator token only when
    no compound form matches; a [!] that no [=] follows gives the
    identifier-kind token [!].  The texts [::>], [:>>], [..] and [!] give
    one token each before the end of the stream. *)
Theorem C8_operators_longest_match (lx : Lexer.state) :
  let start := Lexer._skip_whitespace lx in
  let text := Lexer.source start in
  let line := Lexer.lx_line start in
  let col := Lexer.lx_col start in
  (forall op ty, first_compound text = Some (op, ty) ->
     Lexer._next_token lx
     = (mkToken ty op line col, advanced (String.length op) start)
     /\ forall op' ty', In (op', ty') COMPOUND_FORMS ->
          String.prefix op' text = true ->
          (String.length op' <= String.length op)%nat)
  /\ (forall op' ty', In (op', ty') COMPOUND_FORMS ->
        String.prefix op' text = true -> first_compound text <> None)
  /\ (forall c rest ty, first_compound text = None ->
        text = String c rest -> In (c, ty) SINGLE_FORMS ->
        starts_comment start = false -> starts_number start = false ->
        Lexer._next_token lx
        = (mkToken ty (Lexer.str1 c) line col, advanced 1 start))
  /\ (forall c, In (c, tok_type (fst (Lexer._next_token lx))) SINGLE_FORMS ->
        first_compound text = None)
  /\ (forall rest, text = String "!" rest -> String.prefix "=" rest = false ->
        Lexer._next_token lx
        = (mkToken IDENTIFIER "!" line col, advanced 1 start))
  /\ Lexer.tokenize "::>"
     = Some [mkToken COLON_COLON_GT "::>" 1 1; mkToken EOF "" 1 4]
  /\ Lexer.tokenize ":>>"
     = Some [mkToken COLON_GT_GT ":>>" 1 1; mkToken EOF "" 1 4]
  /\ Lexer.tokenize ".."
     = Some [mkToken DOT_DOT ".." 1 1; mkToken EOF "" 1 3]
  /\ Lexer.tokenize "!"
     = Some [mkToken IDENTIFIER "!" 1 1; mkToken EOF "" 1 2].
Proof.
  intros start text line col. unfold Lexer._next_token. fold start.
  assert (start = Lexer.mkLexer text line col) as Es by apply state_eta.
  split; [|split; [|split; [|split; [|split]]]].
  - intros op ty H. split.
    + rewrite Es at 1 2. by apply token_at_compound.
    + intros op' ty'. by apply first_compound_longest with ty.
  - intros op' ty' Hin Hp Hn.
    pose proof (find_none _ _ Hn (op', ty') Hin) as Hf. cbn in Hf. congruence.
  - intros c rest ty Hn Ht Hin Hc Hd. by apply token_at_single with rest.
  - intros c Hin.
    destruct (first_compound text) as [[op ty]|] eqn:E; [|done].
    exfalso. rewrite Es in Hin.
    rewrite (token_at_compound _ _ _ _ _ E) in Hin.
    cbn [fst tok_type] in Hin.
    apply find_some in E as [E _].
    by apply (compound_type_not_single op ty c).
  - intros rest Ht Hp. rewrite Es at 1 2. rewrite Ht. by apply token_at_bang.
  - repeat split; by vm_compute.
Qed.

(* ===================================================================== *)
(** * The tokenizer always returns *)
(* ===================================================================== *)

(** Every token but the end-of-stream token consumes at least one
    character, so the loop of [tokenize] runs at most once per character
    of the text and once more. *)

Lemma advance_remaining (lx : Lexer.state) :
  remaining (Lexer._advance lx) = pred (remaining lx).
Proof.
  unfold remaining, Lexer._advance. destruct lx as [[|ch r] l c]; [done|].
  cbn [Lexer.source Lexer.lx_line Lexer.lx_col].
  by destruct (Lexer.bump ch l c).
Qed.

Lemma advance_while_go_remaining p s l c :
  (remaining (Lexer.advance_while_go p s l c) <= String.length s)%nat.
Proof.
  revert l c. induction s as [|ch r IH]; intros l c; cbn; [done|].
  destruct (p ch); [|done].
  destruct (Lexer.bump ch l c) as [l' c']. specialize (IH l' c'). lia.
Qed.

Lemma advance_while_remaining p lx :
  (remaining (Lexer._advance_while p lx) <= remaining lx)%nat.
Proof. apply advance_while_go_remaining. Qed.

Lemma advance_while_first p ch r l c :
  p ch = true ->
  (remaining (Lexer._advance_while p (Lexer.mkLexer (String ch r) l c))
   <= String.length r)%nat.
Proof.
  intros H. unfold Lexer._advance_while. cbn. rewrite H.
  destruct (Lexer.bump ch l c). apply advance_while_go_remaining.
Qed.

Lemma block_comment_go_remaining s l c :
  (remaining (Lexer.block_comment_go s l c) <= String.length s)%nat.
Proof.
  revert l c. induction s as [|ch r IH]; intros l c; cbn; [done|].
  destruct (Lexer.bump ch l c) as [l' c'].
  destruct r as [|ch2 r2]; [specialize (IH l' c'); cbn in *; lia|].
  destruct (_ && _).
  - destruct (Lexer.bump ch2 l' c'). cbn. lia.
  - specialize (IH l' c'). lia.
Qed.

Lemma lex_string_go_remaining quote s l c :
  (remaining (Lexer.lex_string_go quote s l c) <= String.length s)%nat.
Proof.
  remember (String.length s) as n eqn:En.
  revert s l c En. induction n as [n IH] using lt_wf_ind. intros s l c ->.
  destruct s as [|ch r]; [done|]. cbn [Lexer.lex_string_go].
  destruct (Lexer.bump ch l c) as [l' c'].
  destruct (Py.chr_eq ch Py.BACKSLASH).
  - destruct r as [|ch2 r2].
    + cbn. lia.
    + destruct (Lexer.bump ch2 l' c') as [l2 c2].
      specialize (IH (String.length r2) ltac:(cbn; lia) r2 l2 c2 eq_refl).
      cbn [String.length]. lia.
  - destruct (Py.chr_eq ch quote); [cbn; lia|].
    specialize (IH (String.length r) ltac:(cbn; lia) r l' c' eq_refl).
    cbn [String.length]. lia.
Qed.

Lemma lex_string_remaining quote ty l c lx :
  (remaining (snd (Lexer._lex_string quote ty l c lx))
   <= pred (remaining lx))%nat.
Proof.
  unfold Lexer._lex_string. cbn [snd].
  rewrite <- advance_remaining. apply lex_string_go_remaining.
Qed.

Ltac exponent_stage :=
  match goal with
  | |- context [Lexer.ch_in ?x ["e"%char; "E"%char]] =>
      destruct (Lexer.ch_in x ["e"%char; "E"%char])
  end; cbn [fst snd tok_type];
  (split; [discriminate|]);
  [ etrans; [apply advance_while_remaining|];
    match goal with
    | |- context [Lexer.ch_in ?x ?y] => destruct (Lexer.ch_in x y)
    end; rewrite !advance_remaining; lia
  | lia ].

Lemma lex_number_bound (l c : Z) (lx : Lexer.state) (n : nat) :
  (remaining (Lexer._advance_while Py.isdigit lx) <= n)%nat
  \/ (Lexer.ch_in (Lexer._advance_while Py.isdigit lx) ["."%char] = true
      /\ (exists d, Lexer._peek (Lexer._advance_while Py.isdigit lx) = Some d
                    /\ Py.isdigit d = true)
      /\ (remaining (Lexer._advance_while Py.isdigit lx) <= S n)%nat) ->
  tok_type (Lexer._lex_number l c lx).1 <> EOF
  /\ (remaining (Lexer._lex_number l c lx).2 <= n)%nat.
Proof.
  unfold Lexer._lex_number.
  set (lx1 := Lexer._advance_while Py.isdigit lx).
  intros [H | (Hdot & (d & Hpeek & Hd) & H)].
  - destruct (Lexer.ch_in lx1 ["."%char]).
    + destruct (Lexer._peek lx1) as [d|].
      * destruct (Py.isdigit d).
        -- set (lx2 := Lexer._advance_while Py.isdigit (Lexer._advance lx1)).
           assert (remaining lx2 <= remaining lx1)%nat as H2.
           { unfold lx2. etrans; [apply advance_while_remaining|].
             rewrite advance_remaining. lia. }
           exponent_stage.
        -- exponent_stage.
      * exponent_stage.
    + exponent_stage.
  - rewrite Hdot, Hpeek, Hd.
    set (lx2 := Lexer._advance_while Py.isdigit (Lexer._advance lx1)).
    assert (remaining lx2 <= pred (remaining lx1))%nat as H2.
    { unfold lx2. etrans; [apply advance_while_remaining|].
      rewrite advance_remaining. lia. }
    exponent_stage.
Qed.

Lemma table_no_EOF (m : gmap string TokenType) :
  forallb (fun p => negb (bool_decide (p.2 = EOF))) (map_to_list m) = true ->
  forall v ty, m !! v = Some ty -> ty <> EOF.
Proof.
  intros Hall v ty H ->.
  apply elem_of_map_to_list in H. apply list_elem_of_In in H.
  rewrite forallb_forall in Hall. specialize (Hall _ H). cbn in Hall.
  rewrite bool_decide_eq_true_2 in Hall by reflexivity. discriminate.
Qed.

Lemma KEYWORDS_no_EOF v ty : KEYWORDS !! v = Some ty -> ty <> EOF.
Proof. apply table_no_EOF. vm_compute. reflexivity. Qed.

Lemma SINGLE_no_EOF v ty : Lexer._SINGLE !! v = Some ty -> ty <> EOF.
Proof. apply table_no_EOF. vm_compute. reflexivity. Qed.

Lemma lex_operator_progress ch l c lx :
  tok_type (Lexer.lex_operator ch l c lx).1 <> EOF
  /\ (remaining (Lexer.lex_operator ch l c lx).2 <= remaining lx)%nat.
Proof.
  assert (remaining (Lexer._advance lx) <= remaining lx)%nat as H1
    by (rewrite advance_remaining; lia).
  assert (remaining (Lexer._advance (Lexer._advance lx)) <= remaining lx)%nat
    as H2 by (rewrite !advance_remaining; lia).
  unfold Lexer.lex_operator.
  repeat match goal with
         | |- context [if ?b then _ else _] => destruct b
         end;
    try (cbn [fst snd tok_type]; split; [discriminate | assumption || lia]).
  destruct (Lexer._SINGLE !! Lexer.str1 ch) as [ty|] eqn:E;
    cbn [fst snd tok_type]; split; try lia; try discriminate.
  eapply SINGLE_no_EOF; eassumption.
Qed.

Lemma chr_eq_true a b : Py.chr_eq a b = true -> a = b.
Proof.
  unfold Py.chr_eq. intros H.
  destruct (Ascii.eqb_spec a b); [assumption | discriminate].
Qed.

Lemma token_at_progress lx ch r :
  Lexer.source lx = String ch r ->
  tok_type (Lexer.token_at lx).1 <> EOF
  /\ (remaining (Lexer.token_at lx).2 <= String.length r)%nat.
Proof.
  intros Hs.
  assert (remaining lx = S (String.length r)) as Hrem
    by (unfold remaining; rewrite Hs; reflexivity).
  assert (lx = Lexer.mkLexer (String ch r) (Lexer.lx_line lx)
                 (Lexer.lx_col lx)) as Hlx
    by (destruct lx; cbn in *; congruence).
  unfold Lexer.token_at, Lexer._ch. rewrite Hs.
  destruct (Py.chr_eq ch "/" && Lexer.peek_is lx "/") eqn:E1.
  { cbn [fst snd tok_type]. split; [discriminate|].
    rewrite Hlx. apply advance_while_first.
    apply andb_true_iff in E1 as [E1 _].
    apply chr_eq_true in E1. subst ch. reflexivity. }
  destruct (Py.chr_eq ch "/" && Lexer.peek_is lx "*") eqn:E2.
  { cbn [fst snd tok_type]. split; [discriminate|].
    etrans; [apply block_comment_go_remaining|].
    fold (remaining (Lexer._advance (Lexer._advance lx))).
    rewrite !advance_remaining. lia. }
  destruct (Py.isalpha ch || Py.chr_eq ch "_") eqn:E3.
  { cbn [fst snd tok_type]. split.
    - destruct (KEYWORDS !! _) as [ty|] eqn:E; cbn [default];
        [eapply KEYWORDS_no_EOF; eassumption | discriminate].
    - rewrite Hlx. apply advance_while_first.
      apply orb_true_iff in E3 as [E3|E3]; apply orb_true_iff; [left|right];
        [|exact E3].
      unfold Py.isalnum. rewrite E3. reflexivity. }
  destruct (Py.isdigit ch) eqn:E4.
  { apply lex_number_bound. left. rewrite Hlx.
    apply advance_while_first. exact E4. }
  destruct (Py.chr_eq ch "." && _) eqn:E5.
  { apply lex_number_bound. right.
    apply andb_true_iff in E5 as [E5 E6]. apply chr_eq_true in E5. subst ch.
    assert (Lexer._advance_while Py.isdigit lx = lx) as ->.
    { rewrite Hlx at 1. unfold Lexer._advance_while. cbn.
      symmetry. exact Hlx. }
    split; [|split].
    - unfold Lexer.ch_in, Lexer._ch. rewrite Hs. reflexivity.
    - destruct (Lexer._peek lx) as [d|]; [|discriminate]. eauto.
    - lia. }
  destruct (Py.chr_eq ch "'") eqn:E6.
  { split; [unfold Lexer._lex_string; cbn; discriminate|].
    etrans; [apply lex_string_remaining|]. lia. }
  destruct (Py.chr_eq ch Py.DQUOTE) eqn:E7.
  { split; [unfold Lexer._lex_string; cbn; discriminate|].
    etrans; [apply lex_string_remaining|]. lia. }
  destruct (lex_operator_progress ch (Lexer.lx_line lx) (Lexer.lx_col lx)
              (Lexer._advance lx)) as [Ht Hr].
  split; [exact Ht|]. rewrite advance_remaining in Hr. lia.
Qed.

Lemma skip_whitespace_remaining lx :
  (remaining (Lexer._skip_whitespace lx) <= remaining lx)%nat.
Proof. apply advance_while_remaining. Qed.

Lemma next_token_cases lx :
  tok_type (Lexer._next_token lx).1 = EOF
  \/ (tok_type (Lexer._next_token lx).1 <> EOF
      /\ (remaining (Lexer._next_token lx).2 < remaining lx)%nat).
Proof.
  unfold Lexer._next_token.
  pose proof (skip_whitespace_remaining lx) as Hws.
  destruct (Lexer.source (Lexer._skip_whitespace lx)) as [|ch r] eqn:Hs.
  - left. unfold Lexer.token_at, Lexer._ch. rewrite Hs. reflexivity.
  - right. destruct (token_at_progress _ _ _ Hs) as [Ht Hr].
    split; [exact Ht|].
    unfold remaining in Hws at 1. rewrite Hs in Hws. cbn in Hws. lia.
Qed.

Lemma tokenize_loop_total fuel :
  forall lx acc,
    (remaining lx < fuel)%nat ->
    exists front last,
      Lexer.tokenize_loop fuel lx acc = Some (acc ++ front ++ [last])
      /\ tok_type last = EOF
      /\ Forall (fun t => tok_type t <> EOF) front.
Proof.
  induction fuel as [|fuel IH]; intros lx acc Hlt; [lia|].
  cbn [Lexer.tokenize_loop].
  destruct (next_token_cases lx) as [He | [Hne Hr]];
    destruct (Lexer._next_token lx) as [tok lx']; cbn [fst snd] in *.
  - rewrite bool_decide_eq_true_2 by exact He.
    exists [], tok. split; [reflexivity|]. split; [exact He | constructor].
  - rewrite bool_decide_eq_false_2 by exact Hne.
    destruct (IH lx' (acc ++ [tok])) as (front & last & Heq & Hl & Hf);
      [lia|].
    exists (tok :: front), last. split; [|split].
    + rewrite Heq. rewrite <- app_assoc. reflexivity.
    + exact Hl.
    + constructor; assumption.
Qed.

(** X1: [tokenize] is total: for every text it returns a token sequence,
    whose last token is the end-of-stream token [EOF] and which holds no
    other [EOF] token. *)
Theorem X1_tokenize_total (text : string) :
  exists front last,
    Lexer.tokenize text = Some (front ++ [last])
    /\ tok_type last = EOF
    /\ Forall (fun t => tok_type t <> EOF) front.
Proof.
  unfold Lexer.tokenize.
  destruct (tokenize_loop_total (S (String.length text)) (Lexer.init text) [])
    as (front & last & Heq & Hl & Hf).
  { unfold remaining, Lexer.init. cbn. lia. }
  exists front, last. auto.
Qed.

(* ===================================================================== *)
(** * The parser *)
(* ===================================================================== *)

Lemma init_without_line_comments (ts : list Token) :
  Parser.init ts = without_line_comments ts.
Proof.
  unfold Parser.init, without_line_comments.
  induction ts as [|t r IH]; [done|].
  rewrite filter_cons. cbn [List.filter]. rewrite IH.
  case_decide; case_bool_decide; simpl; done.
Qed.

Lemma without_line_comments_idem (ts : list Token) :
  without_line_comments (without_line_comments ts) = without_line_comments ts.
Proof.
  unfold without_line_comments.
  induction ts as [|t r IH]; [done|].
  cbn [List.filter]. destruct (negb _) eqn:E; [|done].
  cbn [List.filter]. by rewrite E, IH.
Qed.

(** Claim C10.  Parsing a token list gives the same result (the same file,
    or the same failure to return) as parsing it with its line comments
    removed; two token lists that differ in line comments only are parsed
    alike; the parser's token buffer holds no line comment. *)
Theorem C10_line_comments_do_not_matter (fuel : nat) (ts : list Token)
  (filename : string) :
  Parser.parse fuel ts filename
  = Parser.parse fuel (without_line_comments ts) filename
  /\ (forall ts', without_line_comments ts' = without_line_comments ts ->
        Parser.parse fuel ts' filename = Parser.parse fuel ts filename)
  /\ Forall (fun t => tok_type t <> LINE_COMMENT) (Parser.init ts).
Proof.
  unfold Parser.parse. rewrite !init_without_line_comments.
  split; [by rewrite without_line_comments_idem|].
  split.
  - intros ts' E. by rewrite init_without_line_comments, E.
  - unfold without_line_comments. apply List.Forall_forall.
    intros t [_ H]%filter_In. by case_bool_decide.
Qed.

Lemma parse_body_step_stray again n elements :
  Parser.parse_body_step again (S n) true elements stray_brace_tokens
  = again true elements stray_brace_tokens.
Proof. vm_compute. reflexivity. Qed.

Lemma parse_body_loop_stray fuel elements :
  Parser.parse_body_loop fuel true elements stray_brace_tokens = None.
Proof.
  induction fuel as [|n IH]; [done|].
  cbn [Parser.parse_body_loop].
  destruct n as [|m]; [by vm_compute|].
  by rewrite parse_body_step_stray.
Qed.

(** Claim C2 fails on the code.  The text [}] is tokenized to a closing
    brace and the end of the stream, and on these tokens [parse] returns no
    file whatever fuel it is given: at the top level [_parse_body] does not
    stop at the brace and [_parse_element] does not consume it, so the loop
    runs again in the same state. *)
Theorem C2_stray_brace_never_returns (fuel : nat) (filename : string) :
  Lexer.tokenize "}" = Some stray_brace_tokens
  /\ Parser.parse fuel stray_brace_tokens filename = None.
Proof.
  split; [by vm_compute|].
  unfold Parser.parse, Parser._parse_body.
  assert (Parser.init stray_brace_tokens = stray_brace_tokens) as ->
    by (by vm_compute).
  by rewrite parse_body_loop_stray.
Qed.

(* ===================================================================== *)
(** * The pipeline on the specification's example *)
(* ===================================================================== *)

Lemma lt_same_file (a b : Diagnostic) :
  d_filename a = d_filename b ->
  __lt__ a b
  = if negb (d_line a =? d_line b) then d_line a <? d_line b
    else d_col a <? d_col b.
Proof. unfold __lt__. intros ->. by rewrite String.eqb_refl. Qed.

Lemma engine_parse (k : nat) (filename : string) :
  Parser.parse (3 + k) engine_tokens filename = Some (engine_file filename).
Proof. vm_compute. reflexivity. Qed.

Lemma engine_collected (filename : string) :
  Checker.collected (engine_file filename) None = engine_diagnostics filename.
Proof. vm_compute. reflexivity. Qed.

Lemma engine_sorted (filename : string) :
  sorted (engine_diagnostics filename) = engine_diagnostics filename.
Proof.
  unfold engine_diagnostics. cbn [sorted insert_diag].
  repeat (rewrite lt_same_file by done; cbn). reflexivity.
Qed.

(** Claim C1.  The text [part def Engine { part def Turbine; }] is tokenized
    to PART, DEF, IDENTIFIER(Engine), LBRACE, PART, DEF, IDENTIFIER(Turbine),
    SEMI, RBRACE and the end of the stream; with fuel for three iterations
    [parse] returns the file whose only element is the [part_def] Engine
    with the single child [part_def] Turbine, of empty body; [check_file]
    with no rule filter returns exactly three diagnostics, the missing
    documentation of Engine, the missing documentation of Turbine and the
    empty body of Turbine, all at severity info; the naming rule reports
    nothing. *)
Theorem C1_engine_end_to_end (fuel : nat) (filename : string) :
  (3 <= fuel)%nat ->
  Lexer.tokenize engine_text = Some engine_tokens
  /\ map (fun t => (tok_type t, tok_value t)) engine_tokens
     = [ (PART, "part"); (DEF, "def"); (IDENTIFIER, "Engine"); (LBRACE, "{");
         (PART, "part"); (DEF, "def"); (IDENTIFIER, "Turbine"); (SEMI, ";");
         (RBRACE, "}"); (EOF, "") ]
  /\ Parser.parse fuel engine_tokens filename = Some (engine_file filename)
  /\ Checker.check_file (engine_file filename) None
     = engine_diagnostics filename
  /\ NamingRule.check (engine_file filename) = [].
Proof.
  intros Hfuel.
  split; [by vm_compute|]. split; [done|]. split.
  - replace fuel with (3 + (fuel - 3))%nat by lia. apply engine_parse.
  - split; [|by vm_compute].
    by rewrite check_file_sorted_collected, engine_collected, engine_sorted.
Qed.

Lemma C1_engine_witness :
  Lexer.tokenize engine_text = Some engine_tokens
  /\ Parser.parse 3 engine_tokens "engine.sysml" = Some (engine_file "engine.sysml")
  /\ Checker.check_file (engine_file "engine.sysml") None
     = engine_diagnostics "engine.sysml".
Proof.
  destruct (C1_engine_end_to_end 3 "engine.sysml" ltac:(lia))
    as (H1 & _ & H2 & H3 & _).
  exact (conj H1 (conj H2 H3)).
Defined.

(* ===================================================================== *)
(** * Quoted names and the naming rule *)
(* ===================================================================== *)

Lemma rstrip_by_keeps_head p c r :
  p c = false -> exists r', Py.rstrip_by p (String c r) = String c r'.
Proof.
  intros H. cbn [Py.rstrip_by]. rewrite H.
  destruct (Py.rstrip_by p r); eauto.
Qed.

Lemma strip_by_head p s :
  match Py.strip_by p s with
  | EmptyString => True
  | String c _ => p c = false
  end.
Proof.
  unfold Py.strip_by. induction s as [|c r IH]; [done|].
  cbn [Py.lstrip_by]. destruct (p c) eqn:E; [done|].
  destruct (rstrip_by_keeps_head p c r E) as [r' ->]. done.
Qed.

Lemma dequoted_is_not_quoted (s : string) :
  NamingRule._is_quoted (Py.strip_chars ["'"%char] s) = false.
Proof.
  unfold Py.strip_chars, NamingRule._is_quoted, Py.startswith.
  pose proof (strip_by_head (fun c => existsb (Py.chr_eq c) ["'"%char]) s) as H.
  destruct (Py.strip_by _ s) as [|c r]; [done|].
  cbn in H. cbn [String.prefix].
  destruct (ascii_dec "'" c) as [<-|]; [done|done].
Qed.

Lemma parse_quoted_name (t : Token) (ts : list Token) :
  tok_type t = STRING ->
  Parser._parse_name_token (t :: ts)
  = Some (Some (Py.strip_chars ["'"%char] (tok_value t)), ts).
Proof.
  destruct t as [ty v l c]. cbn [tok_type tok_value]. intros ->.
  reflexivity.
Qed.

(** Claim C6 fails on the code.  [_parse_name_token] returns a quoted name
    without its quotes, so [_is_quoted] is false of every name that was
    written as a quoted string and the naming rule checks it like any
    other: the element [part def 'weird name';] gets the naming diagnostic
    W001. *)
Theorem C6_quoted_name_gets_naming_diagnostic (filename : string) :
  parse_text 3 weird_text filename = Some (weird_file filename)
  /\ NamingRule.check (weird_file filename)
     = [weird_naming_diagnostic filename]
  /\ In (weird_naming_diagnostic filename)
       (Checker.check_file (weird_file filename) None)
  /\ (forall (t : Token) (ts : list Token), tok_type t = STRING ->
        exists n, Parser._parse_name_token (t :: ts) = Some (Some n, ts)
                  /\ NamingRule._is_quoted n = false).
Proof.
  split; [by vm_compute|]. split; [by vm_compute|]. split.
  - rewrite check_file_sorted_collected.
    apply (Permutation_in _ (Permutation_sym (sorted_perm _))).
    vm_compute. by left.
  - intros t ts H. eexists. split; [by apply parse_quoted_name|].
    apply dequoted_is_not_quoted.
Qed.

(* ===================================================================== *)
(** * Packages and the documentation rule *)
(* ===================================================================== *)

Lemma package_kind_cases (k : string) :
  k ∈ DocumentationRule._PACKAGE_KINDS -> k = "package" \/ k = "namespace".
Proof. unfold DocumentationRule._PACKAGE_KINDS. set_solver. Qed.

Lemma documentation_visit_package elem filename parent :
  kind elem ∈ DocumentationRule._PACKAGE_KINDS ->
  DocumentationRule._visit elem filename parent = [].
Proof.
  intros H. apply package_kind_cases in H.
  unfold DocumentationRule._visit.
  destruct H as [-> | ->].
  - replace (bool_decide ("package" ∈ DocumentationRule._DEF_KINDS))
      with false by (by vm_compute).
    cbn. by destruct (Py.truthy (name elem)).
  - replace (bool_decide ("namespace" ∈ DocumentationRule._DEF_KINDS))
      with false by (by vm_compute).
    cbn. by destruct (Py.truthy (name elem)).
Qed.

(** Claim C7 fails on the code.  The documentation rule lets a package or
    namespace past its first guard and then reports only [is_def]
    elements: its visitor returns nothing for every package and namespace,
    documented or not, and the text [package Foo;] gets no diagnostic at
    all. *)
Theorem C7_package_gets_no_documentation_diagnostic :
  (forall elem filename parent,
      kind elem ∈ DocumentationRule._PACKAGE_KINDS ->
      DocumentationRule._visit elem filename parent = [])
  /\ (forall filename,
        parse_text 3 package_text filename = Some (package_file filename)
        /\ Py.truthy (name package_foo) = true
        /\ doc package_foo = None
        /\ DocumentationRule.check (package_file filename) = []
        /\ Checker.check_file (package_file filename) None = []).
Proof.
  split; [apply documentation_visit_package|].
  intros filename. repeat split; by vm_compute.
Qed.

(* ===================================================================== *)
(** * The rule engine *)
(* ===================================================================== *)

(** ** The tree *)

Lemma Element_tree_ind (P : Element -> Prop) :
  (forall e, List.Forall P (body e) -> P e) -> forall e, P e.
Proof.
  intros H. fix IH 1. intros e. apply H.
  destruct e as [k d n t s m b dc md l c ip st]. cbn [body].
  induction b as [|x r IHr]; constructor; [apply IH|exact IHr].
Qed.

Lemma walk_elem_unfold filename visitor parent elem :
  BaseRule.walk_elem filename visitor parent elem
  = visitor elem filename parent
    ++ BaseRule._walk (body elem) filename visitor (Some elem).
Proof.
  destruct elem as [k d n t s m b dc md l c ip st]. cbn [BaseRule.walk_elem body].
  f_equal. generalize (Some (mkElement k d n t s m b dc md l c ip st)).
  intros p. induction b as [|x r IH]; [done|]. cbn [BaseRule._walk].
  by rewrite <- IH.
Qed.

(** The shape of [_walk] in the source. *)
Lemma walk_cons elem rest filename visitor parent :
  BaseRule._walk (elem :: rest) filename visitor parent
  = visitor elem filename parent
    ++ BaseRule._walk (body elem) filename visitor (Some elem)
    ++ BaseRule._walk rest filename visitor parent.
Proof. cbn [BaseRule._walk]. by rewrite walk_elem_unfold, <- app_assoc. Qed.

Lemma walk_Forall (Q : Diagnostic -> Prop) (visitor : BaseRule.Visitor)
  (filename : string) :
  (forall e p, List.Forall Q (visitor e filename p)) ->
  forall elements parent,
    List.Forall Q (BaseRule._walk elements filename visitor parent).
Proof.
  intros HV.
  assert (forall e parent,
            List.Forall Q (BaseRule.walk_elem filename visitor parent e)) as He.
  { induction e as [e IH] using Element_tree_ind. intros parent.
    rewrite walk_elem_unfold. apply List.Forall_app. split; [apply HV|].
    induction IH as [|x r Hx Hr IHr]; [constructor|].
    cbn [BaseRule._walk]. apply List.Forall_app. split; [apply Hx|apply IHr]. }
  intros elements parent. induction elements as [|x r IH]; [constructor|].
  cbn [BaseRule._walk]. apply List.Forall_app. split; [apply He|apply IH].
Qed.

(** ** The frame of [check_file] *)




(** ** What each rule reports *)

Lemma naming_rule_ids file :
  List.Forall (rule_in ["W001"; "W002"; "W003"]) (NamingRule.check file).
Proof.
  apply walk_Forall. intros e p. unfold NamingRule._visit.
  destruct (name e) as [n|]; [|constructor].
  repeat match goal with
  | |- context [if ?b then _ else _] => destruct b
  end; repeat constructor; cbn; tauto.
Qed.

Lemma documentation_rule_ids file :
  List.Forall (rule_in ["W010"; "W011"]) (DocumentationRule.check file).
Proof.
  apply walk_Forall. intros e p. unfold DocumentationRule._visit.
  repeat match goal with
  | |- context [if ?b then _ else _] => destruct b
  end; repeat constructor; cbn; tauto.
Qed.

Lemma structure_rule_ids file :
  List.Forall (rule_in ["W020"; "W021"; "W022"; "W023"; "I001"])
    (StructureRule.check file).
Proof.
  apply walk_Forall. intros e p. unfold StructureRule._visit.
  repeat (apply List.Forall_app; split).
  all: repeat match goal with
  | |- context [if ?b then _ else _] => destruct b
  end; repeat constructor; cbn; tauto.
Qed.

(* ===================================================================== *)
(** * The scope rule *)
(* ===================================================================== *)

(** ** Diagnostics by rule id *)

Lemma filter_rule_none (id : string) (ids : list string)
  (l : list Diagnostic) :
  List.Forall (rule_in ids) l -> ~ In id ids ->
  List.filter (has_rule id) l = [].
Proof.
  intros H Hn. induction H as [|d r Hd _ IH]; [done|].
  cbn [List.filter]. unfold has_rule at 1.
  destruct (String.eqb_spec (rule_id d) id) as [E|E]; [|exact IH].
  unfold rule_in in Hd. by rewrite E in Hd.
Qed.

Lemma filter_rule_all (id : string) (l : list Diagnostic) :
  List.Forall (rule_in [id]) l -> List.filter (has_rule id) l = l.
Proof.
  intros H. induction H as [|d r Hd _ IH]; [done|].
  cbn [List.filter]. unfold has_rule at 1.
  destruct Hd as [Hd|[]]. rewrite <- Hd, String.eqb_refl. by rewrite IH.
Qed.

Lemma filter_permutation {A : Type} (f : A -> bool) (l l' : list A) :
  Permutation l l' -> Permutation (List.filter f l) (List.filter f l').
Proof.
  induction 1 as [|x l l' _ IH|x y l|l l' l'' _ IH1 _ IH2]; cbn [List.filter].
  - done.
  - destruct (f x); [by constructor|done].
  - destruct (f x), (f y); try done. apply perm_swap.
  - by etrans.
Qed.

Lemma collected_all_rules (file : File) :
  Checker.collected file None
  = NamingRule.check file ++ DocumentationRule.check file
    ++ StructureRule.check file ++ ScopeRule.check file.
Proof.
  unfold Checker.collected, Checker.ALL_RULES, Checker.reading.
  cbn [Checker.run_rules Checker.select fst app].
  by rewrite <- ?app_assoc.
Qed.

(** ** The scope rule's own diagnostics *)

Lemma duplicates_in_body_unfold filename elem :
  ScopeRule.duplicates_in_body filename elem
  = ScopeRule._check_duplicates (body elem) filename.
Proof. by destruct elem. Qed.

Lemma body_duplicates filename elem :
  (if negb (StructureRule.is_nil (body elem))
   then ScopeRule.duplicates_in_body filename elem else [])
  = ScopeRule._check_duplicates (body elem) filename.
Proof.
  rewrite duplicates_in_body_unfold.
  by destruct (body elem).
Qed.

Lemma duplicates_loop_rule_ids filename in_body elements seen :
  (forall e, In e elements -> List.Forall (rule_in ["W030"]) (in_body e)) ->
  List.Forall (rule_in ["W030"])
    (ScopeRule.duplicates_loop in_body filename elements seen).
Proof.
  revert seen. induction elements as [|e r IH]; intros seen H; [constructor|].
  cbn [ScopeRule.duplicates_loop].
  apply List.Forall_app. split.
  { destruct (if ScopeRule.contributes e then _ else _);
      repeat constructor. }
  apply List.Forall_app. split.
  { destruct (negb _); [apply H; by left|constructor]. }
  apply IH. intros e' He'. apply H. by right.
Qed.

Lemma check_duplicates_rule_ids filename elements :
  List.Forall (rule_in ["W030"])
    (ScopeRule._check_duplicates elements filename).
Proof.
  assert (forall e, List.Forall (rule_in ["W030"])
                      (ScopeRule.duplicates_in_body filename e)) as H.
  { induction e as [e IH] using Element_tree_ind.
    rewrite duplicates_in_body_unfold. unfold ScopeRule._check_duplicates.
    apply duplicates_loop_rule_ids. intros e' He'.
    rewrite List.Forall_forall in IH. by apply IH. }
  apply duplicates_loop_rule_ids. intros e _. apply H.
Qed.

Lemma unused_loop_rule_ids filename used imports :
  List.Forall (rule_in ["W031"]) (ScopeRule.unused_loop filename used imports).
Proof.
  induction imports as [|imp r IH]; [constructor|].
  cbn [ScopeRule.unused_loop]. apply List.Forall_app. split; [|exact IH].
  destruct (negb (Py.truthy _)); [constructor|].
  destruct (negb (ScopeRule.referenced _ _)); repeat constructor.
Qed.

Lemma check_unused_imports_rule_ids file :
  List.Forall (rule_in ["W031"]) (ScopeRule._check_unused_imports file).
Proof.
  unfold ScopeRule._check_unused_imports.
  destruct (StructureRule.is_nil _); [constructor|].
  apply unused_loop_rule_ids.
Qed.

Lemma not_in_ids (id : string) (ids : list string) :
  forallb (fun x => negb (String.eqb x id)) ids = true -> ~ In id ids.
Proof.
  intros H Hin. rewrite forallb_forall in H. specialize (H id Hin).
  by rewrite String.eqb_refl in H.
Qed.

Lemma check_file_unused_imports (file : File) :
  Permutation
    (List.filter (has_rule "W031") (Checker.check_file file None))
    (ScopeRule._check_unused_imports file).
Proof.
  rewrite check_file_sorted_collected.
  rewrite (filter_permutation _ _ _ (sorted_perm _)).
  rewrite collected_all_rules. unfold ScopeRule.check.
  rewrite !List.filter_app.
  rewrite (filter_rule_none _ _ _ (naming_rule_ids file))
    by (by apply not_in_ids).
  rewrite (filter_rule_none _ _ _ (documentation_rule_ids file))
    by (by apply not_in_ids).
  rewrite (filter_rule_none _ _ _ (structure_rule_ids file))
    by (by apply not_in_ids).
  rewrite (filter_rule_none _ _ _ (check_duplicates_rule_ids _ _))
    by (by apply not_in_ids).
  by rewrite (filter_rule_all _ _ (check_unused_imports_rule_ids file)).
Qed.

Lemma check_file_duplicates (file : File) :
  Permutation
    (List.filter (has_rule "W030") (Checker.check_file file None))
    (ScopeRule._check_duplicates (elements file) (filename file)).
Proof.
  rewrite check_file_sorted_collected.
  rewrite (filter_permutation _ _ _ (sorted_perm _)).
  rewrite collected_all_rules. unfold ScopeRule.check.
  rewrite !List.filter_app.
  rewrite (filter_rule_none _ _ _ (naming_rule_ids file))
    by (by apply not_in_ids).
  rewrite (filter_rule_none _ _ _ (documentation_rule_ids file))
    by (by apply not_in_ids).
  rewrite (filter_rule_none _ _ _ (structure_rule_ids file))
    by (by apply not_in_ids).
  rewrite (filter_rule_none _ _ _ (check_unused_imports_rule_ids _))
    by (by apply not_in_ids).
  rewrite (filter_rule_all _ _ (check_duplicates_rule_ids _ _)).
  by rewrite app_nil_r.
Qed.

(** ** What the scope rule collects *)

Lemma descendants_unfold (e : Element) :
  descendants e = e :: all_elements (body e).
Proof. by destruct e. Qed.

Lemma collect_imports_elem_unfold (elem : Element) (out : list Element) :
  ScopeRule.collect_imports_elem elem out
  = ScopeRule._collect_imports (body elem)
      (if is_import elem then out ++ [elem] else out).
Proof.
  destruct elem as [k d n t s m b dc md l c ip st].
  cbn [ScopeRule.collect_imports_elem body kind]. unfold is_import. cbn [kind].
  generalize (if String.eqb k "import"
              then out ++ [mkElement k d n t s m b dc md l c ip st] else out).
  induction b as [|x r IH]; intros o; [done|].
  cbn [ScopeRule._collect_imports]. apply IH.
Qed.

Lemma collect_imports_list (elements : list Element) :
  List.Forall (fun e => forall out,
                 ScopeRule.collect_imports_elem e out
                 = out ++ List.filter is_import (descendants e)) elements ->
  forall out,
    ScopeRule._collect_imports elements out
    = out ++ List.filter is_import (all_elements elements).
Proof.
  induction 1 as [|e r He _ IH]; intros out; cbn [ScopeRule._collect_imports].
  - by rewrite app_nil_r.
  - rewrite He, IH. unfold all_elements. cbn [flat_map].
    by rewrite List.filter_app, app_assoc.
Qed.

Lemma collect_imports_elem_spec (e : Element) (out : list Element) :
  ScopeRule.collect_imports_elem e out
  = out ++ List.filter is_import (descendants e).
Proof.
  revert out. induction e as [e IH] using Element_tree_ind. intros out.
  rewrite collect_imports_elem_unfold, (collect_imports_list _ IH).
  rewrite descendants_unfold. cbn [List.filter].
  destruct (is_import e); [|done]. by rewrite <- app_assoc.
Qed.

Lemma imports_of_spec (file : File) :
  imports_of file = List.filter is_import (all_elements (elements file)).
Proof.
  unfold imports_of. rewrite collect_imports_list; [done|].
  apply List.Forall_forall. intros e _ out. apply collect_imports_elem_spec.
Qed.

Lemma collect_references_elem_unfold (elem : Element) (out : gset string) :
  ScopeRule.collect_references_elem elem out
  = ScopeRule._collect_references (body elem)
      (out ∪ ScopeRule.own_references elem).
Proof.
  destruct elem as [k d n t s m b dc md l c ip st].
  cbn [ScopeRule.collect_references_elem body].
  generalize (out ∪ ScopeRule.own_references
                      (mkElement k d n t s m b dc md l c ip st)).
  induction b as [|x r IH]; intros o; [done|].
  cbn [ScopeRule._collect_references]. apply IH.
Qed.

Lemma collect_references_list (elements : list Element) :
  List.Forall collects elements ->
  forall (out : gset string) (x : string),
    x ∈ ScopeRule._collect_references elements out
    <-> x ∈ out \/ exists e', In e' (all_elements elements)
                              /\ x ∈ ScopeRule.own_references e'.
Proof.
  induction 1 as [|e r He _ IH]; intros out x;
    cbn [ScopeRule._collect_references].
  - split; [by left|]. intros [?|(e' & [] & _)]. done.
  - unfold collects in He. rewrite IH, He. unfold all_elements.
    cbn [flat_map].
    split.
    + intros [[Hx|(e' & He' & Hx)]|(e' & He' & Hx)]; [by left|right..];
        exists e'; (split; [apply in_app_iff|done]); [by left|by right].
    + intros [Hx|(e' & He' & Hx)]; [by left; left|].
      apply in_app_iff in He' as [He'|He'];
        [left; right|right]; by exists e'.
Qed.

Lemma collect_references_elem_spec (e : Element) : collects e.
Proof.
  induction e as [e IH] using Element_tree_ind. intros out x.
  rewrite collect_references_elem_unfold, (collect_references_list _ IH).
  rewrite descendants_unfold, elem_of_union. cbn [In]. split.
  - intros [[Hx|Hx]|(e' & He' & Hx)]; [by left|right..].
    + exists e. split; [by left|done].
    + exists e'. split; [by right|done].
  - intros [Hx|(e' & [<-|He'] & Hx)]; [by left; left|by left; right|].
    right. by exists e'.
Qed.

Lemma used_names_of_spec (file : File) (x : string) :
  x ∈ used_names_of file
  <-> exists e, In e (all_elements (elements file))
                /\ x ∈ ScopeRule.own_references e.
Proof.
  unfold used_names_of. rewrite collect_references_list.
  - split; [intros [H|H]; [set_solver|done]|by right].
  - apply List.Forall_forall. intros e _. apply collect_references_elem_spec.
Qed.

(** ** Unused imports *)

Lemma unused_loop_map filename used imports :
  ScopeRule.unused_loop filename used imports
  = map (ScopeRule.unused_diag filename)
      (List.filter (is_reported used) imports).
Proof.
  induction imports as [|imp r IH]; [done|].
  cbn [ScopeRule.unused_loop List.filter]. unfold is_reported at 1.
  destruct (Py.truthy _); cbn; [|exact IH].
  destruct (ScopeRule.referenced _ _); cbn; by rewrite IH.
Qed.

Lemma check_unused_imports_map (file : File) :
  ScopeRule._check_unused_imports file
  = map (ScopeRule.unused_diag (filename file))
      (List.filter (is_reported (used_names_of file)) (imports_of file)).
Proof.
  unfold ScopeRule._check_unused_imports. fold (imports_of file).
  fold (used_names_of file).
  destruct (imports_of file) as [|imp r] eqn:E; [done|].
  cbn [StructureRule.is_nil]. apply unused_loop_map.
Qed.

Lemma referenced_member (imp : Element) (used : gset string) :
  import_star imp = false ->
  ScopeRule.referenced imp used = false
  <-> (leaf_of (fmt (import_path imp)) ∉ used)
      /\ (fmt (import_path imp) ∉ used).
Proof.
  intros H. unfold ScopeRule.referenced, leaf_of. rewrite H.
  rewrite orb_false_iff, !bool_decide_eq_false. done.
Qed.

Lemma filter_sublist {A : Type} (f : A -> bool) (l : list A) :
  sublist (List.filter f l) l.
Proof.
  induction l as [|x r IH]; cbn [List.filter]; [constructor|].
  destruct (f x); by constructor.
Qed.

Lemma segment_is_used (file : File) (e : Element) (t s : string) :
  In e (all_elements (elements file)) -> type_ref e = Some t ->
  In s (Py.split "::" t) -> t <> "" -> s ∈ used_names_of file.
Proof.
  intros He Ht Hs Hne. apply used_names_of_spec. exists e. split; [done|].
  unfold ScopeRule.own_references. rewrite Ht. cbn [fmt default].
  destruct t as [|c r]; [done|]. cbn [Py.truthy].
  apply elem_of_union_l, elem_of_list_to_set, list_elem_of_In. exact Hs.
Qed.

Lemma import_abc_check (filename : string) :
  Checker.check_file (import_abc_file filename) None
  = [ScopeRule.unused_diag filename import_abc].
Proof.
  rewrite check_file_sorted_collected.
  assert (Checker.collected (import_abc_file filename) None
          = [ScopeRule.unused_diag filename import_abc]) as -> by (by vm_compute).
  reflexivity.
Qed.

Lemma own_references_spec (e : Element) (x : string) :
  x ∈ ScopeRule.own_references e
  <-> (exists t, type_ref e = Some t /\ t <> "" /\ segment_of t x)
      \/ in_specializes e x.
Proof.
  unfold ScopeRule.own_references, in_specializes, segment_of.
  rewrite elem_of_union, !elem_of_list_to_set, list_elem_of_In, in_flat_map.
  assert (x ∈ (if Py.truthy (type_ref e)
               then list_to_set (Py.split "::" (fmt (type_ref e)))
               else (∅ : gset string))
          <-> exists t, type_ref e = Some t /\ t <> ""
                        /\ In x (Py.split "::" t)) as ->.
  { destruct (type_ref e) as [[|c r]|]; cbn [Py.truthy fmt default].
    - split; [by intros ?%not_elem_of_empty|]. by intros (t & [= <-] & ? & _).
    - rewrite elem_of_list_to_set, list_elem_of_In. split.
      + intros H. by exists (String c r).
      + by intros (t & [= <-] & _ & H).
    - split; [by intros ?%not_elem_of_empty|]. by intros (t & ? & _). }
  done.
Qed.

Lemma used_names_collected (file : File) (x : string) :
  x ∈ used_names_of file <-> collected_segment file x.
Proof.
  rewrite used_names_of_spec. unfold collected_segment.
  split; intros (e & He & H); exists e; (split; [done|]);
    by apply own_references_spec.
Qed.

(** Claim C4, amended.  The W031 diagnostics of [check_file] are, one for
    one, those of a sub-list [reported] of the imports found anywhere in
    the tree, in the order of the tree; a non-wildcard import is in it
    iff its path is not empty and neither its last segment nor its whole
    path is a segment of a non-empty type_ref or of a specializes value
    of an element of the tree; an import with an empty path is never
    reported; when some element of the tree has a type_ref with the
    segment [C], no non-wildcard import of [A::B::C] is reported; the
    names the code collects are those segments.  The file of the text
    [import A::B::C;] gets exactly one diagnostic, the unused import. *)
Theorem C4_unused_import_amended :
  (forall file : File, exists reported : list Element,
     Permutation
       (List.filter (has_rule "W031") (Checker.check_file file None))
       (map (ScopeRule.unused_diag (filename file)) reported)
     /\ sublist reported
          (List.filter is_import (all_elements (elements file)))
     /\ (forall imp,
           In imp (all_elements (elements file)) -> kind imp = "import" ->
           import_star imp = false ->
           (In imp reported <->
              Py.truthy (import_path imp) = true
              /\ ~ collected_segment file (leaf_of (fmt (import_path imp)))
              /\ ~ collected_segment file (fmt (import_path imp))))
     /\ (forall imp, In imp reported -> Py.truthy (import_path imp) = true)
     /\ (forall e t, In e (all_elements (elements file)) ->
           type_ref e = Some t -> In "C" (Py.split "::" t) ->
           forall imp, In imp reported -> import_star imp = false ->
             import_path imp <> Some "A::B::C"))
  /\ (forall file imp,
        In imp (imports_of file)
        <-> In imp (all_elements (elements file)) /\ kind imp = "import")
  /\ (forall file x, x ∈ used_names_of file <-> collected_segment file x)
  /\ (forall k filename,
        parse_text (4 + k) "import A::B::C;" filename
        = Some (import_abc_file filename)
        /\ Checker.check_file (import_abc_file filename) None
           = [ScopeRule.unused_diag filename import_abc]).
Proof.
  split; [|split; [|split]].
  - intros file.
    exists (List.filter (is_reported (used_names_of file)) (imports_of file)).
    split; [|split; [|split; [|split]]].
    + rewrite check_file_unused_imports. by rewrite check_unused_imports_map.
    + rewrite <- imports_of_spec. apply filter_sublist.
    + intros imp Hin Hk Hstar. rewrite filter_In, imports_of_spec, filter_In.
      unfold is_reported, is_import.
      rewrite andb_true_iff, negb_true_iff, (referenced_member _ _ Hstar).
      rewrite <- !used_names_collected, String.eqb_eq. tauto.
    + intros imp [_ H]%filter_In. unfold is_reported in H.
      by apply andb_true_iff in H as [H _].
    + intros e t He Ht Hs imp [_ H]%filter_In Hstar Hp.
      unfold is_reported in H. apply andb_true_iff in H as [_ H].
      apply negb_true_iff in H.
      apply (referenced_member _ _ Hstar) in H as [H _].
      apply H. rewrite Hp.
      assert (leaf_of (fmt (Some "A::B::C")) = "C") as -> by reflexivity.
      apply (segment_is_used file e t); [done..|].
      intros ->. cbn in Hs. by destruct Hs as [Hs|[]].
  - intros file imp. rewrite imports_of_spec, filter_In. unfold is_import.
    by rewrite String.eqb_eq.
  - apply used_names_collected.
  - intros k filename. split; [by vm_compute|apply import_abc_check].
Qed.

(** Claim C4 as stated fails twice.  For an import whose path is empty:
    the text [import ;] gives one import that is not a wildcard, neither
    its last segment nor its path is a segment of a type_ref or of a
    specializes value, and nothing is reported.  For an empty type_ref:
    in a tree with the import of [A::] and a usage whose type_ref is the
    empty string, the last segment of the path is the segment of that
    type_ref, and the import is reported all the same. *)
Lemma C4_counterexample :
  (parse_text 3 "import ;" "f.sysml" = Some import_nothing_file
   /\ In import_nothing (all_elements (elements import_nothing_file))
   /\ kind import_nothing = "import"
   /\ import_star import_nothing = false
   /\ ~ claimed_segment import_nothing_file
          (leaf_of (fmt (import_path import_nothing)))
   /\ ~ claimed_segment import_nothing_file (fmt (import_path import_nothing))
   /\ Checker.check_file import_nothing_file None = [])
  /\ (In import_trailing (all_elements (elements trailing_file))
      /\ kind import_trailing = "import"
      /\ import_star import_trailing = false
      /\ claimed_segment trailing_file
           (leaf_of (fmt (import_path import_trailing)))
      /\ Checker.check_file trailing_file None
         = [ScopeRule.unused_diag "f.sysml" import_trailing]).
Proof.
  split.
  - split; [by vm_compute|]. split; [by left|]. split; [done|].
    split; [done|].
    assert (forall x, ~ claimed_segment import_nothing_file x) as Hno.
    { intros x (e & [<-|[]] & [(t & Ht & _)|(s & [] & _)]). discriminate. }
    split; [apply Hno|]. split; [apply Hno|]. by vm_compute.
  - split; [by left|]. split; [done|]. split; [done|]. split.
    + exists untyped_part. split; [right; by left|]. left.
      exists "". split; [done|]. by left.
    + by vm_compute.
Qed.
(** ** Duplicate names *)

Lemma find_snoc {A : Type} (p : A -> bool) (l : list A) (x : A) :
  List.find p (l ++ [x])
  = match List.find p l with
    | Some y => Some y
    | None => if p x then Some x else None
    end.
Proof.
  induction l as [|a l IH]; cbn [app List.find]; [by destruct (p x)|].
  by destruct (p a).
Qed.

(** The dictionary [seen] holds, under each key, the first of the earlier
    siblings that takes part with that key. *)
Lemma duplicates_loop_with_earlier fname rest :
  forall earlier seen,
    (forall k, seen !! k
               = List.find (fun x => ScopeRule.contributes x
                                     && String.eqb (ScopeRule.name_key x) k)
                   earlier) ->
    ScopeRule.duplicates_loop (ScopeRule.duplicates_in_body fname) fname
      rest seen
    = flat_map
        (fun p => reported_at fname p.1 p.2
                  ++ ScopeRule._check_duplicates (body p.2) fname)
        (with_earlier earlier rest).
Proof.
  induction rest as [|e r IH]; intros earlier seen Hseen; [done|].
  cbn [ScopeRule.duplicates_loop with_earlier flat_map fst snd].
  rewrite body_duplicates, <- app_assoc. f_equal; [|f_equal].
  - unfold reported_at, first_declared.
    destruct (ScopeRule.contributes e); [|done]. by rewrite Hseen.
  - apply IH. intros k. rewrite find_snoc, <- Hseen. cbv beta.
    destruct (ScopeRule.contributes e) eqn:Ec; cbn [andb].
    + destruct (seen !! ScopeRule.name_key e) as [first|] eqn:Es;
        cbn [is_some negb].
      * destruct (seen !! k) as [y|] eqn:Ek; [done|].
        destruct (String.eqb_spec (ScopeRule.name_key e) k) as [Heq|Hne];
          [congruence|done].
      * destruct (String.eqb_spec (ScopeRule.name_key e) k) as [Heq|Hne].
        -- rewrite <- Heq, lookup_insert_eq. by rewrite Es.
        -- rewrite lookup_insert_ne by done. by destruct (seen !! k).
    + by destruct (seen !! k).
Qed.

Lemma check_duplicates_with_earlier fname elements :
  ScopeRule._check_duplicates elements fname
  = flat_map
      (fun p => reported_at fname p.1 p.2
                ++ ScopeRule._check_duplicates (body p.2) fname)
      (with_earlier [] elements).
Proof.
  unfold ScopeRule._check_duplicates. apply duplicates_loop_with_earlier.
  intros k. apply lookup_empty.
Qed.

Lemma contributes_takes_part e :
  ScopeRule.contributes e = true <-> takes_part e.
Proof.
  unfold ScopeRule.contributes, takes_part.
  by rewrite andb_true_iff, bool_decide_eq_true.
Qed.

Lemma find_first {A : Type} (p : A -> bool) (pre : list A) (x : A)
  (post : list A) :
  (forall y, In y pre -> p y = false) -> p x = true ->
  List.find p (pre ++ x :: post) = Some x.
Proof.
  intros Hpre Hx. induction pre as [|a pre IH]; cbn [app List.find].
  - by rewrite Hx.
  - rewrite (Hpre a) by (by left). apply IH. intros y Hy. apply Hpre.
    by right.
Qed.

Lemma find_none {A : Type} (p : A -> bool) (l : list A) :
  (forall y, In y l -> p y = false) -> List.find p l = None.
Proof.
  intros H. induction l as [|a l IH]; [done|]. cbn [List.find].
  rewrite (H a) by (by left). apply IH. intros y Hy. apply H. by right.
Qed.

Lemma declares_false x e :
  ~ (takes_part x /\ same_name x e) ->
  ScopeRule.contributes x
  && String.eqb (ScopeRule.name_key x) (ScopeRule.name_key e) = false.
Proof.
  intros H. apply andb_false_iff.
  destruct (ScopeRule.contributes x) eqn:Ec; [|by left]. right.
  apply String.eqb_neq. intros Hk. apply H.
  split; [by apply contributes_takes_part|exact Hk].
Qed.

Lemma with_earlier_app l1 :
  forall earlier l2,
    with_earlier earlier (l1 ++ l2)
    = with_earlier earlier l1 ++ with_earlier (earlier ++ l1) l2.
Proof.
  induction l1 as [|e r IH]; intros earlier l2; cbn [app with_earlier].
  - by rewrite app_nil_r.
  - rewrite IH, <- app_assoc. done.
Qed.

Lemma reported_at_first fname pre mid e1 e2 :
  takes_part e1 -> takes_part e2 -> same_name e1 e2 ->
  (forall x, In x pre -> ~ (takes_part x /\ same_name x e2)) ->
  reported_at fname (pre ++ e1 :: mid) e2
  = [ScopeRule.duplicate_diag fname e2 e1].
Proof.
  intros H1 H2 Hs Hpre. unfold reported_at, first_declared.
  apply contributes_takes_part in H1, H2. rewrite H2.
  rewrite (find_first _ pre e1 mid); [done| |].
  - intros y Hy. apply declares_false. by apply Hpre.
  - rewrite H1. cbn [andb]. by apply String.eqb_eq.
Qed.

Lemma reported_at_none fname earlier e :
  ~ takes_part e
  \/ (forall x, In x earlier -> ~ (takes_part x /\ same_name x e)) ->
  reported_at fname earlier e = [].
Proof.
  intros H. unfold reported_at, first_declared.
  destruct (ScopeRule.contributes e) eqn:Ec; [|done].
  destruct H as [H|H]; [by apply contributes_takes_part in Ec|].
  rewrite find_none; [done|]. intros y Hy. apply declares_false. by apply H.
Qed.

(** Claim C5, amended.  In every scope - the siblings of one body, or
    the top level - [_check_duplicates] gives, sibling by sibling, what
    the scope reports at the sibling and then the diagnostics of the
    scope nested in it.  At a sibling [e2] of scope-contributing kind
    and non-empty name it reports exactly one diagnostic when an earlier
    sibling of such kind and name has the same name, letter case apart:
    a W030 warning at the line and column of [e2] whose message gives
    the line of [e1], the first of these siblings; whatever the other
    siblings are.  It reports nothing at a sibling that does not take
    part, or whose name no earlier sibling declared; so the first
    declaration gets none, and an element whose name is empty takes no
    part.  An element and the single element of its body give no
    diagnostic, whatever their names.  The W030 diagnostics of
    [check_file] are those of [_check_duplicates] on the top level. *)
Theorem C5_duplicate_names_amended (fname : string) :
  (forall elements : list Element,
     ScopeRule._check_duplicates elements fname
     = flat_map
         (fun p => reported_at fname p.1 p.2
                   ++ ScopeRule._check_duplicates (body p.2) fname)
         (with_earlier [] elements))
  /\ (forall (pre mid post : list Element) (e1 e2 : Element),
        takes_part e1 -> takes_part e2 -> same_name e1 e2 ->
        (forall x, In x pre -> ~ (takes_part x /\ same_name x e2)) ->
        reported_at fname (pre ++ e1 :: mid) e2
        = [ScopeRule.duplicate_diag fname e2 e1]
        /\ ScopeRule._check_duplicates (pre ++ e1 :: mid ++ e2 :: post) fname
           = ScopeRule._check_duplicates (pre ++ e1 :: mid) fname
             ++ ScopeRule.duplicate_diag fname e2 e1
                :: ScopeRule._check_duplicates (body e2) fname
             ++ flat_map
                  (fun p => reported_at fname p.1 p.2
                            ++ ScopeRule._check_duplicates (body p.2) fname)
                  (with_earlier (pre ++ e1 :: mid ++ [e2]) post))
  /\ (forall (earlier : list Element) (e : Element),
        ~ takes_part e
        \/ (forall x, In x earlier -> ~ (takes_part x /\ same_name x e)) ->
        reported_at fname earlier e = [])
  /\ (forall e1 e2 : Element,
        let d := ScopeRule.duplicate_diag fname e2 e1 in
        rule_id d = "W030" /\ severity d = WARNING
        /\ d_filename d = fname /\ d_line d = line e2 /\ d_col d = col e2
        /\ message d
           = "Duplicate name '" +:+ fmt (name e2) +:+ "' in this scope "
             +:+ "(first declared at line " +:+ Py.str_of_int (line e1)
             +:+ ").")
  /\ (forall outer inner : Element,
        body outer = [inner] -> body inner = [] ->
        ScopeRule._check_duplicates [outer] fname = [])
  /\ (forall file : File,
        Permutation
          (List.filter (has_rule "W030") (Checker.check_file file None))
          (ScopeRule._check_duplicates (elements file) (filename file))).
Proof.
  split; [|split; [|split; [|split; [|split]]]].
  - apply check_duplicates_with_earlier.
  - intros pre mid post e1 e2 H1 H2 Hs Hpre.
    pose proof (reported_at_first fname pre mid e1 e2 H1 H2 Hs Hpre) as Hr.
    split; [exact Hr|].
    replace (pre ++ e1 :: mid ++ e2 :: post)
      with ((pre ++ e1 :: mid) ++ e2 :: post) by (by rewrite <- app_assoc).
    rewrite (check_duplicates_with_earlier fname (_ ++ _)).
    rewrite with_earlier_app, flat_map_app.
    rewrite <- check_duplicates_with_earlier.
    cbn [app with_earlier flat_map fst snd]. rewrite Hr.
    by rewrite <- !app_assoc.
  - apply reported_at_none.
  - intros e1 e2. by repeat split.
  - intros outer inner Ho Hi. unfold ScopeRule._check_duplicates.
    cbn [ScopeRule.duplicates_loop]. rewrite body_duplicates, Ho.
    unfold ScopeRule._check_duplicates. cbn [ScopeRule.duplicates_loop].
    rewrite body_duplicates, Hi.
    destruct (if ScopeRule.contributes outer then _ else _) eqn:E1.
    { destruct (ScopeRule.contributes outer); by rewrite ?lookup_empty in E1. }
    destruct (if ScopeRule.contributes inner then _ else _) eqn:E2.
    { destruct (ScopeRule.contributes inner); by rewrite ?lookup_empty in E2. }
    done.
  - apply check_file_duplicates.
Qed.

(** Claim C5 as stated fails for names that are empty: the text
    [part ''; part '';] gives two siblings of a scope-contributing kind
    with equal names, and no duplicate diagnostic is reported. *)
Lemma C5_counterexample :
  parse_text 3 "part ''; part '';" "f.sysml" = Some unnamed_parts_file
  /\ List.Forall
       (fun e => kind e ∈ ScopeRule._NAMED_KINDS /\ name e = Some "")
       (elements unnamed_parts_file)
  /\ List.filter (has_rule "W030")
       (Checker.check_file unnamed_parts_file None) = []
  /\ Checker.check_file unnamed_parts_file None = [].
Proof.
  split; [by vm_compute|]. split.
  - repeat constructor; apply bool_decide_unpack; by vm_compute.
  - split; by vm_compute.
Qed.

(** The siblings [part Foo], [part foo] and [part FOO]: one diagnostic
    at the second and one at the third, both naming the line of the
    first. *)
Lemma C5_duplicate_names_witness :
  ScopeRule._check_duplicates [part_Foo; part_foo; part_FOO] "f.sysml"
  = [ ScopeRule.duplicate_diag "f.sysml" part_foo part_Foo;
      ScopeRule.duplicate_diag "f.sysml" part_FOO part_Foo ]
  /\ message (ScopeRule.duplicate_diag "f.sysml" part_FOO part_Foo)
     = "Duplicate name 'FOO' in this scope (first declared at line 1).".
Proof.
  split; [|reflexivity].
  assert (forall e, In e [part_Foo; part_foo; part_FOO] -> takes_part e)
    as Hp.
  { intros e [<-|[<-|[<-|[]]]];
      (split; [apply (bool_decide_unpack _); by vm_compute|reflexivity]). }
  destruct (C5_duplicate_names_amended "f.sysml")
    as (_ & Hpair & _).
  destruct (Hpair [] [part_foo] [] part_Foo part_FOO) as [_ H3];
    [apply Hp; cbn; tauto..|reflexivity|by intros x []|].
  destruct (Hpair [] [] [] part_Foo part_foo) as [_ H2];
    [apply Hp; cbn; tauto..|reflexivity|by intros x []|].
  cbn [app] in H2, H3. rewrite H3, H2. reflexivity.
Defined.

(* ===================================================================== *)
(** * The checker as a whole *)
(* ===================================================================== *)

Lemma filter_strongly_sorted (p : Diagnostic -> bool) (l : list Diagnostic) :
  StronglySorted diag_le l -> StronglySorted diag_le (List.filter p l).
Proof.
  induction 1 as [|x r Hr IH Hx]; cbn [List.filter]; [constructor|].
  destruct (p x); [|exact IH]. constructor; [exact IH|].
  rewrite List.Forall_forall in *. intros y [Hy _]%filter_In. by apply Hx.
Qed.

Lemma filter_comm {A : Type} (p q : A -> bool) (l : list A) :
  List.filter p (List.filter q l) = List.filter q (List.filter p l).
Proof.
  induction l as [|x r IH]; [done|]. cbn [List.filter].
  destruct (q x) eqn:Eq, (p x) eqn:Ep; cbn [List.filter];
    rewrite ?Eq, ?Ep, ?IH; done.
Qed.

Lemma sorted_filter (p : Diagnostic -> bool) (l : list Diagnostic) :
  sorted (List.filter p l) = List.filter p (sorted l).
Proof.
  apply stable_sort_unique.
  - apply sorted_strongly_sorted.
  - apply filter_strongly_sorted, sorted_strongly_sorted.
  - intros k. rewrite (sorted_stable k (List.filter p l)).
    rewrite (filter_comm (has_key k) p (sorted l)), (sorted_stable k l).
    apply filter_comm.
Qed.

Lemma collected_select (file : File) (ids : gset string) :
  Checker.collected file (Some ids)
  = List.filter (fun d => bool_decide (rule_id d ∈ ids))
      (Checker.collected file None).
Proof.
  unfold Checker.collected, Checker.ALL_RULES, Checker.reading.
  cbn [Checker.run_rules Checker.select fst app].
  by rewrite !List.filter_app.
Qed.

(** X2: giving [check_file] a set of rule ids is the same as running every
    rule and keeping, in the order of the full result, the diagnostics
    whose rule id is in the set; with the empty set nothing is reported. *)
Theorem X2_rule_filter_commutes (file : File) (ids : gset string) :
  Checker.check_file file (Some ids)
  = List.filter (fun d => bool_decide (rule_id d ∈ ids))
      (Checker.check_file file None)
  /\ Checker.check_file file (Some ∅) = [].
Proof.
  assert (forall ids',
            Checker.check_file file (Some ids')
            = List.filter (fun d => bool_decide (rule_id d ∈ ids'))
                (Checker.check_file file None)) as H.
  { intros ids'. rewrite !check_file_sorted_collected, collected_select.
    apply sorted_filter. }
  split; [apply H|]. rewrite H. clear H.
  induction (Checker.check_file file None) as [|d r IH]; [done|].
  cbn [List.filter]. rewrite bool_decide_eq_false_2; [exact IH|].
  apply not_elem_of_empty.
Qed.

(** ** The walk *)

Lemma visits_elem_unfold parent e :
  visits_elem parent e = (parent, e) :: visits (Some e) (body e).
Proof. by destruct e. Qed.

Lemma walk_visits_elem filename visitor (e : Element) :
  forall parent,
    BaseRule.walk_elem filename visitor parent e
    = flat_map (fun pe => visitor (snd pe) filename (fst pe))
        (visits_elem parent e).
Proof.
  induction e as [e IH] using Element_tree_ind. intros parent.
  rewrite walk_elem_unfold, visits_elem_unfold. cbn [flat_map fst snd].
  f_equal. unfold visits.
  induction IH as [|x r Hx _ IHr]; [done|].
  cbn [BaseRule._walk flat_map]. by rewrite flat_map_app, Hx, IHr.
Qed.

Lemma walk_visits filename visitor elements parent :
  BaseRule._walk elements filename visitor parent
  = flat_map (fun pe => visitor (snd pe) filename (fst pe))
      (visits parent elements).
Proof.
  unfold visits. induction elements as [|x r IH]; [done|].
  cbn [BaseRule._walk flat_map].
  by rewrite flat_map_app, walk_visits_elem, IH.
Qed.

Lemma visits_elem_elements (e : Element) :
  forall parent, map snd (visits_elem parent e) = descendants e.
Proof.
  induction e as [e IH] using Element_tree_ind. intros parent.
  rewrite visits_elem_unfold, descendants_unfold. cbn [map snd]. f_equal.
  unfold visits, all_elements.
  induction IH as [|x r Hx _ IHr]; [done|].
  cbn [flat_map]. by rewrite map_app, Hx, IHr.
Qed.

Lemma visits_elements elements parent :
  map snd (visits parent elements) = all_elements elements.
Proof.
  unfold visits, all_elements. induction elements as [|x r IH]; [done|].
  cbn [flat_map]. by rewrite map_app, visits_elem_elements, IH.
Qed.

Lemma visits_elem_parent (e : Element) :
  forall parent p x,
    In (p, x) (visits_elem parent e) ->
    (p = parent /\ x = e)
    \/ exists q, p = Some q /\ In x (body q) /\ In q (descendants e).
Proof.
  induction e as [e IH] using Element_tree_ind. intros parent p x.
  rewrite visits_elem_unfold, descendants_unfold. intros [H|H].
  { left. by inversion H. }
  right. unfold visits in H. apply in_flat_map in H as (c & Hc & H).
  rewrite List.Forall_forall in IH.
  destruct (IH c Hc _ _ _ H) as [[-> ->]|(q & -> & Hx & Hq)].
  - exists e. split; [done|]. split; [done|]. by left.
  - exists q. split; [done|]. split; [done|]. right.
    unfold all_elements. apply in_flat_map. by exists c.
Qed.

(** X3: [_walk] calls the visitor once for every element of the tree, an
    element before the elements of its body and siblings in their order,
    and concatenates what the calls return in that order; the parent it
    passes is the element whose body holds the visited one, or the parent
    given to [_walk] for the elements of the list itself. *)
Theorem X3_walk_visits_in_document_order (elements : list Element)
  (filename : string) (visitor : BaseRule.Visitor) (parent : option Element) :
  BaseRule._walk elements filename visitor parent
  = flat_map (fun pe => visitor (snd pe) filename (fst pe))
      (visits parent elements)
  /\ map snd (visits parent elements) = all_elements elements
  /\ (forall p x, In (p, x) (visits parent elements) ->
        (p = parent /\ In x elements)
        \/ exists q, p = Some q /\ In x (body q)
                     /\ In q (all_elements elements)).
Proof.
  split; [apply walk_visits|]. split; [apply visits_elements|].
  intros p x H. unfold visits in H. apply in_flat_map in H as (e & He & H).
  destruct (visits_elem_parent _ _ _ _ H) as [[-> ->]|(q & -> & Hx & Hq)].
  - by left.
  - right. exists q. split; [done|]. split; [done|].
    unfold all_elements. apply in_flat_map. by exists e.
Qed.

(** ** What a diagnostic says about the tree *)

Ltac split_ifs :=
  repeat match goal with
  | |- context [if ?b then _ else _] =>
      let E := fresh "E" in destruct b eqn:E
  end.

Ltac and_hyps :=
  repeat match goal with
  | H : _ && _ = true |- _ =>
      let H1 := fresh H in apply andb_true_iff in H as [H H1]
  | H : negb _ = true |- _ => apply negb_true_iff in H
  | H : negb _ = false |- _ => apply negb_false_iff in H
  end.

Ltac explain_one :=
  repeat constructor; cbn; and_hyps; (tauto || congruence || auto 20).

Lemma naming_visit_explained e fn p :
  List.Forall (explains fn e) (NamingRule._visit e fn p).
Proof.
  unfold NamingRule._visit.
  destruct (name e) as [[|c n]|] eqn:En; [constructor| |constructor].
  cbn [NamingRule.nonempty String.eqb negb orb].
  split_ifs; try constructor; try constructor; unfold explains, placed_at;
    cbn; rewrite ?En; cbn; auto 20.
Qed.

Lemma documentation_visit_explained e fn p :
  List.Forall (explains fn e) (DocumentationRule._visit e fn p).
Proof.
  unfold DocumentationRule._visit.
  destruct (Py.truthy (name e)) eqn:En; cbn [negb];
    split_ifs; try constructor; try constructor; unfold explains, placed_at;
    cbn; auto 20.
Qed.

Lemma structure_visit_explained e fn p :
  List.Forall (explains fn e) (StructureRule._visit e fn p).
Proof.
  unfold StructureRule._visit.
  destruct (Py.truthy (name e)) eqn:En;
    rewrite ?andb_false_r, ?andb_true_r; cbn [andb app];
    repeat (apply List.Forall_app; split);
    split_ifs; try constructor; try constructor; unfold explains, placed_at;
    cbn; auto 20.
Qed.

Lemma walk_explained visitor fn elements parent :
  (forall e p, List.Forall (explains fn e) (visitor e fn p)) ->
  List.Forall (explained fn elements)
    (BaseRule._walk elements fn visitor parent).
Proof.
  intros H. rewrite walk_visits. apply List.Forall_forall. intros d Hd.
  apply in_flat_map in Hd as ([p e] & Hpe & Hd). cbn [fst snd] in Hd.
  exists e. split.
  - rewrite <- (visits_elements elements parent). apply in_map_iff.
    by exists (p, e).
  - specialize (H e p). rewrite List.Forall_forall in H. by apply H.
Qed.

Lemma explained_mono fn (l1 l2 : list Element) d :
  (forall e, In e (all_elements l1) -> In e (all_elements l2)) ->
  explained fn l1 d -> explained fn l2 d.
Proof. intros H (e & He & Hd). exists e. split; [by apply H|done]. Qed.

Lemma all_elements_cons e r :
  all_elements (e :: r) = e :: all_elements (body e) ++ all_elements r.
Proof. unfold all_elements. cbn [flat_map]. by rewrite descendants_unfold. Qed.

Lemma duplicates_loop_explained fn in_body elements seen :
  (forall e, In e elements ->
     List.Forall (explained fn (body e)) (in_body e)) ->
  List.Forall (explained fn elements)
    (ScopeRule.duplicates_loop in_body fn elements seen).
Proof.
  revert seen. induction elements as [|e r IH]; intros seen H; [constructor|].
  cbn [ScopeRule.duplicates_loop].
  apply List.Forall_app. split; [|apply List.Forall_app; split].
  - destruct (ScopeRule.contributes e) eqn:Ec; [|constructor].
    destruct (seen !! ScopeRule.name_key e) as [first|]; [|constructor].
    constructor; [|constructor]. exists e. split.
    { rewrite all_elements_cons. by left. }
    unfold ScopeRule.contributes in Ec. apply andb_true_iff in Ec as [_ Ec].
    unfold explains, placed_at. cbn. auto 20.
  - destruct (negb _); [|constructor].
    eapply List.Forall_impl; [|apply H; by left].
    intros d. apply explained_mono. intros x Hx.
    rewrite all_elements_cons. right. apply in_or_app. by left.
  - eapply List.Forall_impl; [|apply IH; intros x Hx; apply H; by right].
    intros d. apply explained_mono. intros x Hx.
    rewrite all_elements_cons. right. apply in_or_app. by right.
Qed.

Lemma check_duplicates_explained fn elements :
  List.Forall (explained fn elements) (ScopeRule._check_duplicates elements fn).
Proof.
  assert (forall e, List.Forall (explained fn (body e))
                      (ScopeRule.duplicates_in_body fn e)) as H.
  { induction e as [e IH] using Element_tree_ind.
    rewrite duplicates_in_body_unfold. unfold ScopeRule._check_duplicates.
    apply duplicates_loop_explained. intros e' He'. rewrite List.Forall_forall in IH. by apply IH. }
  apply (duplicates_loop_explained fn (ScopeRule.duplicates_in_body fn)
           elements ∅).
  intros e _. apply H.
Qed.

Lemma check_unused_imports_explained file :
  List.Forall (explained (filename file) (elements file))
    (ScopeRule._check_unused_imports file).
Proof.
  rewrite check_unused_imports_map. apply List.Forall_forall. intros d Hd.
  apply in_map_iff in Hd as (imp & <- & Hi).
  apply filter_In in Hi as [Hi Hr]. rewrite imports_of_spec in Hi.
  apply filter_In in Hi as [Hi Hk]. exists imp. split; [exact Hi|].
  unfold is_reported in Hr. apply andb_true_iff in Hr as [Hr _].
  unfold is_import in Hk. apply String.eqb_eq in Hk.
  unfold explains, placed_at. cbn. auto 20.
Qed.

Lemma check_file_explained file rule_ids :
  List.Forall (explained (filename file) (elements file))
    (Checker.check_file file rule_ids).
Proof.
  apply List.Forall_forall. intros d Hd.
  rewrite check_file_sorted_collected in Hd.
  apply (Permutation_in _ (sorted_perm _)) in Hd.
  assert (In d (Checker.collected file None)) as Hc.
  { destruct rule_ids as [ids|]; [|exact Hd].
    rewrite collected_select in Hd. by apply filter_In in Hd as [Hd _]. }
  clear Hd. rewrite collected_all_rules in Hc.
  revert d Hc. apply List.Forall_forall.
  repeat (apply List.Forall_app; split).
  - unfold NamingRule.check. apply walk_explained.
    intros e p. apply naming_visit_explained.
  - unfold DocumentationRule.check. apply walk_explained.
    intros e p. apply documentation_visit_explained.
  - unfold StructureRule.check. apply walk_explained.
    intros e p. apply structure_visit_explained.
  - apply check_duplicates_explained.
  - apply check_unused_imports_explained.
Qed.

(** X4: every diagnostic of [check_file] carries one of twelve rule ids,
    each always with the same severity, and none has the severity
    [ERROR]; the ids [E001], [W012], [W024] and [W025] that the rules'
    documentation lists are never emitted; every pair of the table is
    emitted on some tree. *)
Theorem X4_rule_ids_and_severities (file : File)
  (rule_ids : option (gset string)) :
  List.Forall (fun d => In (id_and_severity d) RULE_SEVERITIES
                        /\ severity d <> ERROR
                        /\ ~ In (rule_id d) ["E001"; "W012"; "W024"; "W025"])
    (Checker.check_file file rule_ids)
  /\ List.Forall
       (fun p => In p (map id_and_severity
                         (Checker.check_file showcase_file None)))
       RULE_SEVERITIES.
Proof.
  split.
  - eapply List.Forall_impl; [|apply check_file_explained].
    intros d (e & _ & _ & _ & Hd & _). split; [exact Hd|].
    unfold id_and_severity, RULE_SEVERITIES in Hd. cbn [In] in Hd.
    split.
    + intros E. rewrite E in Hd.
      repeat (destruct Hd as [Hd|Hd]; [discriminate|]). exact Hd.
    + intros Hin.
      repeat (destruct Hd as [Hd|Hd];
              [injection Hd as Hd _; rewrite <- Hd in Hin; cbn in Hin;
               repeat (destruct Hin as [Hin|Hin]; [discriminate|]);
               exact Hin|]).
      exact Hd.
  - vm_compute.
    repeat (apply List.Forall_cons;
            [repeat (first [left; reflexivity | right])|]).
    apply List.Forall_nil.
Qed.

(** X5: every diagnostic of [check_file] names the file that was checked
    and stands at the line and column of an element of its tree; an
    unused-import diagnostic stands at an import with a non-empty path,
    a diagnostic of any other rule at an element with a non-empty name. *)
Theorem X5_diagnostics_point_at_elements (file : File)
  (rule_ids : option (gset string)) :
  List.Forall
    (fun d =>
       d_filename d = filename file
       /\ exists e, In e (all_elements (elements file))
                    /\ d_line d = line e /\ d_col d = col e
                    /\ (rule_id d = "W031" ->
                        kind e = "import" /\ Py.truthy (import_path e) = true)
                    /\ (rule_id d <> "W031" -> Py.truthy (name e) = true))
    (Checker.check_file file rule_ids).
Proof.
  eapply List.Forall_impl; [|apply check_file_explained].
  intros d (e & He & Hf & [Hl Hc] & _ & Hk). split; [exact Hf|].
  exists e. split; [exact He|]. split; [exact Hl|]. split; [exact Hc|].
  destruct (String.eqb_spec (rule_id d) "W031") as [E|E];
    split; intros H; congruence.
Qed.
(* ===================================================================== *)
(** * The command line *)
(* ===================================================================== *)

Lemma lint_files_Forall (Q : Diagnostic -> Prop) fuel fs rule_ids min_order :
  (forall path diags,
     SysLint._lint_file fuel fs path rule_ids = Some (SysLint.Returns diags) ->
     List.Forall (fun d => SysLint.reported min_order d = true -> Q d) diags) ->
  forall paths acc all_diags,
    SysLint.lint_files fuel fs paths rule_ids min_order acc
    = Some (SysLint.Returns all_diags) ->
    List.Forall Q acc -> List.Forall Q all_diags.
Proof.
  intros HQ. induction paths as [|path rest IH]; intros acc all_diags H Hacc.
  - cbn in H. by injection H as <-.
  - cbn [SysLint.lint_files] in H.
    destruct (SysLint._lint_file fuel fs path rule_ids) as [[diags|e]|] eqn:E;
      [|discriminate..].
    apply (IH _ _ H). apply List.Forall_app. split; [exact Hacc|].
    specialize (HQ _ _ E). rewrite List.Forall_forall in *.
    intros d [Hd Hr]%filter_In. by apply HQ.
Qed.

Lemma lint_file_no_error fuel fs path rule_ids diags :
  SysLint._lint_file fuel fs path rule_ids = Some (SysLint.Returns diags) ->
  List.Forall (fun d => severity d <> ERROR) diags.
Proof.
  unfold SysLint._lint_file, lint. intros H.
  destruct (fs path) as [source| |];
    [|injection H as <-; constructor|discriminate].
  destruct (parse_text fuel source path) as [file|]; [|discriminate].
  injection H as <-.
  eapply List.Forall_impl; [|apply check_file_explained].
  intros d (e & _ & _ & _ & Hd & _) E.
  unfold id_and_severity, RULE_SEVERITIES in Hd. rewrite E in Hd.
  cbn [In] in Hd. repeat (destruct Hd as [Hd|Hd]; [discriminate|]). exact Hd.
Qed.

Lemma lint_files_no_exit fuel fs rule_ids min_order :
  forall paths acc status,
    SysLint.lint_files fuel fs paths rule_ids min_order acc
    <> Some (SysLint.Raises (SysLint.SystemExit status)).
Proof.
  induction paths as [|path rest IH]; intros acc status; [done|].
  cbn [SysLint.lint_files]. unfold SysLint._lint_file at 1.
  destruct (fs path) as [source| |]; [|apply IH|done].
  destruct (lint fuel source path rule_ids); [apply IH|done].
Qed.

Lemma lint_files_undecodable fuel fs rule_ids min_order path :
  fs path = SysLint.Raises_UnicodeDecodeError ->
  forall paths acc all_diags,
    In path paths ->
    SysLint.lint_files fuel fs paths rule_ids min_order acc
    <> Some (SysLint.Returns all_diags).
Proof.
  intros Hp. induction paths as [|p rest IH]; intros acc all_diags Hin;
    [destruct Hin|].
  cbn [SysLint.lint_files]. unfold SysLint._lint_file at 1.
  destruct Hin as [->|Hin]; [by rewrite Hp|].
  destruct (fs p) as [source| |]; [|by apply IH|done].
  destruct (lint fuel source p rule_ids); [by apply IH|done].
Qed.

Lemma lint_files_unopened fuel fs rule_ids min_order :
  forall paths acc,
    SysLint.lint_files fuel fs paths rule_ids min_order acc
    = SysLint.lint_files fuel fs (List.filter (opens fs) paths) rule_ids
        min_order acc.
Proof.
  induction paths as [|p rest IH]; intros acc; [done|].
  cbn [List.filter]. unfold opens at 1.
  destruct (fs p) as [source| |] eqn:E; cbn [SysLint.lint_files];
    unfold SysLint._lint_file; rewrite E.
  - destruct (lint fuel source p rule_ids); [apply IH|done].
  - cbn [List.filter]. rewrite app_nil_r. apply IH.
  - done.
Qed.

(** X6: the value [main] returns is 0 or 1, never the 2 its docstring
    gives for errors: 0 when nothing is reported and 1 otherwise, because
    no rule emits a diagnostic of severity [ERROR]; what it reports
    passed the severity filter, so under [--min-severity error] nothing
    is reported and the value is 0.  [main] is left by [SystemExit] only
    where [_parse_args] is - the exit status 2 is argparse's.  A file
    that is not valid UTF-8 keeps [main] from returning, whatever the
    other files are; the files that cannot be opened can be taken off
    the command line without a change to what the loop over the files
    gives. *)
Theorem X6_main_returns_0_or_1 (fuel : nat) (fs : SysLint.FileSystem) :
  (forall args diags code,
     SysLint.main fuel fs (SysLint.Namespace args)
     = Some (SysLint.Returns (diags, code)) ->
     (code = 0 \/ code = 1)
     /\ (code = 0 <-> diags = [])
     /\ List.Forall
          (fun d => severity d <> ERROR
                    /\ Severity_order (severity d)
                       <= Severity_order (SysLint.min_severity args)) diags
     /\ (SysLint.min_severity args = ERROR -> diags = [] /\ code = 0))
  /\ (forall parsed status,
        SysLint.main fuel fs parsed
        = Some (SysLint.Raises (SysLint.SystemExit status))
        <-> parsed = SysLint.Exits status)
  /\ (forall args path,
        In path (SysLint.files args) ->
        fs path = SysLint.Raises_UnicodeDecodeError ->
        forall result,
          SysLint.main fuel fs (SysLint.Namespace args)
          <> Some (SysLint.Returns result))
  /\ (forall paths rule_ids min_order,
        SysLint.lint_files fuel fs paths rule_ids min_order []
        = SysLint.lint_files fuel fs (List.filter (opens fs) paths)
            rule_ids min_order []).
Proof.
  split; [|split; [|split]].
  - intros args diags code H. unfold SysLint.main in H.
    destruct (SysLint.lint_files _ _ _ _ _ _) as [[all_diags|e]|] eqn:E;
      [|discriminate..].
    injection H as <- <-.
    assert (List.Forall
              (fun d => severity d <> ERROR
                        /\ Severity_order (severity d)
                           <= Severity_order (SysLint.min_severity args))
              all_diags) as HF.
    { eapply lint_files_Forall; [|exact E|constructor].
      intros path diags Hl.
      eapply List.Forall_impl; [|by eapply lint_file_no_error].
      intros d Hd Hr. split; [exact Hd|]. unfold SysLint.reported in Hr.
      by apply Z.leb_le in Hr. }
    assert (existsb SysLint.is_error all_diags = false) as Hne.
    { clear E. induction HF as [|d r [Hd _] _ IH]; [done|].
      cbn [existsb]. rewrite IH. unfold SysLint.is_error.
      by destruct (severity d). }
    unfold SysLint.exit_code. rewrite Hne.
    split; [destruct all_diags; auto|].
    split; [destruct all_diags; split; intros; (done || lia)|].
    split; [exact HF|].
    intros Hmin. rewrite Hmin in HF.
    destruct all_diags as [|d r]; [done|].
    apply List.Forall_inv in HF as [Hd Ho]. exfalso.
    destruct (severity d); cbn in Ho; (done || lia).
  - intros [args|s] status; cbn [SysLint.main].
    + split; [|discriminate].
      destruct (SysLint.lint_files _ _ _ _ _ _) as [[all_diags|e]|] eqn:E;
        [discriminate| |discriminate].
      intros [= ->]. by apply lint_files_no_exit in E.
    + split; by intros [= ->].
  - intros args path Hin Hp result. cbn [SysLint.main].
    destruct (SysLint.lint_files _ _ _ _ _ _) as [[all_diags|e]|] eqn:E;
      [|discriminate..].
    by eapply lint_files_undecodable in E.
  - intros paths rule_ids min_order. apply lint_files_unopened.
Qed.

(** One readable file and one missing file: three diagnostics, the value
    1; with a file in another encoding on the command line too, [main]
    raises. *)
Lemma X6_main_witness :
  SysLint.main 5 one_file_system (SysLint.Namespace (two_paths INFO))
  = Some (SysLint.Returns (engine_diagnostics "engine.sysml", 1))
  /\ List.Forall (fun d => severity d <> ERROR)
       (engine_diagnostics "engine.sysml")
  /\ SysLint.main 5 one_file_system
       (SysLint.Namespace
          (SysLint.mkArgs "engine.sysml" ["latin1.sysml"] None INFO))
     = Some (SysLint.Raises SysLint.UnicodeDecodeError).
Proof.
  assert (SysLint.main 5 one_file_system (SysLint.Namespace (two_paths INFO))
          = Some (SysLint.Returns (engine_diagnostics "engine.sysml", 1)))
    as H by (vm_compute; reflexivity).
  split; [exact H|]. split; [|by vm_compute].
  destruct (X6_main_returns_0_or_1 5 one_file_system) as (Hret & _).
  destruct (Hret _ _ _ H) as (_ & _ & HF & _).
  eapply List.Forall_impl; [|exact HF]. by intros d [Hd _].
Defined.

(* ===================================================================== *)
(** * The comparison of diagnostics *)
(* ===================================================================== *)

Lemma lt_irrefl (a : Diagnostic) : __lt__ a a = false.
Proof.
  unfold __lt__. rewrite String.eqb_refl, Z.eqb_refl. cbn [negb].
  apply Z.ltb_irrefl.
Qed.

Lemma lt_asym (a b : Diagnostic) : __lt__ a b = true -> __lt__ b a = false.
Proof.
  intros H. destruct (__lt__ b a) eqn:E; [|done]. exfalso.
  apply (lt_diag_key_neq a b H).
  apply key_le_antisym; by apply lt_diag_le.
Qed.

(** X7: [Diagnostic.__lt__] is a strict order on the keys [(filename,
    line, col)]: no diagnostic is smaller than itself, two diagnostics are
    never each smaller than the other, the comparison is transitive, and
    two diagnostics are left unordered exactly when their keys are
    equal, whatever their rule id, severity and message. *)
Theorem X7_lt_is_a_strict_order_on_keys (a b c : Diagnostic) :
  __lt__ a a = false
  /\ (__lt__ a b = true -> __lt__ b a = false)
  /\ (__lt__ a b = true -> __lt__ b c = true -> __lt__ a c = true)
  /\ (__lt__ a b = false /\ __lt__ b a = false <-> diag_key a = diag_key b).
Proof.
  split; [apply lt_irrefl|]. split; [apply lt_asym|]. split.
  - intros Hab Hbc. destruct (__lt__ a c) eqn:E; [done|]. exfalso.
    apply nlt_diag_le in E. apply (lt_diag_key_neq a b Hab).
    apply key_le_antisym; [by apply lt_diag_le|].
    apply (key_le_trans _ (diag_key c)); [by apply lt_diag_le|exact E].
  - split.
    + intros [H1 H2]. apply key_le_antisym; by apply nlt_diag_le.
    + intros E.
      rewrite (lt_depends_on_keys a b a a), (lt_depends_on_keys b a a a),
        lt_irrefl by done.
      done.
Qed.

(* ===================================================================== *)
(** * Wildcard imports *)
(* ===================================================================== *)

Lemma existsb_elements_false (f : string -> bool) (s : gset string) :
  existsb f (stdpp.base.elements s) = false
  <-> forall x, x ∈ s -> f x = false.
Proof.
  split.
  - intros H x Hx. apply elem_of_elements, list_elem_of_In in Hx.
    destruct (f x) eqn:E; [|done].
    assert (existsb f (stdpp.base.elements s) = true) as Ht
      by (apply existsb_exists; by exists x).
    congruence.
  - intros H. destruct (existsb f _) eqn:E; [|done].
    apply existsb_exists in E as (x & Hx & Hf).
    apply list_elem_of_In, elem_of_elements in Hx. rewrite (H x Hx) in Hf.
    discriminate.
Qed.

(** X8: the unused-import diagnostics of [check_file] are, up to their
    order, those of the imports that pass the test of the loop; a wildcard
    import passes it iff its path is not empty and no name collected from
    the tree starts with the last or with the first segment of the path,
    so a name that merely begins like the namespace counts as a use; in a
    tree that references no name at all every import with a non-empty
    path is reported. *)
Theorem X8_wildcard_import_is_matched_by_prefix (file : File) :
  Permutation
    (List.filter (has_rule "W031") (Checker.check_file file None))
    (map (ScopeRule.unused_diag (filename file))
       (List.filter (is_reported (used_names_of file)) (imports_of file)))
  /\ (forall imp, import_star imp = true ->
        (is_reported (used_names_of file) imp = true
         <-> Py.truthy (import_path imp) = true
             /\ forall name, name ∈ used_names_of file ->
                  Py.startswith name (leaf_of (fmt (import_path imp))) = false
                  /\ Py.startswith name (root_of (fmt (import_path imp)))
                     = false))
  /\ (used_names_of file = ∅ ->
      forall imp, Py.truthy (import_path imp) = true ->
        is_reported (used_names_of file) imp = true).
Proof.
  split; [|split].
  - rewrite check_file_unused_imports. by rewrite check_unused_imports_map.
  - intros imp Hstar. unfold is_reported, ScopeRule.referenced.
    rewrite Hstar, andb_true_iff, negb_true_iff.
    fold (leaf_of (fmt (import_path imp))) (root_of (fmt (import_path imp))).
    rewrite existsb_elements_false.
    split; intros [Ht H]; (split; [exact Ht|]); intros name Hn;
      specialize (H name Hn).
    + by apply orb_false_iff in H.
    + apply orb_false_iff. exact H.
  - intros Hempty imp Ht. unfold is_reported, ScopeRule.referenced.
    rewrite Ht, Hempty. cbn [andb]. apply negb_true_iff.
    destruct (import_star imp).
    + by rewrite elements_empty.
    + apply orb_false_iff.
      split; apply bool_decide_eq_false_2, not_elem_of_empty.
Qed.

(* ===================================================================== *)
(** * The tokens spell the text *)
(* ===================================================================== *)

Lemma append_cons (x : ascii) (a b : string) :
  String x a +:+ b = String x (a +:+ b).
Proof. reflexivity. Qed.

Lemma append_nil_l (b : string) : "" +:+ b = b.
Proof. reflexivity. Qed.

Lemma append_assoc (a b c : string) : (a +:+ b) +:+ c = a +:+ (b +:+ c).
Proof.
  induction a as [|x a IH]; [done|]. by rewrite !append_cons, IH.
Qed.

Lemma append_nil_r (a : string) : a +:+ "" = a.
Proof. induction a as [|x a IH]; [done|]. by rewrite append_cons, IH. Qed.

Lemma position_after_app (a b : string) (l c : Z) :
  position_after (a +:+ b) l c
  = let '(l', c') := position_after a l c in position_after b l' c'.
Proof.
  revert l c. induction a as [|x a IH]; intros l c.
  - rewrite append_nil_l. cbn. by destruct (position_after b l c).
  - rewrite append_cons. cbn [position_after].
    destruct (Lexer.bump x l c) as [l1 c1]. apply IH.
Qed.

Lemma moves_refl lx : moves lx "" lx.
Proof. by split. Qed.

Lemma moves_trans a p b q c : moves a p b -> moves b q c -> moves a (p +:+ q) c.
Proof.
  intros [H1 H2] [H3 H4]. split.
  - by rewrite H1, H3, append_assoc.
  - rewrite position_after_app, <- H2. exact H4.
Qed.

Lemma moves_mk s pre r l c :
  s = pre +:+ r ->
  moves (Lexer.mkLexer s l c) pre
    (Lexer.mkLexer r (position_after pre l c).1 (position_after pre l c).2).
Proof. intros ->. split; [done|]. cbn. by destruct (position_after pre l c). Qed.

Lemma moves_cons ch r l c l1 c1 pre lx' :
  Lexer.bump ch l c = (l1, c1) ->
  moves (Lexer.mkLexer r l1 c1) pre lx' ->
  moves (Lexer.mkLexer (String ch r) l c) (String ch pre) lx'.
Proof.
  intros Eb [H1 H2]. cbn [Lexer.source Lexer.lx_line Lexer.lx_col] in *.
  split; cbn [Lexer.source Lexer.lx_line Lexer.lx_col position_after].
  - rewrite append_cons. f_equal. exact H1.
  - rewrite Eb. exact H2.
Qed.

Lemma moves_one ch r l c l1 c1 :
  Lexer.bump ch l c = (l1, c1) ->
  moves (Lexer.mkLexer (String ch r) l c) (String ch "")
    (Lexer.mkLexer r l1 c1).
Proof. intros Eb. apply (moves_cons _ _ _ _ _ _ _ _ Eb), moves_refl. Qed.

Lemma state_eta' (lx : Lexer.state) :
  lx = Lexer.mkLexer (Lexer.source lx) (Lexer.lx_line lx) (Lexer.lx_col lx).
Proof. by destruct lx. Qed.

Lemma advance_moves lx ch r :
  Lexer.source lx = String ch r ->
  moves lx (String ch "") (Lexer._advance lx).
Proof.
  intros Hs. unfold Lexer._advance. rewrite Hs.
  destruct (Lexer.bump _ _ _) as [l1 c1] eqn:Eb.
  rewrite (state_eta' lx) at 1. rewrite Hs. by apply moves_one.
Qed.

Lemma advance_while_go_moves p s l c :
  exists pre,
    moves (Lexer.mkLexer s l c) pre (Lexer.advance_while_go p s l c)
    /\ all_chars p pre = true.
Proof.
  revert l c. induction s as [|ch r IH]; intros l c.
  - exists "". split; [apply moves_refl|done].
  - cbn [Lexer.advance_while_go]. destruct (p ch) eqn:E.
    + destruct (Lexer.bump ch l c) as [l1 c1] eqn:Eb.
      destruct (IH l1 c1) as (pre & H & H3).
      exists (String ch pre). split; [by eapply moves_cons|].
      cbn. by rewrite E, H3.
    + exists "". split; [apply moves_refl|done].
Qed.

Lemma advance_while_moves p lx :
  exists pre, moves lx pre (Lexer._advance_while p lx)
              /\ all_chars p pre = true.
Proof.
  unfold Lexer._advance_while.
  destruct (advance_while_go_moves p (Lexer.source lx) (Lexer.lx_line lx)
              (Lexer.lx_col lx)) as (pre & H & Hp).
  exists pre. split; [|exact Hp]. by rewrite (state_eta' lx) at 1.
Qed.

Lemma moves_any_test p lx :
  exists pre, moves lx pre (Lexer._advance_while p lx).
Proof. destruct (advance_while_moves p lx) as (pre & H & _). by exists pre. Qed.

Lemma block_comment_go_moves s l c :
  exists pre, moves (Lexer.mkLexer s l c) pre (Lexer.block_comment_go s l c).
Proof.
  revert l c. induction s as [|ch r IH]; intros l c.
  - exists "". apply moves_refl.
  - cbn [Lexer.block_comment_go].
    destruct (Lexer.bump ch l c) as [l1 c1] eqn:Eb.
    assert (exists pre, moves (Lexer.mkLexer (String ch r) l c) pre
                          (Lexer.block_comment_go r l1 c1)) as Hrec.
    { destruct (IH l1 c1) as (pre & H).
      exists (String ch pre). by eapply moves_cons. }
    destruct r as [|ch2 r2]; [exact Hrec|].
    destruct (Py.chr_eq ch "*" && Py.chr_eq ch2 "/"); [|exact Hrec].
    destruct (Lexer.bump ch2 l1 c1) as [l2 c2] eqn:Eb2.
    exists (String ch (String ch2 "")).
    eapply moves_cons; [exact Eb|]. by apply moves_one.
Qed.

Lemma lex_string_go_moves quote s :
  forall l c,
    exists pre,
      moves (Lexer.mkLexer s l c) pre (Lexer.lex_string_go quote s l c).
Proof.
  induction s as [s IH] using (induction_ltof1 _ String.length).
  unfold ltof in IH. intros l c. destruct s as [|ch r].
  - exists "". apply moves_refl.
  - cbn [Lexer.lex_string_go].
    destruct (Lexer.bump ch l c) as [l1 c1] eqn:Eb.
    assert (exists pre, moves (Lexer.mkLexer (String ch r) l c) pre
                          (Lexer.lex_string_go quote r l1 c1)) as Hrec.
    { destruct (IH r ltac:(cbn; lia) l1 c1) as (pre & H).
      exists (String ch pre). by eapply moves_cons. }
    destruct (Py.chr_eq ch Py.BACKSLASH).
    + destruct r as [|ch2 r2]; [exact Hrec|].
      destruct (Lexer.bump ch2 l1 c1) as [l2 c2] eqn:Eb2.
      destruct (IH r2 ltac:(cbn; lia) l2 c2) as (pre & H).
      exists (String ch (String ch2 pre)).
      eapply moves_cons; [exact Eb|]. by eapply moves_cons.
    + destruct (Py.chr_eq ch quote); [|exact Hrec].
      exists (String ch ""). by apply moves_one.
Qed.

Lemma length_append (a b : string) :
  String.length (a +:+ b) = (String.length a + String.length b)%nat.
Proof.
  induction a as [|x a IH]; [done|]. rewrite append_cons. cbn. by rewrite IH.
Qed.

Lemma substring_prefix (a b : string) :
  String.substring 0 (String.length a) (a +:+ b) = a.
Proof.
  induction a as [|x a IH].
  - rewrite append_nil_l. by destruct b.
  - rewrite append_cons. cbn. by rewrite IH.
Qed.

Lemma slice_moves lx pre lx' : moves lx pre lx' -> Lexer._slice lx lx' = pre.
Proof.
  intros [H _]. unfold Lexer._slice. rewrite H, length_append.
  replace (String.length pre + String.length (Lexer.source lx')
           - String.length (Lexer.source lx'))%nat
    with (String.length pre) by lia.
  apply substring_prefix.
Qed.

Lemma reaches_refl lx : reaches lx lx.
Proof. exists "". apply moves_refl. Qed.

Lemma reaches_advance lx X : reaches lx X -> reaches lx (Lexer._advance X).
Proof.
  intros [pre H]. destruct (Lexer.source X) as [|ch r] eqn:Hs.
  - exists pre. unfold Lexer._advance. by rewrite Hs.
  - exists (pre +:+ String ch ""). eapply moves_trans; [exact H|].
    by eapply advance_moves.
Qed.

Lemma reaches_while p lx X :
  reaches lx X -> reaches lx (Lexer._advance_while p X).
Proof.
  intros [pre H]. destruct (moves_any_test p X) as [q Hq].
  exists (pre +:+ q). by eapply moves_trans.
Qed.

Ltac reach :=
  repeat first [ apply reaches_refl | apply reaches_advance
               | apply reaches_while ].

Lemma lexed_slice lx l c ty lx' :
  reaches lx lx' -> lexed lx l c (mkToken ty (Lexer._slice lx lx') l c, lx').
Proof.
  intros [pre H]. exists pre. split; [exact H|].
  split; [by apply slice_moves|done].
Qed.

Lemma lex_number_lexed l c lx : lexed lx l c (Lexer._lex_number l c lx).
Proof.
  unfold Lexer._lex_number.
  repeat match goal with
  | |- context [if ?b then _ else _] => destruct b
  | |- context [match ?o with Some _ => _ | None => _ end] => destruct o
  end; apply lexed_slice; reach.
Qed.

Lemma lex_string_lexed quote ty l c lx :
  lexed lx l c (Lexer._lex_string quote ty l c lx).
Proof.
  unfold Lexer._lex_string. apply lexed_slice.
  destruct (reaches_advance lx lx (reaches_refl lx)) as [p Hp].
  destruct (lex_string_go_moves quote (Lexer.source (Lexer._advance lx))
              (Lexer.lx_line (Lexer._advance lx))
              (Lexer.lx_col (Lexer._advance lx))) as [q Hq].
  rewrite <- state_eta' in Hq. exists (p +:+ q). by eapply moves_trans.
Qed.

Lemma startswith_one (s : string) (a : ascii) :
  Py.startswith s (String a "") = true -> exists r, s = String a r.
Proof.
  unfold Py.startswith. destruct s as [|b r]; cbn; [done|].
  destruct (ascii_dec a b) as [->|]; [|done]. intros _. by exists r.
Qed.

Lemma startswith_two (s : string) (a b : ascii) :
  Py.startswith s (String a (String b "")) = true ->
  exists r, s = String a (String b r).
Proof.
  unfold Py.startswith. destruct s as [|a' [|b' r]]; cbn; try done.
  - by destruct (ascii_dec a a').
  - destruct (ascii_dec a a') as [->|]; [|done].
    destruct (ascii_dec b b') as [->|]; [|done]. intros _. by exists r.
Qed.

Lemma lexed_op0 lx ch lx1 ty l c :
  moves lx (String ch "") lx1 ->
  lexed lx l c (mkToken ty (String ch "") l c, lx1).
Proof. intros M. by exists (String ch ""). Qed.

Lemma lexed_op1 lx ch lx1 ty l c a :
  moves lx (String ch "") lx1 ->
  Py.startswith (Lexer.source lx1) (String a "") = true ->
  lexed lx l c (mkToken ty (String ch (String a "")) l c, Lexer._advance lx1).
Proof.
  intros M [r Hr]%startswith_one. exists (String ch (String a "")).
  split; [|done].
  apply (moves_trans _ _ _ _ _ M). by eapply advance_moves.
Qed.

Lemma lexed_op2 lx ch lx1 ty l c a b :
  moves lx (String ch "") lx1 ->
  Py.startswith (Lexer.source lx1) (String a (String b "")) = true ->
  lexed lx l c (mkToken ty (String ch (String a (String b ""))) l c,
                Lexer._advance (Lexer._advance lx1)).
Proof.
  intros M [r Hr]%startswith_two. exists (String ch (String a (String b ""))).
  split; [|done].
  apply (moves_trans _ _ _ _ _ M).
  apply (moves_trans _ (String a "") (Lexer._advance lx1) (String b "")).
  - by eapply advance_moves.
  - eapply advance_moves. unfold Lexer._advance. rewrite Hr.
    by destruct (Lexer.bump _ _ _).
Qed.

Lemma lex_operator_lexed lx ch r l c :
  Lexer.source lx = String ch r ->
  lexed lx l c (Lexer.lex_operator ch l c (Lexer._advance lx)).
Proof.
  intros Hs. pose proof (advance_moves lx ch r Hs) as M.
  set (lx1 := Lexer._advance lx) in *. clearbody lx1.
  unfold Lexer.lex_operator, Lexer._rest, Lexer.str1.
  repeat match goal with
  | |- context [if ?b then _ else _] =>
      let E := fresh "E" in destruct b eqn:E
  end;
  try match goal with
  | H : Py.chr_eq ch _ = true |- _ => apply chr_eq_true in H; subst ch
  end;
  try (destruct (Lexer._SINGLE !! _));
  first [ by eapply lexed_op2 | by eapply lexed_op1 | by eapply lexed_op0 ].
Qed.

Lemma reaches_block_comment lx X :
  reaches lx X ->
  reaches lx (Lexer.block_comment_go (Lexer.source X) (Lexer.lx_line X)
                (Lexer.lx_col X)).
Proof.
  intros [pre H].
  destruct (block_comment_go_moves (Lexer.source X) (Lexer.lx_line X)
              (Lexer.lx_col X)) as [q Hq].
  rewrite <- state_eta' in Hq. exists (pre +:+ q). by eapply moves_trans.
Qed.

Lemma token_at_lexed lx ch r :
  Lexer.source lx = String ch r ->
  lexed lx (Lexer.lx_line lx) (Lexer.lx_col lx) (Lexer.token_at lx).
Proof.
  intros Hs. unfold Lexer.token_at, Lexer._ch. rewrite Hs.
  repeat match goal with
  | |- context [if ?b then _ else _] => destruct b
  end.
  - apply lexed_slice. reach.
  - apply lexed_slice. apply reaches_block_comment. reach.
  - apply lexed_slice. reach.
  - apply lex_number_lexed.
  - apply lex_number_lexed.
  - apply lex_string_lexed.
  - apply lex_string_lexed.
  - by eapply lex_operator_lexed.
Qed.

Lemma tokenize_loop_spells fuel :
  forall lx acc tokens,
    Lexer.tokenize_loop fuel lx acc = Some tokens ->
    exists new,
      tokens = acc ++ new
      /\ spells new (Lexer.source lx) (Lexer.lx_line lx) (Lexer.lx_col lx)
      /\ List.Forall (fun t => tok_type t <> EOF -> tok_value t <> "") new.
Proof.
  induction fuel as [|fuel IH]; intros lx acc tokens H; [discriminate|].
  cbn [Lexer.tokenize_loop] in H. unfold Lexer._next_token in H.
  destruct (advance_while_moves Lexer.is_blank lx) as (gap & Mg & Hg).
  fold (Lexer._skip_whitespace lx) in Mg.
  set (lx1 := Lexer._skip_whitespace lx) in *. clearbody lx1.
  destruct (Lexer.source lx1) as [|ch r] eqn:Hs.
  - (* end of the text *)
    unfold Lexer.token_at, Lexer._ch in H. rewrite Hs in H.
    cbn [tok_type] in H. rewrite bool_decide_eq_true_2 in H by done.
    injection H as <-. eexists. split; [done|]. split.
    + cbn [spells tok_value tok_line tok_col]. exists gap, "".
      destruct Mg as [M1 M2]. rewrite Hs in M1.
      split; [by rewrite append_nil_l|]. split; [exact Hg|].
      split; [exact M2|]. by destruct (position_after (gap +:+ "") _ _).
    + by repeat constructor.
  - pose proof (token_at_lexed lx1 ch r Hs) as (pre & Mp & Hv & Hl & Hc).
    destruct (token_at_progress lx1 ch r Hs) as [Ht Hr].
    destruct (Lexer.token_at lx1) as [tok lx'].
    cbn [fst snd] in *.
    rewrite bool_decide_eq_false_2 in H by exact Ht.
    destruct (IH _ _ _ H) as (new & -> & Hn & Hf).
    exists (tok :: new). split; [by rewrite <- app_assoc|]. split.
    + cbn [spells]. exists gap, (Lexer.source lx').
      pose proof (moves_trans _ _ _ _ _ Mg Mp) as [M1 M2].
      destruct Mg as [_ Mg2].
      split; [by rewrite Hv, <- append_assoc|]. split; [exact Hg|].
      split; [by rewrite Hl, Hc|].
      rewrite Hv. by destruct (position_after (gap +:+ pre) _ _); inversion M2.
    + constructor; [|exact Hf]. intros _ E. rewrite Hv in E.
      destruct Mp as [Mp _]. rewrite E, append_nil_l, Hs in Mp.
      unfold remaining in Hr. rewrite <- Mp in Hr. cbn in Hr. lia.
Qed.

(** X9: the tokens of [tokenize] spell the text: the text is the values
    of the tokens in their order, each preceded by a possibly empty run of
    the blanks space, tab, carriage return and line feed, and nothing
    else - no character is dropped, changed or read twice; every token
    carries the line and the column of its first character, counted from
    1, a line feed starting a new line; the end-of-stream token has the
    position after the last character, and every other token has a value
    that is not empty. *)
Theorem X9_tokens_spell_the_text (text : string) :
  exists tokens,
    Lexer.tokenize text = Some tokens
    /\ spells tokens text 1 1
    /\ List.Forall (fun t => tok_type t <> EOF -> tok_value t <> "") tokens.
Proof.
  unfold Lexer.tokenize.
  destruct (tokenize_loop_total (S (String.length text)) (Lexer.init text) [])
    as (front & last & Heq & _).
  { unfold remaining, Lexer.init. cbn. lia. }
  eexists. split; [exact Heq|].
  destruct (tokenize_loop_spells _ _ _ _ Heq) as (new & E & Hs & Hf).
  cbn [app] in E. rewrite E. by split.
Qed.

(* ===================================================================== *)
(** * The keyword table and the lexer *)
(* ===================================================================== *)

Lemma keywords_all_lexed :
  List.Forall
    (fun p : string * TokenType =>
       Lexer.tokenize p.1
       = Some [ mkToken p.2 p.1 1 1;
                mkToken EOF "" 1 (1 + Z.of_nat (String.length p.1)) ])
    (map_to_list KEYWORDS).
Proof.
  set (l := map_to_list KEYWORDS). vm_compute in l. subst l.
  repeat (apply List.Forall_cons; [vm_compute; reflexivity|]).
  apply List.Forall_nil.
Qed.

Lemma keywords_types_distinct :
  NoDup (map (fun p : string * TokenType => tt_code p.2)
           (map_to_list KEYWORDS)).
Proof.
  apply (bool_decide_unpack _). vm_compute. exact I.
Qed.

(** X10: every spelling of the keyword table is lexed as its keyword: the
    text that consists of the spelling alone gives one token of the
    table's type with the spelling as value at line 1, column 1, and the
    end-of-stream token after it; no two spellings share a token type. *)
Theorem X10_keywords_are_lexed_as_keywords (kw : string) (ty : TokenType) :
  KEYWORDS !! kw = Some ty ->
  Lexer.tokenize kw
  = Some [ mkToken ty kw 1 1;
           mkToken EOF "" 1 (1 + Z.of_nat (String.length kw)) ]
  /\ (forall kw', KEYWORDS !! kw' = Some ty -> kw' = kw).
Proof.
  intros H. split.
  - apply elem_of_map_to_list, list_elem_of_In in H.
    pose proof keywords_all_lexed as HF. rewrite List.Forall_forall in HF.
    exact (HF _ H).
  - intros kw' H'.
    apply elem_of_map_to_list in H, H'.
    pose proof keywords_types_distinct as HN.
    apply list_elem_of_lookup in H as [i Hi], H' as [j Hj].
    assert (i = j) as ->.
    { eapply NoDup_lookup; [exact HN| |];
        rewrite list_lookup_fmap; [by rewrite Hi|by rewrite Hj]. }
    congruence.
Qed.

Lemma X10_keywords_witness :
  Lexer.tokenize "part" = Some [mkToken PART "part" 1 1; mkToken EOF "" 1 5].
Proof.
  exact (proj1 (X10_keywords_are_lexed_as_keywords "part" PART
                  ltac:(vm_compute; reflexivity))).
Defined.

(* ===================================================================== *)
(** * Block comments *)
(* ===================================================================== *)

Lemma startswith_slash (b : ascii) (p : string) :
  Py.startswith (String b p) "/" = Py.chr_eq b "/".
Proof.
  unfold Py.startswith, Py.chr_eq. cbn [String.prefix].
  destruct (ascii_dec "/" b) as [<-|N].
  - by destruct p.
  - symmetry. apply Ascii.eqb_neq. congruence.
Qed.

Lemma append_cancel_r (a b r : string) : a +:+ r = b +:+ r -> a = b.
Proof.
  intros H.
  assert (String.length a = String.length b) as Hl.
  { apply (f_equal String.length) in H. rewrite !length_append in H. lia. }
  revert b H Hl. induction a as [|x a IH]; intros [|y b] H Hl;
    try discriminate; [done|].
  rewrite !append_cons in H. injection H as -> H. f_equal.
  apply IH; [exact H|]. cbn in Hl. lia.
Qed.

Lemma block_comment_go_closed (pre rest : string) :
  has_comment_end pre = false ->
  forall l c,
    Lexer.block_comment_go (pre +:+ "*/" +:+ rest) l c
    = Lexer.mkLexer rest (position_after (pre +:+ "*/") l c).1
        (position_after (pre +:+ "*/") l c).2.
Proof.
  induction pre as [|a p IH]; intros H l c.
  - change ("" +:+ "*/" +:+ rest) with (String "*" (String "/" rest)).
    change ("" +:+ "*/") with "*/".
    cbn [Lexer.block_comment_go position_after].
    destruct (Lexer.bump "*" l c) as [l1 c1].
    change (Py.chr_eq "*" "*" && Py.chr_eq "/" "/") with true. cbv iota.
    by destruct (Lexer.bump "/" l1 c1).
  - cbn [has_comment_end] in H. apply orb_false_iff in H as [H1 H2].
    change (String a p +:+ "*/" +:+ rest)
      with (String a (p +:+ "*/" +:+ rest)).
    change (String a p +:+ "*/") with (String a (p +:+ "*/")).
    cbn [Lexer.block_comment_go position_after].
    destruct (Lexer.bump a l c) as [l1 c1].
    specialize (IH H2 l1 c1).
    destruct p as [|b p'].
    + change ("" +:+ "*/" +:+ rest) with (String "*" (String "/" rest)) in *.
      cbv beta iota.
      assert (Py.chr_eq "*" "/" = false) as E by reflexivity.
      rewrite E, andb_false_r. exact IH.
    + change (String b p' +:+ "*/" +:+ rest)
        with (String b (p' +:+ "*/" +:+ rest)) in *.
      cbv beta iota. rewrite startswith_slash in H1. rewrite H1. exact IH.
Qed.

Lemma block_comment_go_open (body : string) :
  has_comment_end body = false ->
  forall l c,
    Lexer.block_comment_go body l c
    = Lexer.mkLexer "" (position_after body l c).1 (position_after body l c).2.
Proof.
  induction body as [|a p IH]; intros H l c; [done|].
  cbn [has_comment_end] in H. apply orb_false_iff in H as [H1 H2].
  cbn [Lexer.block_comment_go position_after].
  destruct (Lexer.bump a l c) as [l1 c1].
  destruct p as [|b p']; [apply (IH H2)|].
  rewrite startswith_slash in H1. rewrite H1. apply (IH H2).
Qed.

Lemma next_token_block_comment (body : string) (lx' : Lexer.state) :
  Lexer.block_comment_go body 1 3 = lx' ->
  (exists pre, "/*" +:+ body = pre +:+ Lexer.source lx'
               /\ forall v, v = pre ->
                    Lexer._next_token (Lexer.init ("/*" +:+ body))
                    = (mkToken BLOCK_COMMENT v 1 1, lx')).
Proof.
  intros E.
  destruct (block_comment_go_moves body 1 3) as [q Mq]. rewrite E in Mq.
  assert (moves (Lexer.init ("/*" +:+ body)) ("/*" +:+ q) lx') as M.
  { apply (moves_trans _ "/*" (Lexer.mkLexer body 1 3)); [|exact Mq].
    by split. }
  exists ("/*" +:+ q). split; [apply M|]. intros v ->.
  rewrite <- (slice_moves _ _ _ M). rewrite <- E. reflexivity.
Qed.

(** X11: block comments do not nest and need not be closed: a text that
    starts with a comment opener gives a block-comment token that ends
    with the first closer after the opener, the lexer standing right
    after it; without a closer the token runs to the end of the text and
    nothing is raised. *)
Theorem X11_block_comment_ends_at_first_closer (pre rest : string) :
  has_comment_end pre = false ->
  Lexer._next_token (Lexer.init ("/*" +:+ pre +:+ "*/" +:+ rest))
  = (mkToken BLOCK_COMMENT ("/*" +:+ pre +:+ "*/") 1 1,
     lexer_after ("/*" +:+ pre +:+ "*/") rest)
  /\ Lexer._next_token (Lexer.init ("/*" +:+ pre))
     = (mkToken BLOCK_COMMENT ("/*" +:+ pre) 1 1,
        lexer_after ("/*" +:+ pre) "").
Proof.
  intros H. split.
  - pose proof (block_comment_go_closed pre rest H 1 3) as E.
    destruct (next_token_block_comment _ _ E) as (v & Hv & Ht).
    cbn [Lexer.source] in Hv.
    assert (v = "/*" +:+ pre +:+ "*/") as ->.
    { apply (append_cancel_r _ _ rest). by rewrite <- Hv, !append_assoc. }
    rewrite (Ht _ eq_refl). reflexivity.
  - pose proof (block_comment_go_open pre H 1 3) as E.
    destruct (next_token_block_comment _ _ E) as (v & Hv & Ht).
    cbn [Lexer.source] in Hv. rewrite append_nil_r in Hv. subst v.
    rewrite (Ht _ eq_refl). reflexivity.
Qed.

Lemma X11_block_comment_witness :
  Lexer._next_token (Lexer.init "/* a /* b */ c */")
  = (mkToken BLOCK_COMMENT "/* a /* b */" 1 1,
     Lexer.mkLexer " c */" 1 13).
Proof.
  exact (proj1 (X11_block_comment_ends_at_first_closer " a /* b " " c */"
                  eq_refl)).
Defined.

(* ===================================================================== *)
(** * The parser returns *)
(* ===================================================================== *)

(** ** More fuel changes no result *)

Lemma extends_refl {A : Type} (m : Parser.P A) : extends m m.
Proof. by intros ts x H. Qed.

Lemma extends_out_of_fuel {A : Type} (m : Parser.P A) :
  extends Parser.out_of_fuel m.
Proof. intros ts x H. discriminate. Qed.

Lemma extends_bind {A B : Type} (m m' : Parser.P A) (k k' : A -> Parser.P B) :
  extends m m' -> (forall a, extends (k a) (k' a)) ->
  extends (Parser.bind m k) (Parser.bind m' k').
Proof.
  intros Hm Hk ts x. unfold Parser.bind.
  destruct (m ts) as [[a ts1]|] eqn:E; [|discriminate].
  rewrite (Hm _ _ E). apply Hk.
Qed.

Ltac ext_step :=
  first
    [ apply extends_out_of_fuel
    | apply extends_bind; [|intros ?]
    | match goal with
      | |- extends (if ?b then _ else _) _ => destruct b
      | |- extends (match ?x with _ => _ end) _ => destruct x
      end
    | assumption
    | apply extends_refl ].

Ltac ext := repeat ext_step.

Ltac ext_loop IH :=
  repeat first [ apply IH; lia | ext_step ].

Lemma qualified_name_loop_mono fuel :
  forall fuel' parts, (fuel <= fuel')%nat ->
    extends (Parser.qualified_name_loop fuel parts)
      (Parser.qualified_name_loop fuel' parts).
Proof.
  induction fuel as [|fuel IH]; intros fuel' parts H;
    [apply extends_out_of_fuel|].
  destruct fuel' as [|fuel']; [lia|]. cbn [Parser.qualified_name_loop].
  ext_loop IH.
Qed.

Lemma parse_qualified_name_mono fuel fuel' :
  (fuel <= fuel')%nat ->
  extends (Parser._parse_qualified_name fuel)
    (Parser._parse_qualified_name fuel').
Proof.
  intros H. unfold Parser._parse_qualified_name.
  repeat first [ by apply qualified_name_loop_mono | ext_step ].
Qed.

Lemma multiplicity_loop_mono fuel :
  forall fuel' parts, (fuel <= fuel')%nat ->
    extends (Parser.multiplicity_loop fuel parts)
      (Parser.multiplicity_loop fuel' parts).
Proof.
  induction fuel as [|fuel IH]; intros fuel' parts H;
    [apply extends_out_of_fuel|].
  destruct fuel' as [|fuel']; [lia|]. cbn [Parser.multiplicity_loop].
  ext_loop IH.
Qed.

Lemma parse_multiplicity_mono fuel fuel' :
  (fuel <= fuel')%nat ->
  extends (Parser._parse_multiplicity fuel) (Parser._parse_multiplicity fuel').
Proof.
  intros H. unfold Parser._parse_multiplicity.
  repeat first [ by apply multiplicity_loop_mono | ext_step ].
Qed.

Lemma skip_block_loop_mono fuel :
  forall fuel' depth, (fuel <= fuel')%nat ->
    extends (Parser.skip_block_loop fuel depth)
      (Parser.skip_block_loop fuel' depth).
Proof.
  induction fuel as [|fuel IH]; intros fuel' depth H;
    [apply extends_out_of_fuel|].
  destruct fuel' as [|fuel']; [lia|]. cbn [Parser.skip_block_loop].
  ext_loop IH.
Qed.

Lemma skip_block_mono fuel fuel' :
  (fuel <= fuel')%nat ->
  extends (Parser._skip_block fuel) (Parser._skip_block fuel').
Proof. intros H. by apply skip_block_loop_mono. Qed.

Lemma skip_to_end_loop_mono fuel :
  forall fuel', (fuel <= fuel')%nat ->
    extends (Parser.skip_to_end_loop fuel) (Parser.skip_to_end_loop fuel').
Proof.
  induction fuel as [|fuel IH]; intros fuel' H; [apply extends_out_of_fuel|].
  destruct fuel' as [|fuel']; [lia|]. cbn [Parser.skip_to_end_loop].
  ext_loop IH.
Qed.

Lemma skip_to_end_mono fuel fuel' l c :
  (fuel <= fuel')%nat ->
  extends (Parser._skip_to_end fuel l c) (Parser._skip_to_end fuel' l c).
Proof.
  intros H. unfold Parser._skip_to_end.
  repeat first [ by apply skip_to_end_loop_mono | by apply skip_block_mono
               | ext_step ].
Qed.

Lemma skip_expression_loop_mono fuel :
  forall fuel' depth, (fuel <= fuel')%nat ->
    extends (Parser.skip_expression_loop fuel depth)
      (Parser.skip_expression_loop fuel' depth).
Proof.
  induction fuel as [|fuel IH]; intros fuel' depth H;
    [apply extends_out_of_fuel|].
  destruct fuel' as [|fuel']; [lia|]. cbn [Parser.skip_expression_loop].
  ext_loop IH.
Qed.

Lemma skip_expression_mono fuel fuel' :
  (fuel <= fuel')%nat ->
  extends (Parser._skip_expression fuel) (Parser._skip_expression fuel').
Proof. intros H. by apply skip_expression_loop_mono. Qed.

Lemma specializes_loop_mono fuel fuel' n :
  forall n' specs, (fuel <= fuel')%nat -> (n <= n')%nat ->
    extends (Parser.specializes_loop fuel n specs)
      (Parser.specializes_loop fuel' n' specs).
Proof.
  induction n as [|n IH]; intros n' specs H Hn;
    [apply extends_out_of_fuel|].
  destruct n' as [|n']; [lia|]. cbn [Parser.specializes_loop].
  repeat first [ by apply parse_qualified_name_mono | apply IH; lia
               | ext_step ].
Qed.

Lemma import_path_loop_mono n :
  forall n' parts, (n <= n')%nat ->
    extends (Parser.import_path_loop n parts)
      (Parser.import_path_loop n' parts).
Proof.
  induction n as [|n IH]; intros n' parts Hn; [apply extends_out_of_fuel|].
  destruct n' as [|n']; [lia|]. cbn [Parser.import_path_loop].
  ext_loop IH.
Qed.

Lemma about_loop_mono fuel fuel' n :
  forall n', (fuel <= fuel')%nat -> (n <= n')%nat ->
    extends (Parser.about_loop fuel n) (Parser.about_loop fuel' n').
Proof.
  induction n as [|n IH]; intros n' H Hn; [apply extends_out_of_fuel|].
  destruct n' as [|n']; [lia|]. cbn [Parser.about_loop].
  repeat first [ by apply parse_qualified_name_mono | apply IH; lia
               | ext_step ].
Qed.

Lemma prefix_modifiers_loop_mono n :
  forall n' mods, (n <= n')%nat ->
    extends (Parser.prefix_modifiers_loop n mods)
      (Parser.prefix_modifiers_loop n' mods).
Proof.
  induction n as [|n IH]; intros n' mods Hn; [apply extends_out_of_fuel|].
  destruct n' as [|n']; [lia|]. cbn [Parser.prefix_modifiers_loop].
  ext_loop IH.
Qed.

Lemma pending_comment_loop_mono n :
  forall n' pending, (n <= n')%nat ->
    extends (Parser.pending_comment_loop n pending)
      (Parser.pending_comment_loop n' pending).
Proof.
  induction n as [|n IH]; intros n' pending Hn; [apply extends_out_of_fuel|].
  destruct n' as [|n']; [lia|]. cbn [Parser.pending_comment_loop].
  ext_loop IH.
Qed.

Ltac ext_sub H :=
  repeat first
    [ by apply parse_qualified_name_mono
    | by apply parse_multiplicity_mono
    | by apply skip_block_mono
    | by apply skip_to_end_mono
    | by apply skip_expression_mono
    | by apply specializes_loop_mono
    | by apply import_path_loop_mono
    | by apply about_loop_mono
    | by apply prefix_modifiers_loop_mono
    | by apply pending_comment_loop_mono
    | apply H
    | ext_step ].

Section ElementsMono.

Variables rec rec' : bool -> Parser.P (list Element).
Variables fuel fuel' : nat.
Hypothesis Hrec : forall tl, extends (rec tl) (rec' tl).
Hypothesis Hfuel : (fuel <= fuel')%nat.

Lemma parse_element_tail_mono elem :
  extends (Parser._parse_element_tail rec fuel elem)
    (Parser._parse_element_tail rec' fuel' elem).
Proof. unfold Parser._parse_element_tail. ext_sub Hrec. Qed.

Lemma parse_import_mono l c mods :
  extends (Parser._parse_import fuel l c mods)
    (Parser._parse_import fuel' l c mods).
Proof. unfold Parser._parse_import. ext_sub Hrec. Qed.

Lemma parse_comment_kw_mono l c :
  extends (Parser._parse_comment_kw fuel l c)
    (Parser._parse_comment_kw fuel' l c).
Proof. unfold Parser._parse_comment_kw. ext_sub Hrec. Qed.

Lemma parse_require_or_assume_mono l c mods :
  extends (Parser._parse_require_or_assume fuel l c mods)
    (Parser._parse_require_or_assume fuel' l c mods).
Proof. unfold Parser._parse_require_or_assume. ext_sub Hrec. Qed.

Lemma parse_use_case_mono l c mods pending :
  extends (Parser._parse_use_case rec fuel l c mods pending)
    (Parser._parse_use_case rec' fuel' l c mods pending).
Proof.
  unfold Parser._parse_use_case.
  repeat first [ apply parse_element_tail_mono | ext_step ].
Qed.

Lemma parse_parameter_mono l c mods :
  extends (Parser.parse_parameter fuel l c mods)
    (Parser.parse_parameter fuel' l c mods).
Proof. unfold Parser.parse_parameter. ext_sub Hrec. Qed.

Lemma parse_element_mono pending :
  extends (Parser._parse_element rec fuel pending)
    (Parser._parse_element rec' fuel' pending).
Proof.
  unfold Parser._parse_element.
  repeat first
    [ apply parse_element_tail_mono | apply parse_import_mono
    | apply parse_comment_kw_mono | apply parse_require_or_assume_mono
    | apply parse_use_case_mono | apply parse_parameter_mono
    | by apply parse_qualified_name_mono
    | by apply skip_to_end_mono
    | by apply prefix_modifiers_loop_mono
    | ext_step ].
Qed.

End ElementsMono.

Lemma parse_body_loop_mono fuel :
  forall fuel' tl elements, (fuel <= fuel')%nat ->
    extends (Parser.parse_body_loop fuel tl elements)
      (Parser.parse_body_loop fuel' tl elements).
Proof.
  induction fuel as [|fuel IH]; intros fuel' tl elements H;
    [apply extends_out_of_fuel|].
  destruct fuel' as [|fuel']; [lia|].
  cbn [Parser.parse_body_loop]. unfold Parser.parse_body_step.
  repeat first
    [ apply pending_comment_loop_mono; lia
    | apply parse_element_mono; [intros tl'; apply IH; lia | lia]
    | apply IH; lia
    | ext_step ].
Qed.

(** ** Enough fuel gives a result *)

Lemma ok_ret {A : Type} (n : nat) (a : A) : ok n (Parser.ret a).
Proof. intros ts H. by exists a, ts. Qed.

Lemma ok_bind {A B : Type} (n : nat) (m : Parser.P A) (k : A -> Parser.P B) :
  ok n m -> (forall a, ok n (k a)) -> ok n (Parser.bind m k).
Proof.
  intros Hm Hk ts H. destruct (Hm ts H) as (a & ts1 & E & H1).
  destruct (Hk a ts1 H1) as (b & ts2 & E2 & H2).
  exists b, ts2. split; [|exact H2]. unfold Parser.bind. by rewrite E.
Qed.

Lemma ok_cur n : ok n Parser._cur.
Proof. intros ts H. by eexists _, ts. Qed.

Lemma ok_peek n : ok n Parser._peek.
Proof. intros ts H. by eexists _, ts. Qed.

Lemma ok_advance n : ok n Parser._advance.
Proof.
  intros ts H. destruct ts as [|t r].
  - by exists Parser.EOF_token, [].
  - exists t, r. split; [done|]. cbn in H. lia.
Qed.

Lemma ok_at n types : ok n (Parser._at types).
Proof. unfold Parser._at. apply ok_bind; [apply ok_cur|]. intros a. apply ok_ret. Qed.

Lemma ok_cur_in n S : ok n (Parser.cur_in S).
Proof.
  unfold Parser.cur_in. apply ok_bind; [apply ok_cur|]. intros a. apply ok_ret.
Qed.

Lemma ok_eat n types : ok n (Parser._eat types).
Proof.
  unfold Parser._eat. apply ok_bind; [apply ok_at|]. intros [|].
  - apply ok_bind; [apply ok_advance|]. intros a. apply ok_ret.
  - apply ok_ret.
Qed.

Lemma ok_weaken {A : Type} (n : nat) (m : Parser.P A) :
  (forall ts, (length ts <= n)%nat -> runs m ts (length ts)) -> ok n m.
Proof.
  intros H ts Hts. destruct (H ts Hts) as (a & ts' & E & Hl).
  exists a, ts'. split; [exact E|lia].
Qed.

Lemma ok1_advance n : ok1 n Parser._advance.
Proof. intros t r H. by exists t, r. Qed.

Lemma ok1_bind {A B : Type} (n : nat) (m : Parser.P A) (k : A -> Parser.P B) :
  ok1 n m -> (forall a, ok n (k a)) -> ok1 n (Parser.bind m k).
Proof.
  intros Hm Hk t r H. destruct (Hm t r H) as (a & ts1 & E & H1).
  destruct (Hk a ts1 H1) as (b & ts2 & E2 & H2).
  exists b, ts2. split; [|exact H2]. unfold Parser.bind. by rewrite E.
Qed.

Lemma runs_ret {A : Type} (a : A) ts n :
  (length ts <= n)%nat -> runs (Parser.ret a) ts n.
Proof. intros H. by exists a, ts. Qed.

Lemma runs_bind_eq {A B : Type} (m : Parser.P A) (k : A -> Parser.P B)
  ts a ts1 n :
  m ts = Some (a, ts1) -> runs (k a) ts1 n -> runs (Parser.bind m k) ts n.
Proof.
  intros E (b & ts2 & E2 & H2). exists b, ts2. split; [|exact H2].
  unfold Parser.bind. by rewrite E.
Qed.

Lemma runs_ok {A : Type} (m : Parser.P A) ts n :
  ok n m -> (length ts <= n)%nat -> runs m ts n.
Proof. intros H Hl. by apply H. Qed.

Lemma runs_ok1 {A : Type} (m : Parser.P A) t r n :
  ok1 n m -> (length r <= n)%nat -> runs m (t :: r) n.
Proof. intros H Hl. by apply H. Qed.

Lemma runs_weaken {A : Type} (m : Parser.P A) ts n n' :
  runs m ts n -> (n <= n')%nat -> runs m ts n'.
Proof. intros (a & ts' & E & H) Hn. exists a, ts'. split; [exact E|lia]. Qed.

Lemma at_cons types t r :
  Parser._at types (t :: r) = Some (bool_decide (tok_type t ∈ types), t :: r).
Proof. reflexivity. Qed.

Lemma at_nil types :
  Parser._at types [] = Some (bool_decide (EOF ∈ types), []).
Proof. reflexivity. Qed.

Lemma cur_in_cons S t r :
  Parser.cur_in S (t :: r) = Some (bool_decide (tok_type t ∈ S), t :: r).
Proof. reflexivity. Qed.

Lemma eat_true types t r :
  bool_decide (tok_type t ∈ types) = true ->
  Parser._eat types (t :: r) = Some (Some t, r).
Proof.
  intros E. unfold Parser._eat, Parser.bind. rewrite at_cons, E. reflexivity.
Qed.

Lemma eat_false types t r :
  bool_decide (tok_type t ∈ types) = false ->
  Parser._eat types (t :: r) = Some (None, t :: r).
Proof.
  intros E. unfold Parser._eat, Parser.bind. rewrite at_cons, E. reflexivity.
Qed.

Ltac ok_head m :=
  lazymatch m with
  | Parser.bind _ _ => apply ok_bind; [|intros ?]
  | Parser.ret _ => apply ok_ret
  | Parser._at _ => apply ok_at
  | Parser._eat _ => apply ok_eat
  | Parser._advance => apply ok_advance
  | Parser._cur => apply ok_cur
  | Parser._peek => apply ok_peek
  | Parser.cur_in _ => apply ok_cur_in
  | (let _ := _ in _) => cbv zeta
  | (if ?b then _ else _) => destruct b
  | (match ?x with _ => _ end) => destruct x
  end.

Ltac ok_step :=
  lazymatch goal with
  | |- ok _ ?m => first [ ok_head m | assumption ]
  end.

Ltac oks := repeat ok_step.

Lemma parse_name_token_ok n : ok n Parser._parse_name_token.
Proof. unfold Parser._parse_name_token. oks. Qed.

Lemma parse_identification_ok n : ok n Parser._parse_identification.
Proof.
  unfold Parser._parse_identification.
  repeat first [ apply parse_name_token_ok | ok_step ].
Qed.

Lemma eat_identification_ok n : ok n Parser._eat_identification.
Proof.
  unfold Parser._eat_identification.
  repeat first [ apply parse_identification_ok | ok_step ].
Qed.

(** A loop that stops or takes a token at every turn returns when the fuel
    exceeds the number of tokens. *)
Ltac nonempty ts E :=
  destruct ts as [|?t ?r]; [vm_compute in E; discriminate|].

Lemma qualified_name_loop_runs fuel :
  forall ts parts, (length ts < fuel)%nat ->
    runs (Parser.qualified_name_loop fuel parts) ts (length ts).
Proof.
  induction fuel as [|fuel IH]; intros ts parts H; [lia|].
  cbn [Parser.qualified_name_loop].
  destruct ts as [|t r].
  { eapply runs_bind_eq; [apply at_nil|].
    replace (bool_decide (EOF ∈ [COLON_COLON; DOT])) with false
      by (by vm_compute).
    by apply runs_ret. }
  cbn [length] in *.
  assert (forall p, ok (length r) (Parser.qualified_name_loop fuel p)) as Hok.
  { intros p. apply ok_weaken. intros ts' H'. apply IH. lia. }
  eapply runs_bind_eq; [apply at_cons|].
  destruct (bool_decide _); [|by apply runs_ret].
  eapply runs_weaken; [|apply Nat.le_succ_diag_r].
  apply runs_ok1; [|lia]. apply ok1_bind; [apply ok1_advance|]. intros _.
  repeat first [ apply parse_name_token_ok | apply Hok | ok_step ].
Qed.

Lemma parse_qualified_name_ok n fuel :
  (n < fuel)%nat -> ok n (Parser._parse_qualified_name fuel).
Proof.
  intros H. unfold Parser._parse_qualified_name.
  apply ok_bind; [apply parse_name_token_ok|]. intros tok.
  apply ok_bind; [|intros ?; apply ok_ret].
  apply ok_weaken. intros ts Hts. apply qualified_name_loop_runs. lia.
Qed.

(** The rest of a turn of a loop, after a token has been taken. *)
Ltac taken Hok :=
  eapply runs_weaken; [|apply Nat.le_succ_diag_r];
  apply runs_ok1; [|lia];
  repeat first [ apply ok1_advance | apply ok1_bind; [|intros ?] ];
  repeat first [ apply Hok | ok_step ].

Ltac after_eat Hok :=
  eapply runs_weaken; [|apply Nat.le_succ_diag_r];
  apply runs_ok; [|lia];
  repeat first [ apply Hok | ok_step ].

Ltac loop_start fuel IH ts H :=
  induction fuel as [|fuel IH]; intros ts; intros; [lia|].

Lemma multiplicity_loop_runs fuel :
  forall ts parts, (length ts < fuel)%nat ->
    runs (Parser.multiplicity_loop fuel parts) ts (length ts).
Proof.
  induction fuel as [|fuel IH]; intros ts parts H; [lia|].
  cbn [Parser.multiplicity_loop].
  destruct ts as [|t r].
  { eapply runs_bind_eq; [apply at_nil|].
    replace (bool_decide (EOF ∈ [RBRACK; EOF])) with true by (by vm_compute).
    by apply runs_ret. }
  cbn [length] in *.
  assert (forall p, ok (length r) (Parser.multiplicity_loop fuel p)) as Hok.
  { intros p. apply ok_weaken. intros ts' H'. apply IH. lia. }
  eapply runs_bind_eq; [apply at_cons|].
  destruct (bool_decide _); [by apply runs_ret|]. taken Hok.
Qed.

Lemma parse_multiplicity_ok n fuel :
  (n < fuel)%nat -> ok n (Parser._parse_multiplicity fuel).
Proof.
  intros H. unfold Parser._parse_multiplicity.
  assert (forall p, ok n (Parser.multiplicity_loop fuel p)) as Hok.
  { intros p. apply ok_weaken. intros ts Hts. apply multiplicity_loop_runs.
    lia. }
  repeat first [ apply Hok | ok_step ].
Qed.

Lemma skip_block_loop_runs fuel :
  forall ts depth, (length ts < fuel)%nat ->
    runs (Parser.skip_block_loop fuel depth) ts (length ts).
Proof.
  induction fuel as [|fuel IH]; intros ts depth H; [lia|].
  cbn [Parser.skip_block_loop].
  destruct ts as [|t r].
  { eapply runs_bind_eq; [apply at_nil|].
    replace (bool_decide (EOF ∈ [EOF])) with true by (by vm_compute).
    by apply runs_ret. }
  cbn [length] in *.
  assert (forall d, ok (length r) (Parser.skip_block_loop fuel d)) as Hok.
  { intros d. apply ok_weaken. intros ts' H'. apply IH. lia. }
  eapply runs_bind_eq; [apply at_cons|].
  destruct (negb _ && _); [|by apply runs_ret].
  destruct (bool_decide (tok_type t ∈ [LBRACE])) eqn:E1.
  { eapply runs_bind_eq; [by apply eat_true|]. cbn [is_some]. after_eat Hok. }
  eapply runs_bind_eq; [by apply eat_false|]. cbn [is_some].
  destruct (bool_decide (tok_type t ∈ [RBRACE])) eqn:E2.
  { eapply runs_bind_eq; [by apply eat_true|]. cbn [is_some]. after_eat Hok. }
  eapply runs_bind_eq; [by apply eat_false|]. cbn [is_some]. taken Hok.
Qed.

Lemma skip_block_ok n fuel : (n < fuel)%nat -> ok n (Parser._skip_block fuel).
Proof.
  intros H. apply ok_weaken. intros ts Hts. apply skip_block_loop_runs. lia.
Qed.

Lemma skip_to_end_loop_runs fuel :
  forall ts, (length ts < fuel)%nat ->
    runs (Parser.skip_to_end_loop fuel) ts (length ts).
Proof.
  induction fuel as [|fuel IH]; intros ts H; [lia|].
  cbn [Parser.skip_to_end_loop].
  destruct ts as [|t r].
  { eapply runs_bind_eq; [apply at_nil|].
    replace (bool_decide (EOF ∈ [SEMI; LBRACE; RBRACE; EOF])) with true
      by (by vm_compute).
    by apply runs_ret. }
  cbn [length] in *.
  assert (ok (length r) (Parser.skip_to_end_loop fuel)) as Hok.
  { apply ok_weaken. intros ts' H'. apply IH. lia. }
  eapply runs_bind_eq; [apply at_cons|].
  destruct (bool_decide _); [by apply runs_ret|]. taken Hok.
Qed.

Lemma skip_to_end_ok n fuel l c :
  (n < fuel)%nat -> ok n (Parser._skip_to_end fuel l c).
Proof.
  intros H. unfold Parser._skip_to_end.
  assert (ok n (Parser.skip_to_end_loop fuel)) as Hok.
  { apply ok_weaken. intros ts Hts. apply skip_to_end_loop_runs. lia. }
  repeat first [ apply Hok | by apply skip_block_ok | ok_step ].
Qed.

Lemma bind_assoc {A B C : Type} (m : Parser.P A) (f : A -> Parser.P B)
  (k : B -> Parser.P C) ts :
  Parser.bind (Parser.bind m f) k ts
  = Parser.bind m (fun a => Parser.bind (f a) k) ts.
Proof. unfold Parser.bind. by destruct (m ts) as [[a ts1]|]. Qed.

Lemma runs_assoc {A B C : Type} (m : Parser.P A) (f : A -> Parser.P B)
  (k : B -> Parser.P C) ts n :
  runs (Parser.bind m (fun a => Parser.bind (f a) k)) ts n ->
  runs (Parser.bind (Parser.bind m f) k) ts n.
Proof.
  intros (a & ts' & E & H). exists a, ts'. split; [|exact H].
  by rewrite bind_assoc.
Qed.

(** [_skip_to_end] takes the token it starts at, unless it is one of the
    four it stops before. *)
Lemma skip_to_end_takes n fuel l c t r :
  (length r <= n)%nat -> (S n < fuel)%nat ->
  bool_decide (tok_type t ∈ [SEMI; LBRACE; RBRACE; EOF]) = false ->
  runs (Parser._skip_to_end fuel l c) (t :: r) n.
Proof.
  intros Hr Hn E. unfold Parser._skip_to_end.
  destruct fuel as [|fuel]; [lia|]. cbn [Parser.skip_to_end_loop].
  assert (ok n (Parser.skip_to_end_loop fuel)) as Hok.
  { apply ok_weaken. intros ts Hts. apply skip_to_end_loop_runs. lia. }
  apply runs_assoc. eapply runs_bind_eq; [apply at_cons|]. rewrite E.
  apply runs_ok1; [|exact Hr].
  repeat first [ apply ok1_advance | apply ok1_bind; [|intros ?] ].
  all: repeat first [ apply Hok | apply skip_block_ok; lia | ok_step ].
Qed.

Lemma skip_expression_loop_runs fuel :
  forall ts depth, (length ts < fuel)%nat ->
    runs (Parser.skip_expression_loop fuel depth) ts (length ts).
Proof.
  induction fuel as [|fuel IH]; intros ts depth H; [lia|].
  cbn [Parser.skip_expression_loop].
  destruct ts as [|t r].
  { eapply runs_bind_eq; [apply at_nil|].
    replace (bool_decide (EOF ∈ [EOF])) with true by (by vm_compute).
    by apply runs_ret. }
  cbn [length] in *.
  assert (forall d, ok (length r) (Parser.skip_expression_loop fuel d)) as Hok.
  { intros d. apply ok_weaken. intros ts' H'. apply IH. lia. }
  eapply runs_bind_eq; [apply at_cons|].
  destruct (bool_decide _); [by apply runs_ret|].
  eapply runs_bind_eq; [apply at_cons|].
  destruct (bool_decide _); [taken Hok|].
  eapply runs_bind_eq; [apply at_cons|].
  destruct (bool_decide _).
  { destruct (depth =? 0); [by apply runs_ret|taken Hok]. }
  eapply runs_bind_eq; [apply at_cons|].
  destruct (_ && _); taken Hok.
Qed.

Lemma skip_expression_ok n fuel :
  (n < fuel)%nat -> ok n (Parser._skip_expression fuel).
Proof.
  intros H. apply ok_weaken. intros ts Hts.
  apply skip_expression_loop_runs. lia.
Qed.

Lemma prefix_modifiers_loop_runs fuel :
  forall ts mods, (length ts < fuel)%nat ->
    runs (Parser.prefix_modifiers_loop fuel mods) ts (length ts).
Proof.
  induction fuel as [|fuel IH]; intros ts mods H; [lia|].
  cbn [Parser.prefix_modifiers_loop].
  destruct ts as [|t r].
  { unfold Parser.bind, Parser.cur_in, Parser._cur, Parser.ret.
    replace (bool_decide (tok_type Parser.EOF_token ∈ Parser._PREFIX_MODIFIERS))
      with false by (by vm_compute).
    by eexists _, []. }
  cbn [length] in *.
  assert (forall m, ok (length r) (Parser.prefix_modifiers_loop fuel m)) as Hok.
  { intros m. apply ok_weaken. intros ts' H'. apply IH. lia. }
  eapply runs_bind_eq; [apply cur_in_cons|].
  destruct (bool_decide _); [|by apply runs_ret]. taken Hok.
Qed.

Lemma runs_bind {A B : Type} (m : Parser.P A) (k : A -> Parser.P B) ts n :
  runs m ts n -> (forall a, ok n (k a)) -> runs (Parser.bind m k) ts n.
Proof.
  intros (a & ts1 & E & H1) Hk. destruct (Hk a ts1 H1) as (b & ts2 & E2 & H2).
  exists b, ts2. split; [|exact H2]. unfold Parser.bind. by rewrite E.
Qed.

Lemma prefix_modifiers_loop_stays fuel mods t r :
  (0 < fuel)%nat ->
  bool_decide (tok_type t ∈ Parser._PREFIX_MODIFIERS) = false ->
  Parser.prefix_modifiers_loop fuel mods (t :: r) = Some (mods, t :: r).
Proof.
  intros H E. destruct fuel as [|fuel]; [lia|].
  cbn [Parser.prefix_modifiers_loop]. unfold Parser.bind.
  by rewrite cur_in_cons, E.
Qed.

Lemma prefix_modifiers_loop_takes fuel mods t r :
  (S (length r) < fuel)%nat ->
  bool_decide (tok_type t ∈ Parser._PREFIX_MODIFIERS) = true ->
  runs (Parser.prefix_modifiers_loop fuel mods) (t :: r) (length r).
Proof.
  intros H E. destruct fuel as [|fuel]; [lia|].
  cbn [Parser.prefix_modifiers_loop].
  eapply runs_bind_eq; [apply cur_in_cons|]. rewrite E.
  eapply runs_bind_eq; [reflexivity|].
  destruct (prefix_modifiers_loop_runs fuel r (mods ++ [tok_value t])
              ltac:(lia)) as (a & ts' & E' & H').
  by exists a, ts'.
Qed.

Lemma pending_comment_loop_runs fuel :
  forall ts pending, (length ts < fuel)%nat ->
    runs (Parser.pending_comment_loop fuel pending) ts (length ts).
Proof.
  induction fuel as [|fuel IH]; intros ts pending H; [lia|].
  cbn [Parser.pending_comment_loop].
  destruct ts as [|t r].
  { eapply runs_bind_eq; [apply at_nil|].
    replace (bool_decide (EOF ∈ [BLOCK_COMMENT])) with false
      by (by vm_compute).
    by apply runs_ret. }
  cbn [length] in *.
  assert (forall p, ok (length r) (Parser.pending_comment_loop fuel p)) as Hok.
  { intros p. apply ok_weaken. intros ts' H'. apply IH. lia. }
  eapply runs_bind_eq; [apply at_cons|].
  destruct (bool_decide _); [|by apply runs_ret]. taken Hok.
Qed.

Lemma eat_nil types :
  bool_decide (EOF ∈ types) = false -> Parser._eat types [] = Some (None, []).
Proof.
  intros E. unfold Parser._eat, Parser.bind. rewrite at_nil, E. reflexivity.
Qed.

Lemma specializes_loop_runs fuel n :
  forall ts specs, (length ts < fuel)%nat -> (length ts < n)%nat ->
    runs (Parser.specializes_loop fuel n specs) ts (length ts).
Proof.
  induction n as [|n IH]; intros ts specs H Hn; [lia|].
  cbn [Parser.specializes_loop].
  destruct ts as [|t r].
  { eapply runs_bind_eq; [by apply eat_nil|]. by apply runs_ret. }
  cbn [length] in *.
  assert (forall s, ok (length r) (Parser.specializes_loop fuel n s)) as Hok.
  { intros s. apply ok_weaken. intros ts' H'. apply IH; lia. }
  destruct (bool_decide (tok_type t ∈ [COMMA])) eqn:E.
  - eapply runs_bind_eq; [by apply eat_true|]. cbn [is_some].
    eapply runs_weaken; [|apply Nat.le_succ_diag_r]. apply runs_ok; [|lia].
    repeat first [ apply Hok | apply parse_qualified_name_ok; lia | ok_step ].
  - eapply runs_bind_eq; [by apply eat_false|]. by apply runs_ret.
Qed.

Lemma import_path_loop_runs n :
  forall ts parts, (length ts < n)%nat ->
    runs (Parser.import_path_loop n parts) ts (length ts).
Proof.
  induction n as [|n IH]; intros ts parts Hn; [lia|].
  cbn [Parser.import_path_loop].
  destruct ts as [|t r].
  { eapply runs_bind_eq; [by apply eat_nil|]. by apply runs_ret. }
  cbn [length] in *.
  assert (forall p, ok (length r) (Parser.import_path_loop n p)) as Hok.
  { intros p. apply ok_weaken. intros ts' H'. apply IH; lia. }
  destruct (bool_decide (tok_type t ∈ [COLON_COLON])) eqn:E.
  - eapply runs_bind_eq; [by apply eat_true|]. cbn [is_some].
    eapply runs_weaken; [|apply Nat.le_succ_diag_r]. apply runs_ok; [|lia].
    repeat first [ apply Hok | apply parse_name_token_ok | ok_step ].
  - eapply runs_bind_eq; [by apply eat_false|]. by apply runs_ret.
Qed.

Lemma about_loop_runs fuel n :
  forall ts, (length ts < fuel)%nat -> (length ts < n)%nat ->
    runs (Parser.about_loop fuel n) ts (length ts).
Proof.
  induction n as [|n IH]; intros ts H Hn; [lia|].
  cbn [Parser.about_loop].
  destruct ts as [|t r].
  { eapply runs_bind_eq; [by apply eat_nil|]. by apply runs_ret. }
  cbn [length] in *.
  assert (ok (length r) (Parser.about_loop fuel n)) as Hok.
  { apply ok_weaken. intros ts' H'. apply IH; lia. }
  destruct (bool_decide (tok_type t ∈ [COMMA])) eqn:E.
  - eapply runs_bind_eq; [by apply eat_true|]. cbn [is_some].
    eapply runs_weaken; [|apply Nat.le_succ_diag_r]. apply runs_ok; [|lia].
    repeat first [ apply Hok | apply parse_qualified_name_ok; lia | ok_step ].
  - eapply runs_bind_eq; [by apply eat_false|]. by apply runs_ret.
Qed.

(** ** The element parsers *)

Ltac ok1s :=
  repeat lazymatch goal with
  | |- ok1 _ Parser._advance => apply ok1_advance
  | |- ok1 _ (Parser.bind _ _) => apply ok1_bind; [|intros ?]
  end.

Section ElementsProgress.

Variable rec : bool -> Parser.P (list Element).
Variables fuel n : nat.
Hypothesis Hfuel : (n < fuel)%nat.
Hypothesis Hrec : ok n (rec false).

Ltac sub_ok_head m :=
  lazymatch m with
  | Parser._parse_name_token => apply parse_name_token_ok
  | Parser._parse_identification => apply parse_identification_ok
  | Parser._eat_identification => apply eat_identification_ok
  | Parser._parse_qualified_name _ =>
      apply parse_qualified_name_ok; exact Hfuel
  | Parser._parse_multiplicity _ => apply parse_multiplicity_ok; exact Hfuel
  | Parser._skip_block _ => apply skip_block_ok; exact Hfuel
  | Parser._skip_to_end _ _ _ => apply skip_to_end_ok; exact Hfuel
  | Parser._skip_expression _ => apply skip_expression_ok; exact Hfuel
  | rec false => exact Hrec
  | _ => ok_head m
  end.

Ltac sub_ok_step :=
  lazymatch goal with
  | |- ok _ ?m => first [ sub_ok_head m | assumption ]
  end.

Ltac sub_ok := repeat sub_ok_step.

Lemma specializes_loop_ok specs :
  ok n (Parser.specializes_loop fuel fuel specs).
Proof.
  apply ok_weaken. intros ts Hts. apply specializes_loop_runs; lia.
Qed.

Lemma import_path_loop_ok parts : ok n (Parser.import_path_loop fuel parts).
Proof.
  apply ok_weaken. intros ts Hts. apply import_path_loop_runs; lia.
Qed.

Lemma about_loop_ok : ok n (Parser.about_loop fuel fuel).
Proof.
  apply ok_weaken. intros ts Hts. apply about_loop_runs; lia.
Qed.

Lemma prefix_modifiers_loop_ok mods :
  ok n (Parser.prefix_modifiers_loop fuel mods).
Proof.
  apply ok_weaken. intros ts Hts. apply prefix_modifiers_loop_runs; lia.
Qed.

Lemma parse_element_tail_ok elem :
  ok n (Parser._parse_element_tail rec fuel elem).
Proof.
  unfold Parser._parse_element_tail.
  repeat first [ apply specializes_loop_ok | sub_ok_step ].
Qed.

Lemma parse_import_ok l c mods : ok n (Parser._parse_import fuel l c mods).
Proof.
  unfold Parser._parse_import.
  repeat first [ apply import_path_loop_ok | sub_ok_step ].
Qed.

Lemma parse_import_ok1 l c mods : ok1 n (Parser._parse_import fuel l c mods).
Proof.
  unfold Parser._parse_import. ok1s.
  all: repeat first [ apply import_path_loop_ok | sub_ok_step ].
Qed.

Lemma parse_doc_ok l c pending : ok n (Parser._parse_doc l c pending).
Proof. unfold Parser._parse_doc. sub_ok. Qed.

Lemma parse_doc_ok1 l c pending : ok1 n (Parser._parse_doc l c pending).
Proof. unfold Parser._parse_doc. ok1s. all: sub_ok. Qed.

Lemma parse_comment_kw_ok l c : ok n (Parser._parse_comment_kw fuel l c).
Proof.
  unfold Parser._parse_comment_kw.
  repeat first [ apply about_loop_ok | sub_ok_step ].
Qed.

Lemma parse_comment_kw_ok1 l c : ok1 n (Parser._parse_comment_kw fuel l c).
Proof.
  unfold Parser._parse_comment_kw. ok1s.
  all: repeat first [ apply about_loop_ok | sub_ok_step ].
Qed.

Lemma parse_require_or_assume_ok l c mods :
  ok n (Parser._parse_require_or_assume fuel l c mods).
Proof. unfold Parser._parse_require_or_assume. sub_ok. Qed.

Lemma parse_require_or_assume_ok1 l c mods :
  ok1 n (Parser._parse_require_or_assume fuel l c mods).
Proof. unfold Parser._parse_require_or_assume. ok1s. all: sub_ok. Qed.

Lemma parse_use_case_ok l c mods pending :
  ok n (Parser._parse_use_case rec fuel l c mods pending).
Proof.
  unfold Parser._parse_use_case.
  repeat first [ apply parse_element_tail_ok | sub_ok_step ].
Qed.

Lemma parse_use_case_ok1 l c mods pending :
  ok1 n (Parser._parse_use_case rec fuel l c mods pending).
Proof.
  unfold Parser._parse_use_case. ok1s.
  all: repeat first [ apply parse_element_tail_ok | sub_ok_step ].
Qed.

Lemma parse_parameter_ok l c mods :
  ok n (Parser.parse_parameter fuel l c mods).
Proof. unfold Parser.parse_parameter. sub_ok. Qed.

Lemma parse_parameter_ok1 l c mods :
  ok1 n (Parser.parse_parameter fuel l c mods).
Proof. unfold Parser.parse_parameter. ok1s. all: sub_ok. Qed.

End ElementsProgress.

(** ** One element *)

Lemma runs_or_bind_eq {A B : Type} (m : Parser.P A) (k : A -> Parser.P B)
  ts a ts1 n Q :
  m ts = Some (a, ts1) -> runs_or (k a) ts1 n Q ->
  runs_or (Parser.bind m k) ts n Q.
Proof.
  intros E (b & ts2 & E2 & H2). exists b, ts2. split; [|exact H2].
  unfold Parser.bind. by rewrite E.
Qed.

Lemma runs_or_assoc {A B C : Type} (m : Parser.P A) (f : A -> Parser.P B)
  (k : B -> Parser.P C) ts n Q :
  runs_or (Parser.bind m (fun a => Parser.bind (f a) k)) ts n Q ->
  runs_or (Parser.bind (Parser.bind m f) k) ts n Q.
Proof.
  intros (a & ts' & E & H). exists a, ts'. split; [|exact H].
  by rewrite bind_assoc.
Qed.

Lemma runs_or_of_runs {A : Type} (m : Parser.P A) ts n Q :
  runs m ts n -> runs_or m ts n Q.
Proof. intros (a & ts' & E & H). exists a, ts'. split; [exact E|by left]. Qed.

Lemma runs_or_ret {A : Type} (a : A) ts n (Q : A -> list Token -> Prop) :
  Q a ts -> runs_or (Parser.ret a) ts n Q.
Proof. intros H. exists a, ts. split; [done|by right]. Qed.

Lemma not_stop_in (S : gset TokenType) (ty : TokenType) :
  bool_decide (SEMI ∈ S) = false -> bool_decide (LBRACE ∈ S) = false ->
  bool_decide (RBRACE ∈ S) = false -> bool_decide (EOF ∈ S) = false ->
  bool_decide (ty ∈ S) = true ->
  bool_decide (ty ∈ [SEMI; LBRACE; RBRACE; EOF]) = false.
Proof.
  intros H1 H2 H3 H4 H. apply bool_decide_eq_false_2. intros Hin.
  apply bool_decide_eq_true_1 in H.
  apply bool_decide_eq_false_1 in H1, H2, H3, H4.
  rewrite !elem_of_cons in Hin. rewrite elem_of_nil in Hin.
  destruct Hin as [->|[->|[->|[->|[]]]]]; done.
Qed.

Lemma not_stop_in_list (l : list TokenType) (ty : TokenType) :
  bool_decide (SEMI ∈ l) = false -> bool_decide (LBRACE ∈ l) = false ->
  bool_decide (RBRACE ∈ l) = false -> bool_decide (EOF ∈ l) = false ->
  bool_decide (ty ∈ l) = true ->
  bool_decide (ty ∈ [SEMI; LBRACE; RBRACE; EOF]) = false.
Proof.
  intros H1 H2 H3 H4 H. apply bool_decide_eq_false_2. intros Hin.
  apply bool_decide_eq_true_1 in H.
  apply bool_decide_eq_false_1 in H1, H2, H3, H4.
  rewrite !elem_of_cons in Hin. rewrite elem_of_nil in Hin.
  destruct Hin as [->|[->|[->|[->|[]]]]]; done.
Qed.

Section OneElement.

Variable rec : bool -> Parser.P (list Element).
Variable fuel : nat.
Variable pending : option Token.
Variable t : Token.
Variable r : list Token.
Hypothesis Hfuel : (S (length r) < fuel)%nat.
Hypothesis Hrec : ok (length r) (rec false).

Lemma one_element_fuel : (length r < fuel)%nat.
Proof. lia. Qed.

Ltac elem_ok_head m :=
  lazymatch m with
  | Parser._parse_name_token => apply parse_name_token_ok
  | Parser._parse_identification => apply parse_identification_ok
  | Parser._eat_identification => apply eat_identification_ok
  | Parser._parse_qualified_name _ => apply parse_qualified_name_ok; exact one_element_fuel
  | Parser._parse_multiplicity _ => apply parse_multiplicity_ok; exact one_element_fuel
  | Parser._skip_block _ => apply skip_block_ok; exact one_element_fuel
  | Parser._skip_to_end _ _ _ => apply skip_to_end_ok; exact one_element_fuel
  | Parser._skip_expression _ => apply skip_expression_ok; exact one_element_fuel
  | Parser.prefix_modifiers_loop _ _ =>
      apply (prefix_modifiers_loop_ok _ _ one_element_fuel)
  | Parser._parse_element_tail _ _ _ =>
      apply (parse_element_tail_ok _ _ _ one_element_fuel Hrec)
  | Parser._parse_import _ _ _ _ => apply (parse_import_ok _ _ one_element_fuel)
  | Parser._parse_doc _ _ _ => apply parse_doc_ok
  | Parser._parse_comment_kw _ _ _ => apply (parse_comment_kw_ok _ _ one_element_fuel)
  | Parser._parse_require_or_assume _ _ _ _ =>
      apply (parse_require_or_assume_ok _ _ one_element_fuel)
  | Parser._parse_use_case _ _ _ _ _ _ =>
      apply (parse_use_case_ok _ _ _ one_element_fuel Hrec)
  | Parser.parse_parameter _ _ _ _ => apply (parse_parameter_ok _ _ one_element_fuel)
  | _ => ok_head m
  end.

Ltac elem_ok_step :=
  lazymatch goal with
  | |- ok _ ?m => first [ elem_ok_head m | assumption ]
  end.

Ltac elem_ok := repeat elem_ok_step.

Ltac elem_ok1_step :=
  lazymatch goal with
  | |- ok1 _ ?m =>
      lazymatch m with
      | Parser._advance => apply ok1_advance
      | Parser.bind _ _ => apply ok1_bind; [|intros ?]
      | Parser._parse_import _ _ _ _ => apply (parse_import_ok1 _ _ one_element_fuel)
      | Parser._parse_doc _ _ _ => apply parse_doc_ok1
      | Parser._parse_comment_kw _ _ _ => apply (parse_comment_kw_ok1 _ _ one_element_fuel)
      | Parser._parse_require_or_assume _ _ _ _ =>
          apply (parse_require_or_assume_ok1 _ _ one_element_fuel)
      | Parser._parse_use_case _ _ _ _ _ _ =>
          apply (parse_use_case_ok1 _ _ _ one_element_fuel Hrec)
      | Parser.parse_parameter _ _ _ _ => apply (parse_parameter_ok1 _ _ one_element_fuel)
      end
  end.

(** The rest of [_parse_element] after a token has been taken. *)
Ltac took :=
  apply runs_or_of_runs; apply runs_ok1; [|apply Nat.le_refl];
  repeat elem_ok1_step; elem_ok.

Ltac look :=
  eapply runs_or_bind_eq;
    [first [apply at_cons | apply cur_in_cons | reflexivity]|]; cbv beta.

Lemma parse_element_progress :
  runs_or (Parser._parse_element rec fuel pending) (t :: r) (length r)
    (stopped (t :: r)).
Proof.
  unfold Parser._parse_element.
  (* ; *)
  destruct (bool_decide (tok_type t ∈ [SEMI])) eqn:Esemi.
  { eapply runs_or_bind_eq; [by apply eat_true|]. cbn [is_some].
    apply runs_or_of_runs. by apply runs_ret. }
  eapply runs_or_bind_eq; [by apply eat_false|]. cbn [is_some].
  look. cbv zeta.
  (* visibility *)
  look. destruct (bool_decide (tok_type t ∈ Parser._VISIBILITY)) eqn:Evis.
  { took. }
  look.
  (* prefix modifiers *)
  destruct (bool_decide (tok_type t ∈ Parser._PREFIX_MODIFIERS)) eqn:Epre.
  { apply runs_or_of_runs. apply runs_bind.
    - by apply prefix_modifiers_loop_takes.
    - intros a. elem_ok. }
  eapply runs_or_bind_eq; [apply prefix_modifiers_loop_stays; [lia|done]|].
  cbv beta.
  (* stray specialisation lines *)
  look.
  destruct (bool_decide
              (tok_type t ∈ [COLON_GT_GT; COLON_COLON_GT; COLON_GT])) eqn:E1.
  { apply runs_or_of_runs. apply skip_to_end_takes; [done|exact Hfuel|].
    apply (not_stop_in_list [COLON_GT_GT; COLON_COLON_GT; COLON_GT]);
      [by vm_compute..|done]. }
  look. destruct (bool_decide (tok_type t ∈ [IMPORT])) eqn:E2; [took|].
  look. destruct (bool_decide (tok_type t ∈ [DOC])) eqn:E3; [took|].
  look. destruct (bool_decide (tok_type t ∈ [COMMENT])) eqn:E4; [took|].
  look. destruct (bool_decide (tok_type t ∈ [REQUIRE; ASSUME])) eqn:E5;
    [took|].
  look. destruct (bool_decide (tok_type t ∈ Parser._SEQUENCE_KEYWORDS)) eqn:E6;
    [took|].
  destruct (bool_decide (tok_type t ∈ [RETURN])) eqn:E7.
  { eapply runs_or_bind_eq; [by apply eat_true|]. cbn [is_some].
    apply runs_or_of_runs. apply runs_ok; [elem_ok|done]. }
  eapply runs_or_bind_eq; [by apply eat_false|]. cbn [is_some].
  (* direction *)
  look. destruct (bool_decide (tok_type t ∈ [IN; OUT; INOUT])) eqn:E8; [took|].
  look. cbv zeta. cbn [fst snd].
  (* use case *)
  look. look.
  destruct (bool_decide (tok_type t ∈ [USE]) && _) eqn:E9; [took|].
  look. destruct (bool_decide (tok_type t ∈ Parser._BODY_ONLY_KEYWORDS)) eqn:E10.
  { apply runs_or_of_runs. apply skip_to_end_takes; [done|exact Hfuel|].
    apply (not_stop_in Parser._BODY_ONLY_KEYWORDS); [by vm_compute..|done]. }
  look. destruct (bool_decide (tok_type t ∈ [AT_SIGN; AT_AT])) eqn:E11.
  { apply runs_or_of_runs. apply skip_to_end_takes; [done|exact Hfuel|].
    apply (not_stop_in_list [AT_SIGN; AT_AT]); [by vm_compute..|done]. }
  (* general element *)
  look. destruct (bool_decide (tok_type t ∈ Parser._ELEMENT_KEYWORDS)) eqn:E12;
    cbn [negb]; [took|].
  look. cbn [is_some andb].
  look. destruct (bool_decide (tok_type t ∈ [EOF; RBRACE])) eqn:E13;
    cbn [negb].
  - eapply runs_or_bind_eq; [reflexivity|]. apply runs_or_ret.
    split; [done|]. split; [done|]. cbn [cur_type].
    apply bool_decide_eq_true_1 in E13.
    rewrite !elem_of_cons, elem_of_nil in E13. tauto.
  - took.
Qed.

End OneElement.

(** ** The parser reads from left to right *)

Lemma drops_ret {A : Type} (a : A) : drops (Parser.ret a).
Proof. intros ts a' ts' [= _ <-]. done. Qed.

Lemma drops_out_of_fuel {A : Type} : drops (@Parser.out_of_fuel A).
Proof. intros ts a ts' H. discriminate. Qed.

Lemma drops_bind {A B : Type} (m : Parser.P A) (k : A -> Parser.P B) :
  drops m -> (forall a, drops (k a)) -> drops (Parser.bind m k).
Proof.
  intros Hm Hk ts b ts2. unfold Parser.bind.
  destruct (m ts) as [[a ts1]|] eqn:E; [|discriminate]. intros H.
  etrans; [by eapply Hk|by eapply Hm].
Qed.

Lemma drops_cur : drops Parser._cur.
Proof. intros ts a ts' [= _ <-]. done. Qed.

Lemma drops_peek : drops Parser._peek.
Proof. intros ts a ts' [= _ <-]. done. Qed.

Lemma drops_advance : drops Parser._advance.
Proof.
  intros [|t r] a ts' [= _ <-]; [done|]. by apply suffix_cons_r.
Qed.

Lemma drops_at types : drops (Parser._at types).
Proof.
  unfold Parser._at. apply drops_bind; [apply drops_cur|]. intros a.
  apply drops_ret.
Qed.

Lemma drops_cur_in S : drops (Parser.cur_in S).
Proof.
  unfold Parser.cur_in. apply drops_bind; [apply drops_cur|]. intros a.
  apply drops_ret.
Qed.

Lemma drops_eat types : drops (Parser._eat types).
Proof.
  unfold Parser._eat. apply drops_bind; [apply drops_at|]. intros [|].
  - apply drops_bind; [apply drops_advance|]. intros a. apply drops_ret.
  - apply drops_ret.
Qed.

Ltac drop_head m :=
  lazymatch m with
  | Parser.bind _ _ => apply drops_bind; [|intros ?]
  | Parser.ret _ => apply drops_ret
  | Parser.out_of_fuel => apply drops_out_of_fuel
  | Parser._at _ => apply drops_at
  | Parser._eat _ => apply drops_eat
  | Parser._advance => apply drops_advance
  | Parser._cur => apply drops_cur
  | Parser._peek => apply drops_peek
  | Parser.cur_in _ => apply drops_cur_in
  | (let _ := _ in _) => cbv zeta
  | (if ?b then _ else _) => destruct b
  | (match ?x with _ => _ end) => destruct x
  end.

Ltac drop_step :=
  lazymatch goal with
  | |- drops ?m => first [ drop_head m | assumption ]
  end.

Ltac drop_loop IH := repeat first [ apply IH | drop_step ].

Lemma parse_name_token_drops : drops Parser._parse_name_token.
Proof. unfold Parser._parse_name_token. repeat drop_step. Qed.

Lemma parse_identification_drops : drops Parser._parse_identification.
Proof.
  unfold Parser._parse_identification.
  repeat first [ apply parse_name_token_drops | drop_step ].
Qed.

Lemma eat_identification_drops : drops Parser._eat_identification.
Proof.
  unfold Parser._eat_identification.
  repeat first [ apply parse_identification_drops | drop_step ].
Qed.

Lemma qualified_name_loop_drops fuel :
  forall parts, drops (Parser.qualified_name_loop fuel parts).
Proof.
  induction fuel as [|fuel IH]; intros parts; [apply drops_out_of_fuel|].
  cbn [Parser.qualified_name_loop].
  repeat first [ apply IH | apply parse_name_token_drops | drop_step ].
Qed.

Lemma parse_qualified_name_drops fuel :
  drops (Parser._parse_qualified_name fuel).
Proof.
  unfold Parser._parse_qualified_name.
  repeat first [ apply qualified_name_loop_drops | apply parse_name_token_drops
               | drop_step ].
Qed.

Lemma multiplicity_loop_drops fuel :
  forall parts, drops (Parser.multiplicity_loop fuel parts).
Proof.
  induction fuel as [|fuel IH]; intros parts; [apply drops_out_of_fuel|].
  cbn [Parser.multiplicity_loop]. drop_loop IH.
Qed.

Lemma parse_multiplicity_drops fuel : drops (Parser._parse_multiplicity fuel).
Proof.
  unfold Parser._parse_multiplicity.
  repeat first [ apply multiplicity_loop_drops | drop_step ].
Qed.

Lemma skip_block_loop_drops fuel :
  forall depth, drops (Parser.skip_block_loop fuel depth).
Proof.
  induction fuel as [|fuel IH]; intros depth; [apply drops_out_of_fuel|].
  cbn [Parser.skip_block_loop]. drop_loop IH.
Qed.

Lemma skip_block_drops fuel : drops (Parser._skip_block fuel).
Proof. apply skip_block_loop_drops. Qed.

Lemma skip_to_end_loop_drops fuel : drops (Parser.skip_to_end_loop fuel).
Proof.
  induction fuel as [|fuel IH]; [apply drops_out_of_fuel|].
  cbn [Parser.skip_to_end_loop]. drop_loop IH.
Qed.

Lemma skip_to_end_drops fuel l c : drops (Parser._skip_to_end fuel l c).
Proof.
  unfold Parser._skip_to_end.
  repeat first [ apply skip_to_end_loop_drops | apply skip_block_drops
               | drop_step ].
Qed.

Lemma skip_expression_loop_drops fuel :
  forall depth, drops (Parser.skip_expression_loop fuel depth).
Proof.
  induction fuel as [|fuel IH]; intros depth; [apply drops_out_of_fuel|].
  cbn [Parser.skip_expression_loop]. drop_loop IH.
Qed.

Lemma skip_expression_drops fuel : drops (Parser._skip_expression fuel).
Proof. apply skip_expression_loop_drops. Qed.

Lemma specializes_loop_drops fuel n :
  forall specs, drops (Parser.specializes_loop fuel n specs).
Proof.
  induction n as [|n IH]; intros specs; [apply drops_out_of_fuel|].
  cbn [Parser.specializes_loop].
  repeat first [ apply IH | apply parse_qualified_name_drops | drop_step ].
Qed.

Lemma import_path_loop_drops n :
  forall parts, drops (Parser.import_path_loop n parts).
Proof.
  induction n as [|n IH]; intros parts; [apply drops_out_of_fuel|].
  cbn [Parser.import_path_loop].
  repeat first [ apply IH | apply parse_name_token_drops | drop_step ].
Qed.

Lemma about_loop_drops fuel n : drops (Parser.about_loop fuel n).
Proof.
  induction n as [|n IH]; [apply drops_out_of_fuel|].
  cbn [Parser.about_loop].
  repeat first [ apply IH | apply parse_qualified_name_drops | drop_step ].
Qed.

Lemma prefix_modifiers_loop_drops n :
  forall mods, drops (Parser.prefix_modifiers_loop n mods).
Proof.
  induction n as [|n IH]; intros mods; [apply drops_out_of_fuel|].
  cbn [Parser.prefix_modifiers_loop]. drop_loop IH.
Qed.

Lemma pending_comment_loop_drops n :
  forall pending, drops (Parser.pending_comment_loop n pending).
Proof.
  induction n as [|n IH]; intros pending; [apply drops_out_of_fuel|].
  cbn [Parser.pending_comment_loop]. drop_loop IH.
Qed.

Section ElementsDrop.

Variable rec : bool -> Parser.P (list Element).
Variable fuel : nat.
Hypothesis Hrec : forall tl, drops (rec tl).

Ltac sub_drop_head m :=
  lazymatch m with
  | Parser._parse_name_token => apply parse_name_token_drops
  | Parser._parse_identification => apply parse_identification_drops
  | Parser._eat_identification => apply eat_identification_drops
  | Parser._parse_qualified_name _ => apply parse_qualified_name_drops
  | Parser._parse_multiplicity _ => apply parse_multiplicity_drops
  | Parser._skip_block _ => apply skip_block_drops
  | Parser._skip_to_end _ _ _ => apply skip_to_end_drops
  | Parser._skip_expression _ => apply skip_expression_drops
  | Parser.specializes_loop _ _ _ => apply specializes_loop_drops
  | Parser.import_path_loop _ _ => apply import_path_loop_drops
  | Parser.about_loop _ _ => apply about_loop_drops
  | Parser.prefix_modifiers_loop _ _ => apply prefix_modifiers_loop_drops
  | rec _ => apply Hrec
  | _ => drop_head m
  end.

Ltac sub_drop :=
  repeat lazymatch goal with
  | |- drops ?m => first [ sub_drop_head m | assumption ]
  end.

Lemma parse_element_tail_drops elem :
  drops (Parser._parse_element_tail rec fuel elem).
Proof. unfold Parser._parse_element_tail. sub_drop. Qed.

Lemma parse_import_drops l c mods : drops (Parser._parse_import fuel l c mods).
Proof. unfold Parser._parse_import. sub_drop. Qed.

Lemma parse_doc_drops l c pending : drops (Parser._parse_doc l c pending).
Proof. unfold Parser._parse_doc. sub_drop. Qed.

Lemma parse_comment_kw_drops l c : drops (Parser._parse_comment_kw fuel l c).
Proof. unfold Parser._parse_comment_kw. sub_drop. Qed.

Lemma parse_require_or_assume_drops l c mods :
  drops (Parser._parse_require_or_assume fuel l c mods).
Proof. unfold Parser._parse_require_or_assume. sub_drop. Qed.

Lemma parse_use_case_drops l c mods pending :
  drops (Parser._parse_use_case rec fuel l c mods pending).
Proof.
  unfold Parser._parse_use_case.
  repeat lazymatch goal with
  | |- drops (Parser._parse_element_tail _ _ _) =>
      apply parse_element_tail_drops
  | |- drops ?m => first [ sub_drop_head m | assumption ]
  end.
Qed.

Lemma parse_parameter_drops l c mods :
  drops (Parser.parse_parameter fuel l c mods).
Proof. unfold Parser.parse_parameter. sub_drop. Qed.

Lemma parse_element_drops pending :
  drops (Parser._parse_element rec fuel pending).
Proof.
  unfold Parser._parse_element.
  repeat lazymatch goal with
  | |- drops (Parser._parse_element_tail _ _ _) =>
      apply parse_element_tail_drops
  | |- drops (Parser._parse_import _ _ _ _) => apply parse_import_drops
  | |- drops (Parser._parse_doc _ _ _) => apply parse_doc_drops
  | |- drops (Parser._parse_comment_kw _ _ _) => apply parse_comment_kw_drops
  | |- drops (Parser._parse_require_or_assume _ _ _ _) =>
      apply parse_require_or_assume_drops
  | |- drops (Parser._parse_use_case _ _ _ _ _ _) =>
      apply parse_use_case_drops
  | |- drops (Parser.parse_parameter _ _ _ _) => apply parse_parameter_drops
  | |- drops ?m => first [ sub_drop_head m | assumption ]
  end.
Qed.

End ElementsDrop.

Lemma parse_body_loop_drops fuel :
  forall tl elements, drops (Parser.parse_body_loop fuel tl elements).
Proof.
  induction fuel as [|fuel IH]; intros tl elements; [apply drops_out_of_fuel|].
  cbn [Parser.parse_body_loop]. unfold Parser.parse_body_step.
  repeat lazymatch goal with
  | |- drops (Parser.pending_comment_loop _ _) =>
      apply pending_comment_loop_drops
  | |- drops (Parser._parse_element _ _ _) =>
      apply parse_element_drops; intros tl'; apply IH
  | |- drops (Parser.parse_body_loop _ _ _) => apply IH
  | |- drops ?m => first [ drop_head m | assumption ]
  end.
Qed.

(** ** Bodies *)

Lemma at_any types ts :
  Parser._at types ts = Some (bool_decide (cur_type ts ∈ types), ts).
Proof. by destruct ts. Qed.

Lemma cur_type_nonempty ts :
  cur_type ts <> EOF -> exists t r, ts = t :: r.
Proof. destruct ts as [|t r]; [done|]. intros _. by exists t, r. Qed.

(** A nested body always returns. *)
Lemma parse_body_loop_nested fuel :
  forall ts elements, (length ts + 2 <= fuel)%nat ->
    runs (Parser.parse_body_loop fuel false elements) ts (length ts).
Proof.
  induction fuel as [|fuel IH]; intros ts elements H; [lia|].
  cbn [Parser.parse_body_loop]. unfold Parser.parse_body_step.
  eapply runs_bind_eq; [apply at_any|].
  destruct (bool_decide (cur_type ts ∈ [EOF])) eqn:E1; [by apply runs_ret|].
  eapply runs_bind_eq; [apply at_any|]. cbn [negb andb].
  destruct (bool_decide (cur_type ts ∈ [RBRACE])) eqn:E2;
    [by apply runs_ret|].
  destruct (pending_comment_loop_runs fuel ts None ltac:(lia))
    as (p & ts1 & Ep & H1).
  eapply runs_bind_eq; [exact Ep|].
  eapply runs_bind_eq; [apply at_any|].
  destruct (bool_decide (cur_type ts1 ∈ [EOF])) eqn:E3; [by apply runs_ret|].
  eapply runs_bind_eq; [apply at_any|].
  destruct (bool_decide (cur_type ts1 ∈ [RBRACE])) eqn:E4;
    [by apply runs_ret|].
  destruct ts1 as [|t1 r1]; [by vm_compute in E3|]. cbn [length] in H1.
  assert (ok (length r1) (Parser.parse_body_loop fuel false [])) as Hrec.
  { apply ok_weaken. intros ts' H'. apply IH. lia. }
  destruct (parse_element_progress
              (fun tl => Parser.parse_body_loop fuel tl []) fuel p t1 r1
              ltac:(lia) Hrec) as (a & ts2 & Ee & [H2|(-> & -> & Hs)]).
  - eapply runs_bind_eq; [exact Ee|].
    eapply runs_weaken; [apply IH; lia|lia].
  - exfalso. cbn [cur_type] in *.
    apply bool_decide_eq_false_1 in E3, E4.
    rewrite list_elem_of_singleton in E3, E4. tauto.
Qed.

(** ** The top level *)

Lemma top_iteration fuel ts elements p ts1 :
  bool_decide (cur_type ts ∈ [EOF]) = false ->
  Parser.pending_comment_loop fuel None ts = Some (p, ts1) ->
  Parser.parse_body_loop (S fuel) true elements ts
  = if bool_decide (cur_type ts1 ∈ [EOF]) then Some (elements, ts1)
    else
      match Parser._parse_element
              (fun tl => Parser.parse_body_loop fuel tl []) fuel p ts1 with
      | Some (a, ts2) =>
          Parser.parse_body_loop fuel true
            (match a with Some e => elements ++ [e] | None => elements end)
            ts2
      | None => None
      end.
Proof.
  intros E1 Ep. cbn [Parser.parse_body_loop]. unfold Parser.parse_body_step.
  unfold Parser.bind at 1. rewrite at_any, E1.
  unfold Parser.bind at 1. rewrite at_any. cbn [negb andb].
  unfold Parser.bind at 1. rewrite Ep.
  unfold Parser.bind at 1. rewrite at_any.
  destruct (bool_decide (cur_type ts1 ∈ [EOF])); [done|].
  unfold Parser.bind at 1. rewrite at_any. cbn [negb andb].
  unfold Parser.bind at 1. by destruct (Parser._parse_element _ _ _ _).
Qed.

Lemma top_at_end fuel ts elements :
  bool_decide (cur_type ts ∈ [EOF]) = true ->
  Parser.parse_body_loop (S fuel) true elements ts = Some (elements, ts).
Proof.
  intros E1. cbn [Parser.parse_body_loop]. unfold Parser.parse_body_step.
  unfold Parser.bind at 1. by rewrite at_any, E1.
Qed.

Lemma pending_comment_loop_stays fuel pending t r :
  tok_type t = RBRACE ->
  Parser.pending_comment_loop (S fuel) pending (t :: r)
  = Some (pending, t :: r).
Proof.
  intros E. cbn [Parser.pending_comment_loop]. unfold Parser.bind.
  rewrite at_cons, E. reflexivity.
Qed.

Lemma parse_element_at_closing_brace rec fuel pending t r :
  tok_type t = RBRACE ->
  Parser._parse_element rec (S fuel) pending (t :: r) = Some (None, t :: r).
Proof.
  destruct t as [ty v l c]. cbn [tok_type]. intros ->. by vm_compute.
Qed.

(** A closing brace at the top level is never taken: the loop turns on
    it for ever. *)
Lemma stuck_for_ever fuel :
  forall elements t r,
    tok_type t = RBRACE ->
    Parser.parse_body_loop fuel true elements (t :: r) = None.
Proof.
  induction fuel as [|fuel IH]; intros elements t r E; [done|].
  destruct fuel as [|fuel].
  { destruct t as [ty v l c]. cbn [tok_type] in E. subst ty.
    by vm_compute. }
  rewrite (top_iteration _ _ _ None (t :: r)).
  - cbn [cur_type]. rewrite E.
    replace (bool_decide (RBRACE ∈ [EOF])) with false by (by vm_compute).
    rewrite parse_element_at_closing_brace by exact E. by apply IH.
  - cbn [cur_type]. rewrite E. by vm_compute.
  - by apply pending_comment_loop_stays.
Qed.

(** The result of a computation does not depend on the fuel. *)
Lemma none_for_all_fuel {A : Type} (F : nat -> Parser.P A) ts bound :
  (forall f f', (f <= f')%nat -> extends (F f) (F f')) ->
  (forall f, (bound <= f)%nat -> F f ts = None) ->
  forall f, F f ts = None.
Proof.
  intros Hmono Hnone f. destruct (F f ts) as [x|] eqn:E; [|done].
  assert (F (max f bound) ts = Some x) as E'
    by (eapply Hmono; [|exact E]; lia).
  rewrite Hnone in E' by lia. discriminate.
Qed.

Lemma top_level_outcome (n : nat) :
  forall ts, (length ts <= n)%nat -> forall elements,
    (exists res, forall fuel, (length ts + 2 <= fuel)%nat ->
       Parser.parse_body_loop fuel true elements ts = Some res)
    \/ ((forall fuel, Parser.parse_body_loop fuel true elements ts = None)
        /\ exists t, In t ts /\ tok_type t = RBRACE).
Proof.
  induction n as [|n IH]; intros ts Hn elements.
  { destruct ts; [|cbn in Hn; lia]. left. exists (elements, []).
    intros [|fuel] H; [lia|]. by apply top_at_end. }
  destruct (bool_decide (cur_type ts ∈ [EOF])) eqn:E1.
  { left. exists (elements, ts). intros [|fuel] H; [lia|].
    by apply top_at_end. }
  destruct (pending_comment_loop_runs (S (length ts)) ts None ltac:(lia))
    as (p & ts1 & Ep & H1).
  assert (forall f, (S (length ts) <= f)%nat ->
            Parser.pending_comment_loop f None ts = Some (p, ts1)) as Ep'.
  { intros f Hf. by eapply pending_comment_loop_mono; [|exact Ep]. }
  assert (suffix ts1 ts) as S1 by (by eapply pending_comment_loop_drops).
  destruct (bool_decide (cur_type ts1 ∈ [EOF])) eqn:E3.
  { left. exists (elements, ts1). intros [|fuel] H; [lia|].
    rewrite (top_iteration _ _ _ p ts1); [by rewrite E3|done|].
    apply Ep'. lia. }
  destruct ts1 as [|t1 r1]; [by vm_compute in E3|]. cbn [length] in H1.
  assert (forall f, (S (length ts) <= f)%nat ->
            ok (length r1) (Parser.parse_body_loop f false [])) as Hrec.
  { intros f Hf. apply ok_weaken. intros ts' H'.
    apply parse_body_loop_nested. lia. }
  assert (S (length r1) < S (length ts))%nat as Hlt by lia.
  destruct (parse_element_progress
              (fun tl => Parser.parse_body_loop (S (length ts)) tl [])
              (S (length ts)) p t1 r1 Hlt
              (Hrec (S (length ts)) (Nat.le_refl _)))
    as (a & ts2 & Ee & He).
  assert (forall f, (S (length ts) <= f)%nat ->
            Parser._parse_element
              (fun tl => Parser.parse_body_loop f tl []) f p (t1 :: r1)
            = Some (a, ts2)) as Ee'.
  { intros f Hf. eapply parse_element_mono; [|exact Hf|exact Ee].
    intros tl. by apply parse_body_loop_mono. }
  assert (suffix ts2 (t1 :: r1)) as S2.
  { eapply parse_element_drops; [|exact Ee].
    intros tl. apply parse_body_loop_drops. }
  set (elements' :=
         match a with Some e => elements ++ [e] | None => elements end).
  assert (forall f, (S (length ts) <= f)%nat ->
            Parser.parse_body_loop (S f) true elements ts
            = Parser.parse_body_loop f true elements' ts2) as Hstep.
  { intros f Hf. rewrite (top_iteration _ _ _ p (t1 :: r1)); [|done|by apply Ep'].
    by rewrite E3, (Ee' f Hf). }
  destruct He as [H2|(-> & Ha & Hs)].
  - (* the element took a token *)
    destruct (IH ts2 ltac:(lia) elements') as [[res Hres]|[Hnone Hin]].
    + left. exists res. intros [|fuel] H; [lia|].
      rewrite Hstep by lia. apply Hres. lia.
    + right. split.
      * apply (none_for_all_fuel
                 (fun f => Parser.parse_body_loop f true elements) ts
                 (S (S (length ts)))).
        { intros f f' Hf. by apply parse_body_loop_mono. }
        intros [|f] Hf; [lia|]. rewrite Hstep by lia. apply Hnone.
      * destruct Hin as (t & Ht & Hty). exists t. split; [|exact Hty].
        apply list_elem_of_In. apply list_elem_of_In in Ht.
        eapply elem_of_suffix; [exact Ht|]. by etrans.
  - (* a closing brace *)
    assert (tok_type t1 = RBRACE) as Hb.
    { cbn [cur_type] in *. destruct Hs as [Hs|Hs]; [|exact Hs].
      rewrite Hs in E3. by vm_compute in E3. }
    right. split.
    + apply (none_for_all_fuel
               (fun f => Parser.parse_body_loop f true elements) ts
               (S (S (length ts)))).
      { intros f f' Hf. by apply parse_body_loop_mono. }
      intros [|f] Hf; [lia|]. rewrite Hstep by lia.
      by apply stuck_for_ever.
    + exists t1. split; [|exact Hb]. apply list_elem_of_In.
      eapply elem_of_suffix; [|exact S1]. by left.
Qed.

Lemma body_outcome (tokens : list Token) :
  (exists res, forall fuel, (length tokens + 2 <= fuel)%nat ->
     Parser._parse_body fuel true (Parser.init tokens) = Some res)
  \/ ((forall fuel, Parser._parse_body fuel true (Parser.init tokens) = None)
      /\ exists t, In t tokens /\ tok_type t = RBRACE).
Proof.
  assert (length (Parser.init tokens) <= length tokens)%nat as Hl.
  { unfold Parser.init. apply length_filter. }
  destruct (top_level_outcome _ (Parser.init tokens) (Nat.le_refl _) [])
    as [[res Hres]|[Hnone (t & Ht & Hty)]].
  - left. exists res. intros fuel Hf. apply Hres. lia.
  - right. split; [exact Hnone|].
    exists t. split; [|exact Hty]. unfold Parser.init in Ht.
    apply list_elem_of_In, list_elem_of_filter in Ht as [_ Ht].
    by apply list_elem_of_In.
Qed.

(* ===================================================================== *)
(** * Tokens that start nothing *)
(* ===================================================================== *)

Lemma parse_element_skips rec fuel pending t r :
  starts_nothing (tok_type t) = true ->
  Parser._parse_element rec (S fuel) pending (t :: r) = Some (None, r).
Proof.
  destruct t as [ty v l c]. cbn [tok_type]. intros H.
  destruct ty; vm_compute in H; try discriminate H; clear H;
    vm_compute; reflexivity.
Qed.

Lemma pending_comment_loop_stops fuel :
  forall pending ts p ts1,
    Parser.pending_comment_loop fuel pending ts = Some (p, ts1) ->
    cur_type ts1 <> BLOCK_COMMENT.
Proof.
  induction fuel as [|fuel IH]; intros pending ts p ts1 H; [discriminate|].
  cbn [Parser.pending_comment_loop] in H. unfold Parser.bind in H.
  rewrite at_any in H.
  destruct (bool_decide (cur_type ts ∈ [BLOCK_COMMENT])) eqn:E.
  - unfold Parser._advance in H. destruct ts as [|t r]; by eapply IH.
  - injection H as <- <-. apply bool_decide_eq_false_1 in E.
    by rewrite list_elem_of_singleton in E.
Qed.

Lemma no_trace_loop (n : nat) :
  forall ts fuel,
    (length ts <= n)%nat -> (length ts + 2 <= fuel)%nat ->
    List.Forall (fun t => leaves_no_trace (tok_type t) = true) ts ->
    exists rest, Parser.parse_body_loop fuel true [] ts = Some ([], rest).
Proof.
  induction n as [|n IH]; intros ts fuel Hn Hf Hall.
  { destruct ts; [|cbn in Hn; lia]. destruct fuel as [|fuel]; [lia|].
    exists []. by apply top_at_end. }
  destruct fuel as [|fuel]; [lia|].
  destruct (bool_decide (cur_type ts ∈ [EOF])) eqn:E1.
  { exists ts. by apply top_at_end. }
  destruct (pending_comment_loop_runs fuel ts None ltac:(lia))
    as (p & ts1 & Ep & H1).
  pose proof (pending_comment_loop_stops _ _ _ _ _ Ep) as Hstop.
  assert (suffix ts1 ts) as S1 by (by eapply pending_comment_loop_drops).
  rewrite (top_iteration _ _ _ p ts1 E1 Ep).
  destruct (bool_decide (cur_type ts1 ∈ [EOF])) eqn:E3; [by exists ts1|].
  destruct ts1 as [|t1 r1]; [by vm_compute in E3|].
  cbn [cur_type length] in *.
  assert (leaves_no_trace (tok_type t1) = true) as Ht.
  { rewrite List.Forall_forall in Hall. apply Hall.
    apply list_elem_of_In. eapply elem_of_suffix; [|exact S1]. by left. }
  assert (starts_nothing (tok_type t1) = true) as Hs.
  { unfold leaves_no_trace in Ht. apply orb_true_iff in Ht as [Ht|Ht];
      [exact Ht|].
    apply bool_decide_eq_true_1 in Ht. apply bool_decide_eq_false_1 in E3.
    exfalso. rewrite !elem_of_cons, elem_of_nil in Ht.
    rewrite list_elem_of_singleton in E3. tauto. }
  destruct fuel as [|fuel]; [lia|].
  rewrite (parse_element_skips _ _ _ _ _ Hs).
  apply IH; [lia|lia|].
  rewrite List.Forall_forall in *. intros t Ht'. apply Hall.
  apply list_elem_of_In. apply list_elem_of_In in Ht'.
  eapply elem_of_suffix; [|exact S1]. by right.
Qed.

(** X15: tokens that start nothing leave nothing: a token list that holds
    only comments, semicolons, end-of-stream tokens and tokens with which
    no construct begins - identifiers, literals and the operators other
    than [:>], [:>>], [::>], [@] and [@@] among them - is parsed to a file
    without elements, each such token being skipped by itself. *)
Theorem X15_tokens_that_start_nothing_are_skipped (tokens : list Token)
  (fname : string) (fuel : nat) :
  List.Forall (fun t => leaves_no_trace (tok_type t) = true) tokens ->
  (length tokens + 2 <= fuel)%nat ->
  Parser.parse fuel tokens fname = Some (mkFile fname []).
Proof.
  intros Hall Hf.
  assert (length (Parser.init tokens) <= length tokens)%nat as Hl.
  { unfold Parser.init. apply length_filter. }
  destruct (no_trace_loop _ (Parser.init tokens) fuel (Nat.le_refl _))
    as [rest E]; [lia| |].
  - rewrite List.Forall_forall in *. intros t Ht. apply Hall.
    unfold Parser.init in Ht.
    apply list_elem_of_In, list_elem_of_filter in Ht as [_ Ht].
    by apply list_elem_of_In.
  - unfold Parser.parse, Parser._parse_body. by rewrite E.
Qed.

Lemma X15_scrap_witness :
  Lexer.tokenize "x + 1; /* note */ 'y' ;" = Some scrap_tokens
  /\ Parser.parse 10 scrap_tokens "f.sysml" = Some (mkFile "f.sysml" []).
Proof.
  split; [by vm_compute|].
  apply X15_tokens_that_start_nothing_are_skipped.
  - repeat constructor.
  - cbn. lia.
Defined.

(* ===================================================================== *)
(** * Closing braces come from the text *)
(* ===================================================================== *)

Lemma table_lacks (ty : TokenType) (m : gmap string TokenType) :
  forallb (fun p => negb (bool_decide (p.2 = ty))) (map_to_list m) = true ->
  forall v ty', m !! v = Some ty' -> ty' <> ty.
Proof.
  intros Hall v ty' H ->.
  apply elem_of_map_to_list in H. apply list_elem_of_In in H.
  rewrite forallb_forall in Hall. specialize (Hall _ H). cbn in Hall.
  rewrite bool_decide_eq_true_2 in Hall by reflexivity. discriminate.
Qed.

Lemma keyword_not_closing_brace v ty : KEYWORDS !! v = Some ty -> ty <> RBRACE.
Proof. apply table_lacks. vm_compute. reflexivity. Qed.

Lemma single_closing_brace s :
  Lexer._SINGLE !! s = Some RBRACE -> s = "}".
Proof.
  intros H. apply elem_of_map_to_list, list_elem_of_In in H.
  revert H. set (l := map_to_list Lexer._SINGLE). vm_compute in l. subst l.
  cbn [In]. intros H.
  repeat (destruct H as [H|H]; [by inversion H|]). done.
Qed.

Lemma lex_number_type l c lx :
  tok_type (Lexer._lex_number l c lx).1 <> RBRACE.
Proof.
  unfold Lexer._lex_number.
  repeat match goal with
  | |- context [if ?b then _ else _] => destruct b
  | |- context [match ?o with Some _ => _ | None => _ end] => destruct o
  end; cbn; discriminate.
Qed.

Lemma lex_operator_closing_brace ch l c lx :
  tok_type (Lexer.lex_operator ch l c lx).1 = RBRACE ->
  tok_value (Lexer.lex_operator ch l c lx).1 = "}".
Proof.
  unfold Lexer.lex_operator.
  repeat match goal with
  | |- context [if ?b then _ else _] => destruct b
  end; try (cbn; discriminate).
  destruct (Lexer._SINGLE !! Lexer.str1 ch) as [ty|] eqn:E;
    cbn [fst tok_type tok_value]; [|discriminate].
  intros ->. by apply single_closing_brace.
Qed.

Lemma token_at_closing_brace lx :
  tok_type (Lexer.token_at lx).1 = RBRACE ->
  tok_value (Lexer.token_at lx).1 = "}".
Proof.
  unfold Lexer.token_at. destruct (Lexer._ch lx) as [ch|]; [|cbn; discriminate].
  repeat match goal with
  | |- context [if ?b then _ else _] => destruct b
  end; try (cbn; discriminate).
  - cbn [fst tok_type]. intros H. exfalso.
    destruct (KEYWORDS !! _) as [ty|] eqn:E; cbn [default] in H;
      [by eapply keyword_not_closing_brace|discriminate].
  - intros H. by apply lex_number_type in H.
  - intros H. by apply lex_number_type in H.
  - apply lex_operator_closing_brace.
Qed.

Lemma tokenize_loop_closing_braces fuel :
  forall lx acc tokens,
    Lexer.tokenize_loop fuel lx acc = Some tokens ->
    List.Forall (fun t => tok_type t = RBRACE -> tok_value t = "}") acc ->
    List.Forall (fun t => tok_type t = RBRACE -> tok_value t = "}") tokens
    /\ (length tokens <= length acc + fuel)%nat.
Proof.
  induction fuel as [|fuel IH]; intros lx acc tokens H Hacc; [discriminate|].
  cbn [Lexer.tokenize_loop] in H. unfold Lexer._next_token in H.
  pose proof (token_at_closing_brace (Lexer._skip_whitespace lx)) as Hb.
  destruct (Lexer.token_at (Lexer._skip_whitespace lx)) as [tok lx'].
  cbn [fst] in Hb.
  assert (List.Forall (fun t => tok_type t = RBRACE -> tok_value t = "}")
            (acc ++ [tok])) as Hacc'.
  { apply List.Forall_app. split; [exact Hacc|]. by repeat constructor. }
  destruct (bool_decide (tok_type tok = EOF)).
  - injection H as <-. split; [exact Hacc'|]. rewrite length_app. cbn. lia.
  - destruct (IH _ _ _ H Hacc') as [H1 H2]. split; [exact H1|].
    rewrite length_app in H2. cbn in H2. lia.
Qed.

Lemma has_char_app c (a b : string) :
  has_char c (a +:+ b) = has_char c a || has_char c b.
Proof.
  induction a as [|x a IH]; [done|].
  rewrite append_cons. cbn [has_char]. by rewrite IH, orb_assoc.
Qed.

Lemma spells_has_char c tokens :
  forall text l0 c0 t,
    spells tokens text l0 c0 -> In t tokens ->
    has_char c (tok_value t) = true -> has_char c text = true.
Proof.
  induction tokens as [|t0 rest IH]; intros text l0 c0 t Hs Hin Hc; [done|].
  cbn [spells] in Hs. destruct Hs as (gap & tail & -> & _ & _ & Hs).
  rewrite !has_char_app. destruct Hin as [->|Hin].
  - rewrite Hc. by rewrite orb_true_r.
  - destruct (position_after _ _ _) as [l1 c1].
    rewrite (IH _ _ _ _ Hs Hin Hc). by rewrite !orb_true_r.
Qed.

(* ===================================================================== *)
(** * The names the naming rule suggests *)
(* ===================================================================== *)

Ltac each_char c :=
  destruct c as [[] [] [] [] [] [] [] []]; try discriminate; vm_compute;
  try reflexivity.

Lemma title_chr_alnum c :
  ascii_alnum c = true -> all_chars ascii_alnum (Py.title_chr c) = true.
Proof. intros H. revert H. each_char c. Qed.

Lemma title_chr_letter c :
  ascii_letter c = true ->
  exists u, Py.title_chr c = String u "" /\ NamingRule.is_AZ u = true.
Proof.
  intros H. revert H.
  destruct c as [[] [] [] [] [] [] [] []]; try discriminate;
    intros _; eexists; split; reflexivity.
Qed.

Lemma lower_chr_alnum c :
  ascii_alnum c = true -> ascii_alnum (Py.lower_chr c) = true.
Proof. intros H. revert H. each_char c. Qed.

Lemma lower_chr_letter c :
  ascii_letter c = true -> NamingRule.is_az (Py.lower_chr c) = true.
Proof. intros H. revert H. each_char c. Qed.

Lemma alnum_no_sep c :
  ascii_alnum c = true -> NamingRule.is_word_sep c = false.
Proof. intros H. revert H. each_char c. Qed.

Lemma ident_char_cases c :
  ident_char c = true ->
  ascii_alnum c = true \/ NamingRule.is_word_sep c = true.
Proof.
  unfold ident_char. intros [H|H]%orb_true_iff; [by left|right].
  apply chr_eq_true in H. by subst c.
Qed.

Lemma all_chars_app p (a b : string) :
  all_chars p (a +:+ b) = all_chars p a && all_chars p b.
Proof.
  induction a as [|x a IH]; [done|].
  rewrite append_cons. cbn [all_chars]. by rewrite IH, andb_assoc.
Qed.

Lemma lower_alnum s :
  all_chars ascii_alnum s = true -> all_chars ascii_alnum (Py.lower s) = true.
Proof.
  induction s as [|c s IH]; [done|]. cbn [all_chars Py.lower].
  intros [H1 H2]%andb_true_iff. by rewrite lower_chr_alnum, IH.
Qed.

Lemma capitalize_alnum s :
  all_chars ascii_alnum s = true ->
  all_chars ascii_alnum (Py.capitalize s) = true.
Proof.
  destruct s as [|c s]; [done|]. cbn [all_chars Py.capitalize].
  intros [H1 H2]%andb_true_iff.
  by rewrite all_chars_app, title_chr_alnum, lower_alnum.
Qed.

Lemma join_cons (x : string) (l : list string) :
  Py.join "" (x :: l) = x +:+ Py.join "" l.
Proof.
  unfold Py.join. destruct l as [|y l]; cbn [String.concat].
  - by rewrite append_nil_r.
  - by rewrite append_nil_l.
Qed.

Lemma join_alnum (l : list string) :
  List.Forall (fun w => all_chars ascii_alnum w = true) l ->
  all_chars ascii_alnum (Py.join "" l) = true.
Proof.
  induction 1 as [|x l Hx _ IH]; [done|].
  by rewrite join_cons, all_chars_app, Hx, IH.
Qed.

Lemma capitalized_words_alnum (l : list string) :
  List.Forall (fun w => all_chars ascii_alnum w = true) l ->
  all_chars ascii_alnum
    (Py.join "" (map Py.capitalize (List.filter NamingRule.nonempty l)))
  = true.
Proof.
  intros H. apply join_alnum. apply List.Forall_forall. intros w Hw.
  apply in_map_iff in Hw as (w' & <- & Hw').
  apply filter_In in Hw' as [Hw' _]. apply capitalize_alnum.
  rewrite List.Forall_forall in H. by apply H.
Qed.

Lemma snoc_alnum cur c :
  all_chars ascii_alnum cur = true -> ascii_alnum c = true ->
  all_chars ascii_alnum (Py.snoc cur c) = true.
Proof.
  intros H1 H2. unfold Py.snoc. rewrite all_chars_app, H1. cbn.
  by rewrite H2.
Qed.

(** The words of an identifier hold letters and digits only; the first
    word begins with what was read before the first separator. *)
Lemma re_split_go_words s :
  forall insep cur,
    all_chars ident_char s = true ->
    all_chars ascii_alnum cur = true ->
    List.Forall (fun w => all_chars ascii_alnum w = true)
      (Py.re_split_go NamingRule.is_word_sep insep s cur).
Proof.
  induction s as [|c s IH]; intros insep cur Hs Hcur.
  - by repeat constructor.
  - cbn [all_chars] in Hs. apply andb_true_iff in Hs as [Hc Hs].
    cbn [Py.re_split_go].
    destruct (ident_char_cases c Hc) as [Ha|Hsep].
    + rewrite (alnum_no_sep c Ha). apply IH; [exact Hs|].
      by apply snoc_alnum.
    + rewrite Hsep. destruct insep.
      * by apply IH.
      * constructor; [exact Hcur|]. by apply IH.
Qed.

Lemma re_split_go_first s :
  forall cur,
    exists w ws,
      Py.re_split_go NamingRule.is_word_sep false s cur = (cur +:+ w) :: ws.
Proof.
  induction s as [|c s IH]; intros cur.
  - exists "", []. cbn. by rewrite append_nil_r.
  - cbn [Py.re_split_go]. destruct (NamingRule.is_word_sep c).
    + exists "". eexists. by rewrite append_nil_r.
    + destruct (IH (Py.snoc cur c)) as (w & ws & E).
      exists (String c w), ws. rewrite E. unfold Py.snoc.
      by rewrite append_assoc.
Qed.

Lemma star_end_all p s : all_chars p s = true -> Py.re_star_end p s = true.
Proof.
  induction s as [|c s IH]; [done|]. cbn [all_chars Py.re_star_end].
  intros [H1 H2]%andb_true_iff. by rewrite H1, IH.
Qed.

Lemma alnum_is_rest_pascal s :
  all_chars ascii_alnum s = true ->
  Py.re_star_end
    (fun c => NamingRule.is_az c || NamingRule.is_AZ c || NamingRule.is_09 c)
    s = true.
Proof. apply star_end_all. Qed.

Lemma alnum_is_rest_camel s :
  all_chars ascii_alnum s = true ->
  Py.re_star_end
    (fun c => NamingRule.is_az c || NamingRule.is_AZ c || NamingRule.is_09 c
              || Py.chr_eq c "_") s = true.
Proof.
  intros H. apply star_end_all. revert H.
  induction s as [|c s IH]; [done|]. cbn [all_chars].
  intros [H1 H2]%andb_true_iff. unfold ascii_alnum in H1.
  by rewrite H1, IH.
Qed.

(** X14: for a name written as an identifier - an ASCII letter followed
    by ASCII letters, digits and underscores - the name a naming
    diagnostic suggests satisfies the rule that rejected the name: the
    PascalCase suggestion is PascalCase and the camelCase suggestion is
    camelCase or snake_case.  For a name that begins with an underscore
    this fails: the usage name [_x] is rejected and the suggestion for it,
    [X], is rejected as well. *)
Theorem X14_suggested_names_pass_the_rule (c : ascii) (r : string) :
  ascii_letter c = true ->
  all_chars ident_char r = true ->
  NamingRule._is_pascal_case (NamingRule._to_pascal (String c r)) = true
  /\ NamingRule._is_camel_or_snake (NamingRule._to_camel (String c r)) = true
  /\ NamingRule._is_camel_or_snake "_x" = false
  /\ NamingRule._to_camel "_x" = "X"
  /\ NamingRule._is_camel_or_snake "X" = false.
Proof.
  intros Hc Hr.
  assert (ascii_alnum c = true) as Ha.
  { unfold ascii_letter in Hc. unfold ascii_alnum. by rewrite Hc. }
  assert (Py.re_split_runs NamingRule.is_word_sep (String c r)
          = Py.re_split_go NamingRule.is_word_sep false r (String c ""))
    as Ewords.
  { unfold Py.re_split_runs. cbn [Py.re_split_go].
    by rewrite (alnum_no_sep c Ha). }
  destruct (re_split_go_first r (String c "")) as (w & ws & E).
  pose proof (re_split_go_words r false (String c "") Hr) as HF.
  rewrite E in HF. specialize (HF ltac:(cbn; by rewrite Ha)).
  apply List.Forall_cons_iff in HF as [Hw0 Hws].
  rewrite append_cons, append_nil_l in E, Hw0.
  cbn [all_chars] in Hw0. apply andb_true_iff in Hw0 as [_ Hw].
  split; [|split; [|by vm_compute]].
  - unfold NamingRule._to_pascal. rewrite Ewords, E.
    cbn [List.filter NamingRule.nonempty String.eqb negb map].
    rewrite join_cons. cbn [Py.capitalize].
    destruct (title_chr_letter c Hc) as (u & -> & Hu).
    rewrite !append_cons, append_nil_l.
    unfold NamingRule._is_pascal_case, Py.re_match_first_rest. rewrite Hu.
    apply alnum_is_rest_pascal.
    by rewrite all_chars_app, lower_alnum, capitalized_words_alnum.
  - unfold NamingRule._to_camel. rewrite Ewords, E.
    cbn [Py.lower]. rewrite append_cons.
    unfold NamingRule._is_camel_or_snake, Py.re_match_first_rest.
    rewrite (lower_chr_letter c Hc). apply alnum_is_rest_camel.
    by rewrite all_chars_app, lower_alnum, capitalized_words_alnum.
Qed.

Lemma X14_suggested_names_witness :
  NamingRule._to_pascal "engine_2_block" = "Engine2Block"
  /\ NamingRule._is_pascal_case "Engine2Block" = true
  /\ NamingRule._to_camel "Engine_block" = "engineBlock"
  /\ NamingRule._is_camel_or_snake "engineBlock" = true.
Proof.
  pose proof (X14_suggested_names_pass_the_rule "e" "ngine_2_block"
                eq_refl eq_refl) as (H1 & _).
  pose proof (X14_suggested_names_pass_the_rule "E" "ngine_block"
                eq_refl eq_refl) as (_ & H2 & _).
  split; [reflexivity|]. split; [exact H1|]. split; [reflexivity|exact H2].
Defined.

(** ** Elements stand where tokens stand *)

Lemma gives_ret {A : Type} tokens (Q : A -> Prop) (a : A) :
  Q a -> gives tokens Q (Parser.ret a).
Proof. intros H ts Hs a' ts' [= <- <-]. done. Qed.

Lemma gives_out_of_fuel {A : Type} tokens (Q : A -> Prop) :
  gives tokens Q Parser.out_of_fuel.
Proof. intros ts Hs a ts' H. discriminate. Qed.

Lemma gives_bind {A B : Type} tokens (Qa : A -> Prop) (Q : B -> Prop)
  (m : Parser.P A) (k : A -> Parser.P B) :
  gives tokens Qa m -> (forall a, Qa a -> gives tokens Q (k a)) ->
  gives tokens Q (Parser.bind m k).
Proof.
  intros Hm Hk ts Hs b ts2. unfold Parser.bind.
  destruct (m ts) as [[a ts1]|] eqn:E; [|discriminate]. intros H.
  destruct (Hm ts Hs a ts1 E) as [H1 Ha]. by eapply Hk.
Qed.

Lemma gives_any {A : Type} tokens (m : Parser.P A) :
  drops m -> gives tokens (fun _ => True) m.
Proof.
  intros Hm ts Hs a ts' E. split; [|done]. etrans; [by eapply Hm|done].
Qed.

Lemma gives_bind_any {A B : Type} tokens (Q : B -> Prop)
  (m : Parser.P A) (k : A -> Parser.P B) :
  drops m -> (forall a, gives tokens Q (k a)) ->
  gives tokens Q (Parser.bind m k).
Proof.
  intros Hm Hk. apply (gives_bind tokens (fun _ => True)).
  - by apply gives_any.
  - intros a _. apply Hk.
Qed.

Lemma gives_weaken {A : Type} tokens (Q Q' : A -> Prop) (m : Parser.P A) :
  gives tokens Q m -> (forall a, Q a -> Q' a) -> gives tokens Q' m.
Proof.
  intros Hm HQ ts Hs a ts' E. destruct (Hm ts Hs a ts' E). auto.
Qed.

Lemma gives_at_bind_eq {A B : Type} tokens (Q : B -> Prop)
  (m : Parser.P A) (k : A -> Parser.P B) ts x ts1 :
  m ts = Some (x, ts1) -> gives_at tokens Q (k x) ts1 ->
  gives_at tokens Q (Parser.bind m k) ts.
Proof. intros E H b ts2. unfold Parser.bind. rewrite E. apply H. Qed.

Lemma placed_leaf tokens e :
  body e = [] -> token_position tokens (line e) (col e) -> placed tokens e.
Proof.
  intros Hb H. unfold placed. rewrite descendants_unfold, Hb.
  by repeat constructor.
Qed.

Lemma placed_same tokens e e' :
  line e' = line e -> col e' = col e -> body e' = body e ->
  placed tokens e -> placed tokens e'.
Proof.
  unfold placed. rewrite !descendants_unfold. intros Hl Hc Hb H.
  apply List.Forall_cons_iff in H as [H1 H2].
  apply List.Forall_cons; [by rewrite Hl, Hc|by rewrite Hb].
Qed.

Lemma placed_all tokens children :
  List.Forall (placed tokens) children ->
  List.Forall (fun x => token_position tokens (line x) (col x))
    (all_elements children).
Proof.
  induction 1 as [|e r He Hr IH]; [constructor|].
  unfold all_elements. cbn [flat_map]. apply List.Forall_app. by split.
Qed.

Lemma placed_with_body tokens e children d :
  placed tokens e -> List.Forall (placed tokens) children ->
  placed tokens (set_doc (set_body e children) d).
Proof.
  unfold placed at 1 3. rewrite !descendants_unfold. intros H Hc.
  apply List.Forall_cons_iff in H as [H1 _].
  apply List.Forall_cons; [exact H1|]. by apply placed_all.
Qed.

Lemma placed_doc_of_pending tokens e pending :
  placed tokens e -> placed tokens (Parser.doc_of_pending e pending).
Proof. destruct pending; [|done]. by apply placed_same. Qed.

Ltac placed_goal :=
  lazymatch goal with
  | |- True => exact I
  | |- placed_if _ None => exact I
  | |- List.Forall (placed _) _ => assumption
  | |- placed_if _ (Some _) => cbn [placed_if]; placed_goal
  | |- placed _ (Parser.doc_of_pending _ _) =>
      apply placed_doc_of_pending; placed_goal
  | |- placed _ (set_doc (set_body _ _) _) =>
      apply placed_with_body; assumption
  | H : placed ?tokens ?e |- placed ?tokens _ =>
      first [ exact H | by apply (placed_same tokens e) ]
  | |- placed _ _ => by apply placed_leaf
  end.

Ltac any_drop_head m :=
  lazymatch m with
  | Parser._parse_name_token => apply parse_name_token_drops
  | Parser._parse_identification => apply parse_identification_drops
  | Parser._eat_identification => apply eat_identification_drops
  | Parser._parse_qualified_name _ => apply parse_qualified_name_drops
  | Parser._parse_multiplicity _ => apply parse_multiplicity_drops
  | Parser._skip_block _ => apply skip_block_drops
  | Parser._skip_expression _ => apply skip_expression_drops
  | Parser.specializes_loop _ _ _ => apply specializes_loop_drops
  | Parser.import_path_loop _ _ => apply import_path_loop_drops
  | Parser.about_loop _ _ => apply about_loop_drops
  | Parser.prefix_modifiers_loop _ _ => apply prefix_modifiers_loop_drops
  | Parser.skip_to_end_loop _ => apply skip_to_end_loop_drops
  | Parser.pending_comment_loop _ _ => apply pending_comment_loop_drops
  | Parser.bind _ _ => apply drops_bind; [|intros ?]
  | Parser.ret _ => apply drops_ret
  | Parser.out_of_fuel => apply drops_out_of_fuel
  | Parser._at _ => apply drops_at
  | Parser._eat _ => apply drops_eat
  | Parser._advance => apply drops_advance
  | Parser._cur => apply drops_cur
  | Parser._peek => apply drops_peek
  | Parser.cur_in _ => apply drops_cur_in
  | (let _ := _ in _) => cbv zeta
  | (if ?b then _ else _) => destruct b
  | (match ?x with _ => _ end) => destruct x
  end.

Ltac any_drop :=
  repeat lazymatch goal with
  | |- drops ?m => any_drop_head m
  end.

(** One step on the head of the computation: a bind whose left side
    gives elements keeps what is known of them, any other bind only that
    the state stays an end of the tokens. *)
Ltac giv_head tokens sub m :=
  lazymatch m with
  | @Parser.bind Element _ _ _ =>
      apply (gives_bind tokens (placed tokens)); [|intros ? ?]
  | @Parser.bind (list Element) _ _ _ =>
      apply (gives_bind tokens (List.Forall (placed tokens))); [|intros ? ?]
  | @Parser.bind (option Element) _ _ _ =>
      apply (gives_bind tokens (placed_if tokens)); [|intros ? ?]
  | Parser.bind _ _ => apply gives_bind_any; [solve [any_drop]|intros ?]
  | Parser.ret _ => apply gives_ret; placed_goal
  | Parser.out_of_fuel => apply gives_out_of_fuel
  | Parser._skip_to_end _ _ _ => unfold Parser._skip_to_end
  | (let _ := _ in _) => cbv zeta
  | (if ?b then _ else _) => destruct b
  | (match ?x with _ => _ end) => destruct x
  | _ => sub m
  end.

Ltac giv sub :=
  repeat lazymatch goal with
  | |- gives ?tokens _ ?m => giv_head tokens sub m
  end.

Section ElementsPlaced.

Variable rec : bool -> Parser.P (list Element).
Variable fuel : nat.
Variable tokens : list Token.
Hypothesis Hrec : forall tl, gives tokens (List.Forall (placed tokens)) (rec tl).

Ltac rec_sub m :=
  lazymatch m with
  | rec _ => apply Hrec
  end.

Lemma parse_element_tail_placed elem :
  placed tokens elem ->
  gives tokens (placed tokens) (Parser._parse_element_tail rec fuel elem).
Proof. intros H. unfold Parser._parse_element_tail. giv rec_sub. Qed.

Section At.

Variables l c : Z.
Hypothesis Hpos : token_position tokens l c.

Lemma parse_import_placed mods :
  gives tokens (placed tokens) (Parser._parse_import fuel l c mods).
Proof. unfold Parser._parse_import. giv rec_sub. Qed.

Lemma parse_doc_placed pending :
  gives tokens (placed tokens) (Parser._parse_doc l c pending).
Proof. unfold Parser._parse_doc. giv rec_sub. Qed.

Lemma parse_comment_kw_placed :
  gives tokens (placed tokens) (Parser._parse_comment_kw fuel l c).
Proof. unfold Parser._parse_comment_kw. giv rec_sub. Qed.

Lemma parse_require_or_assume_placed mods :
  gives tokens (placed_if tokens)
    (Parser._parse_require_or_assume fuel l c mods).
Proof.
  unfold Parser._parse_require_or_assume. giv rec_sub.
Qed.

Ltac tail_sub m :=
  lazymatch m with
  | Parser._parse_element_tail _ _ _ =>
      apply parse_element_tail_placed; placed_goal
  end.

Lemma parse_use_case_placed mods pending :
  gives tokens (placed tokens)
    (Parser._parse_use_case rec fuel l c mods pending).
Proof. unfold Parser._parse_use_case. giv tail_sub. Qed.

Lemma parse_parameter_placed mods :
  gives tokens (placed_if tokens) (Parser.parse_parameter fuel l c mods).
Proof. unfold Parser.parse_parameter. giv rec_sub. Qed.

End At.

Ltac elem_sub Hpos m :=
  lazymatch m with
  | Parser._parse_element_tail _ _ _ =>
      apply parse_element_tail_placed; placed_goal
  | Parser._parse_import _ _ _ _ => apply (parse_import_placed _ _ Hpos)
  | Parser._parse_doc _ _ _ => apply (parse_doc_placed _ _ Hpos)
  | Parser._parse_comment_kw _ _ _ => apply (parse_comment_kw_placed _ _ Hpos)
  | Parser._parse_require_or_assume _ _ _ _ =>
      apply (parse_require_or_assume_placed _ _ Hpos)
  | Parser._parse_use_case _ _ _ _ _ _ => apply (parse_use_case_placed _ _ Hpos)
  | Parser.parse_parameter _ _ _ _ => apply (parse_parameter_placed _ _ Hpos)
  end.

Lemma parse_element_placed pending :
  gives tokens (placed_if tokens) (Parser._parse_element rec fuel pending).
Proof.
  intros [|t r] Hs.
  { (* past the end nothing is made *)
    intros a ts'. destruct fuel as [|n]; [discriminate|].
    vm_compute. intros [= <- <-]. done. }
  destruct (decide (tok_type t = EOF)) as [Heof|Heof].
  { (* nor at the end of the stream *)
    intros a ts'. destruct t as [ty v l c]. cbn in Heof. subst ty.
    destruct fuel as [|n]; [discriminate|].
    assert (Parser._parse_element rec (S n) pending (mkToken EOF v l c :: r)
            = Some (None, mkToken EOF v l c :: r)) as ->
      by (vm_compute; reflexivity).
    intros [= <- <-]. done. }
  assert (token_position tokens (tok_line t) (tok_col t)) as Hpos.
  { exists t. split; [|done]. apply list_elem_of_In.
    eapply elem_of_suffix; [|exact Hs]. by left. }
  unfold Parser._parse_element.
  destruct (bool_decide (tok_type t ∈ [SEMI])) eqn:E.
  - eapply gives_at_bind_eq; [by apply eat_true|]. cbn [is_some].
    apply gives_ret; [exact I|]. etrans; [|exact Hs]. by apply suffix_cons_r.
  - eapply gives_at_bind_eq; [by apply eat_false|]. cbn [is_some].
    eapply gives_at_bind_eq; [reflexivity|]. cbv zeta.
    revert Hs. generalize (t :: r).
    lazymatch goal with
    | |- forall ts, _ -> gives_at _ _ ?m ts =>
        change (gives tokens (placed_if tokens) m)
    end.
    giv ltac:(elem_sub Hpos).
Qed.

End ElementsPlaced.

Lemma parse_body_loop_placed tokens fuel :
  forall tl elements, List.Forall (placed tokens) elements ->
    gives tokens (List.Forall (placed tokens))
      (Parser.parse_body_loop fuel tl elements).
Proof.
  induction fuel as [|fuel IH]; intros tl elements He;
    [apply gives_out_of_fuel|].
  cbn [Parser.parse_body_loop]. unfold Parser.parse_body_step.
  giv ltac:(fun m =>
    lazymatch m with
    | Parser._parse_element _ _ _ =>
        apply parse_element_placed; intros tl'; apply IH; constructor
    | Parser.parse_body_loop _ _ _ => apply IH
    end).
  lazymatch goal with
  | H : placed_if _ ?a |- _ => destruct a as [e|]; [|exact He]
  end.
  apply List.Forall_app. split; [exact He|]. by repeat constructor.
Qed.

(** The elements of a parsed file stand at positions of its tokens. *)
Lemma parse_placed fuel tokens fname file :
  Parser.parse fuel tokens fname = Some file ->
  filename file = fname
  /\ List.Forall
       (fun e => token_position (Parser.init tokens) (line e) (col e))
       (all_elements (elements file)).
Proof.
  unfold Parser.parse, Parser._parse_body.
  destruct (Parser.parse_body_loop fuel true [] (Parser.init tokens))
    as [[els rest]|] eqn:E; [|discriminate].
  intros [= <-]. split; [done|]. cbn [elements].
  destruct (parse_body_loop_placed (Parser.init tokens) fuel true []
              (List.Forall_nil _) (Parser.init tokens) (reflexivity _)
              els rest E) as [_ H].
  by apply placed_all.
Qed.

Lemma init_token tokens t :
  In t (Parser.init tokens) -> In t tokens /\ tok_type t <> LINE_COMMENT.
Proof.
  unfold Parser.init. intros Ht.
  apply list_elem_of_In, list_elem_of_filter in Ht as [Hty Ht].
  split; [by apply list_elem_of_In|exact Hty].
Qed.

Lemma spells_position tokens :
  forall text l c t, spells tokens text l c -> In t tokens ->
    exists before after,
      text = before +:+ tok_value t +:+ after
      /\ position_after before l c = (tok_line t, tok_col t).
Proof.
  induction tokens as [|t0 rest IH]; intros text l c t Hs Ht; [destruct Ht|].
  cbn [spells] in Hs. destruct Hs as (gap & tail & Htext & _ & Hpos & Hs).
  destruct Ht as [<-|Ht].
  - by exists gap, tail.
  - destruct (position_after (gap +:+ tok_value t0) l c) as [l1 c1] eqn:E.
    destruct (IH tail l1 c1 t Hs Ht) as (before & after & Htail & Hp).
    exists (gap +:+ tok_value t0 +:+ before), after. split.
    + by rewrite Htext, Htail, !append_assoc.
    + by rewrite <- append_assoc, position_after_app, E.
Qed.

(** X16: every element of the tree [parse] returns, at any depth, carries
    the line and the column of a token of the list that was parsed, one
    that is neither a line comment nor the end-of-stream token; the file
    carries the name given to the parser. *)
Theorem X16_elements_stand_at_tokens (fuel : nat) (tokens : list Token)
  (fname : string) (file : File) :
  Parser.parse fuel tokens fname = Some file ->
  filename file = fname
  /\ List.Forall
       (fun e => exists t,
          In t tokens
          /\ tok_type t <> EOF /\ tok_type t <> LINE_COMMENT
          /\ line e = tok_line t /\ col e = tok_col t)
       (all_elements (elements file)).
Proof.
  intros H. destruct (parse_placed _ _ _ _ H) as [Hn Hp].
  split; [exact Hn|]. eapply List.Forall_impl; [|exact Hp].
  intros e (t & Ht & Hty & Hl & Hc).
  destruct (init_token _ _ Ht) as [Hin Hlc]. by exists t.
Qed.

(** The two elements of the engine example stand at the two [part]
    tokens. *)
Lemma X16_elements_witness :
  Parser.parse 5 engine_tokens "e.sysml" = Some (engine_file "e.sysml")
  /\ List.Forall
       (fun e => exists t,
          In t engine_tokens
          /\ tok_type t <> EOF /\ tok_type t <> LINE_COMMENT
          /\ line e = tok_line t /\ col e = tok_col t)
       (all_elements (elements (engine_file "e.sysml"))).
Proof.
  assert (Parser.parse 5 engine_tokens "e.sysml"
          = Some (engine_file "e.sysml")) as H by (vm_compute; reflexivity).
  split; [exact H|].
  exact (proj2 (X16_elements_stand_at_tokens 5 engine_tokens "e.sysml"
                  (engine_file "e.sysml") H)).
Defined.

(** X17: every diagnostic the pipeline gives for a text carries the file
    name it was given and points into the text: its line and column are
    those of the first character of a token of the text, a token that is
    not empty - counting lines and columns from 1, a line feed starting a
    new line. *)
Theorem X17_diagnostics_point_into_the_text (fuel : nat)
  (text fname : string) (rule_ids : option (gset string))
  (diags : list Diagnostic) :
  lint fuel text fname rule_ids = Some diags ->
  exists tokens,
    Lexer.tokenize text = Some tokens
    /\ List.Forall
         (fun d =>
            d_filename d = fname
            /\ exists t before after,
                 In t tokens /\ tok_value t <> ""
                 /\ text = before +:+ tok_value t +:+ after
                 /\ position_after before 1 1 = (d_line d, d_col d)
                 /\ (tok_line t, tok_col t) = (d_line d, d_col d))
         diags.
Proof.
  unfold lint, parse_text.
  destruct (Lexer.tokenize text) as [tokens|] eqn:Et; [|discriminate].
  destruct (Parser.parse fuel tokens fname) as [file|] eqn:Ep; [|discriminate].
  intros [= <-]. exists tokens. split; [done|].
  destruct (tokenize_loop_spells _ _ _ _ Et) as (new & E & Hs & Hne).
  cbn [app] in E. subst new. cbn in Hs.
  destruct (parse_placed _ _ _ _ Ep) as [Hn Hp].
  pose proof (check_file_explained file rule_ids) as Hd.
  rewrite List.Forall_forall in Hd, Hp, Hne. apply List.Forall_forall.
  intros d Hin. destruct (Hd d Hin) as (e & He & Hf & [Hl Hc] & _).
  destruct (Hp e He) as (t & Ht & Hty & Hlt & Hct).
  destruct (init_token _ _ Ht) as [Hin' _].
  destruct (spells_position _ _ _ _ _ Hs Hin') as (before & after & Htx & Hpos).
  split; [by rewrite Hf|].
  exists t, before, after. repeat split; try done.
  - by apply Hne.
  - rewrite Hpos. congruence.
  - congruence.
Qed.

(** The three diagnostics of the engine example. *)
Lemma X17_diagnostics_witness :
  exists tokens,
    Lexer.tokenize engine_text = Some tokens
    /\ List.Forall
         (fun d =>
            d_filename d = "e.sysml"
            /\ exists t before after,
                 In t tokens /\ tok_value t <> ""
                 /\ engine_text = before +:+ tok_value t +:+ after
                 /\ position_after before 1 1 = (d_line d, d_col d)
                 /\ (tok_line t, tok_col t) = (d_line d, d_col d))
         (engine_diagnostics "e.sysml").
Proof.
  apply (X17_diagnostics_point_into_the_text 5 engine_text "e.sysml" None).
  vm_compute. reflexivity.
Defined.

(** ** Words are lexed whole *)

Lemma word_start_char c : word_start c = true -> word_char c = true.
Proof. intros H. revert H. each_char c. Qed.

Lemma word_start_not_blank c :
  word_start c = true -> Lexer.is_blank c = false.
Proof. intros H. revert H. each_char c. Qed.

Lemma word_start_not_slash c :
  word_start c = true -> Py.chr_eq c "/" = false.
Proof. intros H. revert H. each_char c. Qed.

Lemma advance_while_go_whole p w rest :
  all_chars p w = true ->
  match rest with String c _ => p c = false | EmptyString => True end ->
  forall l c,
    Lexer.advance_while_go p (w +:+ rest) l c
    = Lexer.mkLexer rest (position_after w l c).1 (position_after w l c).2.
Proof.
  intros Hw Hr. induction w as [|x w IH]; intros l c.
  - rewrite append_nil_l. cbn [position_after fst snd].
    destruct rest as [|y r]; [done|]. cbn [Lexer.advance_while_go].
    by rewrite Hr.
  - cbn [all_chars] in Hw. apply andb_true_iff in Hw as [Hx Hw].
    rewrite append_cons. cbn [Lexer.advance_while_go position_after].
    rewrite Hx. destruct (Lexer.bump x l c) as [l1 c1]. by apply IH.
Qed.

(** X18: a word is lexed whole.  Where a text begins with a letter or an
    underscore, the token is the longest run of letters, digits and
    underscores: its value is the whole word, its type the keyword of
    that spelling or [IDENTIFIER] when the table has none, and the lexer
    stands right after the word; so a keyword that is only the beginning
    of a word is no keyword. *)
Theorem X18_words_are_lexed_whole (c : ascii) (w rest : string) :
  word_start c = true ->
  all_chars word_char w = true ->
  ends_word rest = true ->
  Lexer._next_token (Lexer.init (String c w +:+ rest))
  = (mkToken (default IDENTIFIER (KEYWORDS !! String c w)) (String c w) 1 1,
     lexer_after (String c w) rest).
Proof.
  intros Hc Hw Hr.
  assert (all_chars word_char (String c w) = true) as Hcw.
  { cbn [all_chars]. by rewrite (word_start_char c Hc), Hw. }
  assert (match rest with
          | String x _ => word_char x = false
          | EmptyString => True
          end) as Hr'.
  { destruct rest as [|x r]; [done|]. cbn in Hr. by destruct (word_char x). }
  unfold Lexer._next_token, Lexer._skip_whitespace, Lexer._advance_while,
    Lexer.init.
  cbn [Lexer.source Lexer.lx_line Lexer.lx_col].
  rewrite append_cons. cbn [Lexer.advance_while_go].
  rewrite (word_start_not_blank c Hc). rewrite <- append_cons.
  unfold Lexer.token_at, Lexer._ch. cbn [Lexer.source].
  rewrite append_cons at 1.
  rewrite (word_start_not_slash c Hc). cbn [andb].
  fold (word_start c). rewrite Hc.
  cbn [Lexer.lx_line Lexer.lx_col].
  unfold Lexer._advance_while. cbn [Lexer.source Lexer.lx_line Lexer.lx_col].
  change (fun c0 : ascii => Py.isalnum c0 || Py.chr_eq c0 "_") with word_char.
  rewrite (advance_while_go_whole word_char (String c w) rest Hcw Hr' 1 1).
  rewrite (slice_moves _ (String c w) _ (moves_mk _ _ _ 1 1 eq_refl)).
  reflexivity.
Qed.

(** The identifier [parts] begins like the keyword [part]. *)
Lemma X18_words_witness :
  Lexer._next_token (Lexer.init "parts : P")
  = (mkToken IDENTIFIER "parts" 1 1, Lexer.mkLexer " : P" 1 6).
Proof.
  exact (X18_words_are_lexed_whole "p" "arts" " : P" eq_refl eq_refl eq_refl).
Defined.

(** ** Integers are lexed whole *)

Lemma digit_not_blank c : Py.isdigit c = true -> Lexer.is_blank c = false.
Proof. intros H. revert H. each_char c. Qed.

Lemma digit_not_slash c : Py.isdigit c = true -> Py.chr_eq c "/" = false.
Proof. intros H. revert H. each_char c. Qed.

Lemma digit_not_word_start c : Py.isdigit c = true -> word_start c = false.
Proof. intros H. revert H. each_char c. Qed.

(** X20: an integer is lexed whole and a dot alone does not belong to
    it.  Where a text begins with a digit, and the run of digits is
    followed neither by a dot and a digit nor by [e] or [E], the token is
    an [INTEGER] whose value is the run of digits, and the lexer stands
    right after it - before the dots of a range such as [1..5]. *)
Theorem X20_integers_are_lexed_whole (d : ascii) (w rest : string) :
  Py.isdigit d = true ->
  all_chars Py.isdigit w = true ->
  ends_integer rest = true ->
  Lexer._next_token (Lexer.init (String d w +:+ rest))
  = (mkToken INTEGER (String d w) 1 1, lexer_after (String d w) rest).
Proof.
  intros Hd Hw Hr.
  assert (all_chars Py.isdigit (String d w) = true) as Hdw.
  { cbn [all_chars]. by rewrite Hd, Hw. }
  assert (match rest with
          | String x _ => Py.isdigit x = false
          | EmptyString => True
          end) as Hr'.
  { destruct rest as [|x r]; [done|]. cbn in Hr. by destruct (Py.isdigit x). }
  unfold Lexer._next_token, Lexer._skip_whitespace, Lexer._advance_while,
    Lexer.init.
  cbn [Lexer.source Lexer.lx_line Lexer.lx_col].
  rewrite append_cons. cbn [Lexer.advance_while_go].
  rewrite (digit_not_blank d Hd). rewrite <- append_cons.
  unfold Lexer.token_at, Lexer._ch. cbn [Lexer.source].
  rewrite append_cons at 1.
  rewrite (digit_not_slash d Hd). cbn [andb].
  fold (word_start d). rewrite (digit_not_word_start d Hd), Hd.
  cbn [Lexer.lx_line Lexer.lx_col].
  unfold Lexer._lex_number, Lexer._advance_while.
  cbn [Lexer.source Lexer.lx_line Lexer.lx_col].
  rewrite (advance_while_go_whole Py.isdigit (String d w) rest Hdw Hr' 1 1).
  set (lx := Lexer.mkLexer rest _ _).
  assert (Lexer.ch_in lx ["e"%char; "E"%char] = false) as He.
  { unfold Lexer.ch_in, Lexer._ch, lx. cbn [Lexer.source].
    destruct rest as [|x r]; [done|]. cbn [existsb]. cbn in Hr.
    destruct (Py.chr_eq x "e"), (Py.chr_eq x "E"); try done;
      by rewrite ?andb_false_r in Hr. }
  assert ((if Lexer.ch_in lx ["."%char]
           then match Lexer._peek lx with
                | Some next_ch =>
                    if Py.isdigit next_ch
                    then (true, Lexer.advance_while_go Py.isdigit
                                  (Lexer.source (Lexer._advance lx))
                                  (Lexer.lx_line (Lexer._advance lx))
                                  (Lexer.lx_col (Lexer._advance lx)))
                    else (false, lx)
                | None => (false, lx)
                end
           else (false, lx)) = (false, lx)) as ->.
  { destruct (Lexer.ch_in lx ["."%char]) eqn:Edot; [|done].
    unfold Lexer.ch_in, Lexer._ch, Lexer._peek, lx in *. cbn [Lexer.source] in *.
    destruct rest as [|x [|y r]]; try done.
    cbn [existsb] in Edot. rewrite orb_false_r in Edot.
    cbn in Hr. rewrite Edot in Hr. cbn [andb negb] in Hr.
    destruct (Py.isdigit y); [|done].
    by rewrite !andb_false_r in Hr. }
  rewrite He.
  unfold lx. rewrite (slice_moves _ (String d w) _ (moves_mk _ _ _ 1 1 eq_refl)).
  reflexivity.
Qed.

(** The lower bound of the range [1..5]. *)
Lemma X20_integers_witness :
  Lexer._next_token (Lexer.init "1..5")
  = (mkToken INTEGER "1" 1 1, Lexer.mkLexer "..5" 1 2).
Proof.
  exact (X20_integers_are_lexed_whole "1" "" "..5" eq_refl eq_refl eq_refl).
Defined.

(** ** The attributes no rule reads *)

Lemma plain_unfold e :
  plain e
  = mkElement (kind e) false (name e) (type_ref e) (specializes e) None
      (map plain (body e)) (doc e) [] (line e) (col e) (import_path e)
      (import_star e).
Proof. by destruct e. Qed.

Lemma naming_visit_plain e fn p p' :
  NamingRule._visit (plain e) fn p = NamingRule._visit e fn p'.
Proof. by rewrite plain_unfold. Qed.

Lemma documentation_visit_plain e fn p p' :
  DocumentationRule._visit (plain e) fn p = DocumentationRule._visit e fn p'.
Proof. by rewrite plain_unfold. Qed.

Lemma kind_plain l : map kind (map plain l) = map kind l.
Proof.
  rewrite map_map. apply map_ext. intros e. by rewrite plain_unfold.
Qed.

Lemma existsb_kind_plain kinds l :
  existsb (StructureRule.kind_in kinds) (map plain l)
  = existsb (StructureRule.kind_in kinds) l.
Proof.
  induction l as [|e r IH]; [done|]. cbn [map existsb]. rewrite IH.
  f_equal. by rewrite plain_unfold.
Qed.

Lemma filter_kind_plain (p : Element -> bool) l :
  (forall e, p (plain e) = p e) ->
  List.filter p (map plain l) = map plain (List.filter p l).
Proof.
  intros Hp. induction l as [|e r IH]; [done|]. cbn [map List.filter].
  rewrite Hp, IH. by destruct (p e).
Qed.

Lemma is_nil_map {A B : Type} (f : A -> B) l :
  StructureRule.is_nil (map f l) = StructureRule.is_nil l.
Proof. by destruct l. Qed.

Lemma structure_visit_plain e fn p p' :
  StructureRule._visit (plain e) fn p = StructureRule._visit e fn p'.
Proof.
  rewrite plain_unfold. unfold StructureRule._visit.
  cbn [kind name body type_ref specializes line col].
  rewrite kind_plain, !existsb_kind_plain, !is_nil_map.
  rewrite filter_kind_plain, is_nil_map; [done|].
  intros c. by rewrite plain_unfold.
Qed.

Lemma walk_plain (visitor : BaseRule.Visitor) fn :
  (forall e p p', visitor (plain e) fn p = visitor e fn p') ->
  forall els p p',
    BaseRule._walk (map plain els) fn visitor p
    = BaseRule._walk els fn visitor p'.
Proof.
  intros Hv.
  assert (forall e, forall p p',
            BaseRule._walk (map plain [e]) fn visitor p
            = BaseRule._walk [e] fn visitor p') as He.
  { induction e as [e IH] using Element_tree_ind. intros p p'.
    cbn [map]. rewrite !walk_cons. cbn [BaseRule._walk].
    rewrite (Hv e p p'). f_equal. f_equal.
    rewrite (plain_unfold e) at 1. cbn [body].
    generalize (Some (plain e)) (Some e). intros q q'.
    induction IH as [|x r Hx _ IHr]; [done|].
    cbn [map]. rewrite !walk_cons.
    specialize (Hx q q'). cbn [map] in Hx. rewrite !walk_cons in Hx.
    cbn [BaseRule._walk] in Hx. rewrite !app_nil_r in Hx.
    by rewrite app_assoc, Hx, IHr, <- app_assoc. }
  induction els as [|e r IH]; intros p p'; [done|].
  cbn [map]. rewrite !walk_cons.
  specialize (He e p p'). cbn [map] in He. rewrite !walk_cons in He.
  cbn [BaseRule._walk] in He. rewrite !app_nil_r in He.
  by rewrite app_assoc, He, (IH p p'), <- app_assoc.
Qed.

Lemma duplicates_loop_plain in_body in_body' fn elements :
  (forall e, In e elements -> in_body' (plain e) = in_body e) ->
  forall seen,
    ScopeRule.duplicates_loop in_body' fn (map plain elements) (plain <$> seen)
    = ScopeRule.duplicates_loop in_body fn elements seen.
Proof.
  intros Hb. induction elements as [|e r IH]; intros seen; [done|].
  cbn [map ScopeRule.duplicates_loop].
  assert (ScopeRule.contributes (plain e) = ScopeRule.contributes e) as ->
    by (by rewrite plain_unfold).
  assert (ScopeRule.name_key (plain e) = ScopeRule.name_key e) as ->
    by (by rewrite plain_unfold).
  assert (StructureRule.is_nil (body (plain e)) = StructureRule.is_nil (body e))
    as -> by (rewrite plain_unfold; apply is_nil_map).
  rewrite (Hb e) by (by left).
  rewrite lookup_fmap.
  f_equal; [|f_equal].
  - destruct (ScopeRule.contributes e); [|done].
    destruct (seen !! ScopeRule.name_key e) as [first|]; [|done].
    cbn. unfold ScopeRule.duplicate_diag. by rewrite !plain_unfold.
  - destruct (ScopeRule.contributes e
              && negb (is_some (plain <$> seen !! ScopeRule.name_key e)))
      eqn:E.
    + rewrite <- fmap_insert.
      replace (ScopeRule.contributes e
               && negb (is_some (seen !! ScopeRule.name_key e))) with true
        by (by destruct (seen !! ScopeRule.name_key e)).
      apply IH. intros x Hx. apply Hb. by right.
    + replace (ScopeRule.contributes e
               && negb (is_some (seen !! ScopeRule.name_key e))) with false
        by (by destruct (seen !! ScopeRule.name_key e)).
      apply IH. intros x Hx. apply Hb. by right.
Qed.

Lemma duplicates_in_body_plain fn e :
  ScopeRule.duplicates_in_body fn (plain e) = ScopeRule.duplicates_in_body fn e.
Proof.
  induction e as [e IH] using Element_tree_ind.
  rewrite !duplicates_in_body_unfold. unfold ScopeRule._check_duplicates.
  rewrite (plain_unfold e) at 1. cbn [body].
  rewrite <- (fmap_empty plain). apply duplicates_loop_plain.
  intros x Hx. rewrite List.Forall_forall in IH. by apply IH.
Qed.

Lemma check_duplicates_plain fn elements :
  ScopeRule._check_duplicates (map plain elements) fn
  = ScopeRule._check_duplicates elements fn.
Proof.
  unfold ScopeRule._check_duplicates.
  rewrite <- (fmap_empty plain). apply duplicates_loop_plain.
  intros x _. apply duplicates_in_body_plain.
Qed.

Lemma all_elements_plain elements :
  all_elements (map plain elements) = map plain (all_elements elements).
Proof.
  assert (forall e, descendants (plain e) = map plain (descendants e)) as He.
  { induction e as [e IH] using Element_tree_ind.
    rewrite !descendants_unfold. rewrite (plain_unfold e) at 2. cbn [body map].
    f_equal. unfold all_elements.
    induction IH as [|x r Hx _ IHr]; [done|].
    cbn [map flat_map]. by rewrite map_app, Hx, IHr. }
  induction elements as [|e r IH]; [done|].
  unfold all_elements in *. cbn [map flat_map]. by rewrite map_app, He, IH.
Qed.

Lemma imports_of_plain file :
  imports_of (plain_file file) = map plain (imports_of file).
Proof.
  rewrite !imports_of_spec. unfold plain_file. cbn [elements].
  rewrite all_elements_plain. apply filter_kind_plain.
  intros e. by rewrite plain_unfold.
Qed.

Lemma collect_references_plain elements :
  forall out,
    ScopeRule._collect_references (map plain elements) out
    = ScopeRule._collect_references elements out.
Proof.
  assert (forall e out,
            ScopeRule.collect_references_elem (plain e) out
            = ScopeRule.collect_references_elem e out) as He.
  { induction e as [e IH] using Element_tree_ind. intros out.
    rewrite !collect_references_elem_unfold.
    assert (ScopeRule.own_references (plain e) = ScopeRule.own_references e)
      as -> by (by rewrite plain_unfold).
    rewrite (plain_unfold e). cbn [body].
    generalize (out ∪ ScopeRule.own_references e).
    induction IH as [|x r Hx _ IHr]; intros out'; [done|].
    cbn [map ScopeRule._collect_references]. by rewrite Hx, IHr. }
  induction elements as [|e r IH]; intros out; [done|].
  cbn [map ScopeRule._collect_references]. by rewrite He, IH.
Qed.

Lemma check_unused_imports_plain file :
  ScopeRule._check_unused_imports (plain_file file)
  = ScopeRule._check_unused_imports file.
Proof.
  rewrite !check_unused_imports_map, imports_of_plain.
  assert (used_names_of (plain_file file) = used_names_of file) as ->
    by apply collect_references_plain.
  rewrite filter_kind_plain, map_map.
  - apply map_ext. intros e. unfold ScopeRule.unused_diag.
    by rewrite plain_unfold.
  - intros e. unfold is_reported, ScopeRule.referenced.
    by rewrite plain_unfold.
Qed.

(** X19: the attributes [is_def], [multiplicity] and [modifiers] of the
    elements have no influence on the result of [check_file]: a tree
    gives the diagnostics of the tree in which these attributes are at
    their defaults everywhere, whatever the rules selected. *)
Theorem X19_unread_attributes_do_not_matter (file : File)
  (rule_ids : option (gset string)) :
  Checker.check_file (plain_file file) rule_ids
  = Checker.check_file file rule_ids.
Proof.
  rewrite !check_file_sorted_collected.
  assert (Checker.collected (plain_file file) None
          = Checker.collected file None) as H.
  { rewrite !collected_all_rules.
    unfold NamingRule.check, DocumentationRule.check, StructureRule.check,
      ScopeRule.check.
    rewrite check_unused_imports_plain. unfold plain_file.
    cbn [elements filename].
    rewrite check_duplicates_plain.
    rewrite (walk_plain NamingRule._visit _
               (fun e p p' => naming_visit_plain e _ p p') _ None None).
    rewrite (walk_plain DocumentationRule._visit _
               (fun e p p' => documentation_visit_plain e _ p p') _ None None).
    by rewrite (walk_plain StructureRule._visit _
               (fun e p p' => structure_visit_plain e _ p p') _ None None). }
  destruct rule_ids as [ids|]; [|by rewrite H].
  by rewrite !collected_select, H.
Qed.
(* ===================================================================== *)
(** * Token lists without braces *)
(* ===================================================================== *)

Lemma flat_same e e' : body e' = body e -> flat e -> flat e'.
Proof. unfold flat. by intros ->. Qed.

Lemma flat_doc_of_pending e pending :
  flat e -> flat (Parser.doc_of_pending e pending).
Proof. destruct pending; [|done]. by apply flat_same. Qed.

Ltac flat_goal :=
  lazymatch goal with
  | |- True => exact I
  | |- flat_if None => exact I
  | |- List.Forall flat _ => assumption
  | |- flat_if (Some _) => cbn [flat_if]; flat_goal
  | |- flat (Parser.doc_of_pending _ _) =>
      apply flat_doc_of_pending; flat_goal
  | H : flat ?e |- flat _ => first [ exact H | by apply (flat_same e) ]
  | |- flat _ => reflexivity
  end.

(** As for the positions, with one more case: where the tokens hold no
    opening brace, none is taken. *)
Ltac flat_head tokens none sub m :=
  lazymatch m with
  | Parser.bind (Parser._eat [LBRACE]) _ =>
      apply (gives_bind tokens (fun o => o = None));
      [exact none|intros ? ->; cbn [is_some]]
  | @Parser.bind Element _ _ _ =>
      apply (gives_bind tokens flat); [|intros ? ?]
  | @Parser.bind (list Element) _ _ _ =>
      apply (gives_bind tokens (List.Forall flat)); [|intros ? ?]
  | @Parser.bind (option Element) _ _ _ =>
      apply (gives_bind tokens flat_if); [|intros ? ?]
  | Parser.bind _ _ => apply gives_bind_any; [solve [any_drop]|intros ?]
  | Parser.ret _ => apply gives_ret; flat_goal
  | Parser.out_of_fuel => apply gives_out_of_fuel
  | Parser._skip_to_end _ _ _ => unfold Parser._skip_to_end
  | (let _ := _ in _) => cbv zeta
  | (if ?b then _ else _) => destruct b
  | (match ?x with _ => _ end) => destruct x
  | _ => sub m
  end.

Ltac flt none sub :=
  repeat lazymatch goal with
  | |- gives ?tokens _ ?m => flat_head tokens none sub m
  end.

Ltac no_lemma m := fail "no lemma for" m.

Section ElementsFlat.

Variable rec : bool -> Parser.P (list Element).
Variable fuel : nat.
Variable tokens : list Token.
Hypothesis Hno : List.Forall (fun t => tok_type t <> LBRACE) tokens.

Lemma eat_opening_brace_none :
  gives tokens (fun o => o = None) (Parser._eat [LBRACE]).
Proof.
  intros [|t r] Hs a ts'.
  - rewrite eat_nil by (by vm_compute). by intros [= <- <-].
  - rewrite eat_false; [by intros [= <- <-]|].
    apply bool_decide_eq_false_2. rewrite list_elem_of_singleton.
    rewrite List.Forall_forall in Hno. apply Hno.
    apply list_elem_of_In. eapply elem_of_suffix; [|exact Hs]. by left.
Qed.

Lemma parse_element_tail_flat elem :
  flat elem ->
  gives tokens flat (Parser._parse_element_tail rec fuel elem).
Proof.
  intros H. unfold Parser._parse_element_tail.
  flt eat_opening_brace_none no_lemma.
Qed.

Lemma parse_import_flat l c mods :
  gives tokens flat (Parser._parse_import fuel l c mods).
Proof. unfold Parser._parse_import. flt eat_opening_brace_none no_lemma. Qed.

Lemma parse_doc_flat l c pending :
  gives tokens flat (Parser._parse_doc l c pending).
Proof. unfold Parser._parse_doc. flt eat_opening_brace_none no_lemma. Qed.

Lemma parse_comment_kw_flat l c :
  gives tokens flat (Parser._parse_comment_kw fuel l c).
Proof.
  unfold Parser._parse_comment_kw. flt eat_opening_brace_none no_lemma.
Qed.

Lemma parse_require_or_assume_flat l c mods :
  gives tokens flat_if (Parser._parse_require_or_assume fuel l c mods).
Proof.
  unfold Parser._parse_require_or_assume.
  flt eat_opening_brace_none no_lemma.
Qed.

Ltac tail_flat m :=
  lazymatch m with
  | Parser._parse_element_tail _ _ _ =>
      apply parse_element_tail_flat; flat_goal
  | Parser._parse_import _ _ _ _ => apply parse_import_flat
  | Parser._parse_doc _ _ _ => apply parse_doc_flat
  | Parser._parse_comment_kw _ _ _ => apply parse_comment_kw_flat
  | Parser._parse_require_or_assume _ _ _ _ =>
      apply parse_require_or_assume_flat
  end.

Lemma parse_use_case_flat l c mods pending :
  gives tokens flat (Parser._parse_use_case rec fuel l c mods pending).
Proof.
  unfold Parser._parse_use_case. flt eat_opening_brace_none tail_flat.
Qed.

Lemma parse_parameter_flat l c mods :
  gives tokens flat_if (Parser.parse_parameter fuel l c mods).
Proof. unfold Parser.parse_parameter. flt eat_opening_brace_none no_lemma. Qed.

Lemma parse_element_flat pending :
  gives tokens flat_if (Parser._parse_element rec fuel pending).
Proof.
  unfold Parser._parse_element.
  flt eat_opening_brace_none ltac:(fun m =>
    lazymatch m with
    | Parser._parse_use_case _ _ _ _ _ _ => apply parse_use_case_flat
    | Parser.parse_parameter _ _ _ _ => apply parse_parameter_flat
    | _ => tail_flat m
    end).
Qed.

End ElementsFlat.

Lemma parse_body_loop_flat tokens fuel :
  List.Forall (fun t => tok_type t <> LBRACE) tokens ->
  forall tl elements, List.Forall flat elements ->
    gives tokens (List.Forall flat) (Parser.parse_body_loop fuel tl elements).
Proof.
  intros Hno.
  induction fuel as [|fuel IH]; intros tl elements He;
    [apply gives_out_of_fuel|].
  cbn [Parser.parse_body_loop]. unfold Parser.parse_body_step.
  flt (eat_opening_brace_none tokens Hno) ltac:(fun m =>
    lazymatch m with
    | Parser._parse_element _ _ _ => by apply parse_element_flat
    | Parser.parse_body_loop _ _ _ => apply IH
    end).
  lazymatch goal with
  | H : flat_if ?a |- _ => destruct a as [e|]; [|exact He]
  end.
  apply List.Forall_app. split; [exact He|]. by repeat constructor.
Qed.

(** The parser, on tokens without an opening brace, gives a tree whose
    elements have no body; no body is parsed, so [_parse_body] is not
    called from inside itself. *)
Lemma parse_flat fuel tokens fname file :
  List.Forall (fun t => tok_type t <> LBRACE) tokens ->
  Parser.parse fuel tokens fname = Some file ->
  List.Forall flat (elements file).
Proof.
  intros Hno. unfold Parser.parse, Parser._parse_body.
  destruct (Parser.parse_body_loop fuel true [] (Parser.init tokens))
    as [[els rest]|] eqn:E; [|discriminate].
  intros [= <-]. cbn [elements].
  assert (List.Forall (fun t => tok_type t <> LBRACE) (Parser.init tokens))
    as Hno'.
  { rewrite List.Forall_forall in *. intros t Ht. apply Hno.
    by apply init_token in Ht as [Ht _]. }
  by destruct (parse_body_loop_flat (Parser.init tokens) fuel Hno' true []
                 (List.Forall_nil _) (Parser.init tokens) (reflexivity _)
                 els rest E) as [_ H].
Qed.

(** ** A closing brace after tokens that start nothing *)

Lemma pending_comment_loop_before b r fuel :
  tok_type b <> BLOCK_COMMENT ->
  forall pending pre p ts1,
    Parser.pending_comment_loop fuel pending (pre ++ b :: r) = Some (p, ts1) ->
    exists pre1, ts1 = pre1 ++ b :: r /\ suffix pre1 pre.
Proof.
  intros Hb. induction fuel as [|fuel IH]; intros pending pre p ts1 H;
    [discriminate|].
  cbn [Parser.pending_comment_loop] in H. unfold Parser.bind in H.
  rewrite at_any in H.
  destruct (bool_decide (cur_type (pre ++ b :: r) ∈ [BLOCK_COMMENT])) eqn:E.
  - destruct pre as [|t pre].
    + exfalso. cbn [app cur_type] in E. apply bool_decide_eq_true_1 in E.
      by rewrite list_elem_of_singleton in E.
    + cbn [app Parser._advance] in H.
      destruct (IH _ _ _ _ H) as (pre1 & -> & Hs).
      exists pre1. split; [done|]. by apply suffix_cons_r.
  - injection H as <- <-. by exists pre.
Qed.

Lemma scrap_then_brace b r (n : nat) :
  tok_type b = RBRACE ->
  forall pre elements fuel,
    (length pre <= n)%nat -> (length (pre ++ b :: r) + 2 <= fuel)%nat ->
    List.Forall scrap pre ->
    Parser.parse_body_loop fuel true elements (pre ++ b :: r) = None.
Proof.
  intros Hb. induction n as [|n IH]; intros pre elements fuel Hn Hf Hall.
  { destruct pre; [|cbn in Hn; lia]. by apply stuck_for_ever. }
  destruct pre as [|t pre']; [by apply stuck_for_ever|].
  set (pre := t :: pre') in *.
  destruct fuel as [|fuel]; [lia|].
  assert (bool_decide (cur_type (pre ++ b :: r) ∈ [EOF]) = false) as E1.
  { apply bool_decide_eq_false_2. rewrite list_elem_of_singleton.
    apply List.Forall_inv in Hall. by destruct Hall. }
  destruct (pending_comment_loop_runs fuel (pre ++ b :: r) None ltac:(lia))
    as (p & ts1 & Ep & H1).
  destruct (pending_comment_loop_before b r fuel ltac:(by rewrite Hb)
              _ _ _ _ Ep) as (pre1 & -> & S1).
  pose proof (pending_comment_loop_stops _ _ _ _ _ Ep) as Hstop.
  rewrite (top_iteration _ _ _ p (pre1 ++ b :: r) E1 Ep).
  assert (length pre1 <= length pre)%nat as Hl.
  { destruct S1 as [k ->]. rewrite length_app. lia. }
  rewrite length_app in Hf. cbn [length] in Hf.
  destruct fuel as [|fuel]; [lia|].
  destruct pre1 as [|t1 pre2].
  - cbn [app cur_type]. rewrite Hb.
    replace (bool_decide (RBRACE ∈ [EOF])) with false by (by vm_compute).
    rewrite parse_element_at_closing_brace by exact Hb.
    by apply stuck_for_ever.
  - assert (scrap t1) as [Ht Hne].
    { rewrite List.Forall_forall in Hall. apply Hall.
      apply list_elem_of_In. eapply elem_of_suffix; [|exact S1]. by left. }
    cbn [app cur_type] in *.
    rewrite bool_decide_eq_false_2
      by (by rewrite list_elem_of_singleton).
    assert (starts_nothing (tok_type t1) = true) as Hs.
    { unfold leaves_no_trace in Ht. apply orb_true_iff in Ht as [Ht|Ht];
        [exact Ht|].
      apply bool_decide_eq_true_1 in Ht. exfalso.
      rewrite !elem_of_cons, elem_of_nil in Ht. tauto. }
    rewrite (parse_element_skips _ _ _ _ _ Hs).
    subst pre. cbn [length] in *. apply IH; [lia| |].
    + rewrite length_app. cbn [length]. lia.
    + rewrite List.Forall_forall in *. intros x Hx. apply Hall.
      apply list_elem_of_In. apply list_elem_of_In in Hx.
      eapply elem_of_suffix; [|exact S1]. by right.
Qed.

Lemma parse_scrap_then_brace pre b rest fname :
  List.Forall scrap pre -> tok_type b = RBRACE ->
  forall fuel, Parser.parse fuel (pre ++ b :: rest) fname = None.
Proof.
  intros Hall Hb fuel. unfold Parser.parse, Parser._parse_body.
  assert (Parser.init (pre ++ b :: rest)
          = Parser.init pre ++ b :: Parser.init rest) as ->.
  { unfold Parser.init. rewrite filter_app, filter_cons_True; [done|].
    by rewrite Hb. }
  rewrite (none_for_all_fuel
             (fun f => Parser.parse_body_loop f true [])
             (Parser.init pre ++ b :: Parser.init rest)
             (length (Parser.init pre ++ b :: Parser.init rest) + 2));
    [done| |].
  - intros f f' Hf. by apply parse_body_loop_mono.
  - intros f Hf.
    apply (scrap_then_brace b _ (length (Parser.init pre)) Hb);
      [done|exact Hf|].
    rewrite List.Forall_forall in *. intros t Ht. apply Hall.
    by apply init_token in Ht as [Ht _].
Qed.

Lemma parse_without_braces (tokens : list Token) (fname : string) :
  List.Forall no_brace tokens ->
  exists file,
    filename file = fname
    /\ List.Forall flat (elements file)
    /\ forall fuel, (length tokens + 2 <= fuel)%nat ->
         Parser.parse fuel tokens fname = Some file.
Proof.
  intros Hno.
  destruct (body_outcome tokens) as [[[els rest] Hres]|[_ (t & Ht & Hty)]].
  - assert (forall fuel, (length tokens + 2 <= fuel)%nat ->
              Parser.parse fuel tokens fname = Some (mkFile fname els))
      as Hp.
    { intros fuel Hf. unfold Parser.parse. by rewrite Hres. }
    exists (mkFile fname els). split; [done|]. split; [|exact Hp].
    apply (parse_flat (length tokens + 2) tokens fname); [|by apply Hp].
    eapply List.Forall_impl; [|exact Hno]. by intros x [Hx _].
  - exfalso. rewrite List.Forall_forall in Hno.
    by destruct (Hno t Ht) as [_ Hn].
Qed.

(** X12: on a token list without braces [parse] returns, with fuel for
    two more iterations than there are tokens and with the same file for
    any larger fuel; the elements of the file have no body, so no body
    was parsed and [_parse_body] was not called from inside itself.  A
    closing brace makes the difference: wherever the loop of
    [_parse_body] stands at one at the top level it never takes it and
    does not return, whatever it has parsed and whatever follows, and so
    [parse] returns on no token list in which a closing brace comes
    after nothing but tokens that start nothing. *)
Theorem X12_parse_returns_without_braces :
  (forall (tokens : list Token) (fname : string),
     List.Forall no_brace tokens ->
     exists file,
       filename file = fname
       /\ List.Forall flat (elements file)
       /\ forall fuel, (length tokens + 2 <= fuel)%nat ->
            Parser.parse fuel tokens fname = Some file)
  /\ (forall (fuel : nat) (elements : list Element) (t : Token)
        (r : list Token),
        tok_type t = RBRACE ->
        Parser.parse_body_loop fuel true elements (t :: r) = None)
  /\ (forall (pre : list Token) (b : Token) (rest : list Token)
        (fname : string) (fuel : nat),
        List.Forall scrap pre -> tok_type b = RBRACE ->
        Parser.parse fuel (pre ++ b :: rest) fname = None).
Proof.
  split; [|split].
  - apply parse_without_braces.
  - intros fuel elements t r Hb. by apply stuck_for_ever.
  - intros pre b rest fname fuel Hall Hb. by apply parse_scrap_then_brace.
Qed.

(** The token list of [x + 1; /* note */ 'y' ;] gives a file without
    elements; with a closing brace in the place of its end it gives
    nothing. *)
Lemma X12_parse_witness :
  Parser.parse 10 scrap_tokens "f.sysml" = Some (mkFile "f.sysml" [])
  /\ forall fuel,
       Parser.parse fuel
         (removelast scrap_tokens ++ [mkToken RBRACE "}" 1 24])
         "f.sysml" = None.
Proof.
  destruct X12_parse_returns_without_braces as (Hret & _ & Hloop).
  split.
  - destruct (Hret scrap_tokens "f.sysml") as (file & _ & _ & Hp).
    { repeat constructor; discriminate. }
    assert (Parser.parse 10 scrap_tokens "f.sysml"
            = Some (mkFile "f.sysml" [])) as H by (by vm_compute).
    exact H.
  - intros fuel. apply Hloop; [|done]. cbn [removelast scrap_tokens].
    repeat constructor; discriminate.
Defined.

(** ** Texts without braces *)

Lemma keyword_not_opening_brace v ty : KEYWORDS !! v = Some ty -> ty <> LBRACE.
Proof. apply table_lacks. vm_compute. reflexivity. Qed.

Lemma single_opening_brace s :
  Lexer._SINGLE !! s = Some LBRACE -> s = "{".
Proof.
  intros H. apply elem_of_map_to_list, list_elem_of_In in H.
  revert H. set (l := map_to_list Lexer._SINGLE). vm_compute in l. subst l.
  cbn [In]. intros H.
  repeat (destruct H as [H|H]; [by inversion H|]). done.
Qed.

Lemma lex_number_no_opening_brace l c lx :
  tok_type (Lexer._lex_number l c lx).1 <> LBRACE.
Proof.
  unfold Lexer._lex_number.
  repeat match goal with
  | |- context [if ?b then _ else _] => destruct b
  | |- context [match ?o with Some _ => _ | None => _ end] => destruct o
  end; cbn; discriminate.
Qed.

Lemma lex_operator_opening_brace ch l c lx :
  tok_type (Lexer.lex_operator ch l c lx).1 = LBRACE ->
  tok_value (Lexer.lex_operator ch l c lx).1 = "{".
Proof.
  unfold Lexer.lex_operator.
  repeat match goal with
  | |- context [if ?b then _ else _] => destruct b
  end; try (cbn; discriminate).
  destruct (Lexer._SINGLE !! Lexer.str1 ch) as [ty|] eqn:E;
    cbn [fst tok_type tok_value]; [|discriminate].
  intros ->. by apply single_opening_brace.
Qed.

Lemma token_at_opening_brace lx :
  tok_type (Lexer.token_at lx).1 = LBRACE ->
  tok_value (Lexer.token_at lx).1 = "{".
Proof.
  unfold Lexer.token_at. destruct (Lexer._ch lx) as [ch|]; [|cbn; discriminate].
  repeat match goal with
  | |- context [if ?b then _ else _] => destruct b
  end; try (cbn; discriminate).
  - cbn [fst tok_type]. intros H. exfalso.
    destruct (KEYWORDS !! _) as [ty|] eqn:E; cbn [default] in H;
      [by eapply keyword_not_opening_brace|discriminate].
  - intros H. by apply lex_number_no_opening_brace in H.
  - intros H. by apply lex_number_no_opening_brace in H.
  - apply lex_operator_opening_brace.
Qed.

Lemma tokenize_loop_opening_braces fuel :
  forall lx acc tokens,
    Lexer.tokenize_loop fuel lx acc = Some tokens ->
    List.Forall (fun t => tok_type t = LBRACE -> tok_value t = "{") acc ->
    List.Forall (fun t => tok_type t = LBRACE -> tok_value t = "{") tokens.
Proof.
  induction fuel as [|fuel IH]; intros lx acc tokens H Hacc; [discriminate|].
  cbn [Lexer.tokenize_loop] in H. unfold Lexer._next_token in H.
  pose proof (token_at_opening_brace (Lexer._skip_whitespace lx)) as Hb.
  destruct (Lexer.token_at (Lexer._skip_whitespace lx)) as [tok lx'].
  cbn [fst] in Hb.
  assert (List.Forall (fun t => tok_type t = LBRACE -> tok_value t = "{")
            (acc ++ [tok])) as Hacc'.
  { apply List.Forall_app. split; [exact Hacc|]. by repeat constructor. }
  destruct (bool_decide (tok_type tok = EOF)).
  - by injection H as <-.
  - by apply (IH _ _ _ H Hacc').
Qed.

(** X13: on a text without the characters [{] and [}] the whole pipeline
    returns: the tokenizer gives a token list without braces, the parser
    a file whose elements have no body, and tokenizing, parsing and
    checking give the diagnostics of that file, with fuel for three more
    iterations than the text has characters and the same for any larger
    fuel. *)
Theorem X13_lint_returns_on_texts_without_braces (text fname : string)
  (rule_ids : option (gset string)) :
  has_char "{" text = false ->
  has_char "}" text = false ->
  exists tokens file,
    Lexer.tokenize text = Some tokens
    /\ List.Forall no_brace tokens
    /\ List.Forall flat (elements file)
    /\ forall fuel, (String.length text + 3 <= fuel)%nat ->
         parse_text fuel text fname = Some file
         /\ lint fuel text fname rule_ids
            = Some (Checker.check_file file rule_ids).
Proof.
  intros Hopen Hclose.
  destruct (tokenize_loop_total (S (String.length text)) (Lexer.init text) [])
    as (front & last & Heq & _).
  { unfold remaining, Lexer.init. cbn. lia. }
  fold (Lexer.tokenize text) in Heq. cbn [app] in Heq.
  set (tokens := front ++ [last]) in *.
  destruct (tokenize_loop_spells _ _ _ _ Heq) as (new & E & Hs & _).
  cbn [app] in E. subst new. cbn in Hs.
  destruct (tokenize_loop_closing_braces _ _ _ _ Heq (List.Forall_nil _))
    as [Hb Hlen].
  pose proof (tokenize_loop_opening_braces _ _ _ _ Heq (List.Forall_nil _))
    as Ha.
  cbn [length] in Hlen.
  assert (List.Forall no_brace tokens) as Hno.
  { rewrite List.Forall_forall in *. intros t Ht. split; intros Hty.
    - assert (has_char "{" text = true) as Hyes; [|congruence].
      eapply spells_has_char; [exact Hs|exact Ht|]. by rewrite (Ha t Ht Hty).
    - assert (has_char "}" text = true) as Hyes; [|congruence].
      eapply spells_has_char; [exact Hs|exact Ht|]. by rewrite (Hb t Ht Hty). }
  destruct (parse_without_braces tokens fname Hno) as (file & _ & Hflat & Hp).
  exists tokens, file. split; [exact Heq|]. split; [exact Hno|].
  split; [exact Hflat|]. intros fuel Hf.
  unfold lint, parse_text. rewrite Heq, Hp by lia. done.
Qed.

(** A text of two usages, without braces. *)
Lemma X13_lint_witness :
  exists tokens file,
    Lexer.tokenize "part a : A; part b : B;" = Some tokens
    /\ List.Forall no_brace tokens
    /\ List.Forall flat (elements file)
    /\ forall fuel, (26 <= fuel)%nat ->
         parse_text fuel "part a : A; part b : B;" "f.sysml" = Some file
         /\ lint fuel "part a : A; part b : B;" "f.sysml" None
            = Some (Checker.check_file file None).
Proof.
  exact (X13_lint_returns_on_texts_without_braces
           "part a : A; part b : B;" "f.sysml" None eq_refl eq_refl).
Defined.
